(** * Verification of the identifier and access-mode codecs, the account
      lifecycle, the user cache and the video-call state machine of the
      chat server.

    The development is a shallow embedding of
    - [store/types]  (Uid, P2P topic names, AccessMode),
    - [server/user.go] (replyCreateUser, updateCreds, userUpdater),
    - [server/validate/tel] (validator.Check),
    - the video-call handlers of [Topic].

    Conventions.  Go's [uint64] and [uint] values are non-negative [Z]
    numbers, binary bytes are 8-bit [Z] numbers, text held in a [[]byte] is a
    [list ascii] and a Go [string] is a [string]; the conversions
    [[]byte(s)] and [string(b)] are [list_ascii_of_string] and
    [string_of_list_ascii]. *)

From Stdlib Require Import ZArith List Ascii String Lia Bool DecimalString.
From stdpp Require Import gmap strings.
Import ListNotations.

(* ===================================================================== *)
(** * Definitions                                                         *)
(* ===================================================================== *)

(** ** Go's [encoding/base64.URLEncoding] (padded, not strict) *)

Module Base64.
Local Open Scope Z_scope.

(** [encodeURL], the URL-safe alphabet. *)
Definition encodeURL : list ascii :=
  list_ascii_of_string
    "ABCDEFGHIJKLMNOPQRSTUVWXYZabcdefghijklmnopqrstuvwxyz0123456789-_".

(** [StdPadding]. *)
Definition padChar : ascii := "="%char.

(** [enc.encode[v]]; every use masks [v] with [0x3F]. *)
Definition encodeChar (v : Z) : ascii := nth (Z.to_nat v) encodeURL "A"%char.

Fixpoint index_of (c : ascii) (l : list ascii) (i : Z) : option Z :=
  match l with
  | [] => None
  | x :: l' => if Ascii.eqb c x then Some i else index_of c l' (i + 1)
  end.

(** [enc.decodeMap[c]]: [None] stands for the entry [0xff] of a byte
    outside the alphabet. *)
Definition decodeMap (c : ascii) : option Z := index_of c encodeURL 0.

(** [EncodedLen] and [DecodedLen] of a padded encoding. *)
Definition EncodedLen (n : Z) : Z := (n + 2) / 3 * 4.
Definition DecodedLen (n : Z) : Z := n / 4 * 3.

(** [Encode]: three source bytes give four characters; a final block of
    one or two bytes is padded. *)
Fixpoint Encode (src : list Z) : list ascii :=
  match src with
  | b0 :: b1 :: b2 :: rest =>
      let val := Z.lor (Z.lor (Z.shiftl b0 16) (Z.shiftl b1 8)) b2 in
      encodeChar (Z.land (Z.shiftr val 18) 63)
        :: encodeChar (Z.land (Z.shiftr val 12) 63)
        :: encodeChar (Z.land (Z.shiftr val 6) 63)
        :: encodeChar (Z.land val 63)
        :: Encode rest
  | [b0; b1] =>
      let val := Z.lor (Z.shiftl b0 16) (Z.shiftl b1 8) in
      [encodeChar (Z.land (Z.shiftr val 18) 63);
       encodeChar (Z.land (Z.shiftr val 12) 63);
       encodeChar (Z.land (Z.shiftr val 6) 63);
       padChar]
  | [b0] =>
      let val := Z.shiftl b0 16 in
      [encodeChar (Z.land (Z.shiftr val 18) 63);
       encodeChar (Z.land (Z.shiftr val 12) 63);
       padChar; padChar]
  | [] => []
  end.

Definition EncodeToString (src : list Z) : string :=
  string_of_list_ascii (Encode src).

(** [CorruptInputError]; the input offset it carries is not modelled, the
    callers only look at its presence. *)
Inductive CorruptInputError : Type := CorruptInput.

Definition isNewline (c : ascii) : bool :=
  Ascii.eqb c "010"%char || Ascii.eqb c "013"%char.

Fixpoint skipNewlines (src : list ascii) : list ascii :=
  match src with
  | c :: rest => if isNewline c then skipNewlines rest else src
  | [] => []
  end.

(** The bytes a quantum of [dlen] six-bit values produces ([dlen - 1] of
    them); missing values of [dbuf] are zero. *)
Definition quantumBytes (dbuf : list Z) : list Z :=
  let d i := nth i dbuf 0 in
  let val :=
    Z.lor (Z.lor (Z.lor (Z.shiftl (d 0%nat) 18) (Z.shiftl (d 1%nat) 12))
                 (Z.shiftl (d 2%nat) 6)) (d 3%nat) in
  firstn (length dbuf - 1)
    [Z.land (Z.shiftr val 16) 255; Z.land (Z.shiftr val 8) 255; Z.land val 255].

(** The end of [decodeQuantum] once a padding character has been read
    with [dbuf] holding the values collected so far. *)
Definition decodePadding (rest : list ascii) (dbuf dst : list Z)
  : list Z * option CorruptInputError :=
  match dbuf with
  | [] | [_] => (dst, Some CorruptInput)          (* incorrect padding *)
  | [_; _] =>
      (* a second padding character is expected *)
      match skipNewlines rest with
      | [] => (dst, Some CorruptInput)             (* not enough padding *)
      | c :: rest' =>
          if Ascii.eqb c padChar then
            match skipNewlines rest' with
            | [] => (dst ++ quantumBytes dbuf, None)
            | _ :: _ => (dst ++ quantumBytes dbuf, Some CorruptInput) (* trailing garbage *)
            end
          else (dst, Some CorruptInput)            (* incorrect padding *)
      end
  | _ =>
      match skipNewlines rest with
      | [] => (dst ++ quantumBytes dbuf, None)
      | _ :: _ => (dst ++ quantumBytes dbuf, Some CorruptInput)   (* trailing garbage *)
      end
  end.

(** The loop of [Decode] over [decodeQuantum], one input byte at a time:
    [dbuf] is the part of the current quantum read so far and [dst] the
    bytes written.  Line breaks are skipped; the input may end only
    between quanta. *)
Fixpoint decodeLoop (src : list ascii) (dbuf dst : list Z)
  : list Z * option CorruptInputError :=
  match src with
  | [] =>
      match dbuf with
      | [] => (dst, None)
      | _ :: _ => (dst, Some CorruptInput)
      end
  | c :: rest =>
      match decodeMap c with
      | Some d =>
          if (length dbuf =? 3)%nat
          then decodeLoop rest [] (dst ++ quantumBytes (dbuf ++ [d]))
          else decodeLoop rest (dbuf ++ [d]) dst
      | None =>
          if isNewline c then decodeLoop rest dbuf dst
          else if Ascii.eqb c padChar then decodePadding rest dbuf dst
          else (dst, Some CorruptInput)
      end
  end.

(** A well-formed byte. *)
Definition byte_ok (b : Z) : Prop := 0 <= b < 256.

(** The number of alphabet characters of a text. *)
Definition validCount (src : list ascii) : nat :=
  length (List.filter (fun c => match decodeMap c with Some _ => true | None => false end) src).

(** [Decode dst src]: the number of bytes written, the buffer afterwards
    and the error. *)
Definition Decode (dst : list Z) (src : list ascii)
  : Z * list Z * option CorruptInputError :=
  let '(out, err) := decodeLoop src [] [] in
  (Z.of_nat (length out), out ++ skipn (length out) dst, err).
End Base64.

(** ** Go's [encoding/binary.LittleEndian] *)

Module LittleEndian.
Local Open Scope Z_scope.

(** [byte(v)]: truncation to eight bits. *)
Definition byte (v : Z) : Z := Z.land v 255.

Definition PutUint64 (v : Z) : list Z :=
  [byte v; byte (Z.shiftr v 8); byte (Z.shiftr v 16); byte (Z.shiftr v 24);
   byte (Z.shiftr v 32); byte (Z.shiftr v 40); byte (Z.shiftr v 48);
   byte (Z.shiftr v 56)].

(** [Uint64 b]; every caller passes at least eight bytes. *)
Definition Uint64 (b : list Z) : Z :=
  let x i := nth i b 0 in
  Z.lor (Z.lor (Z.lor (Z.lor (Z.lor (Z.lor (Z.lor
    (x 0%nat)
    (Z.shiftl (x 1%nat) 8))
    (Z.shiftl (x 2%nat) 16))
    (Z.shiftl (x 3%nat) 24))
    (Z.shiftl (x 4%nat) 32))
    (Z.shiftl (x 5%nat) 40))
    (Z.shiftl (x 6%nat) 48))
    (Z.shiftl (x 7%nat) 56).
End LittleEndian.

(** ** Package [types]: [Uid] *)

Module Uid.
Local Open Scope Z_scope.

(** [type Uid uint64]: a [Z] in [0, 2^64). *)
Definition t : Type := Z.
Definition uid_range (u : t) : Prop := 0 <= u < 2 ^ 64.

Definition ZeroUid : t := 0.

Definition uidBase64Unpadded : Z := 11.
Definition uidBase64Padded : Z := 12.
Definition p2pBase64Unpadded : Z := 22.
Definition p2pBase64Padded : Z := 24.

(** The errors built with [errors.New] in the Uid codecs. *)
Inductive UidError : Type :=
| ErrUnmarshalTextLength    (* "Uid.UnmarshalText: invalid length" *)
| ErrUnmarshalTextDecode (cause : option Base64.CorruptInputError)
                            (* "Uid.UnmarshalText: failed to decode" *)
| ErrParseP2PLength         (* "ParseP2P: invalid length" *)
| ErrParseP2PDecodedLength  (* "ParseP2P: invalid decoded length" *)
| ErrParseP2PPrefix         (* "ParseP2P: missing or invalid prefix" *)
| ErrParseP2PCorrupt (cause : Base64.CorruptInputError).
                            (* the error of Decode, returned as it is *)

Definition IsZero (uid : t) : bool := uid =? 0.

Definition Compare (uid u2 : t) : Z :=
  if uid <? u2 then -1 else if uid >? u2 then 1 else 0.

Definition MarshalBinary (uid : t) : list Z := LittleEndian.PutUint64 uid.

(** [for len(src) < n { src = append(src, '=') }] *)
Definition padTo (src : list ascii) (n : Z) : list ascii :=
  src ++ repeat Base64.padChar (Z.to_nat n - length src).

(** [make([]byte, n)] *)
Definition make (n : Z) : list Z := repeat 0 (Z.to_nat n).

(** [UnmarshalText]: the receiver after the call and the error. *)
Definition UnmarshalText (uid : t) (src : list ascii) : t * option UidError :=
  if negb (Z.of_nat (length src) =? uidBase64Unpadded) then
    (uid, Some ErrUnmarshalTextLength)
  else
    let dec := make (Base64.DecodedLen uidBase64Padded) in
    let src := padTo src uidBase64Padded in
    let '(count, dec, err) := Base64.Decode dec src in
    if count <? 8 then (uid, Some (ErrUnmarshalTextDecode err))
    else (LittleEndian.Uint64 dec, None).

(** The count [Decode] returns inside [UnmarshalText]. *)
Definition decodedLen (src : list ascii) : Z :=
  fst (fst (Base64.Decode (make (Base64.DecodedLen uidBase64Padded))
                          (padTo src uidBase64Padded))).

Definition MarshalText (uid : t) : list ascii :=
  if uid =? 0 then []
  else
    let src := LittleEndian.PutUint64 uid in
    let dst := Base64.Encode src in
    firstn (Z.to_nat uidBase64Unpadded) dst.

Definition String (uid : t) : string :=
  string_of_list_ascii (MarshalText uid).

Definition PrefixId (uid : t) (prefix : string) : string :=
  if IsZero uid then ""%string else (prefix ++ String uid)%string.

Definition UserId (uid : t) : string := PrefixId uid "usr".
Definition FndName (uid : t) : string := PrefixId uid "fnd".

(** [s[:n]] of a string. *)
Definition strTake (n : Z) (s : string) : string :=
  string_of_list_ascii (firstn (Z.to_nat n) (list_ascii_of_string s)).

(** The name [P2PName] builds for [lo < hi], spelled out. *)
Definition p2pOrdered (lo hi : t) : string :=
  ("p2p" ++ strTake p2pBase64Unpadded
     (Base64.EncodeToString (MarshalBinary lo ++ MarshalBinary hi)))%string.

Definition P2PName (uid u2 : t) : string :=
  if negb (IsZero uid) && negb (IsZero u2) then
    let b1 := MarshalBinary uid in
    let b2 := MarshalBinary u2 in
    if uid <? u2 then
      ("p2p" ++ strTake p2pBase64Unpadded (Base64.EncodeToString (b1 ++ b2)))%string
    else if uid >? u2 then
      ("p2p" ++ strTake p2pBase64Unpadded (Base64.EncodeToString (b2 ++ b1)))%string
    else
      (* Explicitly disable P2P with self *)
      ""%string
  else ""%string.
End Uid.

(** ** Package [types]: [AccessMode] *)

Module AccessMode.
Local Open Scope Z_scope.

(** [type AccessMode uint] *)
Definition t : Type := Z.

Definition ModeJoin : t := Z.shiftl 1 0.
Definition ModeRead : t := Z.shiftl 1 1.
Definition ModeWrite : t := Z.shiftl 1 2.
Definition ModePres : t := Z.shiftl 1 3.
Definition ModeApprove : t := Z.shiftl 1 4.
Definition ModeShare : t := Z.shiftl 1 5.
Definition ModeDelete : t := Z.shiftl 1 6.
Definition ModeOwner : t := Z.shiftl 1 7.
Definition ModeUnset : t := Z.shiftl 1 8.
Definition ModeNone : t := 0.
Definition ModeCPublic : t :=
  Z.lor (Z.lor (Z.lor (Z.lor ModeJoin ModeRead) ModeWrite) ModePres) ModeShare.
Definition ModeCSelf : t :=
  Z.lor (Z.lor (Z.lor ModeJoin ModeRead) ModeDelete) ModePres.
Definition ModeCFull : t :=
  Z.lor (Z.lor (Z.lor (Z.lor (Z.lor (Z.lor (Z.lor
    ModeJoin ModeRead) ModeWrite) ModePres) ModeApprove) ModeShare)
    ModeDelete) ModeOwner.
Definition ModeCP2P : t :=
  Z.lor (Z.lor (Z.lor (Z.lor ModeJoin ModeRead) ModeWrite) ModePres) ModeApprove.
Definition ModeCReadOnly : t := Z.lor ModeJoin ModeRead.
Definition ModeCAdmin : t := Z.lor ModeOwner ModeApprove.
Definition ModeCSharer : t := Z.lor ModeCAdmin ModeShare.
Definition ModeInvalid : t := 0x100000.

Inductive ModeError : Type :=
| ErrModeInvalid                  (* "AccessMode invalid" *)
| ErrInvalidCharacter (c : ascii) (* "AccessMode: invalid character 'c'" *).

Definition modes : list ascii :=
  ["J"; "R"; "W"; "P"; "A"; "S"; "D"; "O"]%char.

(** [for i, chr := range modes { if m & (1 << uint(i)) != 0 { res = append(res, chr) } }] *)
Fixpoint marshalLoop (m : t) (i : Z) (chars : list ascii) (res : list ascii)
  : list ascii :=
  match chars with
  | [] => res
  | chr :: chars' =>
      marshalLoop m (i + 1) chars'
        (if negb (Z.land m (Z.shiftl 1 i) =? 0) then res ++ [chr] else res)
  end.

(** [MarshalText]: the bytes ([[]] for [nil]) and the error. *)
Definition MarshalText (m : t) : list ascii * option ModeError :=
  if m =? 0 then (["N"%char], None)
  else if m =? ModeInvalid then ([], Some ErrModeInvalid)
  else (marshalLoop m 0 modes [], None).

(** The loop of [UnmarshalText] from the value [m0] on: the value after
    the last byte, or the byte that is no access letter. *)
Fixpoint unmarshalLoop (b : list ascii) (m0 : t) : t + ascii :=
  match b with
  | [] => inl m0
  | c :: b' =>
      match c with
      | "J" | "j" => unmarshalLoop b' (Z.lor m0 ModeJoin)
      | "R" | "r" => unmarshalLoop b' (Z.lor m0 ModeRead)
      | "W" | "w" => unmarshalLoop b' (Z.lor m0 ModeWrite)
      | "A" | "a" => unmarshalLoop b' (Z.lor m0 ModeApprove)
      | "S" | "s" => unmarshalLoop b' (Z.lor m0 ModeShare)
      | "D" | "d" => unmarshalLoop b' (Z.lor m0 ModeDelete)
      | "P" | "p" => unmarshalLoop b' (Z.lor m0 ModePres)
      | "O" | "o" => unmarshalLoop b' (Z.lor m0 ModeOwner)
      | "N" | "n" => unmarshalLoop b' 0
      | _ => inr c
      end%char
  end.

(** [UnmarshalText]: the receiver after the call and the error. *)
Definition UnmarshalText (m : t) (b : list ascii) : t * option ModeError :=
  let m0 := ModeUnset in
  match unmarshalLoop b m0 with
  | inr c => (m, Some (ErrInvalidCharacter c))
  | inl m0 => if negb (m0 =? ModeUnset) then (m0, None) else (m, None)
  end.

Definition String (m : t) : string :=
  let '(res, err) := MarshalText m in
  match err with
  | Some _ => ""%string
  | None => string_of_list_ascii res
  end.

Definition BetterEqual (grant want : t) : bool := Z.land grant want =? want.

Definition Delta (o n : t) : string :=
  (* Removed bits, bits present in 'old' but missing in 'new' -> '-' *)
  let o2n := Z.ldiff o n in
  let removed :=
    if o2n >? 0 then
      let removed := String o2n in
      if negb (String.eqb removed "") then ("-" ++ removed)%string else removed
    else ""%string in
  (* Added bits, bits present in 'n' but missing in 'o' -> '+' *)
  let n2o := Z.ldiff n o in
  let added :=
    if n2o >? 0 then
      let added := String n2o in
      if negb (String.eqb added "") then ("+" ++ added)%string else added
    else ""%string in
  (added ++ removed)%string.

(** The letters [UnmarshalText] accepts. *)
Definition isModeChar (c : ascii) : bool :=
  existsb (Ascii.eqb c) (list_ascii_of_string "JRWPASDONjrwpasdon").

(** An eight-bit mode: only the bits J to O. *)
Definition mode8 (m : t) : Prop := 0 <= m < 256.

(** Modelled from the spec: applying a textual delta [+XYZ-ABC] to a mode
    (the sources have [Delta] only).  The letters after [+] are added,
    the letters after [-] removed. *)
Definition letterBit (c : ascii) : t :=
  match c with
  | "J" => ModeJoin | "R" => ModeRead | "W" => ModeWrite | "P" => ModePres
  | "A" => ModeApprove | "S" => ModeShare | "D" => ModeDelete | "O" => ModeOwner
  | _ => 0
  end%char.

Fixpoint applyDeltaLoop (d : list ascii) (adding : bool) (m : t) : t :=
  match d with
  | [] => m
  | c :: d' =>
      if Ascii.eqb c "+" then applyDeltaLoop d' true m
      else if Ascii.eqb c "-" then applyDeltaLoop d' false m
      else applyDeltaLoop d' adding
             (if adding then Z.lor m (letterBit c) else Z.ldiff m (letterBit c))
  end.

Definition applyDelta (m : t) (delta : string) : t :=
  applyDeltaLoop (list_ascii_of_string delta) true m.
End AccessMode.

(** ** Package [types]: functions and store errors *)

Module Types.
Local Open Scope Z_scope.
Import Uid.

Definition ParseUid (s : string) : Uid.t :=
  fst (UnmarshalText 0 (list_ascii_of_string s)).

Definition ParseUserId (s : string) : Uid.t :=
  if String.prefix "usr" s
  then fst (UnmarshalText 0 (skipn 3 (list_ascii_of_string s)))
  else 0.

(** [ParseP2P]: [(uid1, uid2, err)]. *)
Definition ParseP2P (p2p : string) : Uid.t * Uid.t * option UidError :=
  if String.prefix "p2p" p2p then
    let src := skipn 3 (list_ascii_of_string p2p) in
    if negb (Z.of_nat (length src) =? p2pBase64Unpadded) then
      (0, 0, Some ErrParseP2PLength)
    else
      let dec := make (Base64.DecodedLen p2pBase64Padded) in
      let src := padTo src p2pBase64Padded in
      let '(count, dec, err) := Base64.Decode dec src in
      if count <? 16 then (0, 0, Some ErrParseP2PDecodedLength)
      else (LittleEndian.Uint64 dec, LittleEndian.Uint64 (skipn 8 dec),
            option_map ErrParseP2PCorrupt err)
  else (0, 0, Some ErrParseP2PPrefix).
End Types.

(** ** Go's [int] *)

Module GoInt.
Local Open Scope Z_scope.

(** [int] is a 64-bit two's complement number: arithmetic wraps around. *)
Definition min_int : Z := - 2 ^ 63.
Definition max_int : Z := 2 ^ 63 - 1.
Definition int_range (x : Z) : Prop := min_int <= x <= max_int.
Definition wrap (x : Z) : Z := (x + 2 ^ 63) mod 2 ^ 64 - 2 ^ 63.
Definition add (x y : Z) : Z := wrap (x + y).
Definition sub (x y : Z) : Z := wrap (x - y).
End GoInt.

(** ** Results of effectful code *)

(** The store, the authenticators and the validators live in a world of
    an arbitrary type; a Go function that calls them is a function from the
    state before to the state after, unless it panics. *)
Module Effect.
Inductive outcome (S A : Type) : Type :=
| Ok (a : A) (s : S)
| Panic (msg : string).
Arguments Ok {S A} a s.
Arguments Panic {S A} msg.

Definition M (S A : Type) : Type := S -> outcome S A.

Definition ret {S A : Type} (a : A) : M S A := fun s => Ok a s.

Definition bind {S A B : Type} (m : M S A) (k : A -> M S B) : M S B :=
  fun s =>
    match m s with
    | Ok a s' => k a s'
    | Panic msg => Panic msg
    end.

Definition panic {S A : Type} (msg : string) : M S A := fun _ => Panic msg.
Definition modify {S : Type} (f : S -> S) : M S unit := fun s => Ok tt (f s).

(** The notations [x ← m; k] and [m;; k] for sequencing. *)
#[global] Instance M_ret {S : Type} : MRet (M S) := fun A a => ret a.
#[global] Instance M_bind {S : Type} : MBind (M S) := fun A B k m => bind m k.
End Effect.

(** ** Errors and the persistence contract *)

Module Store.
(** Modelled from the spec: the closed set of store errors (section 6);
    the declaration of [types.StoreError] is not among the sources. *)
Inductive StoreError : Type :=
| ErrNotFound | ErrDuplicate | ErrCredentials | ErrPolicy
| ErrMalformed | ErrUnsupported | ErrInternal.

(** A Go [error]: a store error or any other error value. *)
Inductive error : Type :=
| StoreErr (e : StoreError)
| OtherErr (msg : string).

(** [storeErr, ok := err.(types.StoreError); ok && storeErr == types.ErrCredentials] *)
Definition isErrCredentials (err : error) : bool :=
  match err with
  | StoreErr ErrCredentials => true
  | _ => false
  end.

(** Modelled from the spec: a credential record (section 3); the fields
    the sources read are [Method], [Value], [Resp] and [Retries]. *)
Record Credential : Type := {
  Method : string;
  Value : string;
  Resp : string;
  Retries : Z;
  Done : bool
}.

(** [time.Time] and [time.Duration], as numbers. *)
Definition Time : Type := Z.

(** An opaque client payload ([interface{}]), kept as its JSON text;
    [None] is Go's [nil]. *)
Definition Blob : Type := string.

Record ObjHeader : Type := {
  Id : string;
  id : Uid.t;
  CreatedAt : Time;
  UpdatedAt : Time;
  DeletedAt : option Time
}.

(** [ObjHeader.Uid]; the value it caches in [id] is the value it returns. *)
Definition ObjHeader_Uid (h : ObjHeader) : Uid.t :=
  if Uid.IsZero (id h) && negb (String.eqb (Id h) "")
  then fst (Uid.UnmarshalText (id h) (list_ascii_of_string (Id h)))
  else id h.

Record DefaultAccess : Type := {
  Auth : AccessMode.t;
  Anon : AccessMode.t
}.

Record User : Type := {
  Header : ObjHeader;
  State : Z;
  Access : DefaultAccess;
  Public : option Blob;
  Tags : list string
}.

(** [var user types.User] *)
Definition zeroUser : User :=
  {| Header := {| Id := ""; id := Uid.ZeroUid; CreatedAt := 0%Z;
                  UpdatedAt := 0%Z; DeletedAt := None |};
     State := 0%Z;
     Access := {| Auth := 0%Z; Anon := 0%Z |};
     Public := None;
     Tags := [] |}.

Definition User_Uid (u : User) : Uid.t := ObjHeader_Uid (Header u).

Definition setAccess (u : User) (a : DefaultAccess) : User :=
  {| Header := Header u; State := State u; Access := a;
     Public := Public u; Tags := Tags u |}.
Definition setPublic (u : User) (p : option Blob) : User :=
  {| Header := Header u; State := State u; Access := Access u;
     Public := p; Tags := Tags u |}.
Definition setTags (u : User) (tags : list string) : User :=
  {| Header := Header u; State := State u; Access := Access u;
     Public := Public u; Tags := tags |}.

(** The operations of [store.Users] the sources call (the persistence
    contract): each acts on the world [W] and returns what the Go method
    returns, a [nil] pointer or error being [None]. *)
Record UsersMapper (W : Type) : Type := {
  (* Create(user, private) (User pointer, error); the user comes back with its id *)
  Create : User -> option Blob -> W -> (User * option error) * W;
  (* Delete(uid, hard) error *)
  Delete : Uid.t -> bool -> W -> option error * W;
  (* UpdateTags(uid, add, remove, reset) error *)
  UpdateTags : Uid.t -> list string -> list string -> list string -> W
               -> option error * W;
  (* GetUnreadCount(uid) (int, error) *)
  GetUnreadCount : Uid.t -> W -> (Z * option error) * W;
  (* GetAllCreds(uid, validatedOnly) ([]Credential, error) *)
  GetAllCreds : Uid.t -> bool -> W -> (list Credential * option error) * W;
  (* GetActiveCred(uid, method) (Credential pointer, error) *)
  GetActiveCred : Uid.t -> string -> W -> (option Credential * option error) * W;
  (* ConfirmCred(uid, method) error *)
  ConfirmCred : Uid.t -> string -> W -> option error * W;
  (* FailCred(uid, method) error *)
  FailCred : Uid.t -> string -> W -> option error * W
}.
Arguments Create {W}.
Arguments Delete {W}.
Arguments UpdateTags {W}.
Arguments GetUnreadCount {W}.
Arguments GetAllCreds {W}.
Arguments GetActiveCred {W}.
Arguments ConfirmCred {W}.
Arguments FailCred {W}.
End Store.

(** ** The users cache of [server/user.go] *)

Module UserCache.
Local Open Scope Z_scope.
Import Effect Store.

Record UserCacheEntry : Type := {
  unread : Z;
  topics : Z
}.

(** [push.Recipient] and [push.Receipt], as far as the cache reads and
    writes them: the recipients by user id and the unread count of each. *)
Record Recipient : Type := {
  Delivered : Z;
  Devices : list string;
  Unread : Z
}.

Record Receipt : Type := {
  To : list (Uid.t * Recipient);
  Payload : Blob
}.

Record userUpdate : Type := {
  (* Single user ID being updated *)
  upd_uid : Uid.t;
  (* User IDs being updated *)
  upd_uidList : list Uid.t;
  (* Unread count *)
  upd_unread : Z;
  (* Treat the count as an increment as opposite to the final value. *)
  upd_inc : bool;
  (* Optional push notification *)
  upd_pushRcpt : option Receipt
}.

(** The state of the updater: [usersCache], the world of the store and
    the receipts handed to [push.Push]. *)
Record state (W : Type) : Type := {
  usersCache : gmap Z UserCacheEntry;
  world : W;
  pushed : list Receipt
}.
Arguments usersCache {W}.
Arguments world {W}.
Arguments pushed {W}.

Definition setCache {W} (c : gmap Z UserCacheEntry) (st : state W) : state W :=
  {| usersCache := c; world := world st; pushed := pushed st |}.
Definition setWorld {W} (w : W) (st : state W) : state W :=
  {| usersCache := usersCache st; world := w; pushed := pushed st |}.
Definition addPushed {W} (r : Receipt) (st : state W) : state W :=
  {| usersCache := usersCache st; world := world st; pushed := pushed st ++ [r] |}.

(** [uce, ok := usersCache[uid]]: a missing key reads as the zero entry. *)
Definition lookupEntry (c : gmap Z UserCacheEntry) (uid : Uid.t)
  : UserCacheEntry * bool :=
  match c !! uid with
  | Some uce => (uce, true)
  | None => ({| unread := 0; topics := 0 |}, false)
  end.

Definition setUnread (uce : UserCacheEntry) (n : Z) : UserCacheEntry :=
  {| unread := n; topics := topics uce |}.
Definition setTopics (uce : UserCacheEntry) (n : Z) : UserCacheEntry :=
  {| unread := unread uce; topics := n |}.

Section Updater.
Context {W : Type}.
Variable Users : UsersMapper W.

(** The closure [unreadUpdater] of [userUpdater]. *)
Definition unreadUpdater (uid : Uid.t) (val : Z) (inc : bool) : M (state W) Z :=
  fun st =>
    let '(uce, ok) := lookupEntry (usersCache st) uid in
    if negb ok then
      (* BUG! *)
      Panic "attempt to update unread count for user who has not been loaded"
    else if unread uce <? 0 then
      let '((count, err), w) := GetUnreadCount Users uid (world st) in
      match err with
      | Some _ => Ok (-1) (setWorld w st)
      | None =>
          let uce := setUnread uce count in
          Ok (unread uce) (setCache (<[uid := uce]> (usersCache st)) (setWorld w st))
      end
    else if inc then
      let uce := setUnread uce (GoInt.add (unread uce) val) in
      Ok (unread uce) (setCache (<[uid := uce]> (usersCache st)) st)
    else
      let uce := setUnread uce val in
      Ok (unread uce) (setCache (<[uid := uce]> (usersCache st)) st).

(** [for uid, rcptTo := range upd.pushRcpt.To { ... }] *)
Fixpoint pushLoop (to : list (Uid.t * Recipient))
  : M (state W) (list (Uid.t * Recipient)) :=
  match to with
  | [] => mret []
  | (uid, rcptTo) :: to' =>
      unread ← unreadUpdater uid 1 true;
       let rcptTo :=
         if unread >=? 0
         then {| Delivered := Delivered rcptTo; Devices := Devices rcptTo;
                 Unread := unread |}
         else rcptTo in
       rest ← pushLoop to';
       mret ((uid, rcptTo) :: rest)
  end.

(** The body of [for _, uid := range upd.uidList] for one user. *)
Definition registerUser (inc : bool) (uid : Uid.t) : M (state W) unit :=
  fun st =>
    let '(uce, ok) := lookupEntry (usersCache st) uid in
    if inc then
      (* This is a registration of a new user.
         We are not loading unread count here, so set it to -1. *)
      let uce := if negb ok then setUnread uce (-1) else uce in
      let uce := setTopics uce (GoInt.add (topics uce) 1) in
      Ok tt (setCache (<[uid := uce]> (usersCache st)) st)
    else if ok then
      if topics uce >? 1 then
        let uce := setTopics uce (GoInt.sub (topics uce) 1) in
        Ok tt (setCache (<[uid := uce]> (usersCache st)) st)
      else
        (* Remove user from cache *)
        Ok tt (setCache (delete uid (usersCache st)) st)
    else
      (* BUG! *)
      Panic "request to unregister user which has not been registered".

Fixpoint registerLoop (inc : bool) (uidList : list Uid.t) : M (state W) unit :=
  match uidList with
  | [] => mret tt
  | uid :: rest => registerUser inc uid;; registerLoop inc rest
  end.

(** One turn of the loop of [userUpdater] on the update read from the
    channel ([None] is the [nil] update): [false] when the loop breaks. *)
Definition handleUpdate (upd : option userUpdate) : M (state W) bool :=
  match upd with
  | None => mret false
  | Some upd =>
      match upd_pushRcpt upd with
      | Some rcpt =>
          to ← pushLoop (To rcpt);
          Effect.modify (addPushed {| To := to; Payload := Payload rcpt |});;
          mret true
      | None =>
          if (0 <? length (upd_uidList upd))%nat then
            registerLoop (upd_inc upd) (upd_uidList upd);; mret true
          else
            unreadUpdater (upd_uid upd) (upd_unread upd) (upd_inc upd);;
            mret true
      end
  end.

(** [userUpdater] on the updates the channel delivers. *)
Fixpoint userUpdater (upds : list (option userUpdate)) : M (state W) unit :=
  match upds with
  | [] => mret tt
  | upd :: rest =>
      continue ← handleUpdate upd;
      if continue : bool then userUpdater rest else mret tt
  end.
End Updater.

(** [topics(u)] as the cache reads it. *)
Definition topicsOf (c : gmap Z UserCacheEntry) (uid : Uid.t) : Z :=
  topics (fst (lookupEntry c uid)).

(** The invariant of the cache: a user has an entry exactly when its
    count of topics is positive. *)
Definition cacheInv (c : gmap Z UserCacheEntry) : Prop :=
  forall uid : Uid.t, 0 < topicsOf c uid <-> is_Some (c !! uid).

(** The number of registrations an update asks for. *)
Definition updateSize (upd : option userUpdate) : Z :=
  match upd with
  | Some u => Z.of_nat (length (upd_uidList u))
  | None => 0
  end.

Definition updatesSize (upds : list (option userUpdate)) : Z :=
  fold_right (fun upd n => updateSize upd + n) 0 upds.

(** There is room for [n] more registrations: [n] is the length of a
    slice, and no count of topics is within [n] of the largest [int]. *)
Definition topicsBelow (c : gmap Z UserCacheEntry) (n : Z) : Prop :=
  0 <= n <= GoInt.max_int /\
  forall (uid : Uid.t) (uce : UserCacheEntry),
    c !! uid = Some uce -> topics uce + n <= GoInt.max_int.
End UserCache.

(** ** Package [validate/tel] *)

Module Tel.
Local Open Scope Z_scope.
Import Store.

Definition validatorName : string := "tel".

Record validator : Type := {
  DebugResponse : string;
  MaxRetries : Z
}.

(** [Init] is a noop but for the two settings. *)
Definition Init (v : validator) (jsonconf : string) : validator * option error :=
  ({| DebugResponse := "123456"; MaxRetries := 1000 |}, None).

(** [Check] checks validity of user's response: the value, the error
    and the world after the calls of the store. *)
Definition Check {W : Type} (Users : UsersMapper W) (v : validator)
           (user : Uid.t) (resp : string) (w : W) : (string * option error) * W :=
  let '((cred, err), w) := GetActiveCred Users user validatorName w in
  match err with
  | Some e => ((""%string, Some e), w)
  | None =>
      match cred with
      | None =>
          (* Request to validate non-existent credential. *)
          ((""%string, Some (StoreErr ErrNotFound)), w)
      | Some cred =>
          if Retries cred >? MaxRetries v then
            ((""%string, Some (StoreErr ErrPolicy)), w)
          else if String.eqb resp "" then
            ((""%string, Some (StoreErr ErrCredentials)), w)
          else if String.eqb (Resp cred) resp || String.eqb (DebugResponse v) resp then
            (* Valid response, save confirmation. *)
            let '(err, w) := ConfirmCred Users user validatorName w in
            ((Value cred, err), w)
          else
            (* Invalid response, increment fail counter, ignore possible error. *)
            let '(_, w) := FailCred Users user validatorName w in
            ((""%string, Some (StoreErr ErrCredentials)), w)
      end
  end.
End Tel.

(** ** Package [auth], as far as [server/user.go] uses it *)

Module auth.
Import Store.

Inductive Level : Type := LevelNone | LevelAnon | LevelAuth | LevelRoot.

#[global] Instance Level_eq_dec : EqDecision Level.
Proof. solve_decision. Defined.

Record Rec : Type := {
  Uid : Uid.t;
  AuthLevel : Level;
  Lifetime : Z;
  Features : Z;
  Tags : list string
}.

(** The methods of an authenticator the account code calls. *)
Record AuthHandler (W : Type) : Type := {
  (* IsUnique(secret) (bool, error) *)
  IsUnique : list ascii -> W -> (bool * option error) * W;
  (* AddRecord(rec, secret) (Rec pointer, error) *)
  AddRecord : Rec -> list ascii -> W -> (option Rec * option error) * W;
  (* GenSecret(rec) ([]byte, time.Time, error) *)
  GenSecret : Rec -> W -> (list ascii * Time * option error) * W
}.
Arguments IsUnique {W}.
Arguments AddRecord {W}.
Arguments GenSecret {W}.
End auth.

(** ** [server/user.go]: account creation and credentials *)

Module Server.
Local Open Scope Z_scope.
Import Effect Store.

(** *** Messages.  A field [F] of a struct [T] is the projection [t_F]. *)

Record MsgCredClient : Type := {
  cr_Method : string;
  cr_Value : string;
  cr_Response : string;
  cr_Params : option Blob
}.

Record MsgDefaultAcsMode : Type := {
  acs_Auth : string;
  acs_Anon : string
}.

Record MsgSetDesc : Type := {
  desc_DefaultAcs : option MsgDefaultAcsMode;
  desc_Public : option Blob;
  desc_Private : option Blob
}.

Record MsgClientAcc : Type := {
  acc_Id : string;
  acc_User : string;
  acc_Scheme : string;
  acc_Secret : list ascii;
  acc_Login : bool;
  acc_Tags : list string;
  acc_Desc : option MsgSetDesc;
  acc_Cred : list MsgCredClient
}.

Record ClientComMessage : Type := {
  msg_Acc : MsgClientAcc;
  msg_id : string;
  msg_timestamp : Time
}.

Record Session : Type := {
  s_uid : Uid.t;
  s_sid : string;
  s_lang : string;
  s_authLvl : auth.Level
}.

Record MsgTopicDesc : Type := {
  td_CreatedAt : Time;
  td_UpdatedAt : Time;
  td_DefaultAcs : MsgDefaultAcsMode;
  td_Public : option Blob;
  td_Private : option Blob
}.

(** The values the account code stores in [map[string]interface{}]. *)
Inductive Any : Type :=
| AString (s : string)
| AStrings (l : list string)
| ADesc (d : MsgTopicDesc).

Record MsgServerCtrl : Type := {
  ctrl_Id : string;
  ctrl_Topic : string;
  ctrl_Params : option (gmap string Any);
  ctrl_Code : Z;
  ctrl_Text : string;
  ctrl_Timestamp : Time
}.

Record ServerComMessage : Type := {
  Ctrl : option MsgServerCtrl
}.

Inductive PluginAction : Type := plgActCreate | plgActUpd | plgActDel.

(** *** The calls that leave the function, in the order they are made *)
Inductive Event : Type :=
| EvQueueOut (sid : string) (msg : ServerComMessage)
| EvUsersCreate (user : User) (private : option Blob) (err : option error)
| EvUsersDelete (uid : Uid.t) (hard : bool) (err : option error)
| EvUsersUpdateTags (uid : Uid.t) (add remove reset : list string)
                    (err : option error)
| EvAddRecord (rec : auth.Rec) (secret : list ascii) (err : option error)
| EvRequest (method : string) (uid : Uid.t) (value lang response : string)
            (tmpToken : list ascii) (err : option error)
| EvCheck (method : string) (uid : Uid.t) (response : string)
          (value : string) (err : option error)
| EvOnLogin (sid : string) (rec : auth.Rec) (missing : list string)
| EvPluginAccount (user : User) (action : PluginAction).

(** The methods of a credential validator the account code calls. *)
Record Validator (W : Type) : Type := {
  (* PreCheck(cred, params) error *)
  PreCheck : string -> option Blob -> W -> option error * W;
  (* Request(user, cred, lang, resp, tmpToken) error *)
  Request : Uid.t -> string -> string -> string -> list ascii -> W
            -> option error * W;
  (* Check(user, resp) (string, error) *)
  Check : Uid.t -> string -> W -> (string * option error) * W
}.
Arguments PreCheck {W}.
Arguments Request {W}.
Arguments Check {W}.

(** What the functions of [user.go] take from the rest of the server:
    the registries of the store, the configuration in [globals] and the
    helpers defined in other files. *)
Record Env (W : Type) : Type := {
  Users : UsersMapper W;
  GetLogicalAuthHandler : string -> option (auth.AuthHandler W);
  GetValidator : string -> option (Validator W);
  (* globals.authValidators[authLvl] *)
  authValidators : auth.Level -> list string;
  (* globals.validators[method].addToTags *)
  addToTags : string -> bool;
  immutableTagNS : list string;
  (* normalizeTags returns nil (None) or the tags *)
  normalizeTags : list string -> option (list string);
  restrictedTagsEqual : list string -> list string -> list string -> bool;
  normalizeCredentials : list MsgCredClient -> bool -> list MsgCredClient;
  getDefaultAccess : bool -> AccessMode.t;   (* of types.TopicCatP2P *)
  isNullValue : option Blob -> bool;
  stringSliceDelta : list string -> list string -> list string * list string;
  credentialMethods : list MsgCredClient -> list string;
  decodeStoreError : option error -> string -> string -> Time
                     -> option (gmap string Any) -> ServerComMessage;
  ErrAlreadyAuthenticated : string -> string -> Time -> ServerComMessage;
  ErrMalformed : string -> string -> Time -> ServerComMessage;
  ErrPermissionDenied : string -> string -> Time -> ServerComMessage;
  ErrUnknown : string -> string -> Time -> ServerComMessage;
  NoErrCreated : string -> string -> Time -> ServerComMessage;
  (* s.onLogin(id, timestamp, rec, missing) *)
  onLogin : Session -> string -> Time -> auth.Rec -> list string -> W
            -> ServerComMessage * W;
  FeatureNoLogin : Z;
  Level_String : auth.Level -> string
}.
Arguments Users {W}.
Arguments GetLogicalAuthHandler {W}.
Arguments GetValidator {W}.
Arguments authValidators {W}.
Arguments addToTags {W}.
Arguments immutableTagNS {W}.
Arguments normalizeTags {W}.
Arguments restrictedTagsEqual {W}.
Arguments normalizeCredentials {W}.
Arguments getDefaultAccess {W}.
Arguments isNullValue {W}.
Arguments stringSliceDelta {W}.
Arguments credentialMethods {W}.
Arguments decodeStoreError {W}.
Arguments ErrAlreadyAuthenticated {W}.
Arguments ErrMalformed {W}.
Arguments ErrPermissionDenied {W}.
Arguments ErrUnknown {W}.
Arguments NoErrCreated {W}.
Arguments onLogin {W}.
Arguments FeatureNoLogin {W}.
Arguments Level_String {W}.

(** The events of saving and validating credentials ([addCreds]). *)
Definition credEvent (e : Event) : bool :=
  match e with
  | EvRequest _ _ _ _ _ _ _ | EvUsersUpdateTags _ _ _ _ _ => true
  | _ => false
  end.

(** The error an event came back with. *)
Definition eventError (e : Event) : option error :=
  match e with
  | EvUsersCreate _ _ err | EvUsersDelete _ _ err
  | EvUsersUpdateTags _ _ _ _ err | EvAddRecord _ _ err
  | EvRequest _ _ _ _ _ _ err | EvCheck _ _ _ _ err => err
  | _ => None
  end.


(** The state a function runs in: the world of the store, the
    authenticators, the validators and the sessions, and the calls made. *)
Record state (W : Type) : Type := {
  world : W;
  log : list Event
}.
Arguments world {W}.
Arguments log {W}.

Section Functions.
Context {W : Type}.
Variable env : Env W.

(** A call of the store, an authenticator or a validator. *)
Definition call {A : Type} (f : W -> A * W) : M (state W) A :=
  fun st => let '(a, w) := f (world st) in Ok a {| world := w; log := log st |}.

Definition emit (e : Event) : M (state W) unit :=
  fun st => Ok tt {| world := world st; log := log st ++ [e] |}.

(** [s.queueOut(msg)] *)
Definition queueOut (s : Session) (msg : ServerComMessage) : M (state W) unit :=
  emit (EvQueueOut (s_sid s) msg).

(** [store.Users.Delete(uid, hard)] *)
Definition UsersDelete (uid : Uid.t) (hard : bool) : M (state W) (option error) :=
  err ← call (Delete (Users env) uid hard);
  emit (EvUsersDelete uid hard err);;
  mret err.

(** [store.Users.Create(&user, private)]: the user as the store left
    it and the error. *)
Definition UsersCreate (user : User) (private : option Blob)
  : M (state W) (User * option error) :=
  r ← call (Create (Users env) user private);
  emit (EvUsersCreate (fst r) private (snd r));;
  mret r.

(** [store.Users.UpdateTags(uid, add, remove, reset)] *)
Definition UsersUpdateTags (uid : Uid.t) (add remove reset : list string)
  : M (state W) (option error) :=
  err ← call (UpdateTags (Users env) uid add remove reset);
  emit (EvUsersUpdateTags uid add remove reset err);;
  mret err.

(** [msg.Ctrl.Params = params] *)
Definition setParams (msg : ServerComMessage) (params : gmap string Any)
  : M (state W) ServerComMessage :=
  match Ctrl msg with
  | None => panic "invalid memory address or nil pointer dereference"
  | Some c =>
      mret {| Ctrl := Some {| ctrl_Id := ctrl_Id c; ctrl_Topic := ctrl_Topic c;
                              ctrl_Params := Some params; ctrl_Code := ctrl_Code c;
                              ctrl_Text := ctrl_Text c;
                              ctrl_Timestamp := ctrl_Timestamp c |} |}
  end.

(** [params := reply.Ctrl.Params.(map[string]interface{}); params[key] = v] *)
Definition addParam (reply : ServerComMessage) (key : string) (v : Any)
  : M (state W) ServerComMessage :=
  match Ctrl reply with
  | None => panic "invalid memory address or nil pointer dereference"
  | Some c =>
      match ctrl_Params c with
      | None => panic "interface conversion: interface is nil"
      | Some params => setParams reply (<[key := v]> params)
      end
  end.

(** The credential pre-check loop of [replyCreateUser]: the credential
    that failed and its error, if any. *)
Fixpoint preCheckLoop (creds : list MsgCredClient)
  : M (state W) (option (MsgCredClient * error)) :=
  match creds with
  | [] => mret None
  | cr :: creds' =>
      match GetValidator env (cr_Method cr) with
      | None => panic "invalid memory address or nil pointer dereference"
      | Some vld =>
          err ← call (PreCheck vld (cr_Value cr) (cr_Params cr));
          match err with
          | Some e => mret (Some (cr, e))
          | None => preCheckLoop creds'
          end
      end
  end.

(** The loop of [addCreds]: the validated methods and the tags so far,
    or the error of [Request]. *)
Fixpoint addCredsLoop (uid : Uid.t) (creds : list MsgCredClient)
         (lang : string) (tmpToken : list ascii)
         (validated tags : list string)
  : M (state W) (error + list string * list string) :=
  match creds with
  | [] => mret (inr (validated, tags))
  | cr :: creds' =>
      match GetValidator env (cr_Method cr) with
      | None =>
          (* Ignore unknown validator. *)
          addCredsLoop uid creds' lang tmpToken validated tags
      | Some vld =>
          err ← call (Request vld uid (cr_Value cr) lang (cr_Response cr) tmpToken);
          emit (EvRequest (cr_Method cr) uid (cr_Value cr) lang (cr_Response cr)
                          tmpToken err);;
          match err with
          | Some e => mret (inl e)
          | None =>
              if negb (String.eqb (cr_Response cr) "") then
                (* If response is provided and vld.Request did not return an
                   error, the request was successfully validated. *)
                let validated := validated ++ [cr_Method cr] in
                (* Generate tags for these confirmed credentials. *)
                let tags :=
                  if addToTags env (cr_Method cr)
                  then tags ++ [(cr_Method cr ++ ":" ++ cr_Value cr)%string]
                  else tags in
                addCredsLoop uid creds' lang tmpToken validated tags
              else addCredsLoop uid creds' lang tmpToken validated tags
          end
      end
  end.

(** [addCreds] adds user's credentials.  Returns all validated methods,
    including those validated in this call. *)
Definition addCreds (uid : Uid.t) (creds : list MsgCredClient)
           (tags : list string) (lang : string) (tmpToken : list ascii)
  : M (state W) (list string * option error) :=
  r ← addCredsLoop uid creds lang tmpToken [] tags;
  match r with
  | inl e => mret ([], Some e)
  | inr (validated, tags) =>
      (* Save tags potentially changed by the validator. *)
      if (0 <? length tags)%nat then
        err ← UsersUpdateTags uid [] [] tags;
        match err with
        | Some e => mret ([], Some e)
        | None => mret (validated, None)
        end
      else mret (validated, None)
  end.

(** [user.Access.X.UnmarshalText(text); user.Access.X &= ModeCP2P;
    if user.Access.X != ModeNone { user.Access.X |= ModeApprove }] *)
Definition assignAccess (m : AccessMode.t) (text : string) : AccessMode.t :=
  let m := fst (AccessMode.UnmarshalText m (list_ascii_of_string text)) in
  let m := Z.land m AccessMode.ModeCP2P in
  if negb (m =? AccessMode.ModeNone) then Z.lor m AccessMode.ModeApprove else m.

(** [replyCreateUser] from the line after [store.Users.Create] has
    succeeded to the end. *)
Definition createUserPersisted (s : Session) (msg : ClientComMessage)
           (authhdl : auth.AuthHandler W) (user : User) (private : option Blob)
           (creds : list MsgCredClient) : M (state W) unit :=
  let acc := msg_Acc msg in
  (* Add authentication record. The authhdl.AddRecord may change tags. *)
  let rec0 := {| auth.Uid := User_Uid user; auth.AuthLevel := auth.LevelNone;
                 auth.Lifetime := 0; auth.Features := 0;
                 auth.Tags := Tags user |} in
  r ← call (auth.AddRecord authhdl rec0 (acc_Secret acc));
  emit (EvAddRecord rec0 (acc_Secret acc) (snd r));;
  match snd r with
  | Some err =>
      (* Attempt to delete incomplete user record *)
      UsersDelete (User_Uid user) false;;
      queueOut s (decodeStoreError env (Some err) (msg_id msg) "" (msg_timestamp msg) None)
  | None =>
      match fst r with
      | None => panic "invalid memory address or nil pointer dereference"
      | Some rec =>
          (* When creating an account, the user must provide all required
             credentials. If any are missing, reject the request. *)
          if (length creds <? length (authValidators env (auth.AuthLevel rec)))%nat then
            (* Attempt to delete incomplete user record *)
            UsersDelete (User_Uid user) false;;
            let '(_, missing) :=
              stringSliceDelta env (authValidators env (auth.AuthLevel rec))
                               (credentialMethods env creds) in
            queueOut s (decodeStoreError env (Some (StoreErr ErrPolicy)) (msg_id msg) ""
                          (msg_timestamp msg)
                          (Some {["creds" := AStrings missing]}))
          else
            (* Save credentials, update tags if necessary. *)
            match GetLogicalAuthHandler env "token" with
            | None => panic "invalid memory address or nil pointer dereference"
            | Some tokenhdl =>
                tok ← call (auth.GenSecret tokenhdl
                              {| auth.Uid := User_Uid user;
                                 auth.AuthLevel := auth.LevelNone;
                                 auth.Lifetime := 24 * 3600 * 1000000000;
                                 auth.Features := FeatureNoLogin env;
                                 auth.Tags := [] |});
                let tmpToken := fst (fst tok) in
                v ← addCreds (User_Uid user) creds (auth.Tags rec) (s_lang s) tmpToken;
                match snd v with
                | Some err =>
                    (* Delete incomplete user record. *)
                    UsersDelete (User_Uid user) false;;
                    queueOut s (decodeStoreError env (Some err) (msg_id msg) ""
                                  (msg_timestamp msg) None)
                | None =>
                    let validated := fst v in
                    reply ←
                      (if acc_Login acc then
                         (* Process user's login request. *)
                         let '(_, missing) :=
                           stringSliceDelta env (authValidators env (auth.AuthLevel rec))
                                            validated in
                         emit (EvOnLogin (s_sid s) rec missing);;
                         call (onLogin env s (msg_id msg) (msg_timestamp msg) rec missing)
                       else
                         (* Not using the new account for logging in. *)
                         setParams (NoErrCreated env (msg_id msg) "" (msg_timestamp msg))
                           (<["authlvl" := AString (Level_String env (auth.AuthLevel rec))]>
                              {["user" := AString (Uid.UserId (User_Uid user))]}));
                    reply ← addParam reply "desc"
                      (ADesc {| td_CreatedAt := CreatedAt (Header user);
                                td_UpdatedAt := UpdatedAt (Header user);
                                td_DefaultAcs :=
                                  {| acs_Auth := AccessMode.String (Auth (Access user));
                                     acs_Anon := AccessMode.String (Anon (Access user)) |};
                                td_Public := Public user;
                                td_Private := private |});
                    queueOut s reply;;
                    emit (EvPluginAccount user plgActCreate)
                end
            end
      end
  end.

(** [replyCreateUser] processes the request for a new account. *)
Definition replyCreateUser (s : Session) (msg : ClientComMessage)
           (rec : option auth.Rec) : M (state W) unit :=
  let acc := msg_Acc msg in
  (* The session cannot authenticate with the new account because it's
     already authenticated. *)
  if acc_Login acc && (negb (Uid.IsZero (s_uid s)) || bool_decide (is_Some rec)) then
    queueOut s (ErrAlreadyAuthenticated env (msg_id msg) "" (msg_timestamp msg))
  else
    (* Find authenticator for the requested scheme. *)
    match GetLogicalAuthHandler env (acc_Scheme acc) with
    | None =>
        (* New accounts must have an authentication scheme *)
        queueOut s (ErrMalformed env (msg_id msg) "" (msg_timestamp msg))
    | Some authhdl =>
        (* Check if login is unique. *)
        u ← call (auth.IsUnique authhdl (acc_Secret acc));
        if negb (fst u) then
          queueOut s (decodeStoreError env (snd u) (msg_id msg) "" (msg_timestamp msg)
                        (Some {["what" := AString "auth"]}))
        else
          let user := zeroUser in
          (* Ensure tags are unique and not restricted. *)
          let tags := normalizeTags env (acc_Tags acc) in
          if match tags with
             | Some tags =>
                 negb (restrictedTagsEqual env tags [] (immutableTagNS env))
             | None => false
             end
          then
            m ← setParams (ErrPermissionDenied env (msg_id msg) "" (msg_timestamp msg))
                          {["what" := AString "tags"]};
            queueOut s m
          else
            let user := match tags with
                        | Some tags => setTags user tags
                        | None => user
                        end in
            (* Pre-check credentials for validity. *)
            let creds := normalizeCredentials env (acc_Cred acc) true in
            bad ← preCheckLoop creds;
            match bad with
            | Some (cr, err) =>
                queueOut s (decodeStoreError env (Some err) (acc_Id acc) ""
                              (msg_timestamp msg)
                              (Some {["what" := AString (cr_Method cr)]}))
            | None =>
                (* Assign default access values in case the acc creator has
                   not provided them *)
                let access := {| Auth := getDefaultAccess env true;
                                 Anon := getDefaultAccess env false |} in
                (* Assign actual access values, public and private. *)
                let access :=
                  match acc_Desc acc with
                  | Some desc =>
                      match desc_DefaultAcs desc with
                      | Some acs =>
                          {| Auth := if negb (String.eqb (acs_Auth acs) "")
                                     then assignAccess (Auth access) (acs_Auth acs)
                                     else Auth access;
                             Anon := if negb (String.eqb (acs_Anon acs) "")
                                     then assignAccess (Anon access) (acs_Anon acs)
                                     else Anon access |}
                      | None => access
                      end
                  | None => access
                  end in
                let user := setAccess user access in
                let user :=
                  match acc_Desc acc with
                  | Some desc =>
                      if negb (isNullValue env (desc_Public desc))
                      then setPublic user (desc_Public desc) else user
                  | None => user
                  end in
                let private :=
                  match acc_Desc acc with
                  | Some desc =>
                      if negb (isNullValue env (desc_Private desc))
                      then desc_Private desc else None
                  | None => None
                  end in
                (* Create user record in the database. *)
                c ← UsersCreate user private;
                match snd c with
                | Some _ =>
                    queueOut s (ErrUnknown env (msg_id msg) "" (msg_timestamp msg))
                | None =>
                    createUserPersisted s msg authhdl (fst c) private creds
                end
            end
    end.

(** *** [updateCreds] *)

(** [methods[key]++] and [methods[key]--] on a map that may be [nil]
    ([None]): reading a [nil] map gives zero, writing to it panics. *)
Definition mapRead (m : option (gmap string Z)) (key : string) : Z :=
  match m with
  | Some g => default 0 (g !! key)
  | None => 0
  end.

Definition mapWrite (m : option (gmap string Z)) (key : string) (v : Z)
  : M (state W) (option (gmap string Z)) :=
  match m with
  | Some g => mret (Some (<[key := v]> g))
  | None => panic "assignment to entry in nil map"
  end.

Definition mapIncr (m : option (gmap string Z)) (key : string)
  : M (state W) (option (gmap string Z)) :=
  mapWrite m key (GoInt.add (mapRead m key) 1).

Definition mapDecr (m : option (gmap string Z)) (key : string)
  : M (state W) (option (gmap string Z)) :=
  mapWrite m key (GoInt.sub (mapRead m key) 1).

(** [for _, cred := range alreadyValidatedCreds { methods[cred.Method]++ }] *)
Fixpoint indexMethods (creds : list Credential) (methods : option (gmap string Z))
  : M (state W) (option (gmap string Z)) :=
  match creds with
  | [] => mret methods
  | cred :: creds' =>
      methods ← mapIncr methods (Method cred);
      indexMethods creds' methods
  end.

(** The loop of [updateCreds] over the supplied credentials: the error
    that ends the function, or the counts and the tags to add and to
    remove. *)
Fixpoint checkLoop (uid : Uid.t) (creds : list MsgCredClient)
         (methods : option (gmap string Z)) (tagsToAdd tagsToRemove : list string)
  : M (state W) (error + option (gmap string Z) * list string * list string) :=
  match creds with
  | [] => mret (inr (methods, tagsToAdd, tagsToRemove))
  | cr :: creds' =>
      if String.eqb (cr_Response cr) "" then
        (* Ignore unknown validation type or empty response. *)
        checkLoop uid creds' methods tagsToAdd tagsToRemove
      else
        match GetValidator env (cr_Method cr) with
        | None => panic "invalid memory address or nil pointer dereference"
        | Some vld =>
            r ← call (Check vld uid (cr_Response cr));
            emit (EvCheck (cr_Method cr) uid (cr_Response cr) (fst r) (snd r));;
            match snd r with
            | Some err =>
                (* Check failed. *)
                if isErrCredentials err then
                  (* Just an invalid response. Keep credential unvalidated. *)
                  checkLoop uid creds' methods tagsToAdd tagsToRemove
                else
                  (* Actual error. Report back. *)
                  mret (inl err)
            | None =>
                let value := fst r in
                (* Value could be empty if validated credential was deleted. *)
                if negb (String.eqb value "") then
                  methods ← mapIncr methods (cr_Method cr);
                  let tagsToAdd :=
                    if addToTags env (cr_Method cr)
                    then tagsToAdd ++ [(cr_Method cr ++ ":" ++ value)%string]
                    else tagsToAdd in
                  checkLoop uid creds' methods tagsToAdd tagsToRemove
                else
                  (* Credential deleted. *)
                  methods ← mapDecr methods (cr_Method cr);
                  let tagsToRemove :=
                    if addToTags env (cr_Method cr)
                    then tagsToRemove ++ [(cr_Method cr ++ ":" ++ value)%string]
                    else tagsToRemove in
                  checkLoop uid creds' methods tagsToAdd tagsToRemove
            end
        end
  end.

(** [for method, count := range methods { if count > 0 { ... } }]; the
    order of a map's keys is not specified, [map_to_list] fixes one. *)
Definition validatedMethods (methods : option (gmap string Z)) : list string :=
  match methods with
  | None => []
  | Some g =>
      map fst (List.filter (fun kv : string * Z => 0 <? snd kv) (map_to_list g))
  end.

(** [updateCreds] uses provided credentials to update user's
    credentials.  Returns validated methods including those validated in
    this call. *)
Definition updateCreds (uid : Uid.t) (authLvl : auth.Level)
           (creds : list MsgCredClient) : M (state W) (list string * option error) :=
  (* Check if credential validation is required. *)
  if (length (authValidators env authLvl) =? 0)%nat then
    mret ([], Some (StoreErr ErrUnsupported))
  else if (length creds =? 0)%nat then
    mret ([], None)
  else
    r ← call (GetAllCreds (Users env) uid true);
    match snd r with
    | Some err => mret ([], Some err)
    | None =>
        let alreadyValidatedCreds := fst r in
        (* Index credential methods. *)
        (* var methods map[string]int *)
        let methods : option (gmap string Z) := None in
        methods ← indexMethods alreadyValidatedCreds methods;
        (* Add credentials which are validated in this call. *)
        let creds := normalizeCredentials env creds false in
        l ← checkLoop uid creds methods [] [];
        match l with
        | inl err => mret ([], Some err)
        | inr (methods, tagsToAdd, tagsToRemove) =>
            err ←
              (if (0 <? length tagsToAdd)%nat || (0 <? length tagsToRemove)%nat then
                 (* Save update to tags *)
                 UsersUpdateTags uid tagsToAdd tagsToRemove []
               else mret None);
            match err with
            | Some err => mret ([], Some err)
            | None => mret (validatedMethods methods, None)
            end
        end
    end.
End Functions.
End Server.

(** ** Video calls of a topic *)

Module Calls.
Local Open Scope Z_scope.
Import Effect Store.

(** Events for call between users A and B. *)
Definition constCallEventInvite : string := "invite".
Definition constCallEventRinging : string := "ringing".
Definition constCallEventAccept : string := "accept".
Definition constCallEventOffer : string := "offer".
Definition constCallEventAnswer : string := "answer".
Definition constCallEventIceCandidate : string := "ice-candidate".
Definition constCallEventHangUp : string := "hang-up".
(** Messages representing call states. *)
Definition constCallMsgAccepted : string := "accepted".
Definition constCallMsgFinished : string := "finished".
Definition constCallMsgDisconnected : string := "disconnected".
(** [15 * time.Second] *)
Definition constCallEstablishmentTimeout : Z := 15 * 1000000000.
Definition constTinodeVideoCallMimeType : string := "application/x-tinode-webrtc".

Inductive TopicCat : Type := TopicCatMe | TopicCatFnd | TopicCatP2P | TopicCatGrp.

#[global] Instance TopicCat_eq_dec : EqDecision TopicCat.
Proof. solve_decision. Defined.

(** A [*Session]: sessions are told apart by their address. *)
Record Session : Type := {
  s_ptr : Z;
  s_sid : string
}.

Definition sameSession (a b : Session) : bool := s_ptr a =? s_ptr b.

Record callPartyData : Type := {
  uid : Uid.t;
  isOriginator : bool
}.

(** [videoCall] describes video call that's being established or in
    progress; the map [parties] is a list of its entries, one for a
    session. *)
Record videoCall : Type := {
  parties : list (Session * callPartyData);
  seq : Z
}.

(** [parties[sess] = data] *)
Fixpoint setParty (ps : list (Session * callPartyData)) (sess : Session)
         (data : callPartyData) : list (Session * callPartyData) :=
  match ps with
  | [] => [(sess, data)]
  | (s, d) :: ps' =>
      if sameSession s sess then (s, data) :: ps' else (s, d) :: setParty ps' sess data
  end.

Record MsgServerInfo : Type := {
  info_Topic : string;
  info_From : string;
  info_What : string;
  info_Event : string;
  info_SeqId : Z;
  info_Payload : option Blob
}.

Record MsgClientNote : Type := {
  note_SeqId : Z;
  note_Event : string;
  note_Payload : option Blob
}.

Record ClientComMessage : Type := {
  Original : string;
  RcptTo : string;
  AsUser : string;
  Timestamp : Time;
  Note : option MsgClientNote;
  sess : Session
}.

(** A reply of the server: an [{info}] message or a [{ctrl}] error built
    elsewhere. *)
Inductive ServerComMessage : Type :=
| InfoMessage (info : MsgServerInfo)
| ErrCallBusyReply (msg : ClientComMessage) (ts : Time)
| ErrPermissionDeniedReply (msg : ClientComMessage) (ts : Time).

(** The one-shot timer of call establishment: stopped (or never
    started), armed to fire after [d], or expired. *)
Inductive Timer : Type :=
| TimerStopped
| TimerArmed (d : Z)
| TimerFired.

(** The timer is running. *)
Definition timerActive (tm : Timer) : bool :=
  match tm with
  | TimerArmed _ => true
  | _ => false
  end.

Record Topic : Type := {
  name : string;
  cat : TopicCat;
  lastID : Z;
  perUser : gset Z;
  currentCall : option videoCall;
  callEstablishmentTimer : Timer
}.

Definition setCurrentCall (t : Topic) (c : option videoCall) : Topic :=
  {| name := name t; cat := cat t; lastID := lastID t; perUser := perUser t;
     currentCall := c; callEstablishmentTimer := callEstablishmentTimer t |}.
Definition setTimer (t : Topic) (tm : Timer) : Topic :=
  {| name := name t; cat := cat t; lastID := lastID t; perUser := perUser t;
     currentCall := currentCall t; callEstablishmentTimer := tm |}.
Definition setLastID (t : Topic) (n : Z) : Topic :=
  {| name := name t; cat := cat t; lastID := n; perUser := perUser t;
     currentCall := currentCall t; callEstablishmentTimer := callEstablishmentTimer t |}.

(** The calls that leave the topic. *)
Inductive Event : Type :=
| EvQueueOut (to : Session) (msg : ServerComMessage)
| EvInfoCallSubsOffline (from : string) (target : Uid.t) (event : string)
    (seq : Z) (payload : option Blob) (excludeSid : string) (isFinal : bool)
| EvSaveAndBroadcast (msg : ClientComMessage) (asUid : Uid.t)
    (head : gmap string string) (content : string) (err : option error)
| EvBroadcastToSessions (msg : ServerComMessage).

(** The methods of [Topic] defined in other files, the clock, and the
    order in which a [range] over a map yields its entries: the language
    leaves that order open, every entry comes once. *)
Record Env (W : Type) : Type := {
  p2pOtherUser : Topic -> Uid.t -> Uid.t;
  isInactive : Topic -> bool;
  original : Topic -> Uid.t -> string;
  (* saveAndBroadcastMessage(msg, asUid, noEcho, attachments, head, content):
     the error and the id of the topic's last message afterwards *)
  saveAndBroadcastMessage :
    Topic -> ClientComMessage -> Uid.t -> gmap string string -> string -> W
    -> (option error * Z) * W;
  TimeNow : W -> Time * W;
  (* for sess, p := range t.currentCall.parties *)
  rangeParties : list (Session * callPartyData) -> W -> list (Session * callPartyData);
  rangeParties_all :
    forall (ps : list (Session * callPartyData)) (w : W),
      Permutation (rangeParties ps w) ps;
  (* for tgt := range t.perUser *)
  rangePerUser : gset Z -> W -> list Z;
  rangePerUser_all :
    forall (users : gset Z) (w : W), Permutation (rangePerUser users w) (elements users)
}.
Arguments p2pOtherUser {W}.
Arguments isInactive {W}.
Arguments original {W}.
Arguments saveAndBroadcastMessage {W}.
Arguments TimeNow {W}.
Arguments rangeParties {W}.
Arguments rangeParties_all {W}.
Arguments rangePerUser {W}.
Arguments rangePerUser_all {W}.

Record state (W : Type) : Type := {
  topic : Topic;
  world : W;
  log : list Event
}.
Arguments topic {W}.
Arguments world {W}.
Arguments log {W}.

(** [strconv.Itoa] *)
Definition Itoa (n : Z) : string := DecimalString.NilZero.string_of_int (Z.to_int n).

Definition messageHead (call : videoCall) : gmap string string :=
  <["replace" := (":" ++ Itoa (seq call))%string]>
    (<["mime" := constTinodeVideoCallMimeType]> ∅).

(** Generates server info message template for the video call event. *)
Definition infoMessage (call : videoCall) (event : string) : MsgServerInfo :=
  {| info_Topic := ""; info_From := ""; info_What := "call"; info_Event := event;
     info_SeqId := seq call; info_Payload := None |}.

Fixpoint findOriginator (ps : list (Session * callPartyData))
  : Uid.t * option Session :=
  match ps with
  | [] => (Uid.ZeroUid, None)
  | (sess, p) :: ps' =>
      if isOriginator p then (uid p, Some sess) else findOriginator ps'
  end.

(** Returns Uid and session of the present video call originator if a
    call is being established or in progress. *)
Definition getCallOriginator (t : Topic) : Uid.t * option Session :=
  match currentCall t with
  | None => (Uid.ZeroUid, None)
  | Some call => findOriginator (parties call)
  end.

(** [for sess, p := range parties { if sess != msg.sess { ...; break } }],
    on the entries in the order the range yields them. *)
Fixpoint findOther (ps : list (Session * callPartyData)) (me : Session)
  : Uid.t * option Session :=
  match ps with
  | [] => (Uid.ZeroUid, None)
  | (sess, p) :: ps' =>
      if negb (sameSession sess me) then (uid p, Some sess) else findOther ps' me
  end.

Section Functions.
Context {W : Type}.
Variable env : Env W.

Definition call {A : Type} (f : W -> A * W) : M (state W) A :=
  fun st =>
    let '(a, w) := f (world st) in
    Ok a {| topic := topic st; world := w; log := log st |}.

Definition emit (e : Event) : M (state W) unit :=
  fun st => Ok tt {| topic := topic st; world := world st; log := log st ++ [e] |}.

Definition getTopic : M (state W) Topic := fun st => Ok (topic st) st.

(** The entries of a map in the order this [range] yields them. *)
Definition ranged {A : Type} (order : W -> list A) : M (state W) (list A) :=
  fun st => Ok (order (world st)) st.

Definition updTopic (f : Topic -> Topic) : M (state W) unit :=
  fun st => Ok tt {| topic := f (topic st); world := world st; log := log st |}.

Definition queueOut (to : Session) (msg : ServerComMessage) : M (state W) unit :=
  emit (EvQueueOut to msg).

(** [t.saveAndBroadcastMessage(msg, asUid, false, nil, head, content)] *)
Definition save (msg : ClientComMessage) (asUid : Uid.t)
           (head : gmap string string) (content : string)
  : M (state W) (option error) :=
  t ← getTopic;
  r ← call (saveAndBroadcastMessage env t msg asUid head content);
  emit (EvSaveAndBroadcast msg asUid head content (fst r));;
  updTopic (fun t => setLastID t (snd r));;
  mret (fst r).

Definition withAsUser (msg : ClientComMessage) (asUser : string) : ClientComMessage :=
  {| Original := Original msg; RcptTo := RcptTo msg; AsUser := asUser;
     Timestamp := Timestamp msg; Note := Note msg; sess := sess msg |}.

(** Handles video call invite (initiation). *)
Definition handleCallInvite (msg : ClientComMessage) (asUid : Uid.t)
  : M (state W) unit :=
  t ← getTopic;
  match currentCall t with
  | Some _ =>
      (* There's already another call in progress. *)
      now ← call (TimeNow env);
      queueOut (sess msg) (ErrCallBusyReply msg now)
  | None =>
      if negb (bool_decide (cat t = TopicCatP2P)) then
        now ← call (TimeNow env);
        queueOut (sess msg) (ErrPermissionDeniedReply msg now)
      else
        let tgt := p2pOtherUser env t asUid in
        emit (EvInfoCallSubsOffline (AsUser msg) tgt constCallEventInvite
                                    (lastID t) None (s_sid (sess msg)) false);;
        (* Call being establshed. *)
        updTopic (fun t =>
          setCurrentCall t
            (Some {| parties := setParty [] (sess msg)
                                  {| uid := asUid; isOriginator := true |};
                     seq := lastID t |}));;
        (* Wait for constCallEstablishmentTimeout for the other side to
           accept the call. *)
        updTopic (fun t => setTimer t (TimerArmed constCallEstablishmentTimeout))
  end.

(** [for x := range l { f(x) }] *)
Fixpoint forEach {A : Type} (f : A -> M (state W) unit) (l : list A)
  : M (state W) unit :=
  match l with
  | [] => mret tt
  | x :: l' => f x;; forEach f l'
  end.

(** Ends current call in response to a client hangup request (msg). *)
Definition maybeEndCallInProgress (from : string) (msg : ClientComMessage)
  : M (state W) unit :=
  t ← getTopic;
  match currentCall t with
  | None => mret tt
  | Some cur =>
      updTopic (fun t => setTimer t TimerStopped);;
      let originator := fst (getCallOriginator t) in
      let replaceWith :=
        if negb (String.eqb from "") && (length (parties cur) =? 2)%nat
        then (* This is a call in progress. *) constCallMsgFinished
        else (* Call hasn't been established. Just drop it. *)
             constCallMsgDisconnected in
      (* Send a message indicating the call has ended. *)
      let head := messageHead cur in
      let msgCopy := withAsUser msg (Uid.UserId originator) in
      save msgCopy originator head replaceWith;;
      (* Send {info} hangup event to the subscribed sessions. *)
      let resp := infoMessage cur constCallEventHangUp in
      emit (EvBroadcastToSessions (InfoMessage resp));;
      (* Let all other sessions know the call is over. *)
      tgts ← ranged (rangePerUser env (perUser t));
      forEach (fun tgt =>
                 emit (EvInfoCallSubsOffline from tgt constCallEventHangUp
                                             (seq cur) None "" true))
              tgts;;
      updTopic (fun t => setCurrentCall t None)
  end.

(** Server initiated call termination. *)
Definition terminateCallInProgress : M (state W) unit :=
  t ← getTopic;
  match currentCall t with
  | None => mret tt
  | Some _ =>
      let '(uid, sess) := getCallOriginator t in
      (* Just drop the call. *)
      let drop := updTopic (fun t => setCurrentCall t None) in
      match sess with
      | None => drop
      | Some sess =>
          if Uid.IsZero uid then drop
          else
            (* Dummy hangup request. *)
            now ← call (TimeNow env);
            let dummy := {| Original := original env t uid;
                            RcptTo := Uid.UserId uid;
                            AsUser := Uid.UserId uid;
                            Timestamp := now;
                            Note := None;
                            sess := sess |} in
            maybeEndCallInProgress "" dummy
      end
  end.

(** Modelled from the spec: the establishment timeout (the transition
    "establishment timer fires" of the call state machine).  The timer,
    armed, expires, and the topic runs [terminateCallInProgress]; a timer
    that is not armed does not fire.  The loop of the topic that waits on
    the channel of the timer is not among the sources. *)
Definition establishmentTimeout : M (state W) unit :=
  t ← getTopic;
  match callEstablishmentTimer t with
  | TimerArmed _ =>
      updTopic (fun t => setTimer t TimerFired);;
      terminateCallInProgress
  | _ => mret tt
  end.

Definition withTopicFrom (info : MsgServerInfo) (from topic : string)
           (payload : option Blob) : MsgServerInfo :=
  {| info_Topic := topic; info_From := from; info_What := info_What info;
     info_Event := info_Event info; info_SeqId := info_SeqId info;
     info_Payload := payload |}.

(** Handles events on existing video call (acceptance, termination,
    metadata exchange). *)
Definition handleCallEvent (msg : ClientComMessage) : M (state W) unit :=
  t ← getTopic;
  match currentCall t with
  | None => (* Must initiate call first. *) mret tt
  | Some cur =>
      if isInactive env t then
        (* Topic is paused or being deleted. *)
        mret tt
      else
        match Note msg with
        | None => panic "invalid memory address or nil pointer dereference"
        | Some note =>
            if negb (seq cur =? note_SeqId note) then
              (* Call not found. *)
              mret tt
            else
              let asUid := Types.ParseUserId (AsUser msg) in
              if negb (bool_decide (asUid ∈ perUser t)) then
                (* User not found in topic. *)
                mret tt
              else
                let event := note_Event note in
                if String.eqb event constCallEventRinging
                   || String.eqb event constCallEventAccept then
                  (* 1. Call has been initiated but not been established yet. *)
                  if negb (length (parties cur) =? 1)%nat then mret tt
                  else
                    let '(originatorUid, originator) := getCallOriginator t in
                    match originator with
                    | None => terminateCallInProgress
                    | Some originator =>
                        (* 2. These events may only arrive from the callee. *)
                        if sameSession originator (sess msg)
                           || (originatorUid =? asUid) then mret tt
                        else
                          (* Prepare a {info} message to forward to the call
                             originator. *)
                          let forwardMsg :=
                            withTopicFrom (infoMessage cur event) (AsUser msg)
                                          (original env t originatorUid) None in
                          if String.eqb event constCallEventAccept then
                            (* The call has been accepted. *)
                            let replaceWith := constCallMsgAccepted in
                            let head := messageHead cur in
                            let msgCopy := withAsUser msg (Uid.UserId originatorUid) in
                            err ← save msgCopy originatorUid head replaceWith;
                            match err with
                            | Some _ => mret tt
                            | None =>
                                (* Add callee data to t.currentCall. *)
                                updTopic (fun t =>
                                  setCurrentCall t
                                    (Some {| parties :=
                                               setParty (parties cur) (sess msg)
                                                 {| uid := asUid;
                                                    isOriginator := false |};
                                             seq := seq cur |}));;
                                (* Notify other clients that the call has been
                                   accepted. *)
                                t ← getTopic;
                                emit (EvInfoCallSubsOffline (AsUser msg) asUid event
                                        (lastID t) (note_Payload note)
                                        (s_sid (sess msg)) false);;
                                updTopic (fun t => setTimer t TimerStopped);;
                                queueOut originator (InfoMessage forwardMsg)
                            end
                          else queueOut originator (InfoMessage forwardMsg)
                    end
                else if String.eqb event constCallEventOffer
                        || String.eqb event constCallEventAnswer
                        || String.eqb event constCallEventIceCandidate then
                  (* Call metadata exchange. Either side of the call may send
                     these events.  Simply forward them to the other session. *)
                  ps ← ranged (rangeParties env (parties cur));
                  let '(otherUid, otherEnd) := findOther ps (sess msg) in
                  match otherEnd with
                  | None => mret tt
                  | Some otherEnd =>
                      (* Send {info} message to the otherEnd. *)
                      let forwardMsg :=
                        withTopicFrom (infoMessage cur event) (AsUser msg)
                                      (original env t otherUid) (note_Payload note) in
                      queueOut otherEnd (InfoMessage forwardMsg)
                  end
                else if String.eqb event constCallEventHangUp then
                  maybeEndCallInProgress (AsUser msg) msg
                else mret tt
        end
  end.
End Functions.
End Calls.

(** ** An in-memory store and registry, for concrete runs *)

Module Examples.
Local Open Scope Z_scope.
Import Store.

(** Modelled from the spec: a store that follows the persistence contract
    (section 4.B).  [Create] adds the row of the user under a fresh id.  A
    user is hard-deleted or soft-deleted (section 3): [Delete] with
    [hard] removes the row, and without it keeps the row and marks it
    deleted ([deletedAt]; such users are the ones [GetDisabled] lists).
    One credential at most awaits validation. *)
Record MemWorld : Type := {
  rows : list Uid.t;
  disabled : list Uid.t;
  nextUid : Z;
  unreadCount : Z;
  activeCred : option Credential;
  validatedCreds : list Credential;
  clock : Time
}.

Definition withRows (w : MemWorld) (r : list Uid.t) (next : Z) : MemWorld :=
  {| rows := r; disabled := disabled w; nextUid := next;
     unreadCount := unreadCount w;
     activeCred := activeCred w; validatedCreds := validatedCreds w;
     clock := clock w |}.

Definition withDisabled (w : MemWorld) (d : list Uid.t) : MemWorld :=
  {| rows := rows w; disabled := d; nextUid := nextUid w;
     unreadCount := unreadCount w;
     activeCred := activeCred w; validatedCreds := validatedCreds w;
     clock := clock w |}.

Definition withCreds (w : MemWorld) (a : option Credential) (v : list Credential)
  : MemWorld :=
  {| rows := rows w; disabled := disabled w; nextUid := nextUid w;
     unreadCount := unreadCount w;
     activeCred := a; validatedCreds := v; clock := clock w |}.

Definition hasRow (w : MemWorld) (uid : Uid.t) : bool :=
  existsb (Z.eqb uid) (rows w).


Definition memUsers : UsersMapper MemWorld :=
  {| Create := fun user private w =>
       let uid := nextUid w in
       let h := Header user in
       let user' :=
         {| Header := {| Id := Uid.String uid; id := uid; CreatedAt := clock w;
                         UpdatedAt := clock w; DeletedAt := None |};
            State := State user; Access := Access user; Public := Public user;
            Tags := Tags user |} in
       ((user', None), withRows w (uid :: rows w) (uid + 1));
     Delete := fun uid hard w =>
       if hard then
         (None,
          withDisabled
            (withRows w (List.filter (fun r => negb (r =? uid)) (rows w)) (nextUid w))
            (List.filter (fun r => negb (r =? uid)) (disabled w)))
       else if hasRow w uid then (None, withDisabled w (uid :: disabled w))
       else (Some (StoreErr ErrNotFound), w);
     UpdateTags := fun uid add remove reset w => (None, w);
     GetUnreadCount := fun uid w => ((unreadCount w, None), w);
     GetAllCreds := fun uid validatedOnly w => ((validatedCreds w, None), w);
     GetActiveCred := fun uid method w =>
       ((match activeCred w with
         | Some c => if String.eqb (Method c) method then Some c else None
         | None => None
         end, None), w);
     ConfirmCred := fun uid method w =>
       (None,
        match activeCred w with
        | Some c => withCreds w None (validatedCreds w ++ [c])
        | None => w
        end);
     FailCred := fun uid method w =>
       (None,
        match activeCred w with
        | Some c =>
            withCreds w
              (Some {| Method := Method c; Value := Value c; Resp := Resp c;
                       Retries := Retries c + 1; Done := Done c |})
              (validatedCreds w)
        | None => w
        end) |}.

Definition emptyWorld : MemWorld :=
  {| rows := []; disabled := []; nextUid := 1; unreadCount := 0; activeCred := None;
     validatedCreds := []; clock := 0 |}.

Definition telConf : Tel.validator := fst (Tel.Init {| Tel.DebugResponse := ""; Tel.MaxRetries := 0 |} "").

Definition telCred : Credential :=
  {| Method := "tel"; Value := "+15550100"; Resp := "424242"; Retries := 0;
     Done := false |}.

(** An authenticator whose [AddRecord] fails with [addErr], if given. *)
Definition memAuth (addErr : option error) : auth.AuthHandler MemWorld :=
  {| auth.IsUnique := fun secret w => ((true, None), w);
     auth.AddRecord := fun rec secret w =>
       match addErr with
       | Some e => ((None, Some e), w)
       | None =>
           ((Some {| auth.Uid := auth.Uid rec; auth.AuthLevel := auth.LevelAuth;
                     auth.Lifetime := auth.Lifetime rec;
                     auth.Features := auth.Features rec;
                     auth.Tags := auth.Tags rec |}, None), w)
       end;
     auth.GenSecret := fun rec w => (([], clock w, None), w) |}.

(** The validator of [tel], with a [Request] that fails with [reqErr], if
    given. *)
Definition memValidator (reqErr : option error) : Server.Validator MemWorld :=
  {| Server.PreCheck := fun cred params w => (None, w);
     Server.Request := fun user cred lang resp tmpToken w => (reqErr, w);
     Server.Check := Tel.Check memUsers telConf |}.

Definition reply (code : Z) (text id topic : string) (ts : Time)
           (params : option (gmap string Server.Any)) : Server.ServerComMessage :=
  {| Server.Ctrl :=
       Some {| Server.ctrl_Id := id; Server.ctrl_Topic := topic;
               Server.ctrl_Params := params; Server.ctrl_Code := code;
               Server.ctrl_Text := text; Server.ctrl_Timestamp := ts |} |}.

Definition errText (err : option error) : string :=
  match err with
  | Some (StoreErr ErrNotFound) => "not found"
  | Some (StoreErr ErrDuplicate) => "duplicate"
  | Some (StoreErr ErrCredentials) => "credentials"
  | Some (StoreErr ErrPolicy) => "policy"
  | Some (StoreErr ErrMalformed) => "malformed"
  | Some (StoreErr ErrUnsupported) => "unsupported"
  | Some (StoreErr ErrInternal) => "internal"
  | Some (OtherErr msg) => msg
  | None => "ok"
  end.


(** A registry with the authenticator and the validator above over the
    store [users]; the methods in [required] are required at every
    level. *)
Definition memEnvOn (users : UsersMapper MemWorld) (addErr reqErr : option error)
           (required : list string) : Server.Env MemWorld :=
  {| Server.Users := users;
     Server.GetLogicalAuthHandler := fun scheme => Some (memAuth addErr);
     Server.GetValidator := fun method =>
       if String.eqb method "tel" then Some (memValidator reqErr) else None;
     Server.authValidators := fun lvl => required;
     Server.addToTags := fun method => true;
     Server.immutableTagNS := [];
     Server.normalizeTags := fun tags =>
       match tags with [] => None | _ => Some tags end;
     Server.restrictedTagsEqual := fun a b ns => true;
     Server.normalizeCredentials := fun creds validate => creds;
     Server.getDefaultAccess := fun authenticated =>
       if authenticated then AccessMode.ModeCP2P else AccessMode.ModeNone;
     Server.isNullValue := fun v => false;
     Server.stringSliceDelta := fun a b =>
       (List.filter (fun x => negb (existsb (String.eqb x) a)) b,
        List.filter (fun x => negb (existsb (String.eqb x) b)) a);
     Server.credentialMethods := map Server.cr_Method;
     Server.decodeStoreError := fun err => reply 500 (errText err);
     Server.ErrAlreadyAuthenticated := fun id topic ts =>
       reply 409 "already authenticated" id topic ts None;
     Server.ErrMalformed := fun id topic ts => reply 400 "malformed" id topic ts None;
     Server.ErrPermissionDenied := fun id topic ts =>
       reply 403 "permission denied" id topic ts None;
     Server.ErrUnknown := fun id topic ts => reply 500 "internal error" id topic ts None;
     Server.NoErrCreated := fun id topic ts => reply 201 "created" id topic ts None;
     Server.onLogin := fun s id ts rec missing w =>
       (reply 200 "ok" id "" ts (Some ∅), w);
     Server.FeatureNoLogin := 2;
     Server.Level_String := fun lvl =>
       match lvl with
       | auth.LevelNone => "" | auth.LevelAnon => "anon"
       | auth.LevelAuth => "auth" | auth.LevelRoot => "root"
       end |}.

Definition memEnv (addErr reqErr : option error) (required : list string)
  : Server.Env MemWorld :=
  memEnvOn memUsers addErr reqErr required.

Definition aliceSession : Server.Session :=
  {| Server.s_uid := Uid.ZeroUid; Server.s_sid := "sid1"; Server.s_lang := "en";
     Server.s_authLvl := auth.LevelNone |}.

Definition telClientCred (response : string) : Server.MsgCredClient :=
  {| Server.cr_Method := "tel"; Server.cr_Value := "+15550100";
     Server.cr_Response := response; Server.cr_Params := None |}.

(** A request for a new account with the given credentials. *)
Definition accMsg (creds : list Server.MsgCredClient) : Server.ClientComMessage :=
  {| Server.msg_Acc :=
       {| Server.acc_Id := "1"; Server.acc_User := "new"; Server.acc_Scheme := "basic";
          Server.acc_Secret := list_ascii_of_string "alice:pw";
          Server.acc_Login := false; Server.acc_Tags := ["alice"%string];
          Server.acc_Desc := None; Server.acc_Cred := creds |};
     Server.msg_id := "1";
     Server.msg_timestamp := 0 |}.

Definition serverStart : Server.state MemWorld :=
  {| Server.world := emptyWorld; Server.log := [] |}.

(** A world in which user 1 is cached with an unread count not loaded,
    the store holding five unread messages. *)
Definition cacheStart : UserCache.state MemWorld :=
  {| UserCache.usersCache := {[ 1 := {| UserCache.unread := -1; UserCache.topics := 1 |} ]};
     UserCache.world :=
       {| rows := [1]; disabled := []; nextUid := 2; unreadCount := 5;
          activeCred := None;
          validatedCreds := []; clock := 0 |};
     UserCache.pushed := [] |}.

(** *** A P2P topic and two sessions *)

Definition callEnv : Calls.Env MemWorld :=
  {| Calls.p2pOtherUser := fun t uid => if uid =? 1 then 2 else 1;
     Calls.isInactive := fun t => false;
     Calls.original := fun t uid => Calls.name t;
     Calls.saveAndBroadcastMessage := fun t msg asUid head content w =>
       ((None, Calls.lastID t + 1), w);
     Calls.TimeNow := fun w => (clock w, w);
     Calls.rangeParties := fun ps w => ps;
     Calls.rangeParties_all := fun ps w => Permutation_refl ps;
     Calls.rangePerUser := fun users w => elements users;
     Calls.rangePerUser_all := fun users w => Permutation_refl (elements users) |}.

(** The same topic methods where the maps are read the other way
    round. *)
Definition callEnvRev : Calls.Env MemWorld :=
  {| Calls.p2pOtherUser := Calls.p2pOtherUser callEnv;
     Calls.isInactive := Calls.isInactive callEnv;
     Calls.original := Calls.original callEnv;
     Calls.saveAndBroadcastMessage := Calls.saveAndBroadcastMessage callEnv;
     Calls.TimeNow := Calls.TimeNow callEnv;
     Calls.rangeParties := fun ps w => rev ps;
     Calls.rangeParties_all := fun ps w => Permutation_sym (Permutation_rev ps);
     Calls.rangePerUser := fun users w => rev (elements users);
     Calls.rangePerUser_all := fun users w =>
       Permutation_sym (Permutation_rev (elements users)) |}.

Definition sessA : Calls.Session := {| Calls.s_ptr := 100; Calls.s_sid := "sidA" |}.
Definition sessB : Calls.Session := {| Calls.s_ptr := 200; Calls.s_sid := "sidB" |}.

Definition p2pTopic : Calls.Topic :=
  {| Calls.name := Uid.P2PName 1 2; Calls.cat := Calls.TopicCatP2P;
     Calls.lastID := 7; Calls.perUser := {[ 1; 2 ]};
     Calls.currentCall := None;
     Calls.callEstablishmentTimer := Calls.TimerStopped |}.

Definition callStart : Calls.state MemWorld :=
  {| Calls.topic := p2pTopic; Calls.world := emptyWorld; Calls.log := [] |}.

Definition callMsg (from : Uid.t) (s : Calls.Session) (event : string)
  : Calls.ClientComMessage :=
  {| Calls.Original := Uid.P2PName 1 2; Calls.RcptTo := Uid.P2PName 1 2;
     Calls.AsUser := Uid.UserId from; Calls.Timestamp := 0;
     Calls.Note := Some {| Calls.note_SeqId := 7; Calls.note_Event := event;
                           Calls.note_Payload := None |};
     Calls.sess := s |}.

(** The user of [accMsg] as the store creates it in the empty world. *)
Definition aliceUser : User :=
  {| Header := {| Id := "AQAAAAAAAAA"; id := 1; CreatedAt := 0; UpdatedAt := 0;
                  DeletedAt := None |};
     State := 0;
     Access := {| Auth := AccessMode.ModeCP2P; Anon := AccessMode.ModeNone |};
     Public := None;
     Tags := ["alice"%string] |}.


Definition createWithoutCredential
  : Effect.outcome (Server.state MemWorld) unit :=
  Server.replyCreateUser (memEnv None None ["tel"%string])
    aliceSession (accMsg []) None serverStart.



(** The state of a run that did not panic. *)
Definition stateOf {S A : Type} (r : Effect.outcome S A) (dflt : S) : S :=
  match r with
  | Effect.Ok _ s => s
  | Effect.Panic _ => dflt
  end.
End Examples.

(* ===================================================================== *)
(** * Definitions, continued: the rest of the packages                    *)
(* ===================================================================== *)

(** ** Pure code that may panic *)

Module Go.
Inductive result (A : Type) : Type :=
| Returns (a : A)
| Panics (msg : string).
Arguments Returns {A} a.
Arguments Panics {A} msg.
End Go.

(** ** Package [types]: the binary and JSON codecs of [Uid] *)

Module UidCodec.
Local Open Scope Z_scope.
Import Uid.

Inductive CodecError : Type :=
| ErrUnmarshalBinaryLength      (* "Uid.UnmarshalBinary: invalid length" *)
| ErrUnmarshalJSONLength        (* "Uid.UnmarshalJSON: invalid length" *)
| ErrUnmarshalJSONUnrecognized  (* "Uid.UnmarshalJSON: unrecognized" *)
| ErrText (e : UidError).       (* the error of UnmarshalText, as it is *)

(** [UnmarshalBinary] reads Uid from byte slice: the receiver after the
    call and the error. *)
Definition UnmarshalBinary (uid : t) (b : list Z) : t * option CodecError :=
  if Z.of_nat (length b) <? 8 then (uid, Some ErrUnmarshalBinaryLength)
  else (LittleEndian.Uint64 b, None).

(** The double quote. *)
Definition quote : ascii := "034"%char.

(** [MarshalJSON] converts Uid to double quoted string. *)
Definition MarshalJSON (uid : t) : list ascii :=
  let dst := MarshalText uid in
  ([quote] ++ dst) ++ [quote].

(** [b[i]] of an index in range. *)
Definition at_ (b : list ascii) (i : Z) : ascii := nth (Z.to_nat i) b zero.

(** [b[lo:hi]] for [0 <= lo <= hi <= len(b)]. *)
Definition slice (b : list ascii) (lo hi : Z) : list ascii :=
  firstn (Z.to_nat (hi - lo)) (skipn (Z.to_nat lo) b).

(** [UnmarshalJSON] reads Uid from a double quoted string. *)
Definition UnmarshalJSON (uid : t) (b : list ascii) : t * option CodecError :=
  let size := Z.of_nat (length b) in
  if negb (size =? uidBase64Unpadded + 2) then
    (uid, Some ErrUnmarshalJSONLength)
  else if negb (Ascii.eqb (at_ b 0) quote) || negb (Ascii.eqb (at_ b (size - 1)) quote) then
    (uid, Some ErrUnmarshalJSONUnrecognized)
  else
    let '(uid, err) := UnmarshalText uid (slice b 1 (size - 1)) in
    (uid, option_map ErrText err).
End UidCodec.

(** ** Package [types]: the methods of [ObjHeader] *)

Module Header.
Local Open Scope Z_scope.
Import Store.

Definition setId (h : ObjHeader) (u : Uid.t) : ObjHeader :=
  {| Id := Id h; id := u; CreatedAt := CreatedAt h; UpdatedAt := UpdatedAt h;
     DeletedAt := DeletedAt h |}.

(** [h.Uid()]: the header afterwards, which keeps the id read from the
    text, and the value returned. *)
Definition Uid (h : ObjHeader) : ObjHeader * Uid.t :=
  let h :=
    if Uid.IsZero (id h) && negb (String.eqb (Id h) "")
    then setId h (fst (Uid.UnmarshalText (id h) (list_ascii_of_string (Id h))))
    else h in
  (h, id h).

(** [SetUid] assigns given Uid to appropriate header fields. *)
Definition SetUid (h : ObjHeader) (uid : Uid.t) : ObjHeader :=
  {| Id := Uid.String uid; id := uid; CreatedAt := CreatedAt h;
     UpdatedAt := UpdatedAt h; DeletedAt := DeletedAt h |}.

(** [time.Time]: a time is the number of nanoseconds since the zero time
    instant, January 1 of year 1. *)
Definition Time_IsZero (t : Time) : bool := t =? 0.
Definition Time_Before (t u : Time) : bool := t <? u.

(** [InitTimes] initializes time.Time variables in the header to current
    time; [now] is what [TimeNow()] returns. *)
Definition InitTimes (now : Time) (h : ObjHeader) : ObjHeader :=
  let created := if Time_IsZero (CreatedAt h) then now else CreatedAt h in
  {| Id := Id h; id := id h; CreatedAt := created; UpdatedAt := created;
     DeletedAt := None |}.

(** [MergeTimes] intelligently copies time.Time variables from h2 to h. *)
Definition MergeTimes (h h2 : ObjHeader) : ObjHeader :=
  (* Set the creation time to the earliest value *)
  let created :=
    if Time_IsZero (CreatedAt h)
       || (negb (Time_IsZero (CreatedAt h2)) && Time_Before (CreatedAt h2) (CreatedAt h))
    then CreatedAt h2 else CreatedAt h in
  (* Set the update time to the latest value *)
  let updated :=
    if Time_Before (UpdatedAt h) (UpdatedAt h2) then UpdatedAt h2 else UpdatedAt h in
  (* Set deleted time to the latest value *)
  let deleted :=
    match DeletedAt h2 with
    | Some d2 =>
        match DeletedAt h with
        | None => DeletedAt h2
        | Some d => if Time_Before d d2 then DeletedAt h2 else DeletedAt h
        end
    | None => DeletedAt h
    end in
  {| Id := Id h; id := id h; CreatedAt := created; UpdatedAt := updated;
     DeletedAt := deleted |}.

(** [IsDeleted] returns true if the object is deleted. *)
Definition IsDeleted (h : ObjHeader) : bool :=
  match DeletedAt h with
  | Some _ => true
  | None => false
  end.

(** The three times of a header. *)
Definition times (h : ObjHeader) : Time * Time * option Time :=
  (CreatedAt h, UpdatedAt h, DeletedAt h).
End Header.

(** ** Package [types]: the flags and the JSON codec of [AccessMode] *)

Module AccessFlags.
Local Open Scope Z_scope.
Import AccessMode.

(** [IsJoiner] checks if joiner flag J is set. *)
Definition IsJoiner (m : t) : bool := negb (Z.land m ModeJoin =? 0).
(** [IsOwner] checks if owner bit O is set. *)
Definition IsOwner (m : t) : bool := negb (Z.land m ModeOwner =? 0).
(** [IsApprover] checks if approver A bit is set. *)
Definition IsApprover (m : t) : bool := negb (Z.land m ModeApprove =? 0).
(** [IsAdmin] check if owner O or approver A flag is set. *)
Definition IsAdmin (m : t) : bool := IsOwner m || IsApprover m.
(** [IsSharer] checks if approver A or sharer S or owner O flag is set. *)
Definition IsSharer (m : t) : bool := IsAdmin m || negb (Z.land m ModeShare =? 0).
(** [IsWriter] checks if allowed to publish (writer flag W is set). *)
Definition IsWriter (m : t) : bool := negb (Z.land m ModeWrite =? 0).
(** [IsReader] checks if reader flag R is set. *)
Definition IsReader (m : t) : bool := negb (Z.land m ModeRead =? 0).
(** [IsPresencer] checks if user receives presence updates (P flag set). *)
Definition IsPresencer (m : t) : bool := negb (Z.land m ModePres =? 0).
(** [IsDeleter] checks if user can hard-delete messages (D flag is set). *)
Definition IsDeleter (m : t) : bool := negb (Z.land m ModeDelete =? 0).
(** [IsZero] checks if no flags are set. *)
Definition IsZero (m : t) : bool := m =? 0.
(** [IsInvalid] checks if mode is invalid. *)
Definition IsInvalid (m : t) : bool := m =? ModeInvalid.

(** The flag predicates, by name. *)
Definition flags : list (t -> bool) :=
  [IsJoiner; IsOwner; IsApprover; IsAdmin; IsSharer; IsWriter; IsReader;
   IsPresencer; IsDeleter].

Inductive JSONError : Type :=
| ErrSyntax                      (* "syntax error" *)
| ErrMode (e : ModeError).       (* the error of UnmarshalText, as it is *)

(** [MarshalJSON] converts AccessMode to quoted string: the bytes ([[]]
    for [nil]) and the error. *)
Definition MarshalJSON (m : t) : list ascii * option ModeError :=
  let '(res, err) := MarshalText m in
  match err with
  | Some e => ([], Some e)
  | None =>
      let res := [UidCodec.quote] ++ res in
      (res ++ [UidCodec.quote], None)
  end.

(** [UnmarshalJSON] reads AccessMode from a quoted string.  The bytes
    [b[0]] and [b[len(b)-1]] are read unguarded, and so is the slice
    [b[1 : len(b)-1]]. *)
Definition UnmarshalJSON (m : t) (b : list ascii) : Go.result (t * option JSONError) :=
  let len := Z.of_nat (length b) in
  if len =? 0 then Go.Panics "index out of range [0] with length 0"
  else if negb (Ascii.eqb (UidCodec.at_ b 0) UidCodec.quote)
          || negb (Ascii.eqb (UidCodec.at_ b (len - 1)) UidCodec.quote) then
    Go.Returns (m, Some ErrSyntax)
  else if len - 1 <? 1 then Go.Panics "slice bounds out of range [1:0]"
  else
    let '(m, err) := UnmarshalText m (UidCodec.slice b 1 (len - 1)) in
    Go.Returns (m, option_map ErrMode err).

(** The lower-case form of an ASCII letter. *)
Definition toLower (c : ascii) : ascii :=
  let n := nat_of_ascii c in
  if ((65 <=? n) && (n <=? 90))%nat then ascii_of_nat (n + 32) else c.

(** Two runs of the loop of [UnmarshalText] agree: they end with the same
    value, or both are refused. *)
Definition agree (r1 r2 : t + ascii) : Prop :=
  match r1, r2 with
  | inl a, inl b => a = b
  | inr _, inr _ => True
  | _, _ => False
  end.

(** A byte other than the letter N. *)
Definition notN (c : ascii) : Prop := c <> "N"%char /\ c <> "n"%char.
End AccessFlags.

(** ** Package [types]: the access table of a stored [Topic] *)

Module StoredTopic.
Local Open Scope Z_scope.
Import Store.

Record perUserData : Type := {
  private : option Blob;
  want : AccessMode.t;
  given : AccessMode.t
}.

(** [Topic] stored in database; [perUser] is [None] for a [nil] map. *)
Record Topic : Type := {
  Header : ObjHeader;
  UseBt : bool;
  Access : DefaultAccess;
  SeqId : Z;
  DelId : Z;
  Public : option Blob;
  Tags : list string;
  (* first assigned owner *)
  owner : Uid.t;
  (* deserialized from Subscription *)
  perUser : option (gmap Z perUserData)
}.

Definition setPerUser (t : Topic) (m : option (gmap Z perUserData)) : Topic :=
  {| Header := Header t; UseBt := UseBt t; Access := Access t; SeqId := SeqId t;
     DelId := DelId t; Public := Public t; Tags := Tags t; owner := owner t;
     perUser := m |}.
Definition setOwner (t : Topic) (uid : Uid.t) : Topic :=
  {| Header := Header t; UseBt := UseBt t; Access := Access t; SeqId := SeqId t;
     DelId := DelId t; Public := Public t; Tags := Tags t; owner := uid;
     perUser := perUser t |}.

(** [if t.perUser == nil { t.perUser = make(map[Uid]*perUserData, 1) }] *)
Definition madePerUser (t : Topic) : gmap Z perUserData :=
  match perUser t with
  | Some m => m
  | None => ∅
  end.

(** [pud := t.perUser[uid]; if pud == nil { pud = &perUserData{} }] *)
Definition entryOf (m : gmap Z perUserData) (uid : Uid.t) : perUserData :=
  match m !! uid with
  | Some pud => pud
  | None => {| private := None; want := 0; given := 0 |}
  end.

(** [GiveAccess] updates access mode for the given user. *)
Definition GiveAccess (t : Topic) (uid : Uid.t) (want given : AccessMode.t) : Topic :=
  let m := madePerUser t in
  let pud := entryOf m uid in
  let pud := {| private := private pud; want := want; given := given |} in
  let t := setPerUser t (Some (<[uid := pud]> m)) in
  if negb (Z.land (Z.land want given) AccessMode.ModeOwner =? 0) && Uid.IsZero (owner t)
  then setOwner t uid
  else t.

(** [SetPrivate] updates private value for the given user. *)
Definition SetPrivate (t : Topic) (uid : Uid.t) (private : option Blob) : Topic :=
  let m := madePerUser t in
  let pud := entryOf m uid in
  let pud := {| private := private; want := want pud;
                given := given pud |} in
  setPerUser t (Some (<[uid := pud]> m)).

(** [GetOwner] returns topic's owner. *)
Definition GetOwner (t : Topic) : Uid.t := owner t.

(** [GetPrivate] returns given user's private value. *)
Definition GetPrivate (t : Topic) (uid : Uid.t) : option Blob :=
  match perUser t with
  | None => None
  | Some m =>
      match m !! uid with
      | None => None
      | Some pud => private pud
      end
  end.

(** [GetAccess] returns given user's access mode. *)
Definition GetAccess (t : Topic) (uid : Uid.t) : AccessMode.t :=
  match perUser t with
  | None => 0
  | Some m =>
      match m !! uid with
      | None => 0
      | Some pud => Z.land (given pud) (want pud)
      end
  end.

(** The users the table has an entry for. *)
Definition subscribed (t : Topic) (uid : Uid.t) : Prop :=
  is_Some (madePerUser t !! uid).
End StoredTopic.

(** ** Package [types]: ranges of message ids *)

Module Ranges.
Local Open Scope Z_scope.
Import Effect.

(** [Range] is a range of message SeqIDs. *)
Record Range : Type := {
  Low : Z;
  Hi : Z
}.

(** [type RangeSorter []Range].  A method gets a copy of the slice, which
    shares its elements with the slice of the caller: the state of a
    method is the array of the elements. *)
Abbreviation RangeSorter := (list Range).

(** [Len] is the length of the range. *)
Definition Len (rs : RangeSorter) : Z := Z.of_nat (length rs).

(** [rs[i]], read. *)
Definition index (i : Z) : M RangeSorter Range :=
  fun rs =>
    if (0 <=? i) && (i <? Len rs) then
      match rs !! Z.to_nat i with
      | Some r => Ok r rs
      | None => Panic "index out of range"
      end
    else Panic "index out of range".

(** [rs[i] = r] *)
Definition assign (i : Z) (r : Range) : M RangeSorter unit :=
  fun rs =>
    if (0 <=? i) && (i <? Len rs) then Ok tt (<[Z.to_nat i := r]> rs)
    else Panic "index out of range".

(** [Swap] swaps two items in a slice. *)
Definition Swap (i j : Z) : M RangeSorter unit :=
  rj ← index j;
  ri ← index i;
  assign i rj;;
  assign j ri.

(** [Less] is a comparator.  Sort by Low ascending, then sort by Hi
    descending. *)
Definition Less (i j : Z) : M RangeSorter bool :=
  ri ← index i;
  rj ← index j;
  if Low ri <? Low rj then mret true
  else if Low ri =? Low rj then mret (Hi ri >=? Hi rj)
  else mret false.

(** The loop of [Normalize], [n] turns from [i] on: the value of [prev]
    at the end. *)
Fixpoint normalizeLoop (n : nat) (i prev : Z) : M RangeSorter Z :=
  match n with
  | O => mret prev
  | S n' =>
      rp ← index prev;
      ri ← index i;
      if Low rp =? Low ri then
        (* Earlier range is guaranteed to be wider or equal to the later
           range, collapse two ranges into one (by doing nothing) *)
        normalizeLoop n' (GoInt.add i 1) prev
      else if (Hi rp >? 0) && (GoInt.add (Hi rp) 1 >=? Low ri) then
        (* Partial overlap *)
        (if Hi rp <? Hi ri then assign prev {| Low := Low rp; Hi := Hi ri |}
         else mret tt);;
        normalizeLoop n' (GoInt.add i 1) prev
      else
        (* No overlap *)
        normalizeLoop n' (GoInt.add i 1) (GoInt.add prev 1)
  end.

(** [Normalize] ranges - remove overlaps.  The statement
    [rs = rs[:prev+1]] at its end changes the method's copy of the slice,
    which is dropped on return. *)
Definition Normalize : M RangeSorter unit :=
  fun rs =>
    let ll := Len rs in
    if ll >? 1 then
      (prev ← normalizeLoop (Z.to_nat (ll - 1)) 1 0; mret tt) rs
    else Ok tt rs.

(** The comparison [Less] makes of two ranges. *)
Definition before (r1 r2 : Range) : bool :=
  if Low r1 <? Low r2 then true
  else if Low r1 =? Low r2 then Hi r1 >=? Hi r2
  else false.

(** What a method may have done to the elements of the slice of its
    caller: as many ranges as before, each with its [Low] and with a [Hi]
    that is not smaller. *)
Definition grown (rs rs' : RangeSorter) : Prop :=
  length rs' = length rs /\
  forall (k : nat) (r : Range),
    rs !! k = Some r ->
    exists r' : Range, rs' !! k = Some r' /\ Low r' = Low r /\ Hi r <= Hi r'.
End Ranges.

(** ** Package [types]: topic categories *)

Module TopicNames.
Import Calls.

(** [GetTopicCat] given topic name returns topic category. *)
Definition GetTopicCat (name : string) : Go.result TopicCat :=
  if (String.length name <? 3)%nat then
    Go.Panics "slice bounds out of range"
  else
    let prefix := Uid.strTake 3 name in
    if String.eqb prefix "usr" then Go.Returns TopicCatMe
    else if String.eqb prefix "p2p" then Go.Returns TopicCatP2P
    else if String.eqb prefix "grp" then Go.Returns TopicCatGrp
    else if String.eqb prefix "fnd" then Go.Returns TopicCatFnd
    else Go.Panics ("invalid topic type for name '" ++ name ++ "'").
End TopicNames.

(** ** Video calls: the shape of a call *)

Module CallShape.
Import Calls.

(** A call has one party, its originator, while it is being established,
    and two parties once it is: the originator and, on another session,
    the user that accepted. *)
Definition wellFormed (c : videoCall) : Prop :=
  match parties c with
  | [(_, p)] => isOriginator p = true
  | [(s1, p1); (s2, p2)] =>
      isOriginator p1 = true /\ isOriginator p2 = false /\ sameSession s1 s2 = false
  | _ => False
  end.

(** The call of a topic, if there is one, is well formed, and the timer
    of call establishment does not run on a call of two parties. *)
Definition callInv (t : Topic) : Prop :=
  match currentCall t with
  | None => True
  | Some c =>
      wellFormed c /\
      (length (parties c) = 2%nat -> callEstablishmentTimer t = TimerStopped)
  end.

(** The originator of the call of the topic is known: the call has a
    party marked as its originator, on a session and under a non-zero
    user id. *)
Definition originatorKnown (t : Topic) : Prop :=
  match currentCall t with
  | None => True
  | Some c =>
      exists (uid : Uid.t) (sess : Session),
        findOriginator (parties c) = (uid, Some sess) /\ uid <> Uid.ZeroUid
  end.

(** The text that replaces the invite when a call ends. *)
Definition endContent (from : string) (c : videoCall) : string :=
  if negb (String.eqb from "") && (length (parties c) =? 2)%nat
  then constCallMsgFinished
  else constCallMsgDisconnected.
End CallShape.

(** ** [server/user.go]: the senders of cache updates *)

Module UsersQueue.
Local Open Scope Z_scope.
Import UserCache.

(** [globals.usersUpdate], a channel that [usersInit] makes with a buffer
    of 1024 updates: the updates sent and not yet received, the oldest
    first; [None] is the [nil] channel. *)
Definition capacity : Z := 1024.

Record globals : Type := {
  usersUpdate : option (list (option userUpdate))
}.

(** [select { case globals.usersUpdate <- upd: default: }]: the update is
    queued when the buffer has room and dropped when it has none. *)
Definition trySend (upd : userUpdate) (q : list (option userUpdate))
  : list (option userUpdate) :=
  if Z.of_nat (length q) <? capacity then q ++ [Some upd] else q.

(** [usersInit]: the empty cache and the empty channel (the updater it
    starts is [userUpdater]). *)
Definition usersInit : gmap Z UserCacheEntry * globals :=
  (∅, {| usersUpdate := Some [] |}).

Definition usersUpdateUnread (uid : Uid.t) (val : Z) (inc : bool) (g : globals)
  : globals :=
  match usersUpdate g with
  | Some q =>
      if negb inc || negb (val =? 0) then
        {| usersUpdate :=
             Some (trySend {| upd_uid := uid; upd_uidList := []; upd_unread := val;
                              upd_inc := inc; upd_pushRcpt := None |} q) |}
      else g
  | None => g
  end.

(** [usersPush] processes push notification; [rcpt] may be [nil]. *)
Definition usersPush (rcpt : option Receipt) (g : globals) : globals :=
  match usersUpdate g with
  | Some q =>
      {| usersUpdate :=
           Some (trySend {| upd_uid := 0; upd_uidList := []; upd_unread := 0;
                            upd_inc := false; upd_pushRcpt := rcpt |} q) |}
  | None => g
  end.

(** [usersRegisterTopic] accounts users as members of an active topic.
    [keys] is the order in which [for uid := range t.perUser] yields the
    users of the topic, which the language does not fix: every key of
    the map, once. *)
Definition rangeOrder (keys : list Uid.t) (t : Calls.Topic) : Prop :=
  Permutation keys (elements (Calls.perUser t)).

Definition usersRegisterTopic (keys : list Uid.t) (t : option Calls.Topic)
           (uid : Uid.t) (add : bool) (g : globals) : globals :=
  match usersUpdate g with
  | None => g
  | Some q =>
      match t with
      | Some t =>
          if (size (Calls.perUser t) =? 0)%nat then
            (* me and fnd topics *)
            g
          else
            {| usersUpdate :=
                 Some (trySend {| upd_uid := 0; upd_uidList := keys;
                                  upd_unread := 0; upd_inc := add;
                                  upd_pushRcpt := None |} q) |}
      | None =>
          {| usersUpdate :=
               Some (trySend {| upd_uid := 0; upd_uidList := [uid]; upd_unread := 0;
                                upd_inc := add; upd_pushRcpt := None |} q) |}
      end
  end.

(** The channel is [nil] or holds no more than its buffer. *)
Definition bounded (g : globals) : Prop :=
  match usersUpdate g with
  | Some q => Z.of_nat (length q) <= capacity
  | None => True
  end.

(** The buffer of the channel is full. *)
Definition full (g : globals) : Prop :=
  exists q : list (option userUpdate),
    usersUpdate g = Some q /\ Z.of_nat (length q) = capacity.

(** The updates waiting in the channel. *)
Definition waiting (g : globals) : list (option userUpdate) :=
  match usersUpdate g with
  | Some q => q
  | None => []
  end.
End UsersQueue.

(** ** Account creation: what a run leaves in the log *)

Module AccountLog.
Local Open Scope Z_scope.
Import Store Server.

(** The messages queued to sessions, by session id. *)
Definition replies (evs : list Event) : list (string * ServerComMessage) :=
  flat_map (fun e => match e with
                     | EvQueueOut sid m => [(sid, m)]
                     | _ => []
                     end) evs.

(** The users [Users.Create] was called for. *)
Definition created (evs : list Event) : list User :=
  flat_map (fun e => match e with
                     | EvUsersCreate user _ _ => [user]
                     | _ => []
                     end) evs.

(** The requests [addCreds] makes for the credentials when none of them
    fails: one for every credential with a known validator, in the order
    of the credentials. *)
Definition requestsOf {W : Type} (env : Env W) (uid : Uid.t)
           (creds : list MsgCredClient) (lang : string) (tmpToken : list ascii)
  : list Event :=
  flat_map (fun cr => match GetValidator env (cr_Method cr) with
                      | Some _ =>
                          [EvRequest (cr_Method cr) uid (cr_Value cr) lang
                                     (cr_Response cr) tmpToken None]
                      | None => []
                      end) creds.

(** A credential with a known validator and a response. *)
Definition answered {W : Type} (env : Env W) (cr : MsgCredClient) : bool :=
  match GetValidator env (cr_Method cr) with
  | Some _ => negb (String.eqb (cr_Response cr) "")
  | None => false
  end.

(** The methods [addCreds] reports as validated, and the tags it makes
    for them. *)
Definition validatedBy {W : Type} (env : Env W) (creds : list MsgCredClient)
  : list string :=
  map cr_Method (List.filter (answered env) creds).

Definition tagsBy {W : Type} (env : Env W) (creds : list MsgCredClient)
  : list string :=
  map (fun cr => (cr_Method cr ++ ":" ++ cr_Value cr)%string)
      (List.filter (fun cr => answered env cr && addToTags env (cr_Method cr)) creds).
End AccountLog.

(** ** More concrete runs *)

Module Samples.
Local Open Scope Z_scope.
Import Store Examples.

(** A group topic of the users 1 and 2. *)
Definition grpStart : Calls.state MemWorld :=
  {| Calls.topic :=
       {| Calls.name := "grpAbc"; Calls.cat := Calls.TopicCatGrp;
          Calls.lastID := 3; Calls.perUser := {[ 1; 2 ]};
          Calls.currentCall := None;
          Calls.callEstablishmentTimer := Calls.TimerStopped |};
     Calls.world := emptyWorld; Calls.log := [] |}.

(** User 1 has invited user 2 from the session A. *)
Definition ringingCall : Calls.videoCall :=
  {| Calls.parties := [(sessA, {| Calls.uid := 1; Calls.isOriginator := true |})];
     Calls.seq := 7 |}.

Definition callRinging : Calls.state MemWorld :=
  {| Calls.topic :=
       Calls.setTimer (Calls.setCurrentCall p2pTopic (Some ringingCall))
                      (Calls.TimerArmed Calls.constCallEstablishmentTimeout);
     Calls.world := emptyWorld; Calls.log := [] |}.

(** User 2 has accepted on the session B. *)
Definition establishedCall : Calls.videoCall :=
  {| Calls.parties := [(sessA, {| Calls.uid := 1; Calls.isOriginator := true |});
                       (sessB, {| Calls.uid := 2; Calls.isOriginator := false |})];
     Calls.seq := 7 |}.

Definition callEstablished : Calls.state MemWorld :=
  {| Calls.topic :=
       Calls.setTimer
         (Calls.setCurrentCall (Calls.setLastID p2pTopic 8) (Some establishedCall))
         Calls.TimerStopped;
     Calls.world := emptyWorld; Calls.log := [] |}.

(** A cache in which the counts of the users 1 and 2 are loaded, and a
    receipt for the two. *)
Definition cacheLoaded : UserCache.state MemWorld :=
  {| UserCache.usersCache :=
       <[2 := {| UserCache.unread := 0; UserCache.topics := 2 |}]>
         {[ 1 := {| UserCache.unread := 3; UserCache.topics := 1 |} ]};
     UserCache.world := emptyWorld;
     UserCache.pushed := [] |}.

Definition receipt12 : UserCache.Receipt :=
  {| UserCache.To :=
       [(1, {| UserCache.Delivered := 0; UserCache.Devices := [];
               UserCache.Unread := 0 |});
        (2, {| UserCache.Delivered := 0; UserCache.Devices := [];
               UserCache.Unread := 0 |})];
     UserCache.Payload := "hello" |}.

(** The note of a call event. *)
Definition noteOf (event : string) : Calls.MsgClientNote :=
  {| Calls.note_SeqId := 7; Calls.note_Event := event; Calls.note_Payload := None |}.
End Samples.

(** ** The users cache: what the updates amount to *)

Module CacheOps.
Local Open Scope Z_scope.
Import UserCache.

(** The number of times a user is listed. *)
Definition listed (l : list Uid.t) (uid : Uid.t) : Z :=
  Z.of_nat (count_occ Z.eq_dec l uid).

(** The entry of a user after [k] registrations. *)
Definition registered (k : Z) (e : option UserCacheEntry) : option UserCacheEntry :=
  if k =? 0 then e
  else match e with
       | Some uce => Some (setTopics uce (topics uce + k))
       | None => Some {| unread := -1; topics := k |}
       end.

(** The entry of a user after [k] removals. *)
Definition unregistered (k : Z) (e : option UserCacheEntry) : option UserCacheEntry :=
  if k =? 0 then e
  else match e with
       | Some uce => if topics uce >? k then Some (setTopics uce (topics uce - k)) else None
       | None => None
       end.

(** The membership update [usersRegisterTopic] builds. *)
Definition membership (uidList : list Uid.t) (add : bool) : userUpdate :=
  {| upd_uid := 0; upd_uidList := uidList; upd_unread := 0; upd_inc := add;
     upd_pushRcpt := None |}.

(** The push update [usersPush] builds. *)
Definition pushOf (rcpt : Receipt) : userUpdate :=
  {| upd_uid := 0; upd_uidList := []; upd_unread := 0; upd_inc := false;
     upd_pushRcpt := Some rcpt |}.

(** The unread count the cache holds for a user. *)
Definition unreadOf (c : gmap Z UserCacheEntry) (uid : Uid.t) : Z :=
  unread (fst (lookupEntry c uid)).

(** A recipient told the count of a user after one more message. *)
Definition told (c : gmap Z UserCacheEntry) (to : Uid.t * Recipient)
  : Uid.t * Recipient :=
  (fst to, {| Delivered := Delivered (snd to); Devices := Devices (snd to);
              Unread := unreadOf c (fst to) + 1 |}).

(** The count of a user is loaded and can take one more message. *)
Definition loaded (c : gmap Z UserCacheEntry) (uid : Uid.t) : Prop :=
  exists uce : UserCacheEntry,
    c !! uid = Some uce /\ 0 <= unread uce < GoInt.max_int.
End CacheOps.

(** ** [server/user.go]: the update of an account *)

Module AccountUpdate.
Local Open Scope Z_scope.
Import Effect Store Server.

(** The request as [replyUpdateUser] reads it: the message with, besides
    the fields account creation reads, [msg.from], [msg.authLvl] (an
    [int] the function converts with [auth.Level(msg.authLvl)]) and
    [msg.Acc.AuthLevel]. *)
Record Request : Type := {
  msg : ClientComMessage;
  from : string;
  authLvl : auth.Level;
  acc_AuthLevel : string
}.

(** What the update takes from the rest of the server besides what
    account creation takes. *)
Record Env (W : Type) : Type := {
  server : Server.Env W;
  (* store.Users.Get(uid) (User pointer, error) *)
  UsersGet : Uid.t -> W -> (option User * option error) * W;
  (* UpdateRecord(rec, secret) (Rec pointer, error), of the handler of a scheme *)
  UpdateRecord : string -> auth.Rec -> list ascii -> W
                 -> (option auth.Rec * option error) * W;
  ParseAuthLevel : string -> auth.Level;
  NoErrParams : string -> string -> Time -> option (gmap string Any)
                -> ServerComMessage
}.
Arguments server {W}.
Arguments UsersGet {W}.
Arguments UpdateRecord {W}.
Arguments ParseAuthLevel {W}.
Arguments NoErrParams {W}.

Section Functions.
Context {W : Type}.
Variable env : Env W.

(** [p == nil] of a pointer. *)
Definition isNil {A : Type} (p : option A) : bool :=
  match p with
  | None => true
  | Some _ => false
  end.

(** [userId] and [authLvl] as the request or the token give them. *)
Definition requester (r : Request) (rec : option auth.Rec) : string * auth.Level :=
  match rec with
  | Some rc => (Uid.UserId (auth.Uid rc), auth.AuthLevel rc)
  | None => (from r, authLvl r)
  end.

(** Another account than the requester's is named. *)
Definition namesAnother (r : Request) (rec : option auth.Rec) : bool :=
  negb (String.eqb (acc_User (msg_Acc (msg r))) "")
  && negb (String.eqb (acc_User (msg_Acc (msg r))) (fst (requester r rec))).

(** The first part of [replyUpdateUser], up to the read of the user: the
    account to update and the level of authentication, or the message
    the request is refused with. *)
Definition subject (s : Session) (r : Request) (rec : option auth.Rec)
  : ServerComMessage + Uid.t * auth.Level :=
  let id := msg_id (msg r) in
  let ts := msg_timestamp (msg r) in
  if Uid.IsZero (s_uid s) && isNil rec then
    (* Session is not authenticated and no token provided. *)
    inl (ErrPermissionDenied (server env) id "" ts)
  else if negb (String.eqb (from r) "") && negb (isNil rec) then
    (* Two UIDs: one from msg.from, one from token. Ambigous, reject. *)
    inl (ErrMalformed (server env) id "" ts)
  else
    let '(userId, authLvl) := requester r rec in
    if namesAnother r rec && negb (bool_decide (s_authLvl s = auth.LevelRoot)) then
      inl (ErrPermissionDenied (server env) id "" ts)
    else
      let '(userId, authLvl) :=
        if namesAnother r rec then
          (* Root is editing someone else's account. *)
          (acc_User (msg_Acc (msg r)), ParseAuthLevel env (acc_AuthLevel r))
        else (userId, authLvl) in
      let uid := Types.ParseUserId userId in
      if Uid.IsZero uid || bool_decide (authLvl = auth.LevelNone) then
        (* Either msg.Acc.User or msg.Acc.AuthLevel contains invalid data. *)
        inl (ErrMalformed (server env) id "" ts)
      else inr (uid, authLvl).

(** [updateUserAuth]: authentication update. *)
Definition updateUserAuth (r : Request) (user : User) (rec : option auth.Rec)
  : M (state W) (option error) :=
  let acc := msg_Acc (msg r) in
  match GetLogicalAuthHandler (server env) (acc_Scheme acc) with
  | Some authhdl =>
      res ← call (UpdateRecord env (acc_Scheme acc)
                    {| auth.Uid := User_Uid user; auth.AuthLevel := auth.LevelNone;
                       auth.Lifetime := 0; auth.Features := 0;
                       auth.Tags := Tags user |}
                    (acc_Secret acc));
      match snd res with
      | Some err => mret (Some err)
      | None =>
          match fst res with
          | None => panic "invalid memory address or nil pointer dereference"
          | Some rec' =>
              (* Tags may have been changed by authhdl.UpdateRecord, reset them.
                 Can't do much with the error here, so ignoring it. *)
              UsersUpdateTags (server env) (User_Uid user) [] [] (auth.Tags rec');;
              mret None
          end
      end
  | None =>
      (* Invalid or unknown auth scheme *)
      mret (Some (StoreErr Store.ErrMalformed))
  end.

(** The end of [replyUpdateUser]: the error is reported, or the success
    with [params], and then the plugins are told. *)
Definition finish (s : Session) (r : Request) (user : User) (err : option error)
           (params : option (gmap string Any)) : M (state W) unit :=
  match err with
  | Some e =>
      queueOut s (decodeStoreError (server env) (Some e) (msg_id (msg r)) ""
                    (msg_timestamp (msg r)) None)
  | None =>
      queueOut s (NoErrParams env (msg_id (msg r)) "" (msg_timestamp (msg r)) params);;
      (* Call plugin with the account update *)
      emit (EvPluginAccount user plgActUpd)
  end.

(** [params] after a call of [updateCreds]. *)
Definition credParams (authLvl : auth.Level) (res : list string * option error)
  : option (gmap string Any) :=
  match snd res with
  | None =>
      let missing :=
        snd (stringSliceDelta (server env) (authValidators (server env) authLvl)
               (fst res)) in
      if (0 <? length missing)%nat then Some {[ "cred"%string := AStrings missing ]}
      else None
  | Some _ => None
  end.

(** [replyUpdateUser] processes an update to an account: an
    authentication update, i.e. login/password change, or a credentials
    update. *)
Definition replyUpdateUser (s : Session) (r : Request) (rec : option auth.Rec)
  : M (state W) unit :=
  match subject s r rec with
  | inl refusal => queueOut s refusal
  | inr (uid, authLvl) =>
      got ← call (UsersGet env uid);
      match got with
      | (None, None) =>
          queueOut s (decodeStoreError (server env) (Some (StoreErr ErrNotFound))
                        (msg_id (msg r)) "" (msg_timestamp (msg r)) None)
      | (_, Some err) =>
          queueOut s (decodeStoreError (server env) (Some err)
                        (msg_id (msg r)) "" (msg_timestamp (msg r)) None)
      | (Some user, None) =>
          let acc := msg_Acc (msg r) in
          if negb (String.eqb (acc_Scheme acc) "") then
            err ← updateUserAuth r user rec;
            finish s r user err None
          else if (0 <? length (acc_Cred acc))%nat then
            (* validated, err := updateCreds(...): this err is a variable of
               the branch, the one tested below stays nil *)
            res ← updateCreds (server env) uid authLvl (acc_Cred acc);
            finish s r user None (credParams authLvl res)
          else
            finish s r user (Some (StoreErr Store.ErrMalformed)) None
      end
  end.
End Functions.

(** A run from [st] to [st'] that queued no message. *)
Definition silent {W : Type} (st st' : state W) : Prop :=
  exists evs : list Event,
    log st' = log st ++ evs /\
    flat_map (fun e => match e with
                       | EvQueueOut sid m => [(sid, m)]
                       | _ => []
                       end) evs = [].
End AccountUpdate.

(** ** [server/user.go]: the deletion of an account *)

Module AccountDelete.
Local Open Scope Z_scope.
Import Effect Store.

(** [MsgClientDel], as far as [replyDelUser] reads it, and the message
    that carries it. *)
Record MsgClientDel : Type := {
  del_User : string;
  del_Hard : bool
}.

Record ClientComMessage : Type := {
  msg_Del : MsgClientDel;
  msg_id : string;
  msg_timestamp : Time
}.

(** The calls that leave the function, in the order they are made; [S]
    is the type of a subscription. *)
Inductive Event (S : Type) : Type :=
| EvDelRecords (name : string) (uid : Uid.t) (err : option error)
| EvEvictUser (uid : Uid.t) (skipSid : string)
| EvUnreg (forUser : Uid.t) (del : bool)
| EvUsersOfInterestOffline (uid : Uid.t) (uoi : list S) (what : string)
| EvSubsOffline (topic : string) (subs : list S) (what : string) (skipSid : string)
| EvUsersDelete (uid : Uid.t) (hard : bool) (err : option error)
| EvQueueOut (sid : string) (msg : Server.ServerComMessage)
| EvStop (sid : string) (msg : Server.ServerComMessage).
Arguments EvDelRecords {S}.
Arguments EvEvictUser {S}.
Arguments EvUnreg {S}.
Arguments EvUsersOfInterestOffline {S}.
Arguments EvSubsOffline {S}.
Arguments EvUsersDelete {S}.
Arguments EvQueueOut {S}.
Arguments EvStop {S}.

(** What the deletion takes from the rest of the server. *)
Record Env (W S : Type) : Type := {
  (* store.GetAuthNames() *)
  GetAuthNames : list string;
  (* store.GetAuthHandler(name), by its method DelRecords(uid) error *)
  GetAuthHandler : string -> option (Uid.t -> W -> option error * W);
  (* globals.sessionStore.EvictUser(uid, skipSid) *)
  EvictUser : Uid.t -> string -> W -> W;
  (* globals.hub.unreg <- topicUnreg{forUser, del, done}; <-done *)
  unreg : Uid.t -> bool -> W -> W;
  (* store.Users.GetSubs(uid, nil) *)
  UsersGetSubs : Uid.t -> W -> (list S * option error) * W;
  (* store.Users.GetOwnTopics(uid, nil) *)
  UsersGetOwnTopics : Uid.t -> W -> (list string * option error) * W;
  (* store.Topics.GetSubs(topic, nil) *)
  TopicsGetSubs : string -> W -> (list S * option error) * W;
  (* store.Users.Delete(uid, hard) *)
  UsersDelete : Uid.t -> bool -> W -> option error * W;
  ErrMalformed : string -> string -> Time -> Server.ServerComMessage;
  ErrPermissionDenied : string -> string -> Time -> Server.ServerComMessage;
  decodeStoreError : option error -> string -> string -> Time
                     -> option (gmap string Server.Any) -> Server.ServerComMessage;
  NoErr : string -> string -> Time -> Server.ServerComMessage;
  NoErrEvicted : string -> string -> Time -> Server.ServerComMessage
}.
Arguments GetAuthNames {W S}.
Arguments GetAuthHandler {W S}.
Arguments EvictUser {W S}.
Arguments unreg {W S}.
Arguments UsersGetSubs {W S}.
Arguments UsersGetOwnTopics {W S}.
Arguments TopicsGetSubs {W S}.
Arguments UsersDelete {W S}.
Arguments ErrMalformed {W S}.
Arguments ErrPermissionDenied {W S}.
Arguments decodeStoreError {W S}.
Arguments NoErr {W S}.
Arguments NoErrEvicted {W S}.

Record state (W S : Type) : Type := {
  world : W;
  log : list (Event S)
}.
Arguments world {W S}.
Arguments log {W S}.

Section Functions.
Context {W S : Type}.
Variable env : Env W S.

Definition call {A : Type} (f : W -> A * W) : M (state W S) A :=
  fun st => let '(a, w) := f (world st) in Ok a {| world := w; log := log st |}.

Definition act (f : W -> W) : M (state W S) unit :=
  fun st => Ok tt {| world := f (world st); log := log st |}.

Definition emit (e : Event S) : M (state W S) unit :=
  fun st => Ok tt {| world := world st; log := log st ++ [e] |}.

(** [for _, name := range authnames { store.GetAuthHandler(name).DelRecords(uid) }];
    an error is logged and the loop goes on. *)
Fixpoint delRecordsLoop (authnames : list string) (uid : Uid.t) : M (state W S) unit :=
  match authnames with
  | [] => mret tt
  | name :: rest =>
      match GetAuthHandler env name with
      | None => panic "invalid memory address or nil pointer dereference"
      | Some delRecords =>
          err ← call (delRecords uid);
          emit (EvDelRecords name uid err);;
          delRecordsLoop rest uid
      end
  end.

(** [for _, topicName := range ownTopics { ... }] *)
Fixpoint ownTopicsLoop (ownTopics : list string) (sid : string) : M (state W S) unit :=
  match ownTopics with
  | [] => mret tt
  | topicName :: rest =>
      r ← call (TopicsGetSubs env topicName);
      match snd r with
      | None => emit (EvSubsOffline topicName (fst r) "gone" sid)
      | Some _ => mret tt
      end;;
      ownTopicsLoop rest sid
  end.

(** The user to delete, or the message the request is refused with; the
    user is the zero Uid of [var uid types.Uid] when the session may not
    delete another user. *)
Definition target (s : Server.Session) (msg : ClientComMessage)
  : option Server.ServerComMessage * Uid.t :=
  let user := del_User (msg_Del msg) in
  if String.eqb user "" || String.eqb user (Uid.UserId (Server.s_uid s)) then
    (* Delete current user. *)
    (None, Server.s_uid s)
  else if bool_decide (Server.s_authLvl s = auth.LevelRoot) then
    (* Delete another user. *)
    let uid := Types.ParseUserId user in
    (if Uid.IsZero uid
     then Some (ErrMalformed env (msg_id msg) "" (msg_timestamp msg))
     else None, uid)
  else
    (Some (ErrPermissionDenied env (msg_id msg) "" (msg_timestamp msg)), Uid.ZeroUid).

(** The body of [if reply == nil]: the deletion and its reply. *)
Definition deleteUser (s : Server.Session) (msg : ClientComMessage) (uid : Uid.t)
  : M (state W S) Server.ServerComMessage :=
  (* Disable all authenticators *)
  delRecordsLoop (GetAuthNames env) uid;;
  (* Terminate all sessions. Skip the current session so the requester gets a response. *)
  act (EvictUser env uid (Server.s_sid s));;
  emit (EvEvictUser uid (Server.s_sid s));;
  (* Stop topics where the user is the owner and p2p topics. *)
  act (unreg env uid (del_Hard (msg_Del msg)));;
  emit (EvUnreg uid (del_Hard (msg_Del msg)));;
  (* Notify users of interest that the user is gone. *)
  r ← call (UsersGetSubs env uid);
  match snd r with
  | None => emit (EvUsersOfInterestOffline uid (fst r) "gone")
  | Some _ => mret tt
  end;;
  (* Notify subscribers of the group topics where the user was the owner
     that the topics were deleted. *)
  o ← call (UsersGetOwnTopics env uid);
  match snd o with
  | None => ownTopicsLoop (fst o) (Server.s_sid s)
  | Some _ => mret tt
  end;;
  (* Delete user's records from the database. *)
  err ← call (UsersDelete env uid (del_Hard (msg_Del msg)));
  emit (EvUsersDelete uid (del_Hard (msg_Del msg)) err);;
  match err with
  | Some e => mret (decodeStoreError env (Some e) (msg_id msg) "" (msg_timestamp msg) None)
  | None => mret (NoErr env (msg_id msg) "" (msg_timestamp msg))
  end.

(** [replyDelUser]: request to delete a user. *)
Definition replyDelUser (s : Server.Session) (msg : ClientComMessage)
  : M (state W S) unit :=
  let '(refusal, uid) := target s msg in
  reply ← match refusal with
          | Some reply => mret reply
          | None => deleteUser s msg uid
          end;
  emit (EvQueueOut (Server.s_sid s) reply);;
  if Server.s_uid s =? uid then
    (* Evict the current session if it belongs to the deleted user. *)
    emit (EvStop (Server.s_sid s) (NoErrEvicted env "" "" (msg_timestamp msg)))
  else mret tt.
End Functions.

(** The messages queued to sessions, and the users deleted from the
    store. *)
Definition replies {S : Type} (evs : list (Event S))
  : list (string * Server.ServerComMessage) :=
  flat_map (fun e => match e with
                     | EvQueueOut sid m => [(sid, m)]
                     | _ => []
                     end) evs.

Definition stops {S : Type} (evs : list (Event S)) : list string :=
  flat_map (fun e => match e with
                     | EvStop sid _ => [sid]
                     | _ => []
                     end) evs.

Definition deleted {S : Type} (evs : list (Event S)) : list (Uid.t * bool) :=
  flat_map (fun e => match e with
                     | EvUsersDelete uid hard _ => [(uid, hard)]
                     | _ => []
                     end) evs.

(** Events with no reply, no stop of a session and no deletion of a
    user among them. *)
Definition quiet {S : Type} (evs : list (Event S)) : Prop :=
  replies evs = [] /\ stops evs = [] /\ deleted evs = [].

(** Every authenticator named has a handler. *)
Definition handlersRegistered {W S : Type} (env : Env W S) : Prop :=
  forall name : string,
    In name (GetAuthNames env) -> GetAuthHandler env name <> None.
End AccountDelete.

(** ** Requests to update and to delete an account, on the in-memory store *)

Module AccountSamples.
Local Open Scope Z_scope.
Import Store Examples.

(** The account of user 1 is in the store. *)
Definition homeWorld : MemWorld := withRows emptyWorld [1] 2.

Definition homeStart : Server.state MemWorld :=
  {| Server.world := homeWorld; Server.log := [] |}.

(** The registry of [memEnv], a store that reads the one user it has, a
    handler that keeps the record it is given. *)
Definition updEnv (required : list string) : AccountUpdate.Env MemWorld :=
  {| AccountUpdate.server := memEnv None None required;
     AccountUpdate.UsersGet := fun uid w =>
       ((if hasRow w uid then Some aliceUser else None, None), w);
     AccountUpdate.UpdateRecord := fun scheme rec secret w => ((Some rec, None), w);
     AccountUpdate.ParseAuthLevel := fun text =>
       if String.eqb text "anon" then auth.LevelAnon
       else if String.eqb text "auth" then auth.LevelAuth
       else if String.eqb text "root" then auth.LevelRoot
       else auth.LevelNone;
     AccountUpdate.NoErrParams := reply 200 "ok" |}.

(** The session of user 1, authenticated. *)
Definition ownSession : Server.Session :=
  {| Server.s_uid := 1; Server.s_sid := "sid1"; Server.s_lang := "en";
     Server.s_authLvl := auth.LevelAuth |}.

(** A request of user 1 to update the account [user], by the scheme and
    the credentials given. *)
Definition updMsg (user scheme : string) (creds : list Server.MsgCredClient)
  : AccountUpdate.Request :=
  {| AccountUpdate.msg :=
       {| Server.msg_Acc :=
            {| Server.acc_Id := "2"; Server.acc_User := user;
               Server.acc_Scheme := scheme;
               Server.acc_Secret := list_ascii_of_string "alice:new";
               Server.acc_Login := false; Server.acc_Tags := [];
               Server.acc_Desc := None; Server.acc_Cred := creds |};
          Server.msg_id := "2";
          Server.msg_timestamp := 0 |};
     AccountUpdate.from := Uid.UserId 1;
     AccountUpdate.authLvl := auth.LevelAuth;
     AccountUpdate.acc_AuthLevel := "" |}.

(** The same request from a session that is not authenticated, with the
    token of user 1. *)
Definition tokenMsg (scheme : string) : AccountUpdate.Request :=
  {| AccountUpdate.msg := AccountUpdate.msg (updMsg "" scheme []);
     AccountUpdate.from := "";
     AccountUpdate.authLvl := auth.LevelNone;
     AccountUpdate.acc_AuthLevel := "" |}.

Definition tokenRec : auth.Rec :=
  {| auth.Uid := 1; auth.AuthLevel := auth.LevelAuth; auth.Lifetime := 0;
     auth.Features := 0; auth.Tags := [] |}.

(** A server with one authenticator whose records cannot be deleted and
    a store whose [Delete] fails with [delErr], if given; user 1 owns the
    topic [grpAbc]. *)
Definition delEnv (delErr : option error) : AccountDelete.Env MemWorld Uid.t :=
  {| AccountDelete.GetAuthNames := ["basic"%string];
     AccountDelete.GetAuthHandler := fun name =>
       if String.eqb name "basic"
       then Some (fun uid w => (Some (StoreErr ErrNotFound), w))
       else None;
     AccountDelete.EvictUser := fun uid skipSid w => w;
     AccountDelete.unreg := fun uid del w => w;
     AccountDelete.UsersGetSubs := fun uid w => (([2], None), w);
     AccountDelete.UsersGetOwnTopics := fun uid w => ((["grpAbc"%string], None), w);
     AccountDelete.TopicsGetSubs := fun topic w => (([2; 3], None), w);
     AccountDelete.UsersDelete := fun uid hard w =>
       match delErr with
       | Some e => (Some e, w)
       | None => Delete memUsers uid hard w
       end;
     AccountDelete.ErrMalformed := fun id topic ts => reply 400 "malformed" id topic ts None;
     AccountDelete.ErrPermissionDenied := fun id topic ts =>
       reply 403 "permission denied" id topic ts None;
     AccountDelete.decodeStoreError := fun err => reply 500 (errText err);
     AccountDelete.NoErr := fun id topic ts => reply 200 "ok" id topic ts None;
     AccountDelete.NoErrEvicted := fun id topic ts => reply 205 "evicted" id topic ts None |}.

Definition delMsg (user : string) : AccountDelete.ClientComMessage :=
  {| AccountDelete.msg_Del := {| AccountDelete.del_User := user;
                                 AccountDelete.del_Hard := true |};
     AccountDelete.msg_id := "3";
     AccountDelete.msg_timestamp := 0 |}.

Definition delStart : AccountDelete.state MemWorld Uid.t :=
  {| AccountDelete.world := homeWorld; AccountDelete.log := [] |}.
End AccountSamples.

(* ===================================================================== *)
(** * Theorems                                                            *)
(* ===================================================================== *)

(** ** Bit-level arithmetic *)

Section BitArith.
Local Open Scope Z_scope.

(** Two numbers that occupy disjoint bit ranges are or-ed by adding. *)
Lemma lor_disjoint_add (a b k : Z) :
  0 <= k -> 0 <= b < 2 ^ k -> a mod 2 ^ k = 0 -> Z.lor a b = a + b.
Proof.
  intros Hk Hb Ha.
  assert (Hland : Z.land a b = 0).
  { apply Z.bits_inj'. intros n Hn.
    rewrite Z.land_spec, Z.bits_0.
    destruct (Z.lt_ge_cases n k) as [Hlt | Hge].
    - assert (Hq : a = a / 2 ^ k * 2 ^ k).
      { pose proof (Z.div_mod a (2 ^ k)) as Hd.
        rewrite Ha in Hd. lia. }
      rewrite Hq, Z.mul_pow2_bits_low by lia. reflexivity.
    - rewrite <- (Z.mod_small b (2 ^ k)) by lia.
      rewrite Z.mod_pow2_bits_high by lia.
      apply andb_false_r. }
  rewrite <- (Z.lxor_lor a b Hland).
  symmetry. apply Z.add_nocarry_lxor. exact Hland.
Qed.

Lemma lor_add_disjoint (a b k : Z) :
  0 <= k -> 0 <= a < 2 ^ k -> b mod 2 ^ k = 0 -> Z.lor a b = a + b.
Proof.
  intros Hk Ha Hb. rewrite Z.lor_comm, Z.add_comm.
  now apply (lor_disjoint_add b a k).
Qed.

Lemma land_255 (x : Z) : Z.land x 255 = x mod 256.
Proof. change 255 with (Z.ones 8). now rewrite Z.land_ones by lia. Qed.

Lemma land_63 (x : Z) : Z.land x 63 = x mod 64.
Proof. change 63 with (Z.ones 6). now rewrite Z.land_ones by lia. Qed.
End BitArith.

(** Turns shifts and masks by constants into multiplications, divisions
    and remainders. *)
Ltac bits_to_arith :=
  unfold LittleEndian.byte;
  repeat rewrite land_255; repeat rewrite land_63;
  repeat rewrite Z.shiftr_div_pow2 by lia;
  repeat rewrite Z.shiftl_mul_pow2 by lia.

(** ** [binary.LittleEndian] *)

Section LittleEndianFacts.
Local Open Scope Z_scope.

Lemma byte_range (v : Z) : 0 <= LittleEndian.byte v < 256.
Proof. unfold LittleEndian.byte. rewrite land_255. apply Z.mod_pos_bound. lia. Qed.

Lemma PutUint64_range (v : Z) :
  Forall (fun b => 0 <= b < 256) (LittleEndian.PutUint64 v).
Proof. unfold LittleEndian.PutUint64. repeat constructor; apply byte_range. Qed.

Lemma PutUint64_length (v : Z) : length (LittleEndian.PutUint64 v) = 8%nat.
Proof. reflexivity. Qed.

(** Reading back the eight bytes of a 64-bit value. *)
Lemma Uint64_PutUint64 (v : Z) (rest : list Z) :
  0 <= v < 2 ^ 64 ->
  LittleEndian.Uint64 (LittleEndian.PutUint64 v ++ rest) = v.
Proof.
  intros Hv.
  unfold LittleEndian.Uint64, LittleEndian.PutUint64. cbn [nth app].
  bits_to_arith.
  assert (H0 := Z.mod_pos_bound v 256 ltac:(lia)).
  assert (H1 := Z.mod_pos_bound (v / 2 ^ 8) 256 ltac:(lia)).
  assert (H2 := Z.mod_pos_bound (v / 2 ^ 16) 256 ltac:(lia)).
  assert (H3 := Z.mod_pos_bound (v / 2 ^ 24) 256 ltac:(lia)).
  assert (H4 := Z.mod_pos_bound (v / 2 ^ 32) 256 ltac:(lia)).
  assert (H5 := Z.mod_pos_bound (v / 2 ^ 40) 256 ltac:(lia)).
  assert (H6 := Z.mod_pos_bound (v / 2 ^ 48) 256 ltac:(lia)).
  assert (H7 := Z.mod_pos_bound (v / 2 ^ 56) 256 ltac:(lia)).
  rewrite (lor_add_disjoint (v mod 256) _ 8) by (try apply Z_mod_mult; lia).
  rewrite (lor_add_disjoint (_ + _) _ 16) by (try apply Z_mod_mult; lia).
  rewrite (lor_add_disjoint (_ + _) _ 24) by (try apply Z_mod_mult; lia).
  rewrite (lor_add_disjoint (_ + _) _ 32) by (try apply Z_mod_mult; lia).
  rewrite (lor_add_disjoint (_ + _) _ 40) by (try apply Z_mod_mult; lia).
  rewrite (lor_add_disjoint (_ + _) _ 48) by (try apply Z_mod_mult; lia).
  rewrite (lor_add_disjoint (_ + _) _ 56) by (try apply Z_mod_mult; lia).
  change (2 ^ 8) with 256 in *. change (2 ^ 16) with 65536 in *.
  change (2 ^ 24) with 16777216 in *. change (2 ^ 32) with 4294967296 in *.
  change (2 ^ 40) with 1099511627776 in *.
  change (2 ^ 48) with 281474976710656 in *.
  change (2 ^ 56) with 72057594037927936 in *.
  change (2 ^ 64) with 18446744073709551616 in *.
  clear H0 H1 H2 H3 H4 H5 H6 H7.
  Z.to_euclidean_division_equations. lia.
Qed.
End LittleEndianFacts.

(** ** [base64.URLEncoding]: decoding inverts encoding *)

Section Base64Facts.
Local Open Scope Z_scope.

Lemma decodeMap_encodeChar (v : Z) :
  0 <= v < 64 -> Base64.decodeMap (Base64.encodeChar v) = Some v.
Proof.
  intros Hv. unfold Base64.encodeChar.
  assert (Hall : forall n : nat, (n < 64)%nat ->
            Base64.decodeMap (nth n Base64.encodeURL "A"%char) = Some (Z.of_nat n)).
  { intros n Hn.
    do 64 (destruct n as [| n]; [reflexivity |]).
    lia. }
  rewrite Hall by lia. f_equal. lia.
Qed.

Lemma six_bits (x : Z) : 0 <= Z.land x 63 < 64.
Proof. rewrite land_63. apply Z.mod_pos_bound. lia. Qed.

(** The four six-bit values of a group of three bytes give the bytes
    back. *)
Lemma quantum_full (b0 b1 b2 : Z) :
  Base64.byte_ok b0 -> Base64.byte_ok b1 -> Base64.byte_ok b2 ->
  let val := Z.lor (Z.lor (Z.shiftl b0 16) (Z.shiftl b1 8)) b2 in
  Base64.quantumBytes
    [Z.land (Z.shiftr val 18) 63; Z.land (Z.shiftr val 12) 63;
     Z.land (Z.shiftr val 6) 63; Z.land val 63] = [b0; b1; b2].
Proof.
  intros H0 H1 H2 val. unfold Base64.byte_ok in H0, H1, H2.
  assert (Hval : val = b0 * 65536 + b1 * 256 + b2).
  { subst val. bits_to_arith.
    rewrite (lor_disjoint_add (b0 * 2 ^ 16) _ 16) by (try apply Z_mod_mult; lia).
    rewrite (lor_disjoint_add _ b2 8); [lia | lia | lia |].
    change (2 ^ 16) with (256 * 2 ^ 8). change (2 ^ 8) with 256.
    Z.to_euclidean_division_equations. lia. }
  clearbody val. subst val.
  unfold Base64.quantumBytes. cbn [nth length firstn Nat.sub].
  bits_to_arith.
  set (v := b0 * 65536 + b1 * 256 + b2).
  assert (Hv : 0 <= v < 2 ^ 24) by (subst v; lia).
  assert (Hd0 := Z.mod_pos_bound (v / 2 ^ 18) 64 ltac:(lia)).
  assert (Hd1 := Z.mod_pos_bound (v / 2 ^ 12) 64 ltac:(lia)).
  assert (Hd2 := Z.mod_pos_bound (v / 2 ^ 6) 64 ltac:(lia)).
  assert (Hd3 := Z.mod_pos_bound v 64 ltac:(lia)).
  rewrite (lor_disjoint_add (_ * 2 ^ 18) _ 18) by (try apply Z_mod_mult; lia).
  rewrite (lor_disjoint_add (_ + _) (_ * 2 ^ 6) 12).
  2: lia. 2: lia.
  2: { change (2 ^ 18) with (64 * 2 ^ 12). change (2 ^ 12) with 4096.
       Z.to_euclidean_division_equations. lia. }
  rewrite (lor_disjoint_add (_ + _) (v mod 64) 6).
  2: lia. 2: lia.
  2: { change (2 ^ 18) with 262144. change (2 ^ 12) with 4096.
       change (2 ^ 6) with 64.
       Z.to_euclidean_division_equations. lia. }
  assert (Hw : (v / 2 ^ 18) mod 64 * 2 ^ 18 + (v / 2 ^ 12) mod 64 * 2 ^ 12
               + (v / 2 ^ 6) mod 64 * 2 ^ 6 + v mod 64 = v).
  { clear Hd0 Hd1 Hd2 Hd3.
    change (2 ^ 18) with 262144. change (2 ^ 12) with 4096.
    change (2 ^ 6) with 64. change (2 ^ 24) with 16777216 in Hv.
    Z.to_euclidean_division_equations. lia. }
  rewrite Hw. subst v.
  change (2 ^ 16) with 65536. change (2 ^ 8) with 256.
  repeat f_equal; Z.to_euclidean_division_equations; lia.
Qed.

Lemma quantum_two (b0 b1 : Z) :
  Base64.byte_ok b0 -> Base64.byte_ok b1 ->
  let val := Z.lor (Z.shiftl b0 16) (Z.shiftl b1 8) in
  Base64.quantumBytes
    [Z.land (Z.shiftr val 18) 63; Z.land (Z.shiftr val 12) 63;
     Z.land (Z.shiftr val 6) 63] = [b0; b1].
Proof.
  intros H0 H1 val.
  assert (Hfull := quantum_full b0 b1 0 H0 H1 ltac:(unfold Base64.byte_ok; lia)).
  cbn zeta in Hfull. rewrite Z.lor_0_r in Hfull. fold val in Hfull.
  assert (Hz : Z.land val 63 = 0).
  { subst val. unfold Base64.byte_ok in H0, H1. bits_to_arith.
    rewrite (lor_disjoint_add (b0 * 2 ^ 16) _ 16) by (try apply Z_mod_mult; lia).
    change (2 ^ 16) with 65536. change (2 ^ 8) with 256.
    Z.to_euclidean_division_equations. lia. }
  rewrite Hz in Hfull.
  unfold Base64.quantumBytes in *. cbn [nth length firstn Nat.sub] in *.
  now inversion Hfull.
Qed.

Lemma quantum_one (b0 : Z) :
  Base64.byte_ok b0 ->
  let val := Z.shiftl b0 16 in
  Base64.quantumBytes
    [Z.land (Z.shiftr val 18) 63; Z.land (Z.shiftr val 12) 63] = [b0].
Proof.
  intros H0 val.
  assert (Hfull := quantum_two b0 0 H0 ltac:(unfold Base64.byte_ok; lia)).
  cbn zeta in Hfull. rewrite Z.shiftl_0_l, Z.lor_0_r in Hfull. fold val in Hfull.
  assert (Hz : Z.land (Z.shiftr val 6) 63 = 0).
  { subst val. unfold Base64.byte_ok in H0. bits_to_arith.
    change (2 ^ 16) with 65536. change (2 ^ 6) with 64.
    Z.to_euclidean_division_equations. lia. }
  rewrite Hz in Hfull.
  unfold Base64.quantumBytes in *. cbn [nth length firstn Nat.sub] in *.
  now inversion Hfull.
Qed.

(** One valid character extends the current quantum. *)
Lemma decodeLoop_valid (c : ascii) (d : Z) (rest : list ascii) (dbuf dst : list Z) :
  Base64.decodeMap c = Some d ->
  Base64.decodeLoop (c :: rest) dbuf dst =
    if (length dbuf =? 3)%nat
    then Base64.decodeLoop rest [] (dst ++ Base64.quantumBytes (dbuf ++ [d]))
    else Base64.decodeLoop rest (dbuf ++ [d]) dst.
Proof. intros H. cbn [Base64.decodeLoop]. now rewrite H. Qed.

Lemma decodeLoop_pad (rest : list ascii) (dbuf dst : list Z) :
  Base64.decodeLoop (Base64.padChar :: rest) dbuf dst =
    Base64.decodePadding rest dbuf dst.
Proof. reflexivity. Qed.

Lemma decodePadding_two (d0 d1 : Z) (dst : list Z) :
  Base64.decodePadding [Base64.padChar] [d0; d1] dst =
    (dst ++ Base64.quantumBytes [d0; d1], None).
Proof. reflexivity. Qed.

Lemma decodePadding_three (d0 d1 d2 : Z) (dst : list Z) :
  Base64.decodePadding [] [d0; d1; d2] dst =
    (dst ++ Base64.quantumBytes [d0; d1; d2], None).
Proof. reflexivity. Qed.

(** [Decode] undoes [Encode] on any sequence of bytes. *)
Lemma decodeLoop_Encode_bounded (n : nat) :
  forall (bs dst : list Z),
    (length bs <= n)%nat -> Forall Base64.byte_ok bs ->
    Base64.decodeLoop (Base64.Encode bs) [] dst = (dst ++ bs, None).
Proof.
  induction n as [n IH] using lt_wf_ind.
  intros bs dst Hlen Hok.
  destruct bs as [| b0 [| b1 [| b2 rest]]].
  - cbn. now rewrite app_nil_r.
  - inversion_clear Hok as [| ? ? H0 _].
    cbn [Base64.Encode].
    rewrite (decodeLoop_valid _ _ _ _ _ (decodeMap_encodeChar _ (six_bits _))).
    cbn [length Nat.eqb app].
    rewrite (decodeLoop_valid _ _ _ _ _ (decodeMap_encodeChar _ (six_bits _))).
    cbn [length Nat.eqb app].
    rewrite decodeLoop_pad, decodePadding_two.
    now rewrite (quantum_one b0 H0).
  - inversion_clear Hok as [| ? ? H0 Hok'].
    inversion_clear Hok' as [| ? ? H1 _].
    cbn [Base64.Encode].
    do 3 (rewrite (decodeLoop_valid _ _ _ _ _ (decodeMap_encodeChar _ (six_bits _)));
          cbn [length Nat.eqb app]).
    rewrite decodeLoop_pad, decodePadding_three.
    now rewrite (quantum_two b0 b1 H0 H1).
  - inversion_clear Hok as [| ? ? H0 Hok'].
    inversion_clear Hok' as [| ? ? H1 Hok''].
    inversion_clear Hok'' as [| ? ? H2 Hrest].
    cbn [Base64.Encode].
    do 4 (rewrite (decodeLoop_valid _ _ _ _ _ (decodeMap_encodeChar _ (six_bits _)));
          cbn [length Nat.eqb app]).
    rewrite (quantum_full b0 b1 b2 H0 H1 H2).
    cbn [length] in Hlen.
    rewrite (IH (n - 3)%nat) by (try assumption; lia).
    now rewrite <- app_assoc.
Qed.

Lemma decodeLoop_Encode (bs dst : list Z) :
  Forall Base64.byte_ok bs ->
  Base64.decodeLoop (Base64.Encode bs) [] dst = (dst ++ bs, None).
Proof. now apply (decodeLoop_Encode_bounded (length bs)). Qed.
End Base64Facts.

Section Base64Bound.
Local Open Scope nat_scope.

Lemma quantumBytes_length (dbuf : list Z) :
  4 * length (Base64.quantumBytes dbuf) <= 3 * length dbuf.
Proof.
  unfold Base64.quantumBytes. rewrite length_firstn. cbn [length]. lia.
Qed.

Lemma decodePadding_bound (rest : list ascii) (dbuf dst : list Z) :
  4 * length (fst (Base64.decodePadding rest dbuf dst))
    <= 4 * length dst + 3 * length dbuf.
Proof.
  pose proof (quantumBytes_length dbuf) as Hq.
  unfold Base64.decodePadding.
  destruct dbuf as [| d0 [| d1 [| d2 dbuf]]]; cbn [fst]; try lia.
  - destruct (Base64.skipNewlines rest) as [| c rest']; cbn [fst]; [lia |].
    destruct (Ascii.eqb c Base64.padChar); cbn [fst]; [| lia].
    destruct (Base64.skipNewlines rest'); cbn [fst];
      rewrite length_app; lia.
  - destruct (Base64.skipNewlines rest); cbn [fst];
      rewrite length_app; lia.
Qed.

(** Four characters of the alphabet are needed for three decoded bytes. *)
Lemma decodeLoop_bound (src : list ascii) :
  forall dbuf dst : list Z,
    4 * length (fst (Base64.decodeLoop src dbuf dst))
      <= 4 * length dst + 3 * (length dbuf + Base64.validCount src).
Proof.
  induction src as [| c rest IH]; intros dbuf dst.
  - cbn. destruct dbuf; cbn [fst]; lia.
  - cbn [Base64.decodeLoop]. unfold Base64.validCount in *. cbn [List.filter].
    destruct (Base64.decodeMap c) as [d |].
    + cbn [length].
      destruct (Nat.eqb_spec (length dbuf) 3) as [H3 | H3].
      * specialize (IH [] (dst ++ Base64.quantumBytes (dbuf ++ [d]))).
        pose proof (quantumBytes_length (dbuf ++ [d])) as Hq.
        rewrite !length_app in *. cbn [length] in *. lia.
      * specialize (IH (dbuf ++ [d]) dst).
        rewrite !length_app in *. cbn [length] in *. lia.
    + destruct (Base64.isNewline c).
      * specialize (IH dbuf dst). lia.
      * destruct (Ascii.eqb c Base64.padChar).
        -- pose proof (decodePadding_bound rest dbuf dst). lia.
        -- cbn [fst]. lia.
Qed.

Lemma validCount_app (l1 l2 : list ascii) :
  Base64.validCount (l1 ++ l2) = Base64.validCount l1 + Base64.validCount l2.
Proof. unfold Base64.validCount. now rewrite List.filter_app, List.length_app. Qed.

Lemma validCount_le (l : list ascii) : Base64.validCount l <= length l.
Proof. unfold Base64.validCount. apply List.filter_length_le. Qed.

Lemma validCount_pad (n : nat) : Base64.validCount (repeat Base64.padChar n) = 0.
Proof. induction n as [| n IH]; [reflexivity | exact IH]. Qed.
End Base64Bound.

(** ** [Uid]: textual codec and P2P topic names *)

Section UidFacts.
Local Open Scope Z_scope.
Import Uid Types.

Lemma Encode_8 (b0 b1 b2 b3 b4 b5 b6 b7 : Z) :
  Base64.Encode [b0; b1; b2; b3; b4; b5; b6; b7] =
    firstn 11 (Base64.Encode [b0; b1; b2; b3; b4; b5; b6; b7]) ++ [Base64.padChar].
Proof. reflexivity. Qed.

Lemma Encode_16 (b0 b1 b2 b3 b4 b5 b6 b7 c0 c1 c2 c3 c4 c5 c6 c7 : Z) :
  let bs := [b0; b1; b2; b3; b4; b5; b6; b7; c0; c1; c2; c3; c4; c5; c6; c7] in
  Base64.Encode bs =
    firstn 22 (Base64.Encode bs) ++ [Base64.padChar; Base64.padChar].
Proof. reflexivity. Qed.

Lemma MarshalText_nonzero (u : Uid.t) :
  u <> 0 ->
  MarshalText u = firstn 11 (Base64.Encode (LittleEndian.PutUint64 u)).
Proof.
  intros Hu. unfold MarshalText.
  destruct (Z.eqb_spec u 0) as [-> | _]; [contradiction | reflexivity].
Qed.

Lemma MarshalText_length (u : Uid.t) :
  u <> 0 -> length (MarshalText u) = 11%nat.
Proof. intros Hu. now rewrite MarshalText_nonzero. Qed.

(** Padding the marshalled text restores the full encoding. *)
Lemma padTo_MarshalText (u : Uid.t) :
  u <> 0 ->
  padTo (MarshalText u) uidBase64Padded = Base64.Encode (LittleEndian.PutUint64 u).
Proof.
  intros Hu. unfold padTo. rewrite MarshalText_length by assumption.
  rewrite MarshalText_nonzero by assumption. reflexivity.
Qed.

Lemma Decode_Encode (dst bs : list Z) :
  Forall Base64.byte_ok bs ->
  Base64.Decode dst (Base64.Encode bs) =
    (Z.of_nat (length bs), bs ++ skipn (length bs) dst, None).
Proof.
  intros Hok. unfold Base64.Decode.
  now rewrite (decodeLoop_Encode bs [] Hok).
Qed.

(** A marshalled non-zero Uid is read back, whatever the receiver held. *)
Lemma UnmarshalText_MarshalText (u r : Uid.t) :
  uid_range u -> u <> 0 -> UnmarshalText r (MarshalText u) = (u, None).
Proof.
  intros Hr Hu. unfold UnmarshalText.
  rewrite MarshalText_length by assumption. cbn [negb Z.eqb Z.of_nat].
  change (Z.of_nat 11 =? uidBase64Unpadded) with true. cbn [negb].
  rewrite padTo_MarshalText by assumption.
  rewrite Decode_Encode by apply PutUint64_range.
  rewrite PutUint64_length. change (Z.of_nat 8 <? 8) with false. cbv iota.
  now rewrite Uint64_PutUint64.
Qed.

Lemma UnmarshalText_empty (r : Uid.t) :
  UnmarshalText r [] = (r, Some ErrUnmarshalTextLength).
Proof. reflexivity. Qed.

Lemma ParseUid_String (u : Uid.t) : uid_range u -> ParseUid (String u) = u.
Proof.
  intros Hr. unfold ParseUid, String.
  rewrite list_ascii_of_string_of_list_ascii.
  destruct (Z.eq_dec u 0) as [-> | Hu]; [reflexivity |].
  now rewrite UnmarshalText_MarshalText.
Qed.

(** [Decode] never yields more than eight bytes inside [UnmarshalText]. *)
Lemma decodedLen_le (src : list ascii) :
  Z.of_nat (length src) = uidBase64Unpadded -> decodedLen src <= 8.
Proof.
  intros Hlen. unfold decodedLen, Base64.Decode.
  pose proof (decodeLoop_bound (padTo src uidBase64Padded) [] []) as Hb.
  destruct (Base64.decodeLoop (padTo src uidBase64Padded) [] []) as [out err].
  cbn [fst length] in *.
  unfold padTo in Hb. rewrite validCount_app, validCount_pad in Hb.
  pose proof (validCount_le src). unfold uidBase64Unpadded in Hlen. lia.
Qed.

(** A text is accepted only when it has eleven characters that decode
    to eight bytes; a rejected text leaves the receiver as it was. *)
Lemma UnmarshalText_rejects (r : Uid.t) (src : list ascii) :
  Z.of_nat (length src) <> uidBase64Unpadded \/ decodedLen src <> 8 ->
  exists e, UnmarshalText r src = (r, Some e).
Proof.
  intros H. unfold UnmarshalText.
  destruct (Z.eqb_spec (Z.of_nat (length src)) uidBase64Unpadded) as [Hlen | Hlen];
    cbn [negb]; [| eauto].
  destruct H as [H | H]; [contradiction |].
  pose proof (decodedLen_le src Hlen) as Hle. unfold decodedLen in *.
  destruct (Base64.Decode _ _) as [[count dec] err]. cbn [fst] in *.
  destruct (Z.ltb_spec count 8); [eauto | lia].
Qed.

Lemma P2PName_lt (a b : Uid.t) :
  a <> 0 -> b <> 0 -> a < b -> P2PName a b = p2pOrdered a b.
Proof.
  intros Ha Hb Hlt. unfold P2PName, IsZero.
  destruct (Z.eqb_spec a 0); [contradiction |].
  destruct (Z.eqb_spec b 0); [contradiction |].
  cbn [negb andb].
  destruct (Z.ltb_spec a b); [reflexivity | lia].
Qed.

Lemma P2PName_gt (a b : Uid.t) :
  a <> 0 -> b <> 0 -> b < a -> P2PName a b = p2pOrdered b a.
Proof.
  intros Ha Hb Hlt. unfold P2PName, IsZero.
  destruct (Z.eqb_spec a 0); [contradiction |].
  destruct (Z.eqb_spec b 0); [contradiction |].
  cbn [negb andb].
  destruct (Z.ltb_spec a b); [lia |].
  rewrite Z.gtb_ltb.
  destruct (Z.ltb_spec b a); [reflexivity | lia].
Qed.

Lemma P2PName_self (a : Uid.t) : P2PName a a = ""%string.
Proof.
  unfold P2PName.
  destruct (negb (IsZero a) && negb (IsZero a)); [| reflexivity].
  rewrite Z.ltb_irrefl, Z.gtb_ltb, Z.ltb_irrefl. reflexivity.
Qed.

Lemma P2PName_comm (a b : Uid.t) : P2PName a b = P2PName b a.
Proof.
  destruct (Z.eq_dec a 0) as [-> | Ha].
  { unfold P2PName. cbn [IsZero Z.eqb negb andb]. now rewrite andb_false_r. }
  destruct (Z.eq_dec b 0) as [-> | Hb].
  { unfold P2PName. cbn [IsZero Z.eqb negb andb]. now rewrite andb_false_r. }
  destruct (Z.lt_total a b) as [Hlt | [-> | Hgt]].
  - now rewrite P2PName_lt, P2PName_gt.
  - reflexivity.
  - now rewrite P2PName_gt, P2PName_lt.
Qed.

Lemma ParseP2P_ordered (lo hi : Uid.t) :
  uid_range lo -> uid_range hi -> ParseP2P (p2pOrdered lo hi) = (lo, hi, None).
Proof.
  intros Hlo Hhi. unfold ParseP2P, p2pOrdered, strTake, Base64.EncodeToString.
  rewrite list_ascii_of_string_of_list_ascii.
  set (bs := MarshalBinary lo ++ MarshalBinary hi).
  set (body := firstn (Z.to_nat p2pBase64Unpadded) (Base64.Encode bs)).
  change (String.prefix "p2p" ("p2p" ++ string_of_list_ascii body)) with true.
  cbv iota.
  change (skipn 3 (list_ascii_of_string ("p2p" ++ string_of_list_ascii body)))
    with (list_ascii_of_string (string_of_list_ascii body)).
  rewrite list_ascii_of_string_of_list_ascii.
  assert (Hbody : length body = 22%nat) by reflexivity.
  rewrite Hbody. change (Z.of_nat 22 =? p2pBase64Unpadded) with true. cbn [negb].
  assert (Hpad : padTo body p2pBase64Padded = Base64.Encode bs).
  { unfold padTo. rewrite Hbody. reflexivity. }
  rewrite Hpad.
  assert (Hok : Forall Base64.byte_ok bs).
  { apply Forall_app. split; apply PutUint64_range. }
  rewrite (Decode_Encode _ bs Hok).
  change (length bs) with 16%nat. change (Z.of_nat 16 <? 16) with false. cbv iota.
  subst bs. unfold MarshalBinary.
  rewrite <- app_assoc, Uint64_PutUint64 by assumption.
  change (skipn 8 (LittleEndian.PutUint64 lo ++ ?r)) with r.
  now rewrite Uint64_PutUint64.
Qed.

(** Parsing the name of a P2P topic gives the two ids, smaller first. *)
Lemma ParseP2P_P2PName (a b : Uid.t) :
  uid_range a -> uid_range b -> a <> 0 -> b <> 0 -> a <> b ->
  ParseP2P (P2PName a b) = (Z.min a b, Z.max a b, None).
Proof.
  intros Ha Hb Ha0 Hb0 Hne.
  destruct (Z.lt_total a b) as [Hlt | [-> | Hgt]]; [| contradiction |].
  - rewrite P2PName_lt, ParseP2P_ordered by assumption.
    now rewrite Z.min_l, Z.max_r by lia.
  - rewrite P2PName_gt, ParseP2P_ordered by assumption.
    now rewrite Z.min_r, Z.max_l by lia.
Qed.
End UidFacts.

(** ** [AccessMode]: parsing *)

Section AccessModeFacts.
Local Open Scope Z_scope.
Import AccessMode.

(** An access letter moves the loop on with an updated value. *)
Lemma unmarshalLoop_letter (c : ascii) :
  isModeChar c = true ->
  exists g : t -> t,
    forall (b : list ascii) (m0 : t), unmarshalLoop (c :: b) m0 = unmarshalLoop b (g m0).
Proof.
  destruct c as [[] [] [] [] [] [] [] []]; intros H;
    try discriminate H; eexists; intros; reflexivity.
Qed.

(** Any other byte stops the loop. *)
Lemma unmarshalLoop_other (c : ascii) :
  isModeChar c = false ->
  forall (b : list ascii) (m0 : t), unmarshalLoop (c :: b) m0 = inr c.
Proof.
  destruct c as [[] [] [] [] [] [] [] []]; intros H;
    try discriminate H; intros; reflexivity.
Qed.

Lemma unmarshalLoop_all_letters (b : list ascii) :
  forallb isModeChar b = true ->
  forall m0 : t, exists m1 : t, unmarshalLoop b m0 = inl m1.
Proof.
  induction b as [| c b IH]; intros Hall m0.
  - now exists m0.
  - cbn [forallb] in Hall. apply andb_prop in Hall as [Hc Hb].
    destruct (unmarshalLoop_letter c Hc) as [g Hg].
    rewrite Hg. apply IH. exact Hb.
Qed.

Lemma unmarshalLoop_some_other (b : list ascii) :
  forallb isModeChar b = false ->
  forall m0 : t, exists c : ascii,
    In c b /\ isModeChar c = false /\ unmarshalLoop b m0 = inr c.
Proof.
  induction b as [| c b IH]; intros Hall m0.
  - discriminate Hall.
  - cbn [forallb] in Hall.
    destruct (isModeChar c) eqn:Hc.
    + cbn [andb] in Hall.
      destruct (unmarshalLoop_letter c Hc) as [g Hg].
      destruct (IH Hall (g m0)) as (c' & Hin & Hc' & Hloop).
      exists c'. rewrite Hg. auto using in_cons.
    + exists c. rewrite (unmarshalLoop_other c Hc). auto using in_eq.
Qed.

Lemma forallb_false_of_In (b : list ascii) (c : ascii) :
  In c b -> isModeChar c = false -> forallb isModeChar b = false.
Proof.
  intros Hin Hc.
  destruct (forallb isModeChar b) eqn:Hall; [| reflexivity].
  rewrite forallb_forall in Hall. rewrite (Hall c Hin) in Hc. discriminate.
Qed.

(** A text with a foreign byte is refused and the receiver kept. *)
Lemma UnmarshalText_invalid (m : t) (b : list ascii) :
  forallb isModeChar b = false ->
  exists c : ascii,
    In c b /\ isModeChar c = false /\
    UnmarshalText m b = (m, Some (ErrInvalidCharacter c)).
Proof.
  intros Hall. unfold UnmarshalText.
  destruct (unmarshalLoop_some_other b Hall ModeUnset) as (c & Hin & Hc & Hloop).
  exists c. now rewrite Hloop.
Qed.

(** A text of access letters only is never refused. *)
Lemma UnmarshalText_valid (m : t) (b : list ascii) :
  forallb isModeChar b = true -> snd (UnmarshalText m b) = None.
Proof.
  intros Hall. unfold UnmarshalText.
  destruct (unmarshalLoop_all_letters b Hall ModeUnset) as [m1 Hloop].
  rewrite Hloop. now destruct (negb (m1 =? ModeUnset)).
Qed.
End AccessModeFacts.

(** ** [AccessMode]: text round trip and deltas *)

Section AccessModeText.
Local Open Scope Z_scope.
Import AccessMode.

Lemma In_below_256 (m : Z) : 0 <= m < 256 -> In m (map Z.of_nat (seq 0 256)).
Proof.
  intros Hm. rewrite <- (Z2Nat.id m) by lia.
  apply in_map, in_seq. lia.
Qed.

(** Over the letters of a non-empty eight-bit mode the parsing loop ends
    with the mode's bits on top of the value it started from,
    [ModeUnset]. *)
Lemma unmarshalLoop_MarshalText (m : t) :
  0 < m < 256 ->
  unmarshalLoop (fst (MarshalText m)) ModeUnset = inl (Z.lor m ModeUnset).
Proof.
  intros Hm.
  assert (Hall : forallb
            (fun m => (m =? 0) ||
               match unmarshalLoop (fst (MarshalText m)) ModeUnset with
               | inl x => x =? Z.lor m ModeUnset
               | inr _ => false
               end)
            (map Z.of_nat (seq 0 256)) = true) by (vm_compute; reflexivity).
  rewrite forallb_forall in Hall.
  specialize (Hall m (In_below_256 m ltac:(lia))). cbv beta in Hall.
  destruct (Z.eqb_spec m 0); [lia |]. cbn [orb] in Hall.
  destruct (unmarshalLoop _ _) as [x |]; [| discriminate].
  apply Z.eqb_eq in Hall. now subst x.
Qed.

Lemma lor_ModeUnset (m : t) : 0 <= m < 256 -> Z.lor m ModeUnset = m + 256.
Proof.
  intros Hm. change ModeUnset with (1 * 2 ^ 8).
  rewrite (lor_add_disjoint m _ 8) by (try apply Z_mod_mult; lia). lia.
Qed.

(** What [UnmarshalText] makes of the text of a non-empty eight-bit mode:
    the mode with the bit of [ModeUnset] left in it. *)
Lemma UnmarshalText_MarshalText_mode (m r : t) :
  0 < m < 256 ->
  UnmarshalText r (fst (MarshalText m)) = (m + 256, None).
Proof.
  intros Hm. unfold UnmarshalText.
  rewrite (unmarshalLoop_MarshalText m Hm), lor_ModeUnset by lia.
  destruct (Z.eqb_spec (m + 256) ModeUnset) as [He | _]; [| reflexivity].
  change ModeUnset with 256 in He. lia.
Qed.

Lemma UnmarshalText_MarshalText_none (r : t) :
  UnmarshalText r (fst (MarshalText ModeNone)) = (ModeNone, None).
Proof. reflexivity. Qed.

(** The deltas of scenario S7. *)
Lemma Delta_examples :
  let J := ModeJoin in let R := ModeRead in let W := ModeWrite in
  let S := ModeShare in let P := ModePres in
  let JRWS := Z.lor (Z.lor (Z.lor J R) W) S in
  Delta JRWS (Z.lor (Z.lor J R) W) = "-S"%string /\
  Delta JRWS (Z.lor (Z.lor (Z.lor J R) W) P) = "+P-S"%string.
Proof. split; reflexivity. Qed.

Lemma Delta_self (x : t) : Delta x x = ""%string.
Proof. unfold Delta. now rewrite Z.ldiff_diag. Qed.

(** Applying the delta of two eight-bit modes to the first gives the
    second. *)
Lemma applyDelta_Delta (m1 m2 : t) :
  mode8 m1 -> mode8 m2 -> applyDelta m1 (Delta m1 m2) = m2.
Proof.
  unfold mode8. intros H1 H2.
  assert (Hall : forallb
            (fun m1 => forallb (fun m2 => applyDelta m1 (Delta m1 m2) =? m2)
                         (map Z.of_nat (seq 0 256)))
            (map Z.of_nat (seq 0 256)) = true) by (vm_compute; reflexivity).
  rewrite forallb_forall in Hall.
  specialize (Hall m1 (In_below_256 m1 H1)). cbv beta in Hall.
  rewrite forallb_forall in Hall.
  specialize (Hall m2 (In_below_256 m2 H2)). cbv beta in Hall.
  now apply Z.eqb_eq in Hall.
Qed.
End AccessModeText.

(** ** Go's [int] *)

Section GoIntFacts.
Local Open Scope Z_scope.

Lemma wrap_in_range (x : Z) : GoInt.int_range x -> GoInt.wrap x = x.
Proof.
  unfold GoInt.int_range, GoInt.wrap, GoInt.min_int, GoInt.max_int.
  intros Hx. rewrite Z.mod_small; lia.
Qed.

Lemma add_no_overflow (x y : Z) :
  GoInt.int_range (x + y) -> GoInt.add x y = x + y.
Proof. apply wrap_in_range. Qed.

Lemma sub_no_overflow (x y : Z) :
  GoInt.int_range (x - y) -> GoInt.sub x y = x - y.
Proof. apply wrap_in_range. Qed.
End GoIntFacts.

(** ** The users cache *)

Section UserCacheFacts.
Local Open Scope Z_scope.
Import Effect Store UserCache.
Context {W : Type}.
Variable Users : UsersMapper W.

Lemma lookupEntry_Some (c : gmap Z UserCacheEntry) (uid : Uid.t) (uce : UserCacheEntry) :
  c !! uid = Some uce -> lookupEntry c uid = (uce, true).
Proof. intros H. unfold lookupEntry. now rewrite H. Qed.

Lemma lookupEntry_None (c : gmap Z UserCacheEntry) (uid : Uid.t) :
  c !! uid = None -> lookupEntry c uid = ({| unread := 0; topics := 0 |}, false).
Proof. intros H. unfold lookupEntry. now rewrite H. Qed.

(** The invariant says that every entry counts at least one topic. *)
Lemma cacheInv_entries (c : gmap Z UserCacheEntry) :
  cacheInv c <->
  (forall (uid : Uid.t) (uce : UserCacheEntry), c !! uid = Some uce -> 0 < topics uce).
Proof.
  unfold cacheInv, topicsOf. split.
  - intros Hinv uid uce Hu. specialize (Hinv uid).
    rewrite (lookupEntry_Some _ _ _ Hu) in Hinv. apply Hinv. eauto.
  - intros Hall uid. destruct (c !! uid) as [uce |] eqn:Hu.
    + rewrite (lookupEntry_Some _ _ _ Hu). cbn. split; [eauto | intros _; eauto].
    + rewrite (lookupEntry_None _ _ Hu). cbn. split; [lia | intros [? ?]; discriminate].
Qed.

Lemma cacheInv_insert (c : gmap Z UserCacheEntry) (uid : Uid.t) (uce : UserCacheEntry) :
  cacheInv c -> 0 < topics uce -> cacheInv (<[uid := uce]> c).
Proof.
  rewrite !cacheInv_entries. intros Hinv Hpos uid' uce' Hu.
  destruct (decide (uid = uid')) as [-> | Hne].
  - rewrite lookup_insert_eq in Hu. now inversion Hu; subst.
  - rewrite lookup_insert_ne in Hu by assumption. eauto.
Qed.

Lemma cacheInv_delete (c : gmap Z UserCacheEntry) (uid : Uid.t) :
  cacheInv c -> cacheInv (delete uid c).
Proof.
  rewrite !cacheInv_entries. intros Hinv uid' uce' Hu.
  destruct (decide (uid = uid')) as [-> | Hne].
  - rewrite lookup_delete_eq in Hu. discriminate.
  - rewrite lookup_delete_ne in Hu by assumption. eauto.
Qed.

Lemma topicsBelow_insert (c : gmap Z UserCacheEntry) (uid : Uid.t)
      (uce : UserCacheEntry) (n : Z) :
  topicsBelow c n -> topics uce + n <= GoInt.max_int ->
  topicsBelow (<[uid := uce]> c) n.
Proof.
  intros [Hn Hb] Hle. split; [exact Hn |]. intros uid' uce' Hu.
  destruct (decide (uid = uid')) as [-> | Hne].
  - rewrite lookup_insert_eq in Hu. now inversion Hu; subst.
  - rewrite lookup_insert_ne in Hu by assumption. eauto.
Qed.

Lemma topicsBelow_delete (c : gmap Z UserCacheEntry) (uid : Uid.t) (n : Z) :
  topicsBelow c n -> topicsBelow (delete uid c) n.
Proof.
  intros [Hn Hb]. split; [exact Hn |]. intros uid' uce' Hu.
  destruct (decide (uid = uid')) as [-> | Hne].
  - rewrite lookup_delete_eq in Hu. discriminate.
  - rewrite lookup_delete_ne in Hu by assumption. eauto.
Qed.

Lemma topicsBelow_weaken (c : gmap Z UserCacheEntry) (n m : Z) :
  0 <= m <= n -> topicsBelow c n -> topicsBelow c m.
Proof.
  intros Hle [Hn Hb]. split; [lia |].
  intros uid uce Hu. specialize (Hb uid uce Hu). lia.
Qed.

Lemma topicsBelow_entry (c : gmap Z UserCacheEntry) (n : Z) (uid : Uid.t)
      (uce : UserCacheEntry) :
  topicsBelow c n -> c !! uid = Some uce -> topics uce + n <= GoInt.max_int.
Proof. intros [_ Hb]. apply Hb. Qed.

(** *** Unread updates *)

(** The entry is not loaded: the count is fetched and stored; the value
    of the update is not used. *)
Lemma unreadUpdater_not_loaded (st : state W) (uid : Uid.t) (val : Z) (inc : bool)
      (uce : UserCacheEntry) :
  usersCache st !! uid = Some uce -> unread uce < 0 ->
  unreadUpdater Users uid val inc st =
    let '((count, err), w) := GetUnreadCount Users uid (world st) in
    match err with
    | Some _ => Ok (-1) (setWorld w st)
    | None =>
        Ok count (setCache (<[uid := setUnread uce count]> (usersCache st))
                           (setWorld w st))
    end.
Proof.
  intros Hu Hneg. unfold unreadUpdater.
  rewrite (lookupEntry_Some _ _ _ Hu). cbn [negb].
  destruct (Z.ltb_spec (unread uce) 0); [| lia].
  destruct (GetUnreadCount Users uid (world st)) as [[count err] w].
  now destruct err.
Qed.

(** The entry is loaded: a delta is added, an absolute value is stored. *)
Lemma unreadUpdater_loaded (st : state W) (uid : Uid.t) (val : Z) (inc : bool)
      (uce : UserCacheEntry) :
  usersCache st !! uid = Some uce -> 0 <= unread uce ->
  let v := if inc then GoInt.add (unread uce) val else val in
  unreadUpdater Users uid val inc st =
    Ok v (setCache (<[uid := setUnread uce v]> (usersCache st)) st).
Proof.
  intros Hu Hpos v. unfold unreadUpdater.
  rewrite (lookupEntry_Some _ _ _ Hu). cbn [negb].
  destruct (Z.ltb_spec (unread uce) 0); [lia |].
  subst v. now destruct inc.
Qed.

Lemma unreadUpdater_uncached (st : state W) (uid : Uid.t) (val : Z) (inc : bool) :
  usersCache st !! uid = None ->
  unreadUpdater Users uid val inc st =
    Panic "attempt to update unread count for user who has not been loaded".
Proof.
  intros Hu. unfold unreadUpdater. now rewrite (lookupEntry_None _ _ Hu).
Qed.

(** An unread update changes no count of topics and adds no entry. *)
Lemma unreadUpdater_keeps (st st' : state W) (uid : Uid.t) (val : Z) (inc : bool)
      (r : Z) (n : Z) :
  unreadUpdater Users uid val inc st = Ok r st' ->
  cacheInv (usersCache st) -> topicsBelow (usersCache st) n ->
  cacheInv (usersCache st') /\ topicsBelow (usersCache st') n /\
  pushed st' = pushed st.
Proof.
  intros Hrun Hinv Hb.
  destruct (usersCache st !! uid) as [uce |] eqn:Hu.
  2: { rewrite unreadUpdater_uncached in Hrun by assumption. discriminate. }
  assert (Hpos : 0 < topics uce) by (rewrite cacheInv_entries in Hinv; eauto).
  assert (Hle : topics uce + n <= GoInt.max_int)
    by eauto using topicsBelow_entry.
  destruct (Z.lt_ge_cases (unread uce) 0) as [Hneg | Hge].
  - rewrite (unreadUpdater_not_loaded st uid val inc uce Hu Hneg) in Hrun.
    destruct (GetUnreadCount Users uid (world st)) as [[count err] w].
    destruct err; inversion Hrun; subst; cbn; auto.
    split; [| split]; auto.
    + now apply cacheInv_insert.
    + now apply topicsBelow_insert.
  - rewrite (unreadUpdater_loaded st uid val inc uce Hu Hge) in Hrun.
    inversion Hrun; subst; cbn.
    split; [| split]; auto.
    + now apply cacheInv_insert.
    + now apply topicsBelow_insert.
Qed.

(** *** Membership updates *)

Lemma registerUser_add_new (st : state W) (uid : Uid.t) :
  usersCache st !! uid = None ->
  registerUser true uid st =
    Ok tt (setCache (<[uid := {| unread := -1; topics := 1 |}]> (usersCache st)) st).
Proof.
  intros Hu. unfold registerUser. now rewrite (lookupEntry_None _ _ Hu).
Qed.

Lemma registerUser_add_known (st : state W) (uid : Uid.t) (uce : UserCacheEntry) :
  usersCache st !! uid = Some uce ->
  registerUser true uid st =
    Ok tt (setCache (<[uid := setTopics uce (GoInt.add (topics uce) 1)]>
                       (usersCache st)) st).
Proof.
  intros Hu. unfold registerUser. now rewrite (lookupEntry_Some _ _ _ Hu).
Qed.

Lemma registerUser_remove_many (st : state W) (uid : Uid.t) (uce : UserCacheEntry) :
  usersCache st !! uid = Some uce -> 1 < topics uce ->
  registerUser false uid st =
    Ok tt (setCache (<[uid := setTopics uce (GoInt.sub (topics uce) 1)]>
                       (usersCache st)) st).
Proof.
  intros Hu Ht. unfold registerUser. rewrite (lookupEntry_Some _ _ _ Hu).
  rewrite Z.gtb_ltb. destruct (Z.ltb_spec 1 (topics uce)); [reflexivity | lia].
Qed.

Lemma registerUser_remove_last (st : state W) (uid : Uid.t) (uce : UserCacheEntry) :
  usersCache st !! uid = Some uce -> topics uce <= 1 ->
  registerUser false uid st = Ok tt (setCache (delete uid (usersCache st)) st).
Proof.
  intros Hu Ht. unfold registerUser. rewrite (lookupEntry_Some _ _ _ Hu).
  rewrite Z.gtb_ltb. destruct (Z.ltb_spec 1 (topics uce)); [lia | reflexivity].
Qed.

Lemma registerUser_remove_unknown (st : state W) (uid : Uid.t) :
  usersCache st !! uid = None ->
  registerUser false uid st =
    Panic "request to unregister user which has not been registered".
Proof.
  intros Hu. unfold registerUser. now rewrite (lookupEntry_None _ _ Hu).
Qed.

(** One membership update keeps the invariant and uses up one unit of
    the room below the largest [int]. *)
Lemma registerUser_keeps (st st' : state W) (inc : bool) (uid : Uid.t) (n : Z) :
  registerUser inc uid st = Ok tt st' ->
  0 <= n ->
  cacheInv (usersCache st) -> topicsBelow (usersCache st) (n + 1) ->
  cacheInv (usersCache st') /\ topicsBelow (usersCache st') n /\
  pushed st' = pushed st.
Proof.
  intros Hrun Hn Hinv Hb.
  assert (Hb' : topicsBelow (usersCache st) n)
    by (apply (topicsBelow_weaken _ (n + 1)); [lia | assumption]).
  assert (Hroom : n + 1 <= GoInt.max_int) by (destruct Hb; lia).
  destruct (usersCache st !! uid) as [uce |] eqn:Hu.
  - assert (Hpos : 0 < topics uce) by (rewrite cacheInv_entries in Hinv; eauto).
    assert (Hle : topics uce + (n + 1) <= GoInt.max_int)
      by eauto using topicsBelow_entry.
    destruct inc.
    + rewrite (registerUser_add_known st uid uce Hu) in Hrun.
      inversion Hrun; subst; cbn.
      rewrite add_no_overflow
        by (unfold GoInt.int_range, GoInt.min_int, GoInt.max_int in *; lia).
      split; [| split]; auto.
      * apply cacheInv_insert; [assumption | cbn; lia].
      * apply topicsBelow_insert; [assumption | cbn; lia].
    + destruct (Z.lt_ge_cases 1 (topics uce)) as [Hmany | Hlast].
      * rewrite (registerUser_remove_many st uid uce Hu Hmany) in Hrun.
        inversion Hrun; subst; cbn.
        rewrite sub_no_overflow
          by (unfold GoInt.int_range, GoInt.min_int, GoInt.max_int in *; lia).
        split; [| split]; auto.
        -- apply cacheInv_insert; [assumption | cbn; lia].
        -- apply topicsBelow_insert; [assumption | cbn; lia].
      * rewrite (registerUser_remove_last st uid uce Hu) in Hrun by lia.
        inversion Hrun; subst; cbn.
        split; [| split]; auto.
        -- now apply cacheInv_delete.
        -- now apply topicsBelow_delete.
  - destruct inc.
    + rewrite (registerUser_add_new st uid Hu) in Hrun.
      inversion Hrun; subst; cbn.
      split; [| split]; auto.
      * apply cacheInv_insert; [assumption | cbn; lia].
      * apply topicsBelow_insert; [assumption | cbn; lia].
    + rewrite (registerUser_remove_unknown st uid Hu) in Hrun. discriminate.
Qed.

Lemma registerLoop_keeps (inc : bool) (uidList : list Uid.t) (m : Z) :
  0 <= m ->
  forall st st' : state W,
    registerLoop inc uidList st = Ok tt st' ->
    cacheInv (usersCache st) ->
    topicsBelow (usersCache st) (Z.of_nat (length uidList) + m) ->
    cacheInv (usersCache st') /\ topicsBelow (usersCache st') m /\
    pushed st' = pushed st.
Proof.
  intros Hm.
  induction uidList as [| uid rest IH]; intros st st' Hrun Hinv Hb.
  - inversion Hrun; subst. auto.
  - cbn [registerLoop] in Hrun. unfold mbind, M_bind, bind in Hrun.
    destruct (registerUser inc uid st) as [[] st1 | msg] eqn:Hone; [| discriminate].
    cbn [length] in Hb. rewrite Nat2Z.inj_succ in Hb.
    replace (Z.succ (Z.of_nat (length rest)) + m)
      with (Z.of_nat (length rest) + m + 1) in Hb by lia.
    destruct (registerUser_keeps st st1 inc uid (Z.of_nat (length rest) + m) Hone
                ltac:(lia) Hinv Hb)
      as (Hinv1 & Hb1 & Hp1).
    destruct (IH st1 st' Hrun Hinv1 Hb1) as (Hinv' & Hb' & Hp').
    rewrite Hp', Hp1. auto.
Qed.

Lemma pushLoop_keeps (to : list (Uid.t * Recipient)) :
  forall (st st' : state W) (to' : list (Uid.t * Recipient)) (n : Z),
    pushLoop Users to st = Ok to' st' ->
    cacheInv (usersCache st) -> topicsBelow (usersCache st) n ->
    cacheInv (usersCache st') /\ topicsBelow (usersCache st') n /\
    pushed st' = pushed st.
Proof.
  induction to as [| [uid rcptTo] rest IH]; intros st st' to' n Hrun Hinv Hb.
  - inversion Hrun; subst. auto.
  - cbn [pushLoop] in Hrun. unfold mbind, M_bind, bind in Hrun.
    destruct (unreadUpdater Users uid 1 true st) as [r st1 | msg] eqn:Hone;
      [| discriminate].
    destruct (unreadUpdater_keeps st st1 uid 1 true r n Hone Hinv Hb)
      as (Hinv1 & Hb1 & Hp1).
    destruct (pushLoop Users rest st1) as [rest' st2 | msg] eqn:Hrest;
      [| discriminate].
    destruct (IH st1 st2 rest' n Hrest Hinv1 Hb1) as (Hinv' & Hb' & Hp').
    inversion Hrun; subst. rewrite Hp', Hp1. auto.
Qed.

Lemma updateSize_nonneg (upd : option userUpdate) : 0 <= updateSize upd.
Proof. destruct upd; cbn; lia. Qed.

(** Every update the loop processes keeps the invariant of the cache, and
    uses up no more room than the registrations it asks for. *)
Lemma handleUpdate_keeps (upd : option userUpdate) (st st' : state W)
      (continue : bool) (m : Z) :
  0 <= m ->
  handleUpdate Users upd st = Ok continue st' ->
  cacheInv (usersCache st) ->
  topicsBelow (usersCache st) (updateSize upd + m) ->
  cacheInv (usersCache st') /\ topicsBelow (usersCache st') m.
Proof.
  intros Hm Hrun Hinv Hb.
  pose proof (updateSize_nonneg upd) as Hsize.
  assert (Hbm : topicsBelow (usersCache st) m)
    by (apply (topicsBelow_weaken _ (updateSize upd + m)); [lia | assumption]).
  destruct upd as [upd |].
  2: { inversion Hrun; subst. auto. }
  cbn [handleUpdate] in Hrun.
  destruct (upd_pushRcpt upd) as [rcpt |].
  - unfold mbind, M_bind, bind in Hrun.
    destruct (pushLoop Users (To rcpt) st) as [to st1 | msg] eqn:Hpush;
      [| discriminate].
    destruct (pushLoop_keeps _ _ _ _ _ Hpush Hinv Hbm) as (Hinv1 & Hb1 & _).
    inversion Hrun; subst. auto.
  - destruct (0 <? length (upd_uidList upd))%nat.
    + unfold mbind, M_bind, bind in Hrun.
      destruct (registerLoop (upd_inc upd) (upd_uidList upd) st)
        as [[] st1 | msg] eqn:Hreg; [| discriminate].
      destruct (registerLoop_keeps _ _ m Hm _ _ Hreg Hinv Hb) as (Hinv1 & Hb1 & _).
      inversion Hrun; subst. auto.
    + unfold mbind, M_bind, bind in Hrun.
      destruct (unreadUpdater Users (upd_uid upd) (upd_unread upd) (upd_inc upd) st)
        as [r st1 | msg] eqn:Hone; [| discriminate].
      destruct (unreadUpdater_keeps _ _ _ _ _ _ _ Hone Hinv Hbm) as (Hinv1 & Hb1 & _).
      inversion Hrun; subst. auto.
Qed.

Lemma updatesSize_nonneg (upds : list (option userUpdate)) : 0 <= updatesSize upds.
Proof.
  induction upds as [| upd upds IH]; cbn [updatesSize fold_right]; [lia |].
  fold (updatesSize upds). pose proof (updateSize_nonneg upd). lia.
Qed.

(** The loop of [userUpdater] keeps the invariant over any sequence of
    updates it returns from. *)
Lemma userUpdater_keeps (upds : list (option userUpdate)) :
  forall st st' : state W,
    userUpdater Users upds st = Ok tt st' ->
    cacheInv (usersCache st) ->
    topicsBelow (usersCache st) (updatesSize upds) ->
    cacheInv (usersCache st').
Proof.
  induction upds as [| upd upds IH]; intros st st' Hrun Hinv Hb.
  - inversion Hrun; subst. exact Hinv.
  - cbn [userUpdater] in Hrun. unfold mbind, M_bind, bind in Hrun.
    destruct (handleUpdate Users upd st) as [continue st1 | msg] eqn:Hone;
      [| discriminate].
    cbn [updatesSize fold_right] in Hb. fold (updatesSize upds) in Hb.
    destruct (handleUpdate_keeps upd st st1 continue (updatesSize upds)
                (updatesSize_nonneg upds) Hone Hinv Hb) as (Hinv1 & Hb1).
    destruct continue.
    + exact (IH st1 st' Hrun Hinv1 Hb1).
    + inversion Hrun; subst. exact Hinv1.
Qed.
End UserCacheFacts.

(** ** The validator of [tel] *)

Section TelFacts.
Local Open Scope Z_scope.
Import Store Tel.
Context {W : Type}.
Variable Users : UsersMapper W.

(** A right response confirms the credential and returns its value, with
    the error of the confirmation. *)
Lemma Check_confirms (v : validator) (user : Uid.t) (resp : string) (w w1 : W)
      (cred : Credential) :
  GetActiveCred Users user validatorName w = ((Some cred, None), w1) ->
  Retries cred <= MaxRetries v ->
  resp <> ""%string ->
  Resp cred = resp \/ DebugResponse v = resp ->
  Check Users v user resp w =
    ((Value cred, fst (ConfirmCred Users user validatorName w1)),
     snd (ConfirmCred Users user validatorName w1)).
Proof.
  intros Hget Hretries Hresp Hmatch. unfold Check. rewrite Hget.
  rewrite Z.gtb_ltb. destruct (Z.ltb_spec (MaxRetries v) (Retries cred)); [lia |].
  destruct (String.eqb_spec resp ""); [contradiction |].
  assert (Hor : String.eqb (Resp cred) resp || String.eqb (DebugResponse v) resp = true).
  { destruct Hmatch as [-> | ->]; rewrite String.eqb_refl;
      [reflexivity | apply orb_true_r]. }
  rewrite Hor. now destruct (ConfirmCred Users user validatorName w1).
Qed.

(** No active credential: an empty value and [ErrNotFound]. *)
Lemma Check_no_credential (v : validator) (user : Uid.t) (resp : string) (w w1 : W) :
  GetActiveCred Users user validatorName w = ((None, None), w1) ->
  Check Users v user resp w = ((""%string, Some (StoreErr ErrNotFound)), w1).
Proof. intros Hget. unfold Check. now rewrite Hget. Qed.
End TelFacts.

(** ** [updateCreds] *)

Section UpdateCredsFacts.
Import Effect Store Server.
Context {W : Type}.
Variable env : Env W.

Lemma mapWrite_nil (key : string) (v : Z) (st : state W) :
  mapWrite (W := W) None key v st = Panic "assignment to entry in nil map".
Proof. reflexivity. Qed.

(** Counting one stored credential already writes to the map, which was
    never made. *)
Lemma indexMethods_nil (stored : list Credential) (st : state W) :
  stored <> [] ->
  indexMethods stored None st = Panic "assignment to entry in nil map".
Proof. destruct stored as [| cred stored]; [contradiction | reflexivity]. Qed.

(** The loop over the supplied credentials never makes the map either. *)
Lemma checkLoop_nil (uid : Uid.t) (creds : list MsgCredClient) :
  forall (tagsToAdd tagsToRemove : list string) (st st' : state W)
         (methods : option (gmap string Z)) (a r : list string),
    checkLoop env uid creds None tagsToAdd tagsToRemove st = Ok (inr (methods, a, r)) st' ->
    methods = None /\ a = tagsToAdd /\ r = tagsToRemove.
Proof.
  induction creds as [| cr creds IH]; intros tagsToAdd tagsToRemove st st' methods a r Hrun.
  - inversion Hrun; subst. auto.
  - cbn [checkLoop] in Hrun.
    destruct (String.eqb (cr_Response cr) ""); [eauto |].
    destruct (GetValidator env (cr_Method cr)) as [vld |]; [| discriminate].
    unfold mbind, M_bind, bind, call, emit in Hrun.
    destruct (Check vld uid (cr_Response cr) (world st)) as [[value err] w].
    cbn [fst snd world log] in Hrun.
    destruct err as [err |].
    + destruct (isErrCredentials err); [eauto | discriminate].
    + destruct (negb (String.eqb value "")); discriminate.
Qed.

(** A response that checks out is counted, and the count is written to
    the map that was never made. *)
Lemma checkLoop_counts_into_nil (uid : Uid.t) (cr : MsgCredClient)
      (creds : list MsgCredClient) (vld : Validator W) (value : string) (w : W)
      (tagsToAdd tagsToRemove : list string) (st : state W) :
  cr_Response cr <> ""%string ->
  GetValidator env (cr_Method cr) = Some vld ->
  Check vld uid (cr_Response cr) (world st) = ((value, None), w) ->
  checkLoop env uid (cr :: creds) None tagsToAdd tagsToRemove st =
    Panic "assignment to entry in nil map".
Proof.
  intros Hresp Hvld Hcheck. cbn [checkLoop].
  destruct (String.eqb_spec (cr_Response cr) ""); [contradiction |].
  rewrite Hvld. unfold mbind, M_bind, bind, call, emit. rewrite Hcheck.
  cbn [fst snd]. now destruct (negb (String.eqb value "")).
Qed.

(** Whenever [updateCreds] returns, the list of validated methods is
    empty. *)
Lemma updateCreds_returns_nothing (uid : Uid.t) (authLvl : auth.Level)
      (creds : list MsgCredClient) (st st' : state W)
      (validated : list string) (err : option error) :
  updateCreds env uid authLvl creds st = Ok (validated, err) st' ->
  validated = [].
Proof.
  unfold updateCreds. intros Hrun.
  destruct (length (authValidators env authLvl) =? 0)%nat; [now inversion Hrun |].
  destruct (length creds =? 0)%nat; [now inversion Hrun |].
  unfold mbind, M_bind, bind, call in Hrun.
  destruct (GetAllCreds (Users env) uid true (world st)) as [[stored gerr] w].
  cbn [fst snd] in Hrun.
  destruct gerr; [now inversion Hrun |].
  destruct stored as [| cred stored]; [| discriminate].
  cbn [indexMethods mret M_ret ret] in Hrun.
  destruct (checkLoop env uid (normalizeCredentials env creds false) None [] [] _)
    as [[e | [[methods a] r]] st1 | msg] eqn:Hloop; [| | discriminate].
  - now inversion Hrun.
  - destruct (checkLoop_nil _ _ _ _ _ _ _ _ _ Hloop) as (-> & -> & ->).
    cbn in Hrun. now inversion Hrun.
Qed.

(** With a validated credential in the store the function panics. *)
Lemma updateCreds_panics (uid : Uid.t) (authLvl : auth.Level)
      (creds : list MsgCredClient) (st : state W)
      (stored : list Credential) (w : W) :
  authValidators env authLvl <> [] -> creds <> [] ->
  GetAllCreds (Users env) uid true (world st) = ((stored, None), w) ->
  stored <> [] ->
  updateCreds env uid authLvl creds st = Panic "assignment to entry in nil map".
Proof.
  intros Hreq Hcreds Hget Hstored. unfold updateCreds.
  destruct (authValidators env authLvl); [contradiction |].
  destruct creds; [contradiction |]. cbn [length Nat.eqb].
  unfold mbind, M_bind, bind, call. rewrite Hget. cbn [fst snd].
  now rewrite indexMethods_nil.
Qed.
End UpdateCredsFacts.

(** ** Account creation *)

Section CreateUserFacts.
Import Effect Store Server.
Context {W : Type}.
Variable env : Env W.

Lemma bind_Ok {A B : Type} (m : M (state W) A) (k : A -> M (state W) B)
      (st st' : state W) (b : B) :
  (m ≫= k) st = Ok b st' ->
  exists (a : A) (st1 : state W), m st = Ok a st1 /\ k a st1 = Ok b st'.
Proof.
  unfold mbind, M_bind, bind. destruct (m st) as [a st1 | msg]; [eauto | discriminate].
Qed.

Lemma call_Ok {A : Type} (f : W -> A * W) (st st' : state W) (a : A) :
  call f st = Ok a st' ->
  f (world st) = (a, world st') /\ log st' = log st.
Proof.
  unfold call. destruct (f (world st)) as [a' w]. intros H.
  inversion H; subst. auto.
Qed.

Lemma emit_Ok (e : Event) (st st' : state W) (u : unit) :
  emit e st = Ok u st' -> world st' = world st /\ log st' = log st ++ [e].
Proof. unfold emit. intros H. inversion H; subst. auto. Qed.

Lemma mret_Ok {A : Type} (a b : A) (st st' : state W) :
  (mret a : M (state W) A) st = Ok b st' -> b = a /\ st' = st.
Proof. intros H. inversion H; subst. auto. Qed.

Lemma setParams_Ok (m m' : ServerComMessage) (p : gmap string Any) (st st' : state W) :
  setParams m p st = Ok m' st' -> st' = st.
Proof.
  unfold setParams. destruct (Ctrl m); [| discriminate].
  intros H. now inversion H.
Qed.

Lemma addParam_Ok (m m' : ServerComMessage) (key : string) (v : Any) (st st' : state W) :
  addParam m key v st = Ok m' st' -> st' = st.
Proof.
  unfold addParam. destruct (Ctrl m) as [c |]; [| discriminate].
  destruct (ctrl_Params c); [apply setParams_Ok | discriminate].
Qed.

Lemma UsersDelete_Ok (uid : Uid.t) (hard : bool) (st st' : state W) (err : option error) :
  UsersDelete env uid hard st = Ok err st' ->
  Delete (Users env) uid hard (world st) = (err, world st') /\
  log st' = log st ++ [EvUsersDelete uid hard err].
Proof.
  unfold UsersDelete. intros H.
  apply bind_Ok in H as (e & st1 & Hc & H).
  apply bind_Ok in H as (u & st2 & He & H).
  apply mret_Ok in H as [-> ->].
  apply call_Ok in Hc as [Hc Hl1]. apply emit_Ok in He as [Hw2 Hl2].
  rewrite Hw2, Hl2, Hl1. auto.
Qed.

Lemma UsersUpdateTags_Ok (uid : Uid.t) (a r t : list string) (st st' : state W)
      (err : option error) :
  UsersUpdateTags env uid a r t st = Ok err st' ->
  log st' = log st ++ [EvUsersUpdateTags uid a r t err].
Proof.
  unfold UsersUpdateTags. intros H.
  apply bind_Ok in H as (e & st1 & Hc & H).
  apply bind_Ok in H as (u & st2 & He & H).
  apply mret_Ok in H as [-> ->].
  apply call_Ok in Hc as [Hc Hl1]. apply emit_Ok in He as [Hw2 Hl2].
  now rewrite Hl2, Hl1.
Qed.

Lemma preCheckLoop_log (creds : list MsgCredClient) :
  forall (st st' : state W) (r : option (MsgCredClient * error)),
    preCheckLoop env creds st = Ok r st' -> log st' = log st.
Proof.
  induction creds as [| cr creds IH]; intros st st' r H.
  - now inversion H.
  - cbn [preCheckLoop] in H.
    destruct (GetValidator env (cr_Method cr)) as [vld |]; [| discriminate].
    apply bind_Ok in H as (e & st1 & Hc & H).
    apply call_Ok in Hc as [_ Hl1].
    destruct e.
    + apply mret_Ok in H as [_ ->]. exact Hl1.
    + rewrite (IH _ _ _ H). exact Hl1.
Qed.

(** The events of [addCreds]: requests and tag updates only; an error
    returned is the error of the last of them. *)
Lemma addCredsLoop_log (uid : Uid.t) (creds : list MsgCredClient) (lang : string)
      (tmpToken : list ascii) :
  forall (validated tags : list string) (st st' : state W)
         (r : error + list string * list string),
    addCredsLoop env uid creds lang tmpToken validated tags st = Ok r st' ->
    exists evs : list Event,
      log st' = log st ++ evs /\ forallb credEvent evs = true /\
      match r with
      | inl err => exists evs0 e, evs = evs0 ++ [e] /\ eventError e = Some err
      | inr _ => True
      end.
Proof.
  induction creds as [| cr creds IH]; intros validated tags st st' r H.
  - apply mret_Ok in H as [-> ->]. exists []. now rewrite app_nil_r.
  - cbn [addCredsLoop] in H.
    destruct (GetValidator env (cr_Method cr)) as [vld |]; [| eauto].
    apply bind_Ok in H as (err & st1 & Hc & H).
    apply bind_Ok in H as (u & st2 & He & H).
    apply call_Ok in Hc as [_ Hl1]. apply emit_Ok in He as [_ Hl2].
    rewrite Hl1 in Hl2.
    destruct err as [err |].
    + apply mret_Ok in H as [-> ->].
      eexists [_]. split; [exact Hl2 |]. split; [reflexivity |].
      now exists [], (EvRequest (cr_Method cr) uid (cr_Value cr) lang (cr_Response cr)
                            tmpToken (Some err)).
    + assert (Hrest : exists validated' tags',
                 addCredsLoop env uid creds lang tmpToken validated' tags' st2 = Ok r st').
      { destruct (negb (String.eqb (cr_Response cr) "")); eauto. }
      destruct Hrest as (validated' & tags' & Hrest).
      destruct (IH _ _ _ _ _ Hrest) as (evs & Hl & Hce & Hr).
      eexists (_ :: evs). split; [| split].
      * rewrite Hl, Hl2, <- app_assoc. reflexivity.
      * cbn [forallb credEvent andb]. exact Hce.
      * destruct r as [err |]; [| exact I].
        destruct Hr as (evs0 & e & -> & He).
        now exists (EvRequest (cr_Method cr) uid (cr_Value cr) lang (cr_Response cr)
                          tmpToken None :: evs0), e.
Qed.

Lemma forallb_app_true {A} (f : A -> bool) (l1 l2 : list A) :
  forallb f l1 = true -> forallb f l2 = true -> forallb f (l1 ++ l2) = true.
Proof. intros H1 H2. rewrite forallb_app, H1, H2. reflexivity. Qed.

Lemma addCreds_log (uid : Uid.t) (creds : list MsgCredClient) (tags : list string)
      (lang : string) (tmpToken : list ascii) (st st' : state W)
      (v : list string * option error) :
  addCreds env uid creds tags lang tmpToken st = Ok v st' ->
  exists evs : list Event,
    log st' = log st ++ evs /\ forallb credEvent evs = true /\
    forall err : error, snd v = Some err ->
      exists evs0 e, evs = evs0 ++ [e] /\ eventError e = Some err.
Proof.
  unfold addCreds. intros H.
  apply bind_Ok in H as (r & st1 & Hloop & H).
  destruct (addCredsLoop_log _ _ _ _ _ _ _ _ _ Hloop) as (evs & Hl & Hce & Hr).
  destruct r as [err | [validated tags']].
  - apply mret_Ok in H as [-> ->]. exists evs. split; [exact Hl |]. split; [exact Hce |].
    intros err' Herr. cbn in Herr. inversion Herr; subst. exact Hr.
  - destruct (0 <? length tags')%nat.
    + apply bind_Ok in H as (uerr & st2 & Hu & H).
      apply UsersUpdateTags_Ok in Hu.
      exists (evs ++ [EvUsersUpdateTags uid [] [] tags' uerr]).
      assert (Hst : st' = st2 /\ snd v = uerr).
      { destruct uerr; apply mret_Ok in H as [-> ->]; auto. }
      destruct Hst as [-> Hv].
      split; [now rewrite Hu, Hl, app_assoc |].
      split; [now apply forallb_app_true |].
      intros err Herr. rewrite Hv in Herr. subst uerr. eauto.
    + apply mret_Ok in H as [-> ->]. exists evs. split; [exact Hl |].
      split; [exact Hce |]. intros err Herr. discriminate.
Qed.



Lemma single_event (l : list Event) (e : Event) (evs : list Event) :
  l ++ [e] = l ++ evs -> evs = [e].
Proof. intros H. apply app_inv_head in H. now subst. Qed.

End CreateUserFacts.

(** ** Video calls *)

Section CallFacts.
Import Effect Store Calls.
Context {W : Type}.
Variable env : Env W.

(** A run of events only appends them to the log. *)
Lemma forEach_emit {A : Type} (f : A -> Event) (l : list A) :
  forall st : state W,
    forEach (fun x => emit (f x)) l st =
      Ok tt {| topic := topic st; world := world st; log := log st ++ map f l |}.
Proof.
  induction l as [| x l IH]; intros st.
  - cbn. rewrite app_nil_r. now destruct st.
  - cbn [forEach map]. unfold mbind, M_bind, bind. cbn [emit].
    rewrite IH. cbn. now rewrite <- app_assoc.
Qed.

(** [saveAndBroadcastMessage] leaves the call and the timer alone. *)
Lemma save_run (msg : ClientComMessage) (asUid : Uid.t) (head : gmap string string)
      (content : string) (st : state W) :
  exists (err : option error) (n : Z) (w : W) (evs : list Event),
    save env msg asUid head content st =
      Ok err {| topic := setLastID (topic st) n; world := w; log := log st ++ evs |}.
Proof.
  unfold save, getTopic, call, emit, updTopic, mbind, M_bind, bind, mret, M_ret, ret.
  destruct (saveAndBroadcastMessage env (topic st) msg asUid head content (world st))
    as [[err n] w].
  cbn. eauto.
Qed.

(** Ending a call that is there: the timer is stopped and the call
    cleared. *)
Lemma maybeEndCallInProgress_live (from : string) (msg : ClientComMessage)
      (st : state W) (cur : videoCall) :
  currentCall (topic st) = Some cur ->
  exists st' : state W,
    maybeEndCallInProgress env from msg st = Ok tt st' /\
    currentCall (topic st') = None /\
    callEstablishmentTimer (topic st') = TimerStopped.
Proof.
  intros Hcur. unfold maybeEndCallInProgress.
  unfold mbind, M_bind, bind at 1. cbn [getTopic]. rewrite Hcur.
  unfold mbind, M_bind, bind at 1. cbn [updTopic].
  match goal with
  | |- context [save env ?m ?u ?h ?c] =>
      destruct (save_run m u h c
                  {| topic := setTimer (topic st) TimerStopped; world := world st;
                     log := log st |}) as (err & n & w & evs & Hsave)
  end.
  unfold mbind, M_bind, bind at 1. rewrite Hsave.
  unfold mbind, M_bind, bind at 1. cbn [emit topic world log].
  unfold mbind, M_bind, bind at 1. cbn [ranged topic world log].
  unfold bind.
  rewrite (forEach_emit
             (fun tgt => EvInfoCallSubsOffline from tgt constCallEventHangUp
                                               (seq cur) None "" true)).
  cbn. eauto.
Qed.

Lemma maybeEndCallInProgress_idle (from : string) (msg : ClientComMessage)
      (st : state W) :
  currentCall (topic st) = None ->
  maybeEndCallInProgress env from msg st = Ok tt st.
Proof.
  intros Hcur. unfold maybeEndCallInProgress, mbind, M_bind, bind. cbn [getTopic].
  now rewrite Hcur.
Qed.

(** [getCallOriginator] looks at the call only. *)
Lemma getCallOriginator_live (t : Topic) (cur : videoCall) :
  currentCall t = Some cur -> getCallOriginator t = findOriginator (parties cur).
Proof. intros H. unfold getCallOriginator. now rewrite H. Qed.

(** Server-initiated termination of a call whose originator is known
    ends the call as a hang-up does. *)
Lemma terminateCallInProgress_originator (st : state W) (cur : videoCall)
      (uid : Uid.t) (sess : Session) :
  currentCall (topic st) = Some cur ->
  findOriginator (parties cur) = (uid, Some sess) ->
  uid <> Uid.ZeroUid ->
  exists st' : state W,
    terminateCallInProgress env st = Ok tt st' /\
    currentCall (topic st') = None /\
    callEstablishmentTimer (topic st') = TimerStopped.
Proof.
  intros Hcur Horig Hnz. unfold terminateCallInProgress.
  unfold mbind, M_bind, bind at 1. cbn [getTopic]. rewrite Hcur.
  rewrite (getCallOriginator_live _ _ Hcur), Horig.
  unfold Uid.IsZero. destruct (Z.eqb_spec uid 0) as [-> | _]; [contradiction |].
  unfold mbind, M_bind, bind at 1. unfold call.
  destruct (TimeNow env (world st)) as [now w].
  match goal with
  | |- context [maybeEndCallInProgress env ?f ?m ?s] =>
      destruct (maybeEndCallInProgress_live f m s cur Hcur) as (st' & Hrun & Hres)
  end.
  eauto.
Qed.

(** Without an originator the call is just dropped: the timer is left
    as it is. *)
Lemma terminateCallInProgress_dropped (st : state W) (cur : videoCall)
      (uid : Uid.t) (sess : option Session) :
  currentCall (topic st) = Some cur ->
  findOriginator (parties cur) = (uid, sess) ->
  sess = None \/ uid = Uid.ZeroUid ->
  terminateCallInProgress env st =
    Ok tt {| topic := setCurrentCall (topic st) None; world := world st;
             log := log st |}.
Proof.
  intros Hcur Horig Hdrop. unfold terminateCallInProgress.
  unfold mbind, M_bind, bind. cbn [getTopic]. rewrite Hcur.
  rewrite (getCallOriginator_live _ _ Hcur), Horig.
  destruct sess as [sess |]; [| reflexivity].
  destruct Hdrop as [Hdrop | ->]; [discriminate | reflexivity].
Qed.

Lemma terminateCallInProgress_idle (st : state W) :
  currentCall (topic st) = None ->
  terminateCallInProgress env st = Ok tt st.
Proof.
  intros Hcur. unfold terminateCallInProgress, mbind, M_bind, bind. cbn [getTopic].
  now rewrite Hcur.
Qed.

(** An invite while a call is live is answered with the busy error and
    changes nothing in the topic. *)
Lemma handleCallInvite_busy (msg : ClientComMessage) (asUid : Uid.t)
      (st : state W) (cur : videoCall) :
  currentCall (topic st) = Some cur ->
  handleCallInvite env msg asUid st =
    Ok tt {| topic := topic st;
             world := snd (TimeNow env (world st));
             log := log st ++ [EvQueueOut (sess msg)
                                 (ErrCallBusyReply msg (fst (TimeNow env (world st))))] |}.
Proof.
  intros Hcur. unfold handleCallInvite, mbind, M_bind, bind. cbn [getTopic].
  rewrite Hcur. unfold call. now destruct (TimeNow env (world st)).
Qed.

(** An invite on an idle P2P topic starts the one call of the topic and
    arms the timer. *)
Lemma handleCallInvite_idle (msg : ClientComMessage) (asUid : Uid.t) (st : state W) :
  currentCall (topic st) = None ->
  cat (topic st) = TopicCatP2P ->
  exists st' : state W,
    handleCallInvite env msg asUid st = Ok tt st' /\
    currentCall (topic st') =
      Some {| parties := [(sess msg, {| uid := asUid; isOriginator := true |})];
              seq := lastID (topic st) |} /\
    callEstablishmentTimer (topic st') = TimerArmed constCallEstablishmentTimeout.
Proof.
  intros Hcur Hcat. unfold handleCallInvite, mbind, M_bind, bind. cbn [getTopic].
  rewrite Hcur, Hcat. rewrite bool_decide_eq_true_2 by reflexivity.
  cbn. eauto.
Qed.

(** A hang-up event that reaches the call ends it. *)
Lemma handleCallEvent_hangup (msg : ClientComMessage) (note : MsgClientNote)
      (st : state W) (cur : videoCall) :
  currentCall (topic st) = Some cur ->
  isInactive env (topic st) = false ->
  Note msg = Some note ->
  note_SeqId note = seq cur ->
  Types.ParseUserId (AsUser msg) ∈ perUser (topic st) ->
  note_Event note = constCallEventHangUp ->
  handleCallEvent env msg st = maybeEndCallInProgress env (AsUser msg) msg st.
Proof.
  intros Hcur Hact Hnote Hseq Huser Hev. unfold handleCallEvent.
  unfold mbind, M_bind, bind at 1. cbn [getTopic].
  rewrite Hcur, Hact, Hnote, Hseq, Z.eqb_refl. cbn [negb].
  rewrite bool_decide_eq_true_2 by assumption. cbn [negb].
  rewrite Hev. reflexivity.
Qed.
End CallFacts.

(** ** The shape of a call and its end *)

Section CallShapeFacts.
Local Open Scope Z_scope.
Import Effect Store Calls.
Context {W : Type}.
Variable env : Env W.

Lemma terminateCallInProgress_clears (st st' : state W) :
  terminateCallInProgress env st = Ok tt st' ->
  currentCall (topic st') = None.
Proof.
  intros Hrun. destruct (currentCall (topic st)) as [cur |] eqn:Hcur.
  - destruct (findOriginator (parties cur)) as [uid [sess |]] eqn:Horig.
    + destruct (Z.eq_dec uid Uid.ZeroUid) as [Hz | Hnz].
      * rewrite (terminateCallInProgress_dropped env st cur uid (Some sess) Hcur Horig)
          in Hrun by auto.
        now inversion Hrun.
      * destruct (terminateCallInProgress_originator env st cur uid sess Hcur Horig Hnz)
          as (st2 & Hrun2 & Hnone & _).
        rewrite Hrun2 in Hrun. now inversion Hrun; subst.
    + rewrite (terminateCallInProgress_dropped env st cur uid None Hcur Horig)
        in Hrun by auto.
      now inversion Hrun.
  - rewrite (terminateCallInProgress_idle env st Hcur) in Hrun.
    now inversion Hrun; subst.
Qed.

Lemma callInv_cleared (t : Topic) : currentCall t = None -> CallShape.callInv t.
Proof. intros H. unfold CallShape.callInv. now rewrite H. Qed.

Lemma callInv_same_call (t t' : Topic) :
  currentCall t' = currentCall t ->
  callEstablishmentTimer t' = callEstablishmentTimer t ->
  CallShape.callInv t -> CallShape.callInv t'.
Proof. unfold CallShape.callInv. intros -> ->. auto. Qed.

(** What an event can do to the topic. *)
Lemma handleCallEvent_topic (msg : ClientComMessage) (st st' : state W) :
  handleCallEvent env msg st = Ok tt st' ->
  currentCall (topic st') = None
  \/ (currentCall (topic st') = currentCall (topic st) /\
      callEstablishmentTimer (topic st') = callEstablishmentTimer (topic st))
  \/ (exists (cur : videoCall) (orig : Session) (p : callPartyData) (asUid : Uid.t),
        currentCall (topic st) = Some cur /\
        parties cur = [(orig, p)] /\ isOriginator p = true /\
        sameSession orig (sess msg) = false /\
        currentCall (topic st') =
          Some {| parties := [(orig, p); (sess msg, {| uid := asUid;
                                                   isOriginator := false |})];
                  seq := seq cur |} /\
        callEstablishmentTimer (topic st') = TimerStopped).
Proof.
  intros Hrun. unfold handleCallEvent in Hrun.
  unfold mbind, M_bind, bind at 1 in Hrun. cbn [getTopic] in Hrun.
  destruct (currentCall (topic st)) as [cur |] eqn:Hcur;
    [| inversion Hrun; subst; auto].
  destruct (isInactive env (topic st)); [inversion Hrun; subst; auto |].
  destruct (Note msg) as [note |]; [| discriminate].
  destruct (negb (seq cur =? note_SeqId note)); [inversion Hrun; subst; auto |].
  destruct (negb (bool_decide _)); [inversion Hrun; subst; auto |].
  destruct (String.eqb (note_Event note) constCallEventRinging
            || String.eqb (note_Event note) constCallEventAccept).
  { destruct (parties cur) as [| [orig p] [| q rest]] eqn:Hp;
      cbn [length Nat.eqb negb] in Hrun;
      try (inversion Hrun; subst; now auto).
    rewrite (getCallOriginator_live _ _ Hcur), Hp in Hrun. cbn [findOriginator] in Hrun.
    destruct (isOriginator p) eqn:Hop.
    2: { left. eapply terminateCallInProgress_clears. exact Hrun. }
    destruct (sameSession orig (sess msg)) eqn:Hsess; cbn [orb] in Hrun;
      [inversion Hrun; subst; now auto |].
    destruct (uid p =? Types.ParseUserId (AsUser msg));
      [inversion Hrun; subst; now auto |].
    destruct (String.eqb (note_Event note) constCallEventAccept).
    - unfold mbind, M_bind, bind at 1 in Hrun.
      match type of Hrun with
      | context [save env ?m ?u ?h ?c st] =>
          destruct (save_run env m u h c st) as (err & n & w & evs & Hsave)
      end.
      rewrite Hsave in Hrun. destruct err as [e |].
      + inversion Hrun; subst. cbn. auto.
      + unfold updTopic, getTopic, emit, queueOut, emit, mbind, M_bind, bind in Hrun.
        cbn [topic world log setParty] in Hrun. rewrite Hsess in Hrun.
        inversion Hrun; subst. cbn [topic].
        right. right. exists cur, orig, p, (Types.ParseUserId (AsUser msg)).
        cbn. auto 10.
    - unfold queueOut, emit in Hrun. inversion Hrun; subst. cbn. auto. }
  destruct (String.eqb (note_Event note) constCallEventOffer
            || String.eqb (note_Event note) constCallEventAnswer
            || String.eqb (note_Event note) constCallEventIceCandidate).
  { unfold mbind, M_bind, bind at 1 in Hrun. cbn [ranged] in Hrun.
    destruct (findOther (rangeParties env (parties cur) (world st)) (sess msg))
      as [otherUid [otherEnd |]];
      [| inversion Hrun; subst; now auto].
    unfold queueOut, emit in Hrun. inversion Hrun; subst. cbn. auto. }
  destruct (String.eqb (note_Event note) constCallEventHangUp);
    [| inversion Hrun; subst; now auto].
  destruct (maybeEndCallInProgress_live env (AsUser msg) msg st cur Hcur)
    as (st2 & Hrun2 & Hnone & _).
  rewrite Hrun2 in Hrun. inversion Hrun; subst. auto.
Qed.

(** The timer, armed, expires on a call whose originator is known: the
    call is ended as by a hang-up and the timer stopped. *)
Lemma establishmentTimeout_known (st : state W) (cur : videoCall) (d : Z)
      (uid : Uid.t) (sess : Session) :
  currentCall (topic st) = Some cur ->
  callEstablishmentTimer (topic st) = TimerArmed d ->
  findOriginator (parties cur) = (uid, Some sess) ->
  uid <> Uid.ZeroUid ->
  exists st' : state W,
    establishmentTimeout env st = Ok tt st' /\
    currentCall (topic st') = None /\
    callEstablishmentTimer (topic st') = TimerStopped.
Proof.
  intros Hcur Htimer Horig Hnz. unfold establishmentTimeout.
  unfold mbind, M_bind, bind at 1. cbn [getTopic]. rewrite Htimer.
  unfold mbind, M_bind, bind at 1. cbn [updTopic].
  apply (terminateCallInProgress_originator env _ cur uid sess); assumption.
Qed.

(** The timer expires on a call whose originator is not known: the call
    is dropped, and the timer is left expired. *)
Lemma establishmentTimeout_unknown (st : state W) (cur : videoCall) (d : Z)
      (uid : Uid.t) (sess : option Session) :
  currentCall (topic st) = Some cur ->
  callEstablishmentTimer (topic st) = TimerArmed d ->
  findOriginator (parties cur) = (uid, sess) ->
  sess = None \/ uid = Uid.ZeroUid ->
  establishmentTimeout env st =
    Ok tt {| topic := setCurrentCall (setTimer (topic st) TimerFired) None;
             world := world st; log := log st |}.
Proof.
  intros Hcur Htimer Horig Hdrop. unfold establishmentTimeout.
  unfold mbind, M_bind, bind at 1. cbn [getTopic]. rewrite Htimer.
  unfold mbind, M_bind, bind at 1. cbn [updTopic].
  now rewrite (terminateCallInProgress_dropped env
                 {| topic := setTimer (topic st) TimerFired; world := world st;
                    log := log st |} cur uid sess Hcur Horig Hdrop).
Qed.

(** After a timeout the call is gone and the timer does not run. *)
Lemma establishmentTimeout_ends (st : state W) (cur : videoCall) (d : Z) :
  currentCall (topic st) = Some cur ->
  callEstablishmentTimer (topic st) = TimerArmed d ->
  exists st' : state W,
    establishmentTimeout env st = Ok tt st' /\
    currentCall (topic st') = None /\
    timerActive (callEstablishmentTimer (topic st')) = false.
Proof.
  intros Hcur Htimer.
  destruct (findOriginator (parties cur)) as [uid [sess |]] eqn:Horig.
  - destruct (Z.eq_dec uid Uid.ZeroUid) as [Hz | Hnz].
    + eexists. split; [| split].
      * apply (establishmentTimeout_unknown st cur d uid (Some sess)); auto.
      * reflexivity.
      * reflexivity.
    + destruct (establishmentTimeout_known st cur d uid sess Hcur Htimer Horig Hnz)
        as (st' & Hrun & Hnone & Hstop).
      exists st'. rewrite Hstop. auto.
  - eexists. split; [| split].
    + apply (establishmentTimeout_unknown st cur d uid None); auto.
    + reflexivity.
    + reflexivity.
Qed.

(** A timer that is not armed does not fire. *)
Lemma establishmentTimeout_idle (st : state W) :
  timerActive (callEstablishmentTimer (topic st)) = false ->
  establishmentTimeout env st = Ok tt st.
Proof.
  intros Hidle. unfold establishmentTimeout, mbind, M_bind, bind. cbn [getTopic].
  destruct (callEstablishmentTimer (topic st)); [reflexivity | discriminate | reflexivity].
Qed.

(** A call started by a user with a non-zero id has a known originator,
    and the events of a call leave the originator of the call known. *)
Lemma handleCallInvite_originator (msg : ClientComMessage) (asUid : Uid.t)
      (st st' : state W) :
  asUid <> Uid.ZeroUid ->
  CallShape.originatorKnown (topic st) ->
  handleCallInvite env msg asUid st = Ok tt st' ->
  CallShape.originatorKnown (topic st').
Proof.
  intros Hnz Hknown Hrun.
  destruct (currentCall (topic st)) as [cur |] eqn:Hcur.
  - rewrite (handleCallInvite_busy env msg asUid st cur Hcur) in Hrun.
    inversion Hrun; subst. exact Hknown.
  - unfold handleCallInvite, mbind, M_bind, bind in Hrun. cbn [getTopic] in Hrun.
    rewrite Hcur in Hrun.
    destruct (negb (bool_decide (cat (topic st) = TopicCatP2P))).
    + unfold call, queueOut, emit in Hrun.
      destruct (TimeNow env (world st)). inversion Hrun; subst. exact Hknown.
    + inversion Hrun; subst. unfold CallShape.originatorKnown. cbn.
      exists asUid, (sess msg). auto.
Qed.

Lemma handleCallEvent_originator (msg : ClientComMessage) (st st' : state W) :
  CallShape.originatorKnown (topic st) ->
  handleCallEvent env msg st = Ok tt st' ->
  CallShape.originatorKnown (topic st').
Proof.
  intros Hknown Hrun. unfold CallShape.originatorKnown in *.
  destruct (handleCallEvent_topic msg st st' Hrun)
    as [Hnone | [[Hsame _] | (cur & orig & p & asUid & Hcur & Hp & Hop & Hsess
                              & Hcur' & _)]].
  - now rewrite Hnone.
  - now rewrite Hsame.
  - rewrite Hcur'. rewrite Hcur, Hp in Hknown. cbn [parties findOriginator] in *.
    rewrite Hop in *. exact Hknown.
Qed.

(** Server-initiated termination of a call whose originator is known. *)
Lemma terminateCallInProgress_known (st : state W) (cur : videoCall) :
  currentCall (topic st) = Some cur ->
  CallShape.originatorKnown (topic st) ->
  exists st' : state W,
    terminateCallInProgress env st = Ok tt st' /\
    currentCall (topic st') = None /\
    callEstablishmentTimer (topic st') = TimerStopped.
Proof.
  intros Hcur Hknown. unfold CallShape.originatorKnown in Hknown.
  rewrite Hcur in Hknown. destruct Hknown as (uid & sess & Horig & Hnz).
  now apply (terminateCallInProgress_originator env st cur uid sess).
Qed.
End CallShapeFacts.


(* ===================================================================== *)
(** * Claims                                                              *)
(* ===================================================================== *)

Section UidClaims.
Local Open Scope Z_scope.
Import Uid Types.

Lemma string_of_list_ascii_length (l : list ascii) :
  String.length (string_of_list_ascii l) = length l.
Proof. induction l as [| c l IH]; cbn; [reflexivity | now rewrite IH]. Qed.

Lemma append_length (s1 s2 : string) :
  String.length (s1 ++ s2) = (String.length s1 + String.length s2)%nat.
Proof. induction s1 as [| c s1 IH]; simpl; [reflexivity | now rewrite IH]. Qed.

Lemma String_length (u : Uid.t) : u <> ZeroUid -> String.length (Uid.String u) = 11%nat.
Proof.
  intros Hu. unfold Uid.String.
  now rewrite string_of_list_ascii_length, MarshalText_length.
Qed.

Lemma PrefixId_nonzero (u : Uid.t) (prefix : string) :
  u <> ZeroUid -> PrefixId u prefix = (prefix ++ Uid.String u)%string.
Proof.
  intros Hu. unfold PrefixId, IsZero.
  destruct (Z.eqb_spec u 0); [contradiction | reflexivity].
Qed.

(** C1, amended.  For every non-zero Uid [u] the textual codec round-trips,
    [UnmarshalText (MarshalText u)] sets the receiver to [u] without error
    (and [ParseUid (String u) = u] for every Uid); the zero Uid is
    marshalled as the empty text, which [UnmarshalText] rejects, leaving
    the receiver as it was.  A text that has not eleven characters or
    does not decode to eight bytes is rejected.  For non-zero distinct
    [a] and [b], [P2PName a b = P2PName b a] and [ParseP2P] gives back the
    two ids, smaller first; [P2PName a a] is the empty string. *)
Theorem C1_uid_codec_and_p2p_names :
  (forall u r : Uid.t,
      uid_range u -> u <> ZeroUid -> UnmarshalText r (MarshalText u) = (u, None))
  /\ (forall u : Uid.t, uid_range u -> ParseUid (Uid.String u) = u)
  /\ (forall r : Uid.t,
         MarshalText ZeroUid = [] /\
         UnmarshalText r (MarshalText ZeroUid) = (r, Some ErrUnmarshalTextLength))
  /\ (forall (r : Uid.t) (src : list ascii),
         Z.of_nat (length src) <> uidBase64Unpadded \/ decodedLen src <> 8 ->
         exists e : UidError, UnmarshalText r src = (r, Some e))
  /\ (forall a b : Uid.t,
         uid_range a -> uid_range b -> a <> ZeroUid -> b <> ZeroUid -> a <> b ->
         P2PName a b = P2PName b a /\
         ParseP2P (P2PName a b) = (Z.min a b, Z.max a b, None))
  /\ (forall a : Uid.t, P2PName a a = ""%string).
Proof.
  split; [| split; [| split; [| split; [| split]]]].
  - intros u r. apply UnmarshalText_MarshalText.
  - apply ParseUid_String.
  - intros r. split; reflexivity.
  - apply UnmarshalText_rejects.
  - intros a b Ha Hb Ha0 Hb0 Hne. split.
    + apply P2PName_comm.
    + now apply ParseP2P_P2PName.
  - apply P2PName_self.
Qed.

Lemma C1_uid_codec_and_p2p_names_witness :
  UnmarshalText 7 (MarshalText 1) = (1, None)
  /\ ParseUid (Uid.String 1) = 1
  /\ (exists e : UidError, UnmarshalText 7 [] = (7, Some e))
  /\ (P2PName 1 2 = P2PName 2 1 /\ ParseP2P (P2PName 1 2) = (Z.min 1 2, Z.max 1 2, None)).
Proof.
  destruct C1_uid_codec_and_p2p_names as (H1 & H2 & _ & H4 & H5 & _).
  split; [| split; [| split]].
  - apply H1; [unfold uid_range; lia | discriminate].
  - apply H2. unfold uid_range. lia.
  - apply H4. left. discriminate.
  - apply H5; unfold uid_range, ZeroUid; lia.
Defined.

(** C1 fails at the zero Uid: its text is empty and is not parsed back;
    a receiver that held 7 still holds 7. *)
Lemma C1_zero_uid_is_not_parsed_back :
  uid_range ZeroUid /\
  UnmarshalText 7 (MarshalText ZeroUid) = (7, Some ErrUnmarshalTextLength) /\
  UnmarshalText 7 (MarshalText ZeroUid) <> (ZeroUid, None).
Proof.
  split; [unfold uid_range, ZeroUid; lia |].
  split; [reflexivity | discriminate].
Qed.

(** C10.  The zero Uid has no text: [MarshalText], [String], [PrefixId],
    [UserId] and [FndName] give the empty string for it; every other Uid
    has a text of eleven characters, which the prefixed forms carry after
    their prefix. *)
Theorem C10_zero_uid_has_empty_text :
  MarshalText ZeroUid = []
  /\ Uid.String ZeroUid = ""%string
  /\ (forall prefix : string, PrefixId ZeroUid prefix = ""%string)
  /\ UserId ZeroUid = ""%string
  /\ FndName ZeroUid = ""%string
  /\ (forall u : Uid.t,
         u <> ZeroUid ->
         length (MarshalText u) = 11%nat /\
         String.length (Uid.String u) = 11%nat /\
         UserId u = ("usr" ++ Uid.String u)%string /\
         FndName u = ("fnd" ++ Uid.String u)%string /\
         String.length (UserId u) = 14%nat /\
         String.length (FndName u) = 14%nat)
  /\ (forall (u : Uid.t) (prefix : string),
         PrefixId u prefix <> ""%string -> u <> ZeroUid).
Proof.
  repeat (split; [reflexivity |]). split.
  - intros u Hu. unfold UserId, FndName.
    rewrite !PrefixId_nonzero by assumption.
    pose proof (String_length u Hu) as Hlen.
    split; [now apply MarshalText_length |].
    split; [exact Hlen |].
    split; [reflexivity |]. split; [reflexivity |].
    rewrite !append_length, Hlen. split; reflexivity.
  - intros u prefix Hne ->. now apply Hne.
Qed.

Lemma C10_zero_uid_has_empty_text_witness :
  String.length (Uid.String 1) = 11%nat /\ UserId 1 = ("usr" ++ Uid.String 1)%string
  /\ (1 <> ZeroUid).
Proof.
  destruct C10_zero_uid_has_empty_text as (_ & _ & _ & _ & _ & H6 & H7).
  assert (H1 : (1 : Uid.t) <> ZeroUid) by discriminate.
  destruct (H6 1 H1) as (_ & Hs & Hu & _).
  split; [exact Hs |]. split; [exact Hu |].
  apply (H7 1 "usr"%string). intros Hc.
  change (PrefixId 1 "usr") with (UserId 1) in Hc.
  rewrite Hu in Hc. simpl in Hc. discriminate Hc.
Defined.
End UidClaims.

Section AccessModeClaims.
Local Open Scope Z_scope.
Import AccessMode.

(** C2, on the code.  The text of the mode J is parsed to J with the bit
    of [ModeUnset] in it, whatever the receiver held: [UnmarshalText]
    starts from [ModeUnset] and never clears that bit, so parsing the text
    of a mode does not give the mode back. *)
Theorem C2_UnmarshalText_leaves_unset_bit :
  forall r : AccessMode.t,
    MarshalText ModeJoin = (["J"%char], None) /\
    UnmarshalText r (fst (MarshalText ModeJoin)) = (Z.lor ModeJoin ModeUnset, None) /\
    Z.lor ModeJoin ModeUnset = 257 /\
    Z.lor ModeJoin ModeUnset <> ModeJoin.
Proof.
  intros r. split; [reflexivity |]. split; [reflexivity |].
  split; [reflexivity | discriminate].
Qed.

(** C9.  [UnmarshalText] keeps the receiver when the text is empty or
    holds a byte that is no access letter; it returns an error exactly in
    the second case, naming such a byte; the receiver changes only when
    every byte is an access letter, and then without error. *)
Theorem C9_UnmarshalText_keeps_receiver_on_bad_text :
  (forall m : AccessMode.t, UnmarshalText m [] = (m, None))
  /\ (forall (m : AccessMode.t) (b : list ascii),
         (exists c : ascii, In c b /\ isModeChar c = false) ->
         exists c : ascii,
           In c b /\ isModeChar c = false /\
           UnmarshalText m b = (m, Some (ErrInvalidCharacter c)))
  /\ (forall (m : AccessMode.t) (b : list ascii),
         snd (UnmarshalText m b) <> None <->
         exists c : ascii, In c b /\ isModeChar c = false)
  /\ (forall (m : AccessMode.t) (b : list ascii),
         fst (UnmarshalText m b) <> m ->
         forallb isModeChar b = true /\ b <> [] /\ snd (UnmarshalText m b) = None).
Proof.
  split; [reflexivity |]. split; [| split].
  - intros m b (c & Hin & Hc).
    apply UnmarshalText_invalid. exact (forallb_false_of_In b c Hin Hc).
  - intros m b. split.
    + intros Herr. destruct (forallb isModeChar b) eqn:Hall.
      * now rewrite (UnmarshalText_valid m b Hall) in Herr.
      * destruct (UnmarshalText_invalid m b Hall) as (c & Hin & Hc & _). eauto.
    + intros (c & Hin & Hc).
      destruct (UnmarshalText_invalid m b (forallb_false_of_In b c Hin Hc))
        as (c' & _ & _ & ->).
      discriminate.
  - intros m b Hchg. destruct (forallb isModeChar b) eqn:Hall.
    + split; [reflexivity |]. split; [| now apply UnmarshalText_valid].
      intros ->. now apply Hchg.
    + destruct (UnmarshalText_invalid m b Hall) as (c & _ & _ & Heq).
      rewrite Heq in Hchg. now destruct Hchg.
Qed.

Lemma C9_UnmarshalText_keeps_receiver_on_bad_text_witness :
  (exists c : ascii,
      In c ["J"; "x"]%char /\ isModeChar c = false /\
      UnmarshalText 5 ["J"; "x"]%char = (5, Some (ErrInvalidCharacter c)))
  /\ snd (UnmarshalText 5 ["J"; "x"]%char) <> None
  /\ (forallb isModeChar ["R"; "w"]%char = true /\ ["R"; "w"]%char <> [] /\
      snd (UnmarshalText 5 ["R"; "w"]%char) = None).
Proof.
  destruct C9_UnmarshalText_keeps_receiver_on_bad_text as (_ & H2 & H3 & H4).
  assert (Hbad : exists c : ascii, In c ["J"; "x"]%char /\ isModeChar c = false).
  { exists "x"%char. split; [right; left; reflexivity | reflexivity]. }
  split; [exact (H2 5 _ Hbad) |].
  split; [apply (proj2 (H3 5 _) Hbad) |].
  apply (H4 5). discriminate.
Defined.
End AccessModeClaims.

Section UserCacheClaims.
Local Open Scope Z_scope.
Import Effect Store UserCache.

(** One membership update for one user is one turn of the loop. *)
Lemma userUpdater_one {W : Type} (Users : UsersMapper W) (inc : bool) (uid : Uid.t)
      (rest : list (option userUpdate)) (st : state W) :
  userUpdater Users (Some (CacheOps.membership [uid] inc) :: rest) st =
    match registerUser inc uid st with
    | Ok _ st1 => userUpdater Users rest st1
    | Panic msg => Panic msg
    end.
Proof.
  cbn [userUpdater handleUpdate CacheOps.membership upd_pushRcpt upd_uidList upd_inc
       length Nat.ltb Nat.leb registerLoop].
  unfold mbind, M_bind, bind.
  destruct (registerUser inc uid st) as [[] st1 | msg]; reflexivity.
Qed.

Lemma cacheStart_inv : cacheInv (usersCache Examples.cacheStart).
Proof.
  apply cacheInv_entries. intros uid uce Hu. cbn in Hu.
  apply lookup_singleton_Some in Hu as [_ <-]. cbn. lia.
Defined.

Lemma cacheStart_below (n : Z) :
  0 <= n <= 1000 -> topicsBelow (usersCache Examples.cacheStart) n.
Proof.
  intros Hn. split; [unfold GoInt.max_int; lia |].
  intros uid uce Hu. cbn in Hu.
  apply lookup_singleton_Some in Hu as [_ <-]. cbn. unfold GoInt.max_int. lia.
Defined.

(** C5, amended.  Every run of [userUpdater] over a sequence of updates
    keeps the invariant of the cache, a user has an entry exactly when its
    count of topics is positive, as long as no count of topics is about
    to pass the largest [int].  When [userUpdater] processes a membership
    add it makes the entry of a new user with [unread = -1] and one topic
    and adds one to the count of a known user; when it processes a
    membership remove it takes one from a count above one and deletes the
    entry whose count would reach zero; it then goes on with the updates
    that follow.  An update that lists several users is processed as the
    updates for each of them in turn.  On a remove of a user that is not
    cached and on an unread update for such a user [userUpdater] panics,
    no entry is made. *)
Theorem C5_cache_invariant_is_kept {W : Type} (Users : UsersMapper W) :
  (forall (upds : list (option userUpdate)) (st st' : state W),
      cacheInv (usersCache st) ->
      topicsBelow (usersCache st) (updatesSize upds) ->
      userUpdater Users upds st = Ok tt st' ->
      cacheInv (usersCache st'))
  /\ (forall (rest : list (option userUpdate)) (st : state W) (uid : Uid.t),
         usersCache st !! uid = None ->
         userUpdater Users (Some (CacheOps.membership [uid] true) :: rest) st =
           userUpdater Users rest
             (setCache (<[uid := {| unread := -1; topics := 1 |}]> (usersCache st)) st))
  /\ (forall (rest : list (option userUpdate)) (st : state W) (uid : Uid.t)
             (uce : UserCacheEntry),
         usersCache st !! uid = Some uce -> 0 < topics uce < GoInt.max_int ->
         userUpdater Users (Some (CacheOps.membership [uid] true) :: rest) st =
           userUpdater Users rest
             (setCache (<[uid := setTopics uce (topics uce + 1)]> (usersCache st)) st))
  /\ (forall (rest : list (option userUpdate)) (st : state W) (uid : Uid.t)
             (uce : UserCacheEntry),
         usersCache st !! uid = Some uce -> 1 < topics uce <= GoInt.max_int ->
         userUpdater Users (Some (CacheOps.membership [uid] false) :: rest) st =
           userUpdater Users rest
             (setCache (<[uid := setTopics uce (topics uce - 1)]> (usersCache st)) st))
  /\ (forall (rest : list (option userUpdate)) (st : state W) (uid : Uid.t)
             (uce : UserCacheEntry),
         usersCache st !! uid = Some uce -> topics uce <= 1 ->
         userUpdater Users (Some (CacheOps.membership [uid] false) :: rest) st =
           userUpdater Users rest (setCache (delete uid (usersCache st)) st))
  /\ (forall (rest : list (option userUpdate)) (st : state W) (inc : bool)
             (uid : Uid.t) (l : list Uid.t),
         l <> [] ->
         userUpdater Users (Some (CacheOps.membership (uid :: l) inc) :: rest) st =
           userUpdater Users
             (Some (CacheOps.membership [uid] inc)
                :: Some (CacheOps.membership l inc) :: rest) st)
  /\ (forall (rest : list (option userUpdate)) (st : state W) (uid : Uid.t),
         usersCache st !! uid = None ->
         userUpdater Users (Some (CacheOps.membership [uid] false) :: rest) st =
           Panic "request to unregister user which has not been registered")
  /\ (forall (rest : list (option userUpdate)) (st : state W) (uid : Uid.t)
             (val : Z) (inc : bool),
         usersCache st !! uid = None ->
         userUpdater Users
           (Some {| upd_uid := uid; upd_uidList := []; upd_unread := val;
                    upd_inc := inc; upd_pushRcpt := None |} :: rest) st =
           Panic "attempt to update unread count for user who has not been loaded").
Proof.
  split; [| split; [| split; [| split; [| split; [| split; [| split]]]]]].
  - intros upds st st' Hinv Hb Hrun.
    exact (userUpdater_keeps Users upds st st' Hrun Hinv Hb).
  - intros rest st uid Hu.
    now rewrite userUpdater_one, (registerUser_add_new st uid Hu).
  - intros rest st uid uce Hu Ht.
    rewrite userUpdater_one, (registerUser_add_known st uid uce Hu).
    rewrite add_no_overflow; [reflexivity |].
    unfold GoInt.int_range, GoInt.min_int, GoInt.max_int in *. lia.
  - intros rest st uid uce Hu Ht.
    rewrite userUpdater_one, (registerUser_remove_many st uid uce Hu) by lia.
    rewrite sub_no_overflow; [reflexivity |].
    unfold GoInt.int_range, GoInt.min_int, GoInt.max_int in *. lia.
  - intros rest st uid uce Hu Ht.
    now rewrite userUpdater_one, (registerUser_remove_last st uid uce Hu Ht).
  - intros rest st inc uid l Hl. rewrite userUpdater_one.
    destruct l as [| u l]; [contradiction |].
    cbn [userUpdater handleUpdate CacheOps.membership upd_pushRcpt upd_uidList upd_inc
         length Nat.ltb Nat.leb registerLoop].
    unfold mbind, M_bind, bind.
    destruct (registerUser inc uid st) as [[] st1 | msg]; reflexivity.
  - intros rest st uid Hu.
    now rewrite userUpdater_one, (registerUser_remove_unknown st uid Hu).
  - intros rest st uid val inc Hu.
    cbn [userUpdater handleUpdate upd_pushRcpt upd_uidList upd_uid upd_unread upd_inc
         length Nat.ltb Nat.leb].
    unfold mbind, M_bind, bind.
    now rewrite (unreadUpdater_uncached Users st uid val inc Hu).
Qed.

(** Runs of the updater on the cache of the example, where user 1 has one
    topic: user 2 joins a topic, user 1 joins a second one and leaves it,
    user 1 leaves its only topic, and user 2, not cached, cannot leave. *)
Lemma C5_cache_invariant_is_kept_witness :
  (forall st' : state Examples.MemWorld,
      userUpdater Examples.memUsers
        [Some (CacheOps.membership [1; 2] true); Some (CacheOps.membership [1] false)]
        Examples.cacheStart = Ok tt st' ->
      cacheInv (usersCache st'))
  /\ userUpdater Examples.memUsers [Some (CacheOps.membership [2] true)] Examples.cacheStart =
       Ok tt (setCache (<[2 := {| unread := -1; topics := 1 |}]>
                          (usersCache Examples.cacheStart)) Examples.cacheStart)
  /\ userUpdater Examples.memUsers [Some (CacheOps.membership [1] true)] Examples.cacheStart =
       Ok tt (setCache (<[1 := {| unread := -1; topics := 2 |}]>
                          (usersCache Examples.cacheStart)) Examples.cacheStart)
  /\ userUpdater Examples.memUsers [Some (CacheOps.membership [1] false)] Examples.cacheStart =
       Ok tt (setCache (delete 1 (usersCache Examples.cacheStart)) Examples.cacheStart)
  /\ userUpdater Examples.memUsers [Some (CacheOps.membership [2] false)] Examples.cacheStart =
       Panic "request to unregister user which has not been registered".
Proof.
  destruct (C5_cache_invariant_is_kept Examples.memUsers)
    as (Hinv & Hnew & Hknown & _ & Hlast & _ & Hgone & _).
  split; [| split; [| split; [| split]]].
  - intros st' Hrun.
    refine (Hinv _ Examples.cacheStart st' cacheStart_inv _ Hrun).
    apply cacheStart_below. cbn. lia.
  - apply (Hnew [] Examples.cacheStart 2). reflexivity.
  - apply (Hknown [] Examples.cacheStart 1 {| unread := -1; topics := 1 |});
      [reflexivity |].
    cbn. unfold GoInt.max_int. lia.
  - apply (Hlast [] Examples.cacheStart 1 {| unread := -1; topics := 1 |});
      [reflexivity |].
    cbn. lia.
  - apply (Hgone [] Examples.cacheStart 2). reflexivity.
Defined.

(** C5 fails at the largest [int]: the cache holds user 1 with that many
    topics and satisfies the invariant; [userUpdater] processes one more
    membership add for the user, the count wraps around to the smallest
    [int], the entry stays, and the invariant is broken. *)
Lemma C5_count_wraps_at_the_largest_int :
  let full : state Examples.MemWorld :=
    {| usersCache := {[ 1 := {| unread := 0; topics := GoInt.max_int |} ]};
       world := Examples.emptyWorld; pushed := [] |} in
  cacheInv (usersCache full) /\
  exists st' : state Examples.MemWorld,
    userUpdater Examples.memUsers [Some (CacheOps.membership [1] true)] full = Ok tt st' /\
    usersCache st' !! 1 = Some {| unread := 0; topics := GoInt.min_int |} /\
    ~ cacheInv (usersCache st').
Proof.
  intros full. split.
  - apply cacheInv_entries. intros uid uce Hu. cbn in Hu.
    apply lookup_singleton_Some in Hu as [_ <-]. cbn. unfold GoInt.max_int. lia.
  - eexists. split; [reflexivity |].
    split; [vm_compute; reflexivity |].
    intros Hinv. rewrite cacheInv_entries in Hinv.
    specialize (Hinv 1 {| unread := 0; topics := GoInt.min_int |}).
    cbn in Hinv. unfold GoInt.min_int in Hinv.
    assert (Hl : 0 < - 2 ^ 63) by (apply Hinv; vm_compute; reflexivity).
    lia.
Qed.

(** C6, amended.  When the cached unread count of a user is negative (not
    loaded) an unread update fetches the count with [GetUnreadCount] and
    stores it; the value of the update is not applied (and when the fetch
    fails the cache is left as it is and -1 returned).  When the cached
    count is not negative the update is applied directly: an absolute
    update stores the value, a delta adds it, as Go's [int] adds. *)
Theorem C6_unread_update_loads_or_applies {W : Type} (Users : UsersMapper W)
        (st : state W) (uid : Uid.t) (val : Z) (inc : bool) (uce : UserCacheEntry) :
  usersCache st !! uid = Some uce ->
  (unread uce < 0 ->
     unreadUpdater Users uid val inc st =
       let '((count, err), w) := GetUnreadCount Users uid (world st) in
       match err with
       | Some _ => Ok (-1) (setWorld w st)
       | None =>
           Ok count (setCache (<[uid := setUnread uce count]> (usersCache st))
                              (setWorld w st))
       end)
  /\ (0 <= unread uce ->
        let v := if inc then GoInt.add (unread uce) val else val in
        unreadUpdater Users uid val inc st =
          Ok v (setCache (<[uid := setUnread uce v]> (usersCache st)) st)).
Proof.
  intros Hu. split.
  - now apply unreadUpdater_not_loaded.
  - now apply unreadUpdater_loaded.
Qed.

Lemma C6_unread_update_loads_or_applies_witness :
  unreadUpdater Examples.memUsers 1 3 false Examples.cacheStart =
    Ok 5 (setCache (<[1 := {| unread := 5; topics := 1 |}]>
                      (usersCache Examples.cacheStart))
                   (setWorld (world Examples.cacheStart) Examples.cacheStart))
  /\ (let st := setCache {[ 1 := {| unread := 5; topics := 1 |} ]} Examples.cacheStart in
      unreadUpdater Examples.memUsers 1 3 true st =
        Ok 8 (setCache (<[1 := {| unread := 8; topics := 1 |}]> (usersCache st)) st)).
Proof.
  split.
  - apply (proj1 (C6_unread_update_loads_or_applies Examples.memUsers
                    Examples.cacheStart 1 3 false {| unread := -1; topics := 1 |}
                    eq_refl)).
    cbn. lia.
  - cbv zeta.
    assert (Hu : usersCache (setCache {[ 1 := {| unread := 5; topics := 1 |} ]}
                                      Examples.cacheStart) !! 1
                 = Some {| unread := 5; topics := 1 |}) by reflexivity.
    apply (proj2 (C6_unread_update_loads_or_applies Examples.memUsers
                    _ 1 3 true {| unread := 5; topics := 1 |} Hu)).
    cbn. lia.
Defined.

(** C6 fails when the count is not loaded: the store holds five unread
    messages; an absolute update to 3 leaves 5 in the cache, and so does a
    delta of 1 (not 6). *)
Lemma C6_update_is_dropped_on_lazy_load :
  usersCache Examples.cacheStart !! 1 = Some {| unread := -1; topics := 1 |}
  /\ (exists st' : state Examples.MemWorld,
         unreadUpdater Examples.memUsers 1 3 false Examples.cacheStart = Ok 5 st' /\
         usersCache st' !! 1 = Some {| unread := 5; topics := 1 |} /\ 5 <> 3)
  /\ (exists st' : state Examples.MemWorld,
         unreadUpdater Examples.memUsers 1 1 true Examples.cacheStart = Ok 5 st' /\
         usersCache st' !! 1 = Some {| unread := 5; topics := 1 |} /\ 5 <> 5 + 1).
Proof.
  split; [reflexivity |].
  split; eexists; (split; [reflexivity | split; [reflexivity | lia]]).
Qed.
End UserCacheClaims.

Section CredentialClaims.
Local Open Scope Z_scope.
Import Effect Store.

(** C7, on the code.  [updateCreds] never allocates its map of counts:
    with a validated credential in the store it panics on the first
    count, and whenever it returns, the list of validated methods is
    empty.  It does not return the methods whose count is at least one. *)
Theorem C7_updateCreds_writes_to_nil_map {W : Type} (env : Server.Env W) :
  (forall (uid : Uid.t) (authLvl : auth.Level) (creds : list Server.MsgCredClient)
          (st : Server.state W) (stored : list Credential) (w : W),
      Server.authValidators env authLvl <> [] -> creds <> [] ->
      GetAllCreds (Server.Users env) uid true (Server.world st) = ((stored, None), w) ->
      stored <> [] ->
      Server.updateCreds env uid authLvl creds st =
        Panic "assignment to entry in nil map")
  /\ (forall (uid : Uid.t) (authLvl : auth.Level) (creds : list Server.MsgCredClient)
             (st st' : Server.state W) (validated : list string) (err : option error),
         Server.updateCreds env uid authLvl creds st = Ok (validated, err) st' ->
         validated = []).
Proof.
  split.
  - intros uid authLvl creds st stored w. apply updateCreds_panics.
  - intros uid authLvl creds st st' validated err.
    apply updateCreds_returns_nothing.
Qed.

(** A user with one validated credential of the method [tel] answers the
    challenge of another one. *)
Lemma C7_updateCreds_writes_to_nil_map_witness :
  Server.updateCreds (Examples.memEnv None None ["tel"%string]) 1 auth.LevelAuth
    [Examples.telClientCred "424242"]
    {| Server.world := Examples.withCreds Examples.emptyWorld
                         (Some Examples.telCred) [Examples.telCred];
       Server.log := [] |}
  = Panic "assignment to entry in nil map".
Proof.
  apply (proj1 (C7_updateCreds_writes_to_nil_map
                  (Examples.memEnv None None ["tel"%string]))
           1 auth.LevelAuth [Examples.telClientCred "424242"] _
           [Examples.telCred]
           (Examples.withCreds Examples.emptyWorld
              (Some Examples.telCred) [Examples.telCred]));
    [discriminate | discriminate | reflexivity | discriminate].
Defined.

(** C8, amended.  [Check] of the validator [tel], given a right response
    to an active credential, confirms the credential and returns its
    stored value (with the error of the confirmation, if any); when no
    active credential exists it returns an empty value together with
    [ErrNotFound]. *)
Theorem C8_tel_Check {W : Type} (Users : UsersMapper W) (v : Tel.validator)
        (user : Uid.t) (resp : string) (w w1 : W) :
  (forall cred : Credential,
      GetActiveCred Users user Tel.validatorName w = ((Some cred, None), w1) ->
      Retries cred <= Tel.MaxRetries v ->
      resp <> ""%string ->
      Resp cred = resp \/ Tel.DebugResponse v = resp ->
      Tel.Check Users v user resp w =
        ((Value cred, fst (ConfirmCred Users user Tel.validatorName w1)),
         snd (ConfirmCred Users user Tel.validatorName w1)))
  /\ (GetActiveCred Users user Tel.validatorName w = ((None, None), w1) ->
      Tel.Check Users v user resp w = ((""%string, Some (StoreErr ErrNotFound)), w1)).
Proof.
  split.
  - intros cred. apply Check_confirms.
  - apply Check_no_credential.
Qed.

Lemma C8_tel_Check_witness :
  (let w := Examples.withCreds Examples.emptyWorld (Some Examples.telCred) [] in
   Tel.Check Examples.memUsers Examples.telConf 1 "424242" w =
     (("+15550100"%string, None),
      Examples.withCreds Examples.emptyWorld None [Examples.telCred]))
  /\ Tel.Check Examples.memUsers Examples.telConf 1 "424242" Examples.emptyWorld =
       ((""%string, Some (StoreErr ErrNotFound)), Examples.emptyWorld).
Proof.
  split.
  - cbv zeta.
    apply (proj1 (C8_tel_Check Examples.memUsers Examples.telConf 1 "424242"
                    (Examples.withCreds Examples.emptyWorld (Some Examples.telCred) [])
                    (Examples.withCreds Examples.emptyWorld (Some Examples.telCred) []))
             Examples.telCred);
      [reflexivity | cbn; lia | discriminate | left; reflexivity].
  - apply (proj2 (C8_tel_Check Examples.memUsers Examples.telConf 1 "424242"
                    Examples.emptyWorld Examples.emptyWorld)).
    reflexivity.
Defined.

(** C8 fails when the credential was removed: no active credential
    exists, and [Check] returns [ErrNotFound], not a nil error. *)
Lemma C8_removed_credential_is_an_error :
  GetActiveCred Examples.memUsers 1 Tel.validatorName Examples.emptyWorld =
    ((None, None), Examples.emptyWorld)
  /\ fst (Tel.Check Examples.memUsers Examples.telConf 1 "424242" Examples.emptyWorld) =
       (""%string, Some (StoreErr ErrNotFound))
  /\ snd (fst (Tel.Check Examples.memUsers Examples.telConf 1 "424242"
                 Examples.emptyWorld)) <> None.
Proof. split; [reflexivity |]. split; [reflexivity | discriminate]. Qed.
End CredentialClaims.

Section CreateUserClaims.
Import Effect Store Server.


Local Open Scope Z_scope.


End CreateUserClaims.

Section CallClaims.
Local Open Scope Z_scope.
Import Effect Store Calls.

(** C4.  A topic has one slot for a call: an invite while a call is live
    is answered with the busy error and changes nothing, an invite on an
    idle P2P topic starts the call and arms the timer.  A hang-up event
    that reaches the call runs [maybeEndCallInProgress], after which
    [currentCall] is nil and the timer stopped.  When the timer of call
    establishment expires the topic runs [terminateCallInProgress], after
    which [currentCall] is nil and the timer does not run: it has been
    stopped when the originator of the call is known, as it is in every
    call the handlers build for a user with a non-zero id, and it has
    expired when the call is dropped for want of an originator.  Without a
    call the two functions return at once, and a timer that is not armed
    does not expire. *)
Theorem C4_call_end_clears_call {W : Type} (env : Env W) :
  (forall (msg : ClientComMessage) (asUid : Uid.t) (st : state W) (cur : videoCall),
      currentCall (topic st) = Some cur ->
      handleCallInvite env msg asUid st =
        Ok tt {| topic := topic st;
                 world := snd (TimeNow env (world st));
                 log := log st ++ [EvQueueOut (sess msg)
                                     (ErrCallBusyReply msg (fst (TimeNow env (world st))))] |})
  /\ (forall (msg : ClientComMessage) (asUid : Uid.t) (st : state W),
         currentCall (topic st) = None -> cat (topic st) = TopicCatP2P ->
         exists st' : state W,
           handleCallInvite env msg asUid st = Ok tt st' /\
           currentCall (topic st') =
             Some {| parties := [(sess msg, {| uid := asUid; isOriginator := true |})];
                     seq := lastID (topic st) |} /\
           callEstablishmentTimer (topic st') = TimerArmed constCallEstablishmentTimeout)
  /\ (forall (msg : ClientComMessage) (note : MsgClientNote) (st : state W)
             (cur : videoCall),
         currentCall (topic st) = Some cur ->
         isInactive env (topic st) = false ->
         Note msg = Some note ->
         note_SeqId note = seq cur ->
         Types.ParseUserId (AsUser msg) ∈ perUser (topic st) ->
         note_Event note = constCallEventHangUp ->
         handleCallEvent env msg st = maybeEndCallInProgress env (AsUser msg) msg st /\
         exists st' : state W,
           handleCallEvent env msg st = Ok tt st' /\
           currentCall (topic st') = None /\
           callEstablishmentTimer (topic st') = TimerStopped)
  /\ (forall (from : string) (msg : ClientComMessage) (st : state W) (cur : videoCall),
         currentCall (topic st) = Some cur ->
         exists st' : state W,
           maybeEndCallInProgress env from msg st = Ok tt st' /\
           currentCall (topic st') = None /\
           callEstablishmentTimer (topic st') = TimerStopped)
  /\ (forall (st : state W) (cur : videoCall) (d : Z),
         currentCall (topic st) = Some cur ->
         callEstablishmentTimer (topic st) = TimerArmed d ->
         exists st' : state W,
           establishmentTimeout env st = Ok tt st' /\
           currentCall (topic st') = None /\
           timerActive (callEstablishmentTimer (topic st')) = false)
  /\ (forall (st : state W) (cur : videoCall) (d : Z),
         currentCall (topic st) = Some cur ->
         callEstablishmentTimer (topic st) = TimerArmed d ->
         CallShape.originatorKnown (topic st) ->
         exists st' : state W,
           establishmentTimeout env st = Ok tt st' /\
           currentCall (topic st') = None /\
           callEstablishmentTimer (topic st') = TimerStopped)
  /\ (forall (st : state W) (cur : videoCall),
         currentCall (topic st) = Some cur ->
         CallShape.originatorKnown (topic st) ->
         exists st' : state W,
           terminateCallInProgress env st = Ok tt st' /\
           currentCall (topic st') = None /\
           callEstablishmentTimer (topic st') = TimerStopped)
  /\ (forall (msg : ClientComMessage) (asUid : Uid.t) (st st' : state W),
         asUid <> Uid.ZeroUid ->
         CallShape.originatorKnown (topic st) ->
         handleCallInvite env msg asUid st = Ok tt st' ->
         CallShape.originatorKnown (topic st'))
  /\ (forall (msg : ClientComMessage) (st st' : state W),
         CallShape.originatorKnown (topic st) ->
         handleCallEvent env msg st = Ok tt st' ->
         CallShape.originatorKnown (topic st'))
  /\ (forall (st : state W) (cur : videoCall) (d : Z) (uid : Uid.t)
             (sess : option Session),
         currentCall (topic st) = Some cur ->
         callEstablishmentTimer (topic st) = TimerArmed d ->
         findOriginator (parties cur) = (uid, sess) ->
         sess = None \/ uid = Uid.ZeroUid ->
         establishmentTimeout env st =
           Ok tt {| topic := setCurrentCall (setTimer (topic st) TimerFired) None;
                    world := world st; log := log st |})
  /\ (forall (from : string) (msg : ClientComMessage) (st : state W),
         currentCall (topic st) = None ->
         maybeEndCallInProgress env from msg st = Ok tt st /\
         terminateCallInProgress env st = Ok tt st)
  /\ (forall st : state W,
         timerActive (callEstablishmentTimer (topic st)) = false ->
         establishmentTimeout env st = Ok tt st).
Proof.
  split; [apply handleCallInvite_busy |].
  split; [apply handleCallInvite_idle |].
  split.
  { intros msg note st cur Hcur Hact Hnote Hseq Huser Hev.
    pose proof (handleCallEvent_hangup env msg note st cur Hcur Hact Hnote Hseq Huser Hev)
      as Heq.
    split; [exact Heq |]. rewrite Heq.
    now apply (maybeEndCallInProgress_live env _ msg st cur). }
  split; [intros from msg st cur; apply maybeEndCallInProgress_live |].
  split; [apply establishmentTimeout_ends |].
  split.
  { intros st cur d Hcur Htimer Hknown. unfold CallShape.originatorKnown in Hknown.
    rewrite Hcur in Hknown. destruct Hknown as (uid & sess & Horig & Hnz).
    now apply (establishmentTimeout_known env st cur d uid sess). }
  split; [apply terminateCallInProgress_known |].
  split; [apply handleCallInvite_originator |].
  split; [apply handleCallEvent_originator |].
  split; [apply establishmentTimeout_unknown |].
  split.
  { intros from msg st Hcur. split.
    - now apply maybeEndCallInProgress_idle.
    - now apply terminateCallInProgress_idle. }
  apply establishmentTimeout_idle.
Qed.

Lemma user2_of_topic : Types.ParseUserId (Uid.UserId 2) ∈ perUser Examples.p2pTopic.
Proof.
  assert (Hu : Types.ParseUserId (Uid.UserId 2) = 2) by (vm_compute; reflexivity).
  rewrite Hu. cbn. set_solver.
Qed.

Lemma user1_of_topic : Types.ParseUserId (Uid.UserId 1) ∈ perUser Examples.p2pTopic.
Proof.
  assert (Hu : Types.ParseUserId (Uid.UserId 1) = 1) by (vm_compute; reflexivity).
  rewrite Hu. cbn. set_solver.
Qed.

Lemma user2_is_not_user1 : 1 <> Types.ParseUserId (Uid.UserId 2).
Proof.
  assert (Hu : Types.ParseUserId (Uid.UserId 2) = 2) by (vm_compute; reflexivity).
  rewrite Hu. discriminate.
Qed.

(** User 1 calls user 2 on their P2P topic; a second invite is refused;
    user 2 hangs up, or nobody answers and the timer expires: either way
    the call is gone and the timer stopped. *)
Lemma C4_call_end_clears_call_witness :
  let invite := Examples.callMsg 1 Examples.sessA "invite" in
  let live := Examples.stateOf (handleCallInvite Examples.callEnv invite 1 Examples.callStart)
                               Examples.callStart in
  (exists st' : state Examples.MemWorld,
      handleCallInvite Examples.callEnv invite 1 Examples.callStart = Ok tt st' /\
      currentCall (topic st') =
        Some {| parties := [(Examples.sessA, {| uid := 1; isOriginator := true |})];
                seq := 7 |} /\
      callEstablishmentTimer (topic st') = TimerArmed constCallEstablishmentTimeout)
  /\ (exists st' : state Examples.MemWorld,
         handleCallInvite Examples.callEnv (Examples.callMsg 2 Examples.sessB "invite") 2 live
           = Ok tt st' /\ topic st' = topic live)
  /\ (exists st' : state Examples.MemWorld,
         handleCallEvent Examples.callEnv
           (Examples.callMsg 2 Examples.sessB "hang-up") live = Ok tt st' /\
         currentCall (topic st') = None /\
         callEstablishmentTimer (topic st') = TimerStopped)
  /\ (exists st' : state Examples.MemWorld,
         establishmentTimeout Examples.callEnv live = Ok tt st' /\
         currentCall (topic st') = None /\
         callEstablishmentTimer (topic st') = TimerStopped)
  /\ (exists st' : state Examples.MemWorld,
         terminateCallInProgress Examples.callEnv live = Ok tt st' /\
         currentCall (topic st') = None /\
         callEstablishmentTimer (topic st') = TimerStopped).
Proof.
  intros invite live.
  destruct (C4_call_end_clears_call Examples.callEnv)
    as (Hbusy & Hidle & Hhang & _ & _ & Htimeout & Hterm & Hinvite & _).
  assert (Hlive : currentCall (topic live) =
                  Some {| parties := [(Examples.sessA, {| uid := 1; isOriginator := true |})];
                          seq := 7 |}) by reflexivity.
  assert (Hknown : CallShape.originatorKnown (topic live)).
  { apply (Hinvite invite 1 Examples.callStart live).
    - discriminate.
    - exact I.
    - reflexivity. }
  split; [| split; [| split; [| split]]].
  - apply (Hidle invite 1 Examples.callStart); reflexivity.
  - eexists. split; [apply (Hbusy _ 2 live _ Hlive) | reflexivity].
  - destruct (Hhang (Examples.callMsg 2 Examples.sessB "hang-up")
                {| note_SeqId := 7; note_Event := "hang-up"; note_Payload := None |}
                live _ Hlive) as [_ Hend];
      [reflexivity | reflexivity | reflexivity | exact user2_of_topic | reflexivity |].
    exact Hend.
  - apply (Htimeout live _ constCallEstablishmentTimeout Hlive); [reflexivity | exact Hknown].
  - apply (Hterm live _ Hlive Hknown).
Defined.
End CallClaims.

(* ===================================================================== *)
(** * Further properties of the code                                      *)
(* ===================================================================== *)

(** ** [Uid]: binary and JSON codecs, user ids, headers *)

Section UidCodecFacts.
Local Open Scope Z_scope.
Import Uid Types UidCodec.

(** A text that [UnmarshalText] rejects leaves the receiver as it was. *)
Lemma UnmarshalText_error_keeps (r u : Uid.t) (src : list ascii) (e : UidError) :
  UnmarshalText r src = (u, Some e) -> u = r.
Proof.
  unfold UnmarshalText.
  destruct (negb _); [intros H; now inversion H |].
  destruct (Base64.Decode _ _) as [[count dec] err].
  destruct (count <? 8); intros H; now inversion H.
Qed.

(** Only a text of eleven characters gives a Uid. *)
Lemma UnmarshalText_length (r u : Uid.t) (src : list ascii) :
  UnmarshalText r src = (u, None) -> length src = 11%nat.
Proof.
  unfold UnmarshalText.
  destruct (Z.eqb_spec (Z.of_nat (length src)) uidBase64Unpadded) as [Hlen | Hlen];
    cbn [negb]; [| discriminate].
  intros _. unfold uidBase64Unpadded in Hlen. lia.
Qed.

Lemma UnmarshalText_zero_or_length (src : list ascii) :
  fst (UnmarshalText 0 src) <> 0 -> length src = 11%nat.
Proof.
  intros H. destruct (UnmarshalText 0 src) as [u [e |]] eqn:Hu.
  - apply UnmarshalText_error_keeps in Hu. cbn in H. contradiction.
  - now apply UnmarshalText_length in Hu.
Qed.

(** X1.  The binary form of a Uid is its eight bytes, least significant
    first: [UnmarshalBinary] reads back what [MarshalBinary] wrote, looks
    at the first eight bytes only, and refuses a shorter slice with the
    receiver left as it was. *)
Theorem X1_uid_binary_round_trip :
  (forall (u r : Uid.t) (rest : list Z),
      uid_range u -> UnmarshalBinary r (MarshalBinary u ++ rest) = (u, None))
  /\ (forall (r : Uid.t) (b : list Z),
         (length b < 8)%nat ->
         UnmarshalBinary r b = (r, Some ErrUnmarshalBinaryLength))
  /\ (forall u : Uid.t,
         length (MarshalBinary u) = 8%nat /\
         Forall Base64.byte_ok (MarshalBinary u))
  /\ (forall u v : Uid.t,
         uid_range u -> uid_range v -> MarshalBinary u = MarshalBinary v -> u = v).
Proof.
  split; [| split; [| split]].
  - intros u r rest Hu. unfold UnmarshalBinary, MarshalBinary.
    rewrite length_app, PutUint64_length.
    destruct (Z.ltb_spec (Z.of_nat (8 + length rest)) 8) as [H | _]; [lia |].
    now rewrite Uint64_PutUint64.
  - intros r b Hlen. unfold UnmarshalBinary.
    destruct (Z.ltb_spec (Z.of_nat (length b)) 8) as [_ | H]; [reflexivity | lia].
  - intros u. split; [reflexivity | apply PutUint64_range].
  - intros u v Hu Hv Heq.
    rewrite <- (Uint64_PutUint64 u [] Hu), <- (Uint64_PutUint64 v [] Hv).
    unfold MarshalBinary in Heq. now rewrite Heq.
Qed.

Lemma X1_uid_binary_round_trip_witness :
  UnmarshalBinary 7 (MarshalBinary 1000000007 ++ [255]) = (1000000007, None)
  /\ UnmarshalBinary 7 [1; 2; 3] = (7, Some ErrUnmarshalBinaryLength).
Proof.
  destruct X1_uid_binary_round_trip as (H1 & H2 & _).
  split.
  - apply (H1 1000000007 7 [255]). unfold uid_range. lia.
  - apply (H2 7 [1; 2; 3]). simpl. lia.
Defined.

Lemma slice_quoted (text : list ascii) :
  slice (([quote] ++ text) ++ [quote]) 1 (Z.of_nat (length (([quote] ++ text) ++ [quote])) - 1)
  = text.
Proof.
  unfold slice. rewrite !length_app. cbn [length app].
  replace (Z.to_nat (Z.of_nat (1 + length text + 1) - 1 - 1)) with (length text) by lia.
  change (Z.to_nat 1) with 1%nat. cbn [skipn drop].
  apply take_app_length.
Qed.

Lemma at_quoted_first (text : list ascii) :
  at_ (([quote] ++ text) ++ [quote]) 0 = quote.
Proof. reflexivity. Qed.

Lemma at_quoted_last (text : list ascii) :
  at_ (([quote] ++ text) ++ [quote])
      (Z.of_nat (length (([quote] ++ text) ++ [quote])) - 1) = quote.
Proof.
  unfold at_. rewrite length_app. cbn [length].
  replace (Z.to_nat (Z.of_nat (length ([quote] ++ text) + 1) - 1))
    with (length ([quote] ++ text)) by lia.
  now rewrite nth_middle.
Qed.

(** X2.  The JSON form of a non-zero Uid is its text between double
    quotes, and [UnmarshalJSON] reads it back.  The zero Uid is written as
    two quotes with nothing between, which [UnmarshalJSON] refuses for its
    length; whenever it returns an error the receiver is as it was. *)
Theorem X2_uid_json_round_trip :
  (forall u r : Uid.t,
      uid_range u -> u <> ZeroUid -> UnmarshalJSON r (MarshalJSON u) = (u, None))
  /\ (forall r : Uid.t,
         MarshalJSON ZeroUid = [quote; quote] /\
         UnmarshalJSON r (MarshalJSON ZeroUid) = (r, Some ErrUnmarshalJSONLength))
  /\ (forall (r : Uid.t) (b : list ascii),
         length b <> 13%nat -> UnmarshalJSON r b = (r, Some ErrUnmarshalJSONLength))
  /\ (forall (r u : Uid.t) (b : list ascii) (e : CodecError),
         UnmarshalJSON r b = (u, Some e) -> u = r).
Proof.
  split; [| split; [| split]].
  - intros u r Hu Hnz. unfold UnmarshalJSON, MarshalJSON.
    rewrite at_quoted_first, at_quoted_last, slice_quoted.
    rewrite !length_app, MarshalText_length by assumption.
    cbn [length Nat.add Z.of_nat]. change (Z.of_nat 13 =? uidBase64Unpadded + 2) with true.
    cbn [negb orb Ascii.eqb]. rewrite Ascii.eqb_refl. cbn [negb orb].
    now rewrite UnmarshalText_MarshalText.
  - intros r. split; reflexivity.
  - intros r b Hlen. unfold UnmarshalJSON.
    destruct (Z.eqb_spec (Z.of_nat (length b)) (uidBase64Unpadded + 2)) as [H | _];
      [| reflexivity].
    unfold uidBase64Unpadded in H. lia.
  - intros r u b e. unfold UnmarshalJSON.
    destruct (negb _); [intros H; now inversion H |].
    destruct (_ || _); [intros H; now inversion H |].
    destruct (UnmarshalText r _) as [u' [e' |]] eqn:Htext; cbn [option_map];
      intros H; inversion H; subst.
    now apply UnmarshalText_error_keeps in Htext.
Qed.

Lemma X2_uid_json_round_trip_witness :
  UnmarshalJSON 0 (MarshalJSON 1000000007) = (1000000007, None)
  /\ UnmarshalJSON 5 [quote; "A"%char; quote] = (5, Some ErrUnmarshalJSONLength).
Proof.
  destruct X2_uid_json_round_trip as (H1 & _ & H3 & _).
  split.
  - apply (H1 1000000007 0); [unfold uid_range; lia | discriminate].
  - apply (H3 5). simpl. lia.
Defined.

Lemma prefix_append (p s : string) : String.prefix p (p ++ s)%string = true.
Proof.
  induction p as [| c p IH]; [now destruct s |].
  change (String.String c p ++ s)%string with (String.String c (p ++ s)%string).
  cbn [String.prefix]. destruct (Ascii.ascii_dec c c); [exact IH | contradiction].
Qed.

Lemma list_ascii_append (p s : string) :
  list_ascii_of_string (p ++ s)%string = list_ascii_of_string p ++ list_ascii_of_string s.
Proof.
  induction p as [| c p IH]; [reflexivity |].
  change (String.String c p ++ s)%string with (String.String c (p ++ s)%string).
  cbn [list_ascii_of_string]. now rewrite IH.
Qed.

Lemma String_prefix_length (p s : string) :
  String.prefix p s = true -> (String.length p <= String.length s)%nat.
Proof.
  revert s. induction p as [| c p IH]; intros s H; [cbn; lia |].
  destruct s as [| d s]; [discriminate |].
  cbn in H. destruct (Ascii.ascii_dec c d); [| discriminate].
  cbn. apply IH in H. lia.
Qed.

Lemma list_ascii_length (s : string) :
  length (list_ascii_of_string s) = String.length s.
Proof. induction s; cbn; congruence. Qed.

(** X3.  [ParseUserId] reads back the user id [UserId] writes, the zero
    Uid with its empty id included; it gives a non-zero Uid only for a
    name of fourteen characters that starts with [usr], so the names of
    [fnd] and P2P topics parse to the zero Uid. *)
Theorem X3_ParseUserId_reads_user_ids :
  (forall u : Uid.t, uid_range u -> ParseUserId (UserId u) = u)
  /\ (forall s : string,
         ParseUserId s <> ZeroUid ->
         String.prefix "usr" s = true /\ String.length s = 14%nat)
  /\ (forall u : Uid.t, ParseUserId (FndName u) = ZeroUid)
  /\ (forall a b : Uid.t, ParseUserId (P2PName a b) = ZeroUid).
Proof.
  split; [| split; [| split]].
  - intros u Hu. unfold UserId, PrefixId, IsZero.
    destruct (Z.eqb_spec u 0) as [-> | Hnz]; [reflexivity |].
    unfold ParseUserId.
    rewrite prefix_append, list_ascii_append.
    change (skipn 3 (list_ascii_of_string "usr" ++ ?l)) with l.
    unfold Uid.String. rewrite list_ascii_of_string_of_list_ascii.
    now rewrite UnmarshalText_MarshalText.
  - intros s Hs. unfold ParseUserId in Hs.
    destruct (String.prefix "usr" s) eqn:Hp; [| contradiction].
    split; [reflexivity |].
    apply UnmarshalText_zero_or_length in Hs.
    apply String_prefix_length in Hp. cbn in Hp.
    rewrite length_skipn, list_ascii_length in Hs. lia.
  - intros u. unfold FndName, PrefixId, ParseUserId.
    destruct (IsZero u); reflexivity.
  - intros a b. unfold P2PName, ParseUserId.
    destruct (negb (IsZero a) && negb (IsZero b)); [| reflexivity].
    destruct (a <? b); [reflexivity |].
    destruct (a >? b); reflexivity.
Qed.

Lemma X3_ParseUserId_reads_user_ids_witness :
  ParseUserId (UserId 1000000007) = 1000000007
  /\ (String.prefix "usr" (UserId 1000000007) = true /\
      String.length (UserId 1000000007) = 14%nat).
Proof.
  destruct X3_ParseUserId_reads_user_ids as (H1 & H2 & _).
  assert (Hp : ParseUserId (UserId 1000000007) = 1000000007).
  { apply (H1 1000000007). unfold uid_range. lia. }
  split; [exact Hp |].
  apply (H2 (UserId 1000000007)). rewrite Hp. discriminate.
Defined.
End UidCodecFacts.


Section HeaderFacts.
Local Open Scope Z_scope.
Import Store Header.

(** X4.  [SetUid] and [Uid] of a header agree: after [SetUid(u)] the call
    [Uid()] returns [u] and leaves the header alone, and the text [Id]
    parses to the number [id].  A header that holds the text of a non-zero
    Uid only, as a record read from the database does, gets the number
    from the text and keeps it; a second call of [Uid()] changes nothing
    any more. *)
Theorem X4_header_uid_is_kept :
  (forall (h : ObjHeader) (u : Uid.t),
      Header.Uid (SetUid h u) = (SetUid h u, u))
  /\ (forall (h : ObjHeader) (u : Uid.t),
         Uid.uid_range u -> Types.ParseUid (Id (SetUid h u)) = id (SetUid h u))
  /\ (forall (h : ObjHeader) (u : Uid.t),
         Uid.uid_range u -> u <> Uid.ZeroUid ->
         id h = Uid.ZeroUid -> Id h = Uid.String u ->
         Header.Uid h = (setId h u, u))
  /\ (forall h : ObjHeader, Header.Uid (fst (Header.Uid h)) = Header.Uid h)
  /\ (forall h : ObjHeader, snd (Header.Uid h) = ObjHeader_Uid h).
Proof.
  split; [| split; [| split; [| split]]].
  - intros h u. unfold Header.Uid, SetUid. cbn [id Id].
    unfold Uid.IsZero. destruct (Z.eqb_spec u 0) as [-> | _]; reflexivity.
  - intros h u Hu. cbn [SetUid Id id]. now apply ParseUid_String.
  - intros h u Hu Hnz Hid HId. unfold Header.Uid. rewrite Hid, HId.
    cbn [Uid.IsZero Uid.ZeroUid Z.eqb andb].
    assert (Hne : String.eqb (Uid.String u) "" = false).
    { apply String.eqb_neq. intros Heq.
      apply (f_equal String.length) in Heq.
      rewrite String_length in Heq by assumption. discriminate. }
    rewrite Hne. cbn [negb]. unfold Uid.String.
    rewrite list_ascii_of_string_of_list_ascii, UnmarshalText_MarshalText by assumption.
    reflexivity.
  - intros h. unfold Header.Uid.
    destruct (Uid.IsZero (id h) && negb (String.eqb (Id h) "")) eqn:Hc;
      cbn [fst]; [| now rewrite Hc].
    apply andb_prop in Hc as [Hz Hne]. cbn [setId id Id]. rewrite Hne.
    apply Z.eqb_eq in Hz. rewrite Hz.
    destruct (Uid.UnmarshalText 0 (list_ascii_of_string (Id h))) as [u err] eqn:Hu.
    cbn [fst]. unfold Uid.IsZero. destruct (Z.eqb_spec u 0) as [-> | _].
    + cbn [andb]. rewrite Hu. reflexivity.
    + reflexivity.
  - intros h. unfold Header.Uid, ObjHeader_Uid.
    destruct (Uid.IsZero (id h) && negb (String.eqb (Id h) "")); reflexivity.
Qed.

Lemma X4_header_uid_is_kept_witness :
  let h := {| Id := Uid.String 1000000007; id := 0; CreatedAt := 5; UpdatedAt := 6;
              DeletedAt := None |} in
  Types.ParseUid (Id (SetUid h 42)) = 42
  /\ Header.Uid h = (setId h 1000000007, 1000000007).
Proof.
  intros h. destruct X4_header_uid_is_kept as (_ & H2 & H3 & _).
  split.
  - apply (H2 h 42). unfold Uid.uid_range. lia.
  - apply (H3 h 1000000007); [unfold Uid.uid_range; lia | discriminate | reflexivity ..].
Defined.

Lemma MergeTimes_cases (h h2 : ObjHeader) :
  (CreatedAt (MergeTimes h h2) =
     if CreatedAt h =? 0 then CreatedAt h2
     else if CreatedAt h2 =? 0 then CreatedAt h
     else Z.min (CreatedAt h) (CreatedAt h2))
  /\ UpdatedAt (MergeTimes h h2) = Z.max (UpdatedAt h) (UpdatedAt h2)
  /\ DeletedAt (MergeTimes h h2) =
       match DeletedAt h, DeletedAt h2 with
       | Some d, Some d2 => Some (Z.max d d2)
       | Some d, None => Some d
       | None, other => other
       end.
Proof.
  unfold MergeTimes, Time_IsZero, Time_Before. cbn [CreatedAt UpdatedAt DeletedAt].
  split; [| split].
  - destruct (Z.eqb_spec (CreatedAt h) 0), (Z.eqb_spec (CreatedAt h2) 0),
      (Z.ltb_spec (CreatedAt h2) (CreatedAt h)); cbn [negb orb andb]; lia.
  - destruct (Z.ltb_spec (UpdatedAt h) (UpdatedAt h2)); lia.
  - destruct (DeletedAt h) as [d |], (DeletedAt h2) as [d2 |]; try reflexivity.
    destruct (Z.ltb_spec d d2); f_equal; lia.
Qed.

Lemma header_eq (h k : ObjHeader) :
  Id h = Id k -> id h = id k -> times h = times k -> h = k.
Proof.
  destruct h, k. unfold times. cbn. intros -> -> H. now inversion H.
Qed.

(** X5.  The times of a header.  [InitTimes] leaves a header that is not
    deleted and whose update time is its creation time, read from the
    clock only when the header had none.  [MergeTimes] takes the earliest
    creation time that is set, the latest update time and the latest
    deletion time: the outcome does not depend on which header is merged
    into which, merging the same header twice changes nothing more, the
    merged header is deleted when either one was, and a creation time that
    is not after the update time stays so. *)
Theorem X5_header_times_merge :
  (forall (now : Time) (h : ObjHeader),
      IsDeleted (InitTimes now h) = false /\
      UpdatedAt (InitTimes now h) = CreatedAt (InitTimes now h) /\
      CreatedAt (InitTimes now h) = (if CreatedAt h =? 0 then now else CreatedAt h))
  /\ (forall h h2 : ObjHeader, times (MergeTimes h h2) = times (MergeTimes h2 h))
  /\ (forall h h2 : ObjHeader, MergeTimes (MergeTimes h h2) h2 = MergeTimes h h2)
  /\ (forall h h2 : ObjHeader,
         Id (MergeTimes h h2) = Id h /\ id (MergeTimes h h2) = id h)
  /\ (forall h h2 : ObjHeader,
         IsDeleted (MergeTimes h h2) = IsDeleted h || IsDeleted h2)
  /\ (forall h h2 : ObjHeader,
         UpdatedAt (MergeTimes h h2) = Z.max (UpdatedAt h) (UpdatedAt h2))
  /\ (forall h h2 : ObjHeader,
         CreatedAt h <= UpdatedAt h -> CreatedAt h2 <= UpdatedAt h2 ->
         CreatedAt (MergeTimes h h2) <= UpdatedAt (MergeTimes h h2)).
Proof.
  split; [| split; [| split; [| split; [| split; [| split]]]]].
  - intros now h. unfold InitTimes, IsDeleted, Time_IsZero.
    cbn [CreatedAt UpdatedAt DeletedAt]. auto.
  - intros h h2. unfold times.
    destruct (MergeTimes_cases h h2) as (-> & -> & ->).
    destruct (MergeTimes_cases h2 h) as (-> & -> & ->).
    f_equal; [f_equal |].
    + destruct (Z.eqb_spec (CreatedAt h) 0), (Z.eqb_spec (CreatedAt h2) 0); lia.
    + lia.
    + destruct (DeletedAt h), (DeletedAt h2); try reflexivity. f_equal. lia.
  - intros h h2. apply header_eq; [reflexivity | reflexivity |]. unfold times.
    destruct (MergeTimes_cases (MergeTimes h h2) h2) as (-> & -> & ->).
    destruct (MergeTimes_cases h h2) as (-> & -> & ->).
    f_equal; [f_equal |].
    + repeat match goal with
             | |- context [?a =? 0] => destruct (Z.eqb_spec a 0)
             end; lia.
    + lia.
    + destruct (DeletedAt h), (DeletedAt h2); try reflexivity; f_equal; lia.
  - intros h h2. split; reflexivity.
  - intros h h2. unfold IsDeleted.
    destruct (MergeTimes_cases h h2) as (_ & _ & ->).
    destruct (DeletedAt h), (DeletedAt h2); reflexivity.
  - intros h h2. apply MergeTimes_cases.
  - intros h h2 H1 H2.
    destruct (MergeTimes_cases h h2) as (-> & -> & _).
    destruct (Z.eqb_spec (CreatedAt h) 0), (Z.eqb_spec (CreatedAt h2) 0); lia.
Qed.

Lemma X5_header_times_merge_witness :
  let h := {| Id := ""; id := 0; CreatedAt := 50; UpdatedAt := 60; DeletedAt := None |} in
  let h2 := {| Id := ""; id := 0; CreatedAt := 20; UpdatedAt := 90; DeletedAt := Some 95 |} in
  CreatedAt (MergeTimes h h2) <= UpdatedAt (MergeTimes h h2).
Proof.
  intros h h2.
  apply (proj2 (proj2 (proj2 (proj2 (proj2 (proj2 X5_header_times_merge))))) h h2);
    cbn; lia.
Defined.
End HeaderFacts.

(** ** [AccessMode]: flags, order, letters and JSON *)

Section AccessFlagsFacts.
Local Open Scope Z_scope.
Import AccessMode AccessFlags.

(** A bit of [want] is a bit of a [grant] that is better or equal. *)
Lemma BetterEqual_bit (grant want bit : t) :
  BetterEqual grant want = true ->
  Z.land want bit <> 0 -> Z.land grant bit <> 0.
Proof.
  unfold BetterEqual. intros H%Z.eqb_eq Hw Hg. apply Hw.
  rewrite <- H, (Z.land_comm grant want), <- Z.land_assoc, Hg. apply Z.land_0_r.
Qed.

Lemma flag_bit (m bit : t) : negb (Z.land m bit =? 0) = true <-> Z.land m bit <> 0.
Proof. destruct (Z.eqb_spec (Z.land m bit) 0); cbn; split; congruence. Qed.

Lemma flag_mono (grant want bit : t) :
  BetterEqual grant want = true ->
  negb (Z.land want bit =? 0) = true -> negb (Z.land grant bit =? 0) = true.
Proof. rewrite !flag_bit. apply BetterEqual_bit. Qed.

(** X6.  [BetterEqual] orders the access modes by their sets of
    permissions: it is reflexive, transitive and antisymmetric, every mode
    is better or equal to [ModeNone], and [ModeCFull] is better or equal
    to every mode of the eight permissions.  Each of the flag checks, from
    [IsJoiner] to [IsDeleter], that holds of a mode holds of every mode
    that is better or equal; an owner is an admin and an admin a
    sharer. *)
Theorem X6_BetterEqual_orders_modes :
  (forall g : t, BetterEqual g g = true)
  /\ (forall a b c : t,
         BetterEqual a b = true -> BetterEqual b c = true -> BetterEqual a c = true)
  /\ (forall a b : t,
         BetterEqual a b = true -> BetterEqual b a = true -> a = b)
  /\ (forall g : t, BetterEqual g ModeNone = true)
  /\ (forall m : t, mode8 m -> BetterEqual ModeCFull m = true)
  /\ (forall (grant want : t) (f : t -> bool),
         In f flags -> BetterEqual grant want = true ->
         f want = true -> f grant = true)
  /\ (forall m : t,
         (IsOwner m = true -> IsAdmin m = true) /\
         (IsApprover m = true -> IsAdmin m = true) /\
         (IsAdmin m = true -> IsSharer m = true)).
Proof.
  split; [| split; [| split; [| split; [| split; [| split]]]]].
  - intros g. unfold BetterEqual. rewrite Z.land_diag. apply Z.eqb_refl.
  - intros a b c. unfold BetterEqual. rewrite !Z.eqb_eq. intros Hab Hbc.
    rewrite <- Hbc at 1. now rewrite Z.land_assoc, Hab.
  - intros a b. unfold BetterEqual. rewrite !Z.eqb_eq. intros Hab Hba.
    rewrite <- Hba at 1. rewrite Z.land_comm. exact Hab.
  - intros g. unfold BetterEqual, ModeNone. now rewrite Z.land_0_r.
  - intros m Hm. unfold BetterEqual, mode8 in *.
    change ModeCFull with 255. rewrite Z.land_comm, land_255.
    rewrite Z.mod_small by lia. apply Z.eqb_refl.
  - intros grant want f Hf Hge.
    assert (Hor : forall a b c d : bool,
               (a = true -> c = true) -> (b = true -> d = true) ->
               a || b = true -> c || d = true).
    { intros [] [] [] []; cbn; auto. }
    cbn [flags In] in Hf.
    destruct Hf as [<- | [<- | [<- | [<- | [<- | [<- | [<- | [<- | [<- | []]]]]]]]]];
      unfold IsSharer, IsAdmin, IsJoiner, IsOwner, IsApprover, IsWriter, IsReader,
        IsPresencer, IsDeleter;
      repeat apply Hor; now apply flag_mono.
  - intros m. unfold IsSharer, IsAdmin. repeat split; intros ->;
      rewrite ?orb_true_r; reflexivity.
Qed.

Lemma X6_BetterEqual_orders_modes_witness :
  BetterEqual ModeCFull ModeCP2P = true
  /\ IsAdmin ModeCFull = true.
Proof.
  destruct X6_BetterEqual_orders_modes as (_ & _ & _ & _ & H5 & H6 & _).
  assert (Hge : BetterEqual ModeCFull ModeCP2P = true).
  { apply (H5 ModeCP2P). change (0 <= 31 < 256). lia. }
  split; [exact Hge |].
  apply (H6 ModeCFull ModeCP2P IsAdmin);
    [cbn; auto 10 | exact Hge | reflexivity].
Defined.
End AccessFlagsFacts.


Section AccessLettersFacts.
Local Open Scope Z_scope.
Import AccessMode AccessFlags.

(** A byte and its lower-case form take the loop of [UnmarshalText] the
    same way. *)
Lemma unmarshalLoop_lower_step (c : ascii) :
  (exists g : t -> t,
      (forall (b : list ascii) (m0 : t),
          unmarshalLoop (c :: b) m0 = unmarshalLoop b (g m0)) /\
      (forall (b : list ascii) (m0 : t),
          unmarshalLoop (toLower c :: b) m0 = unmarshalLoop b (g m0)))
  \/ ((forall (b : list ascii) (m0 : t), unmarshalLoop (c :: b) m0 = inr c) /\
      (forall (b : list ascii) (m0 : t),
          unmarshalLoop (toLower c :: b) m0 = inr (toLower c))).
Proof.
  destruct c as [[] [] [] [] [] [] [] []];
    first [ right; split; intros; reflexivity
          | left; eexists; split; intros; reflexivity ].
Qed.

Lemma agree_refl (r : t + ascii) : agree r r.
Proof. now destruct r. Qed.

Lemma agree_trans (r1 r2 r3 : t + ascii) : agree r1 r2 -> agree r2 r3 -> agree r1 r3.
Proof. destruct r1, r2, r3; cbn; congruence || tauto. Qed.

Lemma unmarshalLoop_lower (b : list ascii) :
  forall m0 : t, agree (unmarshalLoop (map toLower b) m0) (unmarshalLoop b m0).
Proof.
  induction b as [| c b IH]; intros m0; [reflexivity |].
  cbn [map].
  destruct (unmarshalLoop_lower_step c) as [(g & Hc & Hl) | [Hc Hl]].
  - rewrite Hc, Hl. apply IH.
  - rewrite Hc, Hl. exact I.
Qed.

(** A letter other than N adds its bit, whatever was read before: two
    such letters can be read in either order. *)
Lemma unmarshalLoop_swap (x y : ascii) (b : list ascii) (m0 : t) :
  x <> "N"%char -> x <> "n"%char -> y <> "N"%char -> y <> "n"%char ->
  agree (unmarshalLoop (x :: y :: b) m0) (unmarshalLoop (y :: x :: b) m0).
Proof.
  intros Hx Hx' Hy Hy'.
  assert (Hstep : forall c : ascii,
             c <> "N"%char -> c <> "n"%char ->
             (exists bit : t, forall (b : list ascii) (m0 : t),
                 unmarshalLoop (c :: b) m0 = unmarshalLoop b (Z.lor m0 bit))
             \/ (forall (b : list ascii) (m0 : t), unmarshalLoop (c :: b) m0 = inr c)).
  { intros c. destruct c as [[] [] [] [] [] [] [] []]; intros H H';
      try (exfalso; apply H; reflexivity); try (exfalso; apply H'; reflexivity);
      first [ right; intros; reflexivity | left; eexists; intros; reflexivity ]. }
  destruct (Hstep x Hx Hx') as [[bx Hbx] | Hbx], (Hstep y Hy Hy') as [[by_ Hby] | Hby];
    rewrite ?Hbx, ?Hby, ?Hbx; try exact I.
  rewrite <- !Z.lor_assoc, (Z.lor_comm bx by_). apply agree_refl.
Qed.

Lemma unmarshalLoop_skip (c : ascii) (b b' : list ascii) :
  (forall m0 : t, agree (unmarshalLoop b m0) (unmarshalLoop b' m0)) ->
  forall m0 : t, agree (unmarshalLoop (c :: b) m0) (unmarshalLoop (c :: b') m0).
Proof.
  intros IH m0.
  destruct (unmarshalLoop_lower_step c) as [(g & Hc & _) | [Hc _]];
    rewrite !Hc; [apply IH | exact I].
Qed.

Lemma unmarshalLoop_perm (b b' : list ascii) :
  Permutation b b' -> Forall notN b ->
  forall m0 : t, agree (unmarshalLoop b m0) (unmarshalLoop b' m0).
Proof.
  induction 1 as [| c b b' Hp IH | x y b | b1 b2 b3 Hp1 IH1 Hp2 IH2]; intros Hn m0.
  - apply agree_refl.
  - apply unmarshalLoop_skip. intros m1. apply IH. now inversion Hn.
  - inversion Hn as [| ? ? [Hy Hy'] Hn']; subst.
    inversion Hn' as [| ? ? [Hx Hx'] _]; subst.
    now apply unmarshalLoop_swap.
  - eapply agree_trans; [apply IH1; exact Hn |].
    apply IH2. eapply Permutation_Forall; eassumption.
Qed.

Lemma UnmarshalText_agree (m : t) (b b' : list ascii) :
  agree (unmarshalLoop b ModeUnset) (unmarshalLoop b' ModeUnset) ->
  fst (UnmarshalText m b) = fst (UnmarshalText m b') /\
  (snd (UnmarshalText m b) = None <-> snd (UnmarshalText m b') = None).
Proof.
  unfold UnmarshalText.
  destruct (unmarshalLoop b ModeUnset) as [x | c],
    (unmarshalLoop b' ModeUnset) as [y | c']; cbn [agree]; try contradiction.
  - intros ->. split; reflexivity.
  - intros _. cbn. split; [reflexivity | split; discriminate].
Qed.

(** X7.  [UnmarshalText] reads the letters of an access mode without
    regard to their case: a text and its lower-case form give the same
    mode and are refused together.  Unless the letter N, which clears what
    was read before it, is among them, the letters may also come in any
    order. *)
Theorem X7_UnmarshalText_ignores_case_and_order :
  (forall (m : t) (b : list ascii),
      fst (UnmarshalText m (map toLower b)) = fst (UnmarshalText m b) /\
      (snd (UnmarshalText m (map toLower b)) = None <->
       snd (UnmarshalText m b) = None))
  /\ (forall (m : t) (b b' : list ascii),
         Permutation b b' -> Forall notN b ->
         fst (UnmarshalText m b) = fst (UnmarshalText m b') /\
         (snd (UnmarshalText m b) = None <-> snd (UnmarshalText m b') = None)).
Proof.
  split.
  - intros m b. apply UnmarshalText_agree, unmarshalLoop_lower.
  - intros m b b' Hp Hn. apply UnmarshalText_agree. now apply unmarshalLoop_perm.
Qed.

Lemma X7_UnmarshalText_ignores_case_and_order_witness :
  fst (UnmarshalText 0 ["R"; "W"; "J"]%char) = fst (UnmarshalText 0 ["J"; "R"; "W"]%char).
Proof.
  apply (proj2 X7_UnmarshalText_ignores_case_and_order 0
           ["R"; "W"; "J"]%char ["J"; "R"; "W"]%char).
  - apply Permutation_sym, (Permutation_cons_append ["R"; "W"]%char "J"%char).
  - repeat constructor; discriminate.
Defined.

(** With N among the letters the order matters. *)
Lemma UnmarshalText_N_clears :
  UnmarshalText 5 ["J"; "N"]%char = (0, None)
  /\ UnmarshalText 5 ["N"; "J"]%char = (ModeJoin, None).
Proof. split; reflexivity. Qed.

(** X8.  The JSON form of an access mode is its text between double
    quotes; [UnmarshalJSON] hands what is between the quotes to
    [UnmarshalText] and refuses a text that does not start and end with a
    quote.  It reads the first and the last byte unguarded: on an empty
    slice, and on a slice that is one quote, it panics.  [ModeInvalid] has
    no JSON form. *)
Theorem X8_mode_json_codec :
  (forall (m : t) (text : list ascii),
      fst (MarshalText m) = text -> snd (MarshalText m) = None ->
      MarshalJSON m = ([UidCodec.quote] ++ text ++ [UidCodec.quote], None))
  /\ (forall (r : t) (text : list ascii),
         UnmarshalJSON r ([UidCodec.quote] ++ text ++ [UidCodec.quote]) =
           Go.Returns (fst (UnmarshalText r text),
                       option_map ErrMode (snd (UnmarshalText r text))))
  /\ (forall (r : t) (b : list ascii),
         (2 <= length b)%nat ->
         (UidCodec.at_ b 0 <> UidCodec.quote \/
          UidCodec.at_ b (Z.of_nat (length b) - 1) <> UidCodec.quote) ->
         UnmarshalJSON r b = Go.Returns (r, Some ErrSyntax))
  /\ (forall r : t,
         UnmarshalJSON r [] = Go.Panics "index out of range [0] with length 0" /\
         UnmarshalJSON r [UidCodec.quote] = Go.Panics "slice bounds out of range [1:0]")
  /\ MarshalJSON ModeInvalid = ([], Some ErrModeInvalid).
Proof.
  split; [| split; [| split; [| split]]].
  - intros m text Htext Herr. unfold MarshalJSON.
    destruct (MarshalText m) as [res err]. cbn [fst snd] in *. subst.
    now rewrite <- app_assoc.
  - intros r text. unfold UnmarshalJSON.
    rewrite app_assoc, at_quoted_first, at_quoted_last, slice_quoted.
    rewrite !length_app. cbn [length].
    destruct (Z.eqb_spec (Z.of_nat (1 + length text + 1)) 0) as [H | _]; [lia |].
    rewrite Ascii.eqb_refl. cbn [negb orb].
    destruct (Z.ltb_spec (Z.of_nat (1 + length text + 1) - 1) 1) as [H | _]; [lia |].
    now destruct (UnmarshalText r text).
  - intros r b Hlen Hq. unfold UnmarshalJSON.
    destruct (Z.eqb_spec (Z.of_nat (length b)) 0) as [H | _]; [lia |].
    destruct Hq as [Hq | Hq]; apply Ascii.eqb_neq in Hq; rewrite Hq;
      cbn [negb orb]; [reflexivity | now rewrite orb_true_r].
  - intros r. split; reflexivity.
  - reflexivity.
Qed.

Lemma X8_mode_json_codec_witness :
  MarshalJSON ModeCP2P =
    ([UidCodec.quote] ++ ["J"; "R"; "W"; "P"; "A"]%char ++ [UidCodec.quote], None)
  /\ UnmarshalJSON 7 ["J"; "R"]%char = Go.Returns (7, Some ErrSyntax).
Proof.
  destruct X8_mode_json_codec as (H1 & _ & H3 & _).
  split.
  - apply (H1 ModeCP2P); reflexivity.
  - apply (H3 7 ["J"; "R"]%char); [simpl; lia | left; discriminate].
Defined.
End AccessLettersFacts.


(** ** The access table of a stored topic *)

Section StoredTopicFacts.
Local Open Scope Z_scope.
Import Store StoredTopic.

Lemma perUser_GiveAccess (t : Topic) (uid : Uid.t) (w g : AccessMode.t) :
  perUser (GiveAccess t uid w g) =
    Some (<[uid := {| private := private (entryOf (madePerUser t) uid);
                      want := w; given := g |}]> (madePerUser t)).
Proof. unfold GiveAccess. now destruct (_ && _). Qed.

Lemma GetPrivate_entry (t : Topic) (uid : Uid.t) :
  GetPrivate t uid = private (entryOf (madePerUser t) uid).
Proof.
  unfold GetPrivate, entryOf, madePerUser.
  destruct (perUser t) as [m |]; [| now rewrite lookup_empty].
  now destruct (m !! uid).
Qed.

Lemma GetAccess_entry (t : Topic) (uid : Uid.t) :
  GetAccess t uid =
    Z.land (given (entryOf (madePerUser t) uid)) (want (entryOf (madePerUser t) uid)).
Proof.
  unfold GetAccess, entryOf, madePerUser.
  destruct (perUser t) as [m |]; [| now rewrite lookup_empty].
  now destruct (m !! uid).
Qed.

(** X9.  The access table of a stored topic.  After
    [GiveAccess(uid, want, given)] the access of [uid] is
    [given & want]; the access of every other user and everybody's
    private value are as before.  After [SetPrivate(uid, private)] the
    private value of [uid] is [private]; the private value of every other
    user and everybody's access are as before.  A user without an entry,
    and any user of a topic whose table was never made, has no access and
    no private value. *)
Theorem X9_topic_access_table :
  (forall (t : Topic) (uid : Uid.t) (w g : AccessMode.t),
      GetAccess (GiveAccess t uid w g) uid = Z.land g w)
  /\ (forall (t : Topic) (uid other : Uid.t) (w g : AccessMode.t),
         other <> uid ->
         GetAccess (GiveAccess t uid w g) other = GetAccess t other)
  /\ (forall (t : Topic) (uid any : Uid.t) (w g : AccessMode.t),
         GetPrivate (GiveAccess t uid w g) any = GetPrivate t any)
  /\ (forall (t : Topic) (uid : Uid.t) (p : option Blob),
         GetPrivate (SetPrivate t uid p) uid = p)
  /\ (forall (t : Topic) (uid other : Uid.t) (p : option Blob),
         other <> uid ->
         GetPrivate (SetPrivate t uid p) other = GetPrivate t other)
  /\ (forall (t : Topic) (uid any : Uid.t) (p : option Blob),
         GetAccess (SetPrivate t uid p) any = GetAccess t any)
  /\ (forall (t : Topic) (uid : Uid.t),
         ~ subscribed t uid ->
         GetAccess t uid = AccessMode.ModeNone /\ GetPrivate t uid = None).
Proof.
  split; [| split; [| split; [| split; [| split; [| split]]]]].
  - intros t uid w g. unfold GetAccess. rewrite perUser_GiveAccess.
    now rewrite lookup_insert_eq.
  - intros t uid other w g Hne. rewrite (GetAccess_entry t other).
    unfold GetAccess. rewrite perUser_GiveAccess.
    rewrite lookup_insert_ne by congruence. unfold entryOf.
    now destruct (madePerUser t !! other).
  - intros t uid any w g. rewrite (GetPrivate_entry t any).
    unfold GetPrivate. rewrite perUser_GiveAccess.
    destruct (decide (any = uid)) as [-> | Hne].
    + now rewrite lookup_insert_eq.
    + rewrite lookup_insert_ne by congruence. unfold entryOf.
      now destruct (madePerUser t !! any).
  - intros t uid p. unfold GetPrivate, SetPrivate. cbn [perUser setPerUser].
    now rewrite lookup_insert_eq.
  - intros t uid other p Hne. rewrite (GetPrivate_entry t other).
    unfold GetPrivate, SetPrivate. cbn [perUser setPerUser].
    rewrite lookup_insert_ne by congruence. unfold entryOf.
    now destruct (madePerUser t !! other).
  - intros t uid any p. rewrite (GetAccess_entry t any).
    unfold GetAccess, SetPrivate. cbn [perUser setPerUser].
    destruct (decide (any = uid)) as [-> | Hne].
    + now rewrite lookup_insert_eq.
    + rewrite lookup_insert_ne by congruence. unfold entryOf.
      now destruct (madePerUser t !! any).
  - intros t uid Hno. unfold subscribed in Hno.
    rewrite GetAccess_entry, GetPrivate_entry. unfold entryOf.
    destruct (madePerUser t !! uid) as [pud |] eqn:Hl; [| auto].
    exfalso. apply Hno. eauto.
Qed.

Lemma X9_topic_access_table_witness :
  let t := {| Header := {| Id := ""; id := 0; CreatedAt := 0; UpdatedAt := 0;
                           DeletedAt := None |};
              UseBt := false; Access := {| Auth := 0; Anon := 0 |}; SeqId := 0;
              DelId := 0; Public := None; Tags := []; owner := 0;
              perUser := None |} in
  GetAccess (GiveAccess (GiveAccess t 1 AccessMode.ModeCFull AccessMode.ModeCP2P)
                        2 AccessMode.ModeCPublic AccessMode.ModeCReadOnly) 1
    = GetAccess (GiveAccess t 1 AccessMode.ModeCFull AccessMode.ModeCP2P) 1
  /\ (GetAccess t 3 = AccessMode.ModeNone /\ GetPrivate t 3 = None).
Proof.
  intros t. destruct X9_topic_access_table as (_ & H2 & _ & _ & _ & _ & H7).
  split.
  - apply H2. discriminate.
  - apply H7. unfold subscribed. cbn. rewrite lookup_empty. now intros [x Hx].
Defined.

(** X10.  The owner of a stored topic is the first user given the owner
    permission in both modes, wanted and given: [GiveAccess] sets it when
    the topic has none, and never changes one that is set; [SetPrivate]
    never touches it.  The owner, once set, has an entry in the table,
    though a later [GiveAccess] may take the permission from it. *)
Theorem X10_topic_owner_is_first :
  (forall (t : Topic) (uid : Uid.t) (w g : AccessMode.t),
      GetOwner t = Uid.ZeroUid ->
      AccessFlags.IsOwner (Z.land w g) = true ->
      GetOwner (GiveAccess t uid w g) = uid)
  /\ (forall (t : Topic) (uid : Uid.t) (w g : AccessMode.t),
         AccessFlags.IsOwner (Z.land w g) = false ->
         GetOwner (GiveAccess t uid w g) = GetOwner t)
  /\ (forall (t : Topic) (uid : Uid.t) (w g : AccessMode.t),
         GetOwner t <> Uid.ZeroUid ->
         GetOwner (GiveAccess t uid w g) = GetOwner t)
  /\ (forall (t : Topic) (uid : Uid.t) (p : option Blob),
         GetOwner (SetPrivate t uid p) = GetOwner t)
  /\ (forall (t : Topic) (uid : Uid.t) (w g : AccessMode.t),
         (GetOwner t <> Uid.ZeroUid -> subscribed t (GetOwner t)) ->
         GetOwner (GiveAccess t uid w g) <> Uid.ZeroUid ->
         subscribed (GiveAccess t uid w g) (GetOwner (GiveAccess t uid w g)))
  /\ (forall (t : Topic) (uid : Uid.t) (p : option Blob),
         (GetOwner t <> Uid.ZeroUid -> subscribed t (GetOwner t)) ->
         GetOwner (SetPrivate t uid p) <> Uid.ZeroUid ->
         subscribed (SetPrivate t uid p) (GetOwner (SetPrivate t uid p)))
  /\ (forall (t : Topic) (uid : Uid.t) (w g w' g' : AccessMode.t),
         GetOwner t = Uid.ZeroUid ->
         AccessFlags.IsOwner (Z.land w g) = true ->
         AccessFlags.IsOwner (Z.land w' g') = false ->
         GetOwner (GiveAccess (GiveAccess t uid w g) uid w' g') = uid /\
         AccessFlags.IsOwner
           (GetAccess (GiveAccess (GiveAccess t uid w g) uid w' g') uid) = false).
Proof.
  split; [| split; [| split; [| split; [| split; [| split]]]]].
  - intros t uid w g Hz Ho. unfold GetOwner, GiveAccess, AccessFlags.IsOwner in *.
    cbn [owner setPerUser]. rewrite Ho, Hz. reflexivity.
  - intros t uid w g Ho. unfold GetOwner, GiveAccess, AccessFlags.IsOwner in *.
    cbn [owner setPerUser]. rewrite Ho. reflexivity.
  - intros t uid w g Hnz. unfold GetOwner, GiveAccess in *.
    cbn [owner setPerUser]. unfold Uid.IsZero.
    destruct (Z.eqb_spec (owner t) 0) as [Hz | _]; [contradiction |].
    now rewrite andb_false_r.
  - reflexivity.
  - intros t uid w g Hinv Hnz. unfold subscribed, madePerUser.
    rewrite perUser_GiveAccess.
    destruct (decide (GetOwner (GiveAccess t uid w g) = uid)) as [-> | Hne].
    + rewrite lookup_insert_eq. eauto.
    + rewrite lookup_insert_ne by congruence.
      assert (Hsame : GetOwner (GiveAccess t uid w g) = GetOwner t).
      { unfold GetOwner, GiveAccess in *. cbn [owner setPerUser] in *.
        destruct (_ && _); [contradiction | reflexivity]. }
      rewrite Hsame in *. now apply Hinv.
  - intros t uid p Hinv Hnz. unfold subscribed, madePerUser, SetPrivate in *.
    cbn [perUser setPerUser GetOwner owner] in *.
    destruct (decide (owner t = uid)) as [-> | Hne].
    + rewrite lookup_insert_eq. eauto.
    + rewrite lookup_insert_ne by congruence. now apply Hinv.
  - intros t uid w g w' g' Hz Ho Hno. split.
    + unfold GetOwner, GiveAccess, AccessFlags.IsOwner in *.
      cbn [owner setPerUser setOwner]. rewrite Hno, Ho, Hz. reflexivity.
    + unfold GetAccess. rewrite perUser_GiveAccess.
      rewrite lookup_insert_eq. cbn. now rewrite (Z.land_comm g' w').
Qed.

Lemma X10_topic_owner_is_first_witness :
  let t := {| Header := {| Id := ""; id := 0; CreatedAt := 0; UpdatedAt := 0;
                           DeletedAt := None |};
              UseBt := false; Access := {| Auth := 0; Anon := 0 |}; SeqId := 0;
              DelId := 0; Public := None; Tags := []; owner := 0;
              perUser := None |} in
  let t1 := GiveAccess t 1 AccessMode.ModeCFull AccessMode.ModeCFull in
  GetOwner t1 = 1
  /\ GetOwner (GiveAccess t1 2 AccessMode.ModeCFull AccessMode.ModeCFull) = GetOwner t1.
Proof.
  intros t t1. destruct X10_topic_owner_is_first as (H1 & _ & H3 & _).
  assert (Ho : GetOwner t1 = 1) by (apply (H1 t 1); reflexivity).
  split; [exact Ho |].
  apply (H3 t1 2). rewrite Ho. discriminate.
Defined.
End StoredTopicFacts.


(** ** Ranges of message ids *)

Section RangesFacts.
Local Open Scope Z_scope.
Import Effect Ranges.

Lemma index_Ok (rs : RangeSorter) (i : Z) :
  0 <= i < Len rs ->
  exists r : Range, rs !! Z.to_nat i = Some r /\ index i rs = Ok r rs.
Proof.
  intros Hi. unfold index, Len in *.
  destruct (Z.leb_spec 0 i); [| lia].
  destruct (Z.ltb_spec i (Z.of_nat (length rs))); [| lia]. cbn [andb].
  destruct (lookup_lt_is_Some_2 rs (Z.to_nat i) ltac:(lia)) as [r Hr].
  exists r. now rewrite Hr.
Qed.

Lemma index_Panic (rs : RangeSorter) (i : Z) :
  ~ 0 <= i < Len rs -> index i rs = Panic "index out of range".
Proof.
  intros Hi. unfold index.
  destruct (Z.leb_spec 0 i), (Z.ltb_spec i (Len rs)); cbn [andb]; try reflexivity.
  lia.
Qed.

Lemma assign_Ok (rs : RangeSorter) (i : Z) (r : Range) :
  0 <= i < Len rs -> assign i r rs = Ok tt (<[Z.to_nat i := r]> rs).
Proof.
  intros Hi. unfold assign.
  destruct (Z.leb_spec 0 i); [| lia].
  destruct (Z.ltb_spec i (Len rs)); [| lia]. reflexivity.
Qed.

Lemma Less_run (rs : RangeSorter) (i j : Z) (ri rj : Range) :
  0 <= i -> 0 <= j ->
  rs !! Z.to_nat i = Some ri -> rs !! Z.to_nat j = Some rj ->
  Less i j rs = Ok (before ri rj) rs.
Proof.
  intros Hi Hj Hri Hrj.
  assert (Hil : 0 <= i < Len rs).
  { apply lookup_lt_Some in Hri. unfold Len. lia. }
  assert (Hjl : 0 <= j < Len rs).
  { apply lookup_lt_Some in Hrj. unfold Len. lia. }
  destruct (index_Ok rs i Hil) as (ri' & Hri' & Hii).
  destruct (index_Ok rs j Hjl) as (rj' & Hrj' & Hij).
  assert (ri' = ri) by congruence. assert (rj' = rj) by congruence. subst.
  unfold Less, mbind, M_bind, bind. rewrite Hii, Hij. unfold before.
  destruct (Low ri <? Low rj); [reflexivity |].
  destruct (Low ri =? Low rj); reflexivity.
Qed.

Lemma before_total (r1 r2 : Range) : before r1 r2 = true \/ before r2 r1 = true.
Proof.
  unfold before.
  destruct (Z.ltb_spec (Low r1) (Low r2)), (Z.ltb_spec (Low r2) (Low r1)),
    (Z.eqb_spec (Low r1) (Low r2)), (Z.eqb_spec (Low r2) (Low r1)),
    (Z.geb_spec (Hi r1) (Hi r2)), (Z.geb_spec (Hi r2) (Hi r1)); auto; lia.
Qed.

Lemma before_trans (r1 r2 r3 : Range) :
  before r1 r2 = true -> before r2 r3 = true -> before r1 r3 = true.
Proof.
  unfold before.
  destruct (Z.ltb_spec (Low r1) (Low r2)), (Z.ltb_spec (Low r2) (Low r3)),
    (Z.ltb_spec (Low r1) (Low r3)),
    (Z.eqb_spec (Low r1) (Low r2)), (Z.eqb_spec (Low r2) (Low r3)),
    (Z.eqb_spec (Low r1) (Low r3)),
    (Z.geb_spec (Hi r1) (Hi r2)), (Z.geb_spec (Hi r2) (Hi r3)),
    (Z.geb_spec (Hi r1) (Hi r3)); auto; try discriminate; lia.
Qed.

Lemma before_both (r1 r2 : Range) :
  before r1 r2 = true /\ before r2 r1 = true <-> r1 = r2.
Proof.
  unfold before. split.
  - destruct r1 as [l1 h1], r2 as [l2 h2]. cbn [Low Hi].
    destruct (Z.ltb_spec l1 l2), (Z.ltb_spec l2 l1), (Z.eqb_spec l1 l2),
      (Z.eqb_spec l2 l1), (Z.geb_spec h1 h2), (Z.geb_spec h2 h1);
      intros [Hab Hba]; try discriminate; try lia.
    f_equal; lia.
  - intros ->. rewrite Z.ltb_irrefl, Z.eqb_refl.
    destruct (Z.geb_spec (Hi r2) (Hi r2)); [auto | lia].
Qed.

(** X11.  [Less] orders the ranges of a slice by [Low] ascending and,
    for equal [Low], by [Hi] descending.  On indexes within the slice it
    returns without changing the slice; of two ranges one at least is
    before the other, both ways exactly when the ranges are equal, so a
    range is before itself; and the order is transitive.  An index outside
    the slice makes it panic. *)
Theorem X11_Less_orders_ranges :
  (forall (rs : RangeSorter) (i j : Z) (ri rj : Range),
      0 <= i -> 0 <= j ->
      rs !! Z.to_nat i = Some ri -> rs !! Z.to_nat j = Some rj ->
      Less i j rs = Ok (before ri rj) rs)
  /\ (forall r1 r2 : Range, before r1 r2 = true \/ before r2 r1 = true)
  /\ (forall r1 r2 : Range, before r1 r2 = true /\ before r2 r1 = true <-> r1 = r2)
  /\ (forall r1 r2 r3 : Range,
         before r1 r2 = true -> before r2 r3 = true -> before r1 r3 = true)
  /\ (forall r1 r2 : Range,
         before r1 r2 = true <->
         Low r1 < Low r2 \/ (Low r1 = Low r2 /\ Hi r2 <= Hi r1))
  /\ (forall (rs : RangeSorter) (i j : Z),
         ~ 0 <= i < Len rs \/ ~ 0 <= j < Len rs ->
         exists msg : string, Less i j rs = Panic msg).
Proof.
  split; [exact Less_run |].
  split; [exact before_total |].
  split; [exact before_both |].
  split; [exact before_trans |].
  split.
  - intros r1 r2. unfold before.
    destruct (Z.ltb_spec (Low r1) (Low r2)), (Z.eqb_spec (Low r1) (Low r2)),
      (Z.geb_spec (Hi r1) (Hi r2)); split; intros Hb; try discriminate; try lia; auto.
  - intros rs i j Hout. unfold Less, mbind, M_bind, bind.
    destruct (Z_lt_le_dec i 0) as [Hi | Hi];
      [exists "index out of range"%string; rewrite index_Panic by lia; reflexivity |].
    destruct (Z_lt_le_dec i (Len rs)) as [Hil | Hil];
      [| exists "index out of range"%string; rewrite index_Panic by lia; reflexivity].
    destruct (index_Ok rs i ltac:(lia)) as (ri & _ & ->).
    exists "index out of range"%string. rewrite index_Panic; [reflexivity |].
    destruct Hout as [Hout | Hout]; [lia | exact Hout].
Qed.

Lemma X11_Less_orders_ranges_witness :
  let rs := [{| Low := 1; Hi := 4 |}; {| Low := 1; Hi := 2 |}; {| Low := 5; Hi := 0 |}] in
  Less 0 1 rs = Ok true rs
  /\ (exists msg : string, Less 0 3 rs = Panic msg).
Proof.
  intros rs. destruct X11_Less_orders_ranges as (H1 & _ & _ & _ & _ & H6).
  split.
  - apply (H1 rs 0 1 {| Low := 1; Hi := 4 |} {| Low := 1; Hi := 2 |});
      [lia | lia | reflexivity | reflexivity].
  - apply (H6 rs 0 3). right. unfold Len. simpl. lia.
Defined.

Lemma grown_refl (rs : RangeSorter) : grown rs rs.
Proof. split; [reflexivity |]. intros k r Hr. exists r. split; [exact Hr | lia]. Qed.

Lemma grown_trans (rs1 rs2 rs3 : RangeSorter) :
  grown rs1 rs2 -> grown rs2 rs3 -> grown rs1 rs3.
Proof.
  intros [Hl1 H1] [Hl2 H2]. split; [congruence |].
  intros k r Hr. destruct (H1 k r Hr) as (r' & Hr' & Hlow' & Hhi').
  destruct (H2 k r' Hr') as (r'' & Hr'' & Hlow'' & Hhi'').
  exists r''. split; [exact Hr'' | lia].
Qed.

Lemma grown_assign (rs : RangeSorter) (k : nat) (r : Range) (hi : Z) :
  rs !! k = Some r -> Hi r <= hi ->
  grown rs (<[k := {| Low := Low r; Hi := hi |}]> rs).
Proof.
  intros Hr Hhi. split; [apply length_insert |].
  intros j rj Hrj. destruct (decide (k = j)) as [<- | Hne].
  - rewrite list_lookup_insert_eq by (eapply lookup_lt_Some; eassumption).
    assert (rj = r) by congruence. subst. eexists. split; [reflexivity |].
    cbn. lia.
  - rewrite list_lookup_insert_ne by assumption. exists rj. split; [exact Hrj | lia].
Qed.

Lemma Len_grown (rs rs' : RangeSorter) : grown rs rs' -> Len rs' = Len rs.
Proof. intros [Hl _]. unfold Len. now rewrite Hl. Qed.

(** The loop of [Normalize] stays within the slice. *)
Lemma normalizeLoop_grows (n : nat) :
  forall (i prev : Z) (rs : RangeSorter),
    0 <= prev < i -> i + Z.of_nat n = Len rs -> Len rs <= GoInt.max_int ->
    exists (prev' : Z) (rs' : RangeSorter),
      normalizeLoop n i prev rs = Ok prev' rs' /\ grown rs rs' /\
      0 <= prev' < Len rs.
Proof.
  induction n as [| n IH]; intros i prev rs Hprev Hlen Hmax.
  - exists prev, rs. split; [reflexivity |]. split; [apply grown_refl | lia].
  - cbn [normalizeLoop]. unfold mbind, M_bind, bind at 1.
    destruct (index_Ok rs prev ltac:(lia)) as (rp & Hrp & ->).
    unfold mbind, M_bind, bind at 1.
    destruct (index_Ok rs i ltac:(lia)) as (ri & Hri & ->).
    assert (Hi1 : GoInt.add i 1 = i + 1).
    { apply add_no_overflow; unfold GoInt.int_range, GoInt.max_int, GoInt.min_int in *; lia. }
    assert (Hp1 : GoInt.add prev 1 = prev + 1).
    { apply add_no_overflow; unfold GoInt.int_range, GoInt.max_int, GoInt.min_int in *; lia. }
    rewrite Hi1, Hp1.
    destruct (Low rp =? Low ri).
    { apply IH; lia. }
    destruct ((Hi rp >? 0) && (GoInt.add (Hi rp) 1 >=? Low ri)).
    + destruct (Z.ltb_spec (Hi rp) (Hi ri)) as [Hlt | Hge].
      * unfold mbind, M_bind, bind. rewrite assign_Ok by lia.
        pose proof (grown_assign rs (Z.to_nat prev) rp (Hi ri) Hrp ltac:(lia)) as Hg.
        set (rs1 := <[Z.to_nat prev := {| Low := Low rp; Hi := Hi ri |}]> rs) in *.
        destruct (IH (i + 1) prev rs1) as (prev' & rs' & Hrun & Hg' & Hb);
          [lia | rewrite (Len_grown _ _ Hg); lia | rewrite (Len_grown _ _ Hg); lia |].
        exists prev', rs'. split; [exact Hrun |].
        split; [eapply grown_trans; eassumption |].
        rewrite (Len_grown _ _ Hg) in Hb. exact Hb.
      * unfold mbind, M_bind, bind. cbn. apply IH; lia.
    + apply IH; lia.
Qed.

(** X12.  [Normalize] works on the elements of the slice of its caller
    and never leaves the slice: it returns for every slice.  What the
    caller sees afterwards is a slice of the same length in which every
    range has kept its [Low] and has a [Hi] that is not smaller than
    before: nothing is removed, the shorter slice the method builds at its
    end being its own copy.  A slice of one range or none is left
    untouched. *)
Theorem X12_Normalize_keeps_length :
  (forall rs : RangeSorter,
      Len rs <= GoInt.max_int ->
      exists rs' : RangeSorter, Normalize rs = Ok tt rs' /\ grown rs rs')
  /\ (forall rs : RangeSorter, (length rs <= 1)%nat -> Normalize rs = Ok tt rs).
Proof.
  split.
  - intros rs Hmax. unfold Normalize.
    destruct (Z.gtb_spec (Len rs) 1) as [Hgt | Hle].
    + destruct (normalizeLoop_grows (Z.to_nat (Len rs - 1)) 1 0 rs)
        as (prev' & rs' & Hrun & Hg & _); [lia | lia | exact Hmax |].
      exists rs'. unfold mbind, M_bind, bind. rewrite Hrun. auto.
    + exists rs. split; [reflexivity | apply grown_refl].
  - intros rs Hlen. unfold Normalize.
    destruct (Z.gtb_spec (Len rs) 1) as [Hgt | Hle]; [| reflexivity].
    unfold Len in Hgt. lia.
Qed.

Lemma X12_Normalize_keeps_length_witness :
  let rs := [{| Low := 1; Hi := 4 |}; {| Low := 2; Hi := 4 |}; {| Low := 5; Hi := 7 |}] in
  (exists rs' : RangeSorter, Normalize rs = Ok tt rs' /\ grown rs rs')
  /\ Normalize [{| Low := 1; Hi := 4 |}] = Ok tt [{| Low := 1; Hi := 4 |}].
Proof.
  intros rs. destruct X12_Normalize_keeps_length as (H1 & H2).
  split.
  - apply (H1 rs). unfold Len, GoInt.max_int. simpl. lia.
  - apply (H2 [{| Low := 1; Hi := 4 |}]). simpl. lia.
Defined.

(** The ranges of the comment of [Normalize]: the first one becomes
    [1..7], and all three are still there. *)
Lemma Normalize_example :
  Normalize [{| Low := 1; Hi := 4 |}; {| Low := 2; Hi := 4 |}; {| Low := 5; Hi := 7 |}]
  = Ok tt [{| Low := 1; Hi := 7 |}; {| Low := 2; Hi := 4 |}; {| Low := 5; Hi := 7 |}].
Proof. vm_compute. reflexivity. Qed.
End RangesFacts.

(** ** Topic categories *)

Section TopicNamesFacts.
Local Open Scope Z_scope.
Import Uid Calls TopicNames.

Lemma GetTopicCat_prefixed (p rest : string) :
  String.length p = 3%nat ->
  GetTopicCat (p ++ rest)%string =
    if String.eqb p "usr" then Go.Returns TopicCatMe
    else if String.eqb p "p2p" then Go.Returns TopicCatP2P
    else if String.eqb p "grp" then Go.Returns TopicCatGrp
    else if String.eqb p "fnd" then Go.Returns TopicCatFnd
    else Go.Panics ("invalid topic type for name '" ++ (p ++ rest) ++ "'")%string.
Proof.
  intros Hp. unfold GetTopicCat.
  rewrite append_length, Hp.
  destruct (Nat.ltb_spec (3 + String.length rest) 3) as [H | _]; [lia |].
  assert (Htake : strTake 3 (p ++ rest)%string = p).
  { unfold strTake. rewrite list_ascii_append.
    change (Z.to_nat 3) with 3%nat.
    rewrite <- Hp, <- list_ascii_length, take_app_length.
    apply string_of_list_ascii_of_string. }
  now rewrite Htake.
Qed.

(** X13.  [GetTopicCat] tells the category of a topic from the first
    three bytes of its name, and so it names the categories of the names
    the package builds: the user id of a non-zero Uid is a [me] topic, its
    [fnd] name a [fnd] topic, and the P2P name of two different non-zero
    Uids a P2P topic.  It panics on a name shorter than three bytes, as
    the empty names of the zero Uid are, and on any other prefix. *)
Theorem X13_GetTopicCat_of_built_names :
  (forall u : Uid.t, u <> ZeroUid -> GetTopicCat (UserId u) = Go.Returns TopicCatMe)
  /\ (forall u : Uid.t, u <> ZeroUid -> GetTopicCat (FndName u) = Go.Returns TopicCatFnd)
  /\ (forall a b : Uid.t,
         a <> ZeroUid -> b <> ZeroUid -> a <> b ->
         GetTopicCat (P2PName a b) = Go.Returns TopicCatP2P)
  /\ (forall rest : string, GetTopicCat ("grp" ++ rest) = Go.Returns TopicCatGrp)
  /\ (forall name : string,
         (String.length name < 3)%nat ->
         GetTopicCat name = Go.Panics "slice bounds out of range")
  /\ (GetTopicCat (UserId ZeroUid) = Go.Panics "slice bounds out of range" /\
      GetTopicCat (FndName ZeroUid) = Go.Panics "slice bounds out of range" /\
      forall a : Uid.t, GetTopicCat (P2PName a a) = Go.Panics "slice bounds out of range")
  /\ (forall name : string,
         (3 <= String.length name)%nat ->
         ~ In (strTake 3 name) ["usr"; "p2p"; "grp"; "fnd"]%string ->
         exists msg : string, GetTopicCat name = Go.Panics msg).
Proof.
  split; [| split; [| split; [| split; [| split; [| split]]]]].
  - intros u Hu. unfold UserId, PrefixId, IsZero.
    destruct (Z.eqb_spec u 0); [contradiction |].
    now rewrite GetTopicCat_prefixed.
  - intros u Hu. unfold FndName, PrefixId, IsZero.
    destruct (Z.eqb_spec u 0); [contradiction |].
    now rewrite GetTopicCat_prefixed.
  - intros a b Ha Hb Hab.
    destruct (Z.lt_total a b) as [Hlt | [-> | Hgt]]; [| contradiction |].
    + rewrite P2PName_lt by assumption. unfold p2pOrdered.
      now rewrite GetTopicCat_prefixed.
    + rewrite P2PName_gt by assumption. unfold p2pOrdered.
      now rewrite GetTopicCat_prefixed.
  - intros rest. now rewrite GetTopicCat_prefixed.
  - intros name Hlen. unfold GetTopicCat.
    destruct (Nat.ltb_spec (String.length name) 3); [reflexivity | lia].
  - split; [reflexivity |]. split; [reflexivity |].
    intros a. now rewrite P2PName_self.
  - intros name Hlen Hnot. unfold GetTopicCat.
    destruct (Nat.ltb_spec (String.length name) 3); [lia |].
    cbn [In] in Hnot.
    destruct (String.eqb_spec (strTake 3 name) "usr") as [He | _];
      [exfalso; apply Hnot; rewrite He; auto 6 |].
    destruct (String.eqb_spec (strTake 3 name) "p2p") as [He | _];
      [exfalso; apply Hnot; rewrite He; auto 6 |].
    destruct (String.eqb_spec (strTake 3 name) "grp") as [He | _];
      [exfalso; apply Hnot; rewrite He; auto 6 |].
    destruct (String.eqb_spec (strTake 3 name) "fnd") as [He | _];
      [exfalso; apply Hnot; rewrite He; auto 6 |].
    eauto.
Qed.

Lemma X13_GetTopicCat_of_built_names_witness :
  GetTopicCat (UserId 1000000007) = Go.Returns TopicCatMe
  /\ GetTopicCat (P2PName 1 2) = Go.Returns TopicCatP2P
  /\ GetTopicCat "me" = Go.Panics "slice bounds out of range"
  /\ (exists msg : string, GetTopicCat "topic" = Go.Panics msg).
Proof.
  destruct X13_GetTopicCat_of_built_names as (H1 & _ & H3 & _ & H5 & _ & H7).
  split; [apply H1; discriminate |].
  split; [apply H3; discriminate |].
  split; [apply H5; simpl; lia |].
  apply H7; [simpl; lia |].
  cbn. intros [H | [H | [H | [H | []]]]]; discriminate.
Defined.
End TopicNamesFacts.


(** ** Video calls: invitation, events and the end of a call *)

Section CallEventFacts.
Local Open Scope Z_scope.
Import Effect Store Calls.
Context {W : Type}.
Variable env : Env W.

(** X14.  What an invite does on a topic without a call.  On a topic
    that is not P2P the sender is answered with the permission error and
    nothing else happens.  On a P2P topic nobody is answered: the other
    user of the topic is told of the invite, the sender's session left
    out, the call is recorded with the sender as its one party and
    originator under the id of the topic's last message, and the timer is
    armed for fifteen seconds. *)
Theorem X14_invite_is_refused_or_announced :
  (forall (msg : ClientComMessage) (asUid : Uid.t) (st : state W),
      currentCall (topic st) = None -> cat (topic st) <> TopicCatP2P ->
      handleCallInvite env msg asUid st =
        Ok tt {| topic := topic st;
                 world := snd (TimeNow env (world st));
                 log := log st ++
                        [EvQueueOut (sess msg)
                           (ErrPermissionDeniedReply msg (fst (TimeNow env (world st))))] |})
  /\ (forall (msg : ClientComMessage) (asUid : Uid.t) (st : state W),
         currentCall (topic st) = None -> cat (topic st) = TopicCatP2P ->
         handleCallInvite env msg asUid st =
           Ok tt {| topic :=
                      setTimer
                        (setCurrentCall (topic st)
                           (Some {| parties := [(sess msg, {| uid := asUid;
                                                              isOriginator := true |})];
                                    seq := lastID (topic st) |}))
                        (TimerArmed (15 * 1000000000));
                    world := world st;
                    log := log st ++
                           [EvInfoCallSubsOffline (AsUser msg)
                              (p2pOtherUser env (topic st) asUid) "invite"
                              (lastID (topic st)) None (s_sid (sess msg)) false] |}).
Proof.
  split.
  - intros msg asUid st Hcur Hcat.
    unfold handleCallInvite, mbind, M_bind, bind. cbn [getTopic].
    rewrite Hcur. rewrite bool_decide_eq_false_2 by assumption. cbn [negb].
    unfold call. now destruct (TimeNow env (world st)).
  - intros msg asUid st Hcur Hcat.
    unfold handleCallInvite, mbind, M_bind, bind. cbn [getTopic].
    rewrite Hcur, Hcat. rewrite bool_decide_eq_true_2 by reflexivity.
    reflexivity.
Qed.

(** The guards of [handleCallEvent] passed, the event is looked at. *)
Lemma handleCallEvent_unknown (msg : ClientComMessage) (note : MsgClientNote)
      (st : state W) (cur : videoCall) :
  currentCall (topic st) = Some cur ->
  isInactive env (topic st) = false ->
  Note msg = Some note ->
  note_SeqId note = seq cur ->
  Types.ParseUserId (AsUser msg) ∈ perUser (topic st) ->
  ~ In (note_Event note)
       [constCallEventRinging; constCallEventAccept; constCallEventOffer;
        constCallEventAnswer; constCallEventIceCandidate; constCallEventHangUp] ->
  handleCallEvent env msg st = Ok tt st.
Proof.
  intros Hcur Hact Hnote Hseq Huser Hev. unfold handleCallEvent.
  unfold mbind, M_bind, bind at 1. cbn [getTopic].
  rewrite Hcur, Hact, Hnote, Hseq, Z.eqb_refl. cbn [negb].
  rewrite bool_decide_eq_true_2 by assumption. cbn [negb].
  cbn [In] in Hev.
  repeat match goal with
         | |- context [String.eqb (note_Event note) ?s] =>
             destruct (String.eqb_spec (note_Event note) s) as [He | _];
             [exfalso; apply Hev; rewrite He; auto 8 |]
         end.
  reflexivity.
Qed.

(** X15.  An event of a call that does not reach a call is dropped
    without an answer: nothing is queued and nothing changes when the
    topic has no call, when the topic is inactive, when the event carries
    another id than the call, when its sender is not a user of the topic,
    or when the event has a name the handler does not know. *)
Theorem X15_call_event_is_dropped :
  (forall (msg : ClientComMessage) (st : state W),
      currentCall (topic st) = None -> handleCallEvent env msg st = Ok tt st)
  /\ (forall (msg : ClientComMessage) (st : state W),
         isInactive env (topic st) = true -> handleCallEvent env msg st = Ok tt st)
  /\ (forall (msg : ClientComMessage) (note : MsgClientNote) (st : state W)
             (cur : videoCall),
         currentCall (topic st) = Some cur -> Note msg = Some note ->
         note_SeqId note <> seq cur ->
         handleCallEvent env msg st = Ok tt st)
  /\ (forall (msg : ClientComMessage) (note : MsgClientNote) (st : state W)
             (cur : videoCall),
         currentCall (topic st) = Some cur -> Note msg = Some note ->
         Types.ParseUserId (AsUser msg) ∉ perUser (topic st) ->
         handleCallEvent env msg st = Ok tt st)
  /\ (forall (msg : ClientComMessage) (note : MsgClientNote) (st : state W)
             (cur : videoCall),
         currentCall (topic st) = Some cur -> Note msg = Some note ->
         ~ In (note_Event note)
              [constCallEventRinging; constCallEventAccept; constCallEventOffer;
               constCallEventAnswer; constCallEventIceCandidate; constCallEventHangUp] ->
         handleCallEvent env msg st = Ok tt st).
Proof.
  split; [| split; [| split; [| split]]].
  - intros msg st Hcur. unfold handleCallEvent, mbind, M_bind, bind. cbn [getTopic].
    now rewrite Hcur.
  - intros msg st Hact. unfold handleCallEvent, mbind, M_bind, bind. cbn [getTopic].
    destruct (currentCall (topic st)); [| reflexivity]. now rewrite Hact.
  - intros msg note st cur Hcur Hnote Hseq.
    unfold handleCallEvent, mbind, M_bind, bind. cbn [getTopic].
    rewrite Hcur, Hnote. destruct (isInactive env (topic st)); [reflexivity |].
    destruct (Z.eqb_spec (seq cur) (note_SeqId note)) as [He | _]; [| reflexivity].
    now destruct Hseq.
  - intros msg note st cur Hcur Hnote Huser.
    unfold handleCallEvent, mbind, M_bind, bind. cbn [getTopic].
    rewrite Hcur, Hnote. destruct (isInactive env (topic st)); [reflexivity |].
    destruct (negb (seq cur =? note_SeqId note)); [reflexivity |].
    now rewrite bool_decide_eq_false_2 by assumption.
  - intros msg note st cur Hcur Hnote Hev.
    destruct (isInactive env (topic st)) eqn:Hact.
    { unfold handleCallEvent, mbind, M_bind, bind. cbn [getTopic].
      now rewrite Hcur, Hact. }
    destruct (Z.eq_dec (note_SeqId note) (seq cur)) as [Hseq | Hseq].
    2: { unfold handleCallEvent, mbind, M_bind, bind. cbn [getTopic].
         rewrite Hcur, Hact, Hnote.
         destruct (Z.eqb_spec (seq cur) (note_SeqId note)) as [He | _]; [| reflexivity].
         now destruct Hseq. }
    destruct (decide (Types.ParseUserId (AsUser msg) ∈ perUser (topic st)))
      as [Huser | Huser].
    + now apply (handleCallEvent_unknown msg note st cur).
    + unfold handleCallEvent, mbind, M_bind, bind. cbn [getTopic].
      rewrite Hcur, Hact, Hnote, Hseq, Z.eqb_refl. cbn [negb].
      now rewrite bool_decide_eq_false_2 by assumption.
Qed.

(** The part of [handleCallEvent] that the events [ringing] and
    [accept] reach. *)
Lemma handleCallEvent_establish (msg : ClientComMessage) (note : MsgClientNote)
      (st : state W) (cur : videoCall) :
  currentCall (topic st) = Some cur ->
  isInactive env (topic st) = false ->
  Note msg = Some note ->
  note_SeqId note = seq cur ->
  Types.ParseUserId (AsUser msg) ∈ perUser (topic st) ->
  note_Event note = constCallEventRinging \/ note_Event note = constCallEventAccept ->
  handleCallEvent env msg st =
    (if negb (length (parties cur) =? 1)%nat then mret tt
     else
       let '(originatorUid, originator) := findOriginator (parties cur) in
       match originator with
       | None => terminateCallInProgress env
       | Some originator =>
           if sameSession originator (sess msg)
              || (originatorUid =? Types.ParseUserId (AsUser msg)) then mret tt
           else
             let forwardMsg :=
               withTopicFrom (infoMessage cur (note_Event note)) (AsUser msg)
                             (original env (topic st) originatorUid) None in
             if String.eqb (note_Event note) constCallEventAccept then
               err ← save env (withAsUser msg (Uid.UserId originatorUid)) originatorUid
                       (messageHead cur) constCallMsgAccepted;
               match err with
               | Some _ => mret tt
               | None =>
                   updTopic (fun t =>
                     setCurrentCall t
                       (Some {| parties :=
                                  setParty (parties cur) (sess msg)
                                    {| uid := Types.ParseUserId (AsUser msg);
                                       isOriginator := false |};
                                seq := seq cur |}));;
                   t ← getTopic;
                   emit (EvInfoCallSubsOffline (AsUser msg)
                           (Types.ParseUserId (AsUser msg)) (note_Event note)
                           (lastID t) (note_Payload note)
                           (s_sid (sess msg)) false);;
                   updTopic (fun t => setTimer t TimerStopped);;
                   queueOut originator (InfoMessage forwardMsg)
               end
             else queueOut originator (InfoMessage forwardMsg)
       end) st.
Proof.
  intros Hcur Hact Hnote Hseq Huser Hev. unfold handleCallEvent.
  unfold mbind, M_bind, bind at 1. cbn [getTopic].
  rewrite Hcur, Hact, Hnote, Hseq, Z.eqb_refl. cbn [negb].
  rewrite bool_decide_eq_true_2 by assumption. cbn [negb].
  rewrite (getCallOriginator_live _ _ Hcur).
  assert (Hor : String.eqb (note_Event note) constCallEventRinging
                || String.eqb (note_Event note) constCallEventAccept = true).
  { destruct Hev as [-> | ->]; reflexivity. }
  rewrite Hor. reflexivity.
Qed.

(** X16.  The events [ringing] and [accept] count only while the call
    is being established and only from the other side.  They are dropped,
    without an answer, when the call has two parties already, and when
    they come from the session or from the user that started the call.  A
    [ringing] event of the other side is forwarded to the session of the
    originator, as an info message that names the sender and carries no
    payload, and changes nothing in the topic. *)
Theorem X16_ringing_comes_from_the_callee :
  (forall (msg : ClientComMessage) (note : MsgClientNote) (st : state W)
          (cur : videoCall),
      currentCall (topic st) = Some cur ->
      isInactive env (topic st) = false ->
      Note msg = Some note ->
      note_SeqId note = seq cur ->
      Types.ParseUserId (AsUser msg) ∈ perUser (topic st) ->
      note_Event note = constCallEventRinging \/ note_Event note = constCallEventAccept ->
      length (parties cur) <> 1%nat ->
      handleCallEvent env msg st = Ok tt st)
  /\ (forall (msg : ClientComMessage) (note : MsgClientNote) (st : state W)
             (cur : videoCall) (orig : Session) (origUid : Uid.t),
         currentCall (topic st) = Some cur ->
         isInactive env (topic st) = false ->
         Note msg = Some note ->
         note_SeqId note = seq cur ->
         Types.ParseUserId (AsUser msg) ∈ perUser (topic st) ->
         note_Event note = constCallEventRinging \/ note_Event note = constCallEventAccept ->
         parties cur = [(orig, {| uid := origUid; isOriginator := true |})] ->
         sameSession orig (sess msg) = true \/ origUid = Types.ParseUserId (AsUser msg) ->
         handleCallEvent env msg st = Ok tt st)
  /\ (forall (msg : ClientComMessage) (note : MsgClientNote) (st : state W)
             (cur : videoCall) (orig : Session) (origUid : Uid.t),
         currentCall (topic st) = Some cur ->
         isInactive env (topic st) = false ->
         Note msg = Some note ->
         note_SeqId note = seq cur ->
         Types.ParseUserId (AsUser msg) ∈ perUser (topic st) ->
         note_Event note = constCallEventRinging ->
         parties cur = [(orig, {| uid := origUid; isOriginator := true |})] ->
         sameSession orig (sess msg) = false ->
         origUid <> Types.ParseUserId (AsUser msg) ->
         handleCallEvent env msg st =
           Ok tt {| topic := topic st; world := world st;
                    log := log st ++
                           [EvQueueOut orig
                              (InfoMessage
                                 {| info_Topic := original env (topic st) origUid;
                                    info_From := AsUser msg;
                                    info_What := "call";
                                    info_Event := "ringing";
                                    info_SeqId := seq cur;
                                    info_Payload := None |})] |}).
Proof.
  split; [| split].
  - intros msg note st cur Hcur Hact Hnote Hseq Huser Hev Hlen.
    rewrite (handleCallEvent_establish msg note st cur) by assumption.
    destruct (Nat.eqb_spec (length (parties cur)) 1); [contradiction | reflexivity].
  - intros msg note st cur orig origUid Hcur Hact Hnote Hseq Huser Hev Hp Hsame.
    rewrite (handleCallEvent_establish msg note st cur) by assumption.
    rewrite Hp. cbn [length Nat.eqb negb findOriginator isOriginator uid].
    destruct Hsame as [-> | ->]; [reflexivity |].
    now rewrite Z.eqb_refl, orb_true_r.
  - intros msg note st cur orig origUid Hcur Hact Hnote Hseq Huser Hev Hp Hsess Huid.
    rewrite (handleCallEvent_establish msg note st cur) by auto.
    rewrite Hp. cbn [length Nat.eqb negb findOriginator isOriginator uid].
    rewrite Hsess. destruct (Z.eqb_spec origUid (Types.ParseUserId (AsUser msg)));
      [contradiction |].
    cbn [orb]. rewrite Hev. reflexivity.
Qed.

(** X17.  An [accept] event of the other side establishes the call.
    The message that replaces the invite is saved for the originator with
    the content [accepted]; when that succeeds the sender becomes the
    second party of the call, the other sessions are told, the timer is
    stopped and the event is forwarded to the originator.  When saving
    fails the call stays as it was, with one party and its timer, and the
    originator is not told. *)
Theorem X17_accept_establishes_the_call :
  forall (msg : ClientComMessage) (note : MsgClientNote) (st : state W)
         (cur : videoCall) (orig : Session) (origUid : Uid.t)
         (err : option error) (n : Z) (w : W),
    currentCall (topic st) = Some cur ->
    isInactive env (topic st) = false ->
    Note msg = Some note ->
    note_SeqId note = seq cur ->
    Types.ParseUserId (AsUser msg) ∈ perUser (topic st) ->
    note_Event note = constCallEventAccept ->
    parties cur = [(orig, {| uid := origUid; isOriginator := true |})] ->
    sameSession orig (sess msg) = false ->
    origUid <> Types.ParseUserId (AsUser msg) ->
    saveAndBroadcastMessage env (topic st) (withAsUser msg (Uid.UserId origUid))
      origUid (messageHead cur) constCallMsgAccepted (world st) = ((err, n), w) ->
    let saved := EvSaveAndBroadcast (withAsUser msg (Uid.UserId origUid)) origUid
                   (messageHead cur) "accepted" err in
    handleCallEvent env msg st =
      match err with
      | Some _ =>
          Ok tt {| topic := setLastID (topic st) n; world := w;
                   log := log st ++ [saved] |}
      | None =>
          Ok tt {| topic :=
                     setTimer
                       (setCurrentCall (setLastID (topic st) n)
                          (Some {| parties :=
                                     [(orig, {| uid := origUid; isOriginator := true |});
                                      (sess msg,
                                       {| uid := Types.ParseUserId (AsUser msg);
                                          isOriginator := false |})];
                                   seq := seq cur |}))
                       TimerStopped;
                   world := w;
                   log := log st ++
                          [saved;
                           EvInfoCallSubsOffline (AsUser msg)
                             (Types.ParseUserId (AsUser msg)) "accept" n
                             (note_Payload note) (s_sid (sess msg)) false;
                           EvQueueOut orig
                             (InfoMessage
                                {| info_Topic := original env (topic st) origUid;
                                   info_From := AsUser msg;
                                   info_What := "call";
                                   info_Event := "accept";
                                   info_SeqId := seq cur;
                                   info_Payload := None |})] |}
      end.
Proof.
  intros msg note st cur orig origUid err n w
         Hcur Hact Hnote Hseq Huser Hev Hp Hsess Huid Hsave saved.
  rewrite (handleCallEvent_establish msg note st cur) by auto.
  rewrite Hp. cbn [length Nat.eqb negb findOriginator isOriginator uid].
  rewrite Hsess. destruct (Z.eqb_spec origUid (Types.ParseUserId (AsUser msg)));
    [contradiction |].
  cbn [orb]. rewrite Hev.
  change (String.eqb constCallEventAccept constCallEventAccept) with true. cbv iota.
  unfold save, getTopic, call, emit, updTopic, queueOut, emit,
    mbind, M_bind, bind, mret, M_ret, ret.
  cbn [topic world log]. rewrite Hsave. cbn [fst snd topic world log].
  destruct err as [e |]; [reflexivity |].
  cbn [topic world log setParty]. rewrite Hsess. cbn [setParty].
  rewrite <- !app_assoc. reflexivity.
Qed.

(** The part of [handleCallEvent] that the events of the metadata
    exchange reach. *)
Lemma handleCallEvent_metadata (msg : ClientComMessage) (note : MsgClientNote)
      (st : state W) (cur : videoCall) :
  currentCall (topic st) = Some cur ->
  isInactive env (topic st) = false ->
  Note msg = Some note ->
  note_SeqId note = seq cur ->
  Types.ParseUserId (AsUser msg) ∈ perUser (topic st) ->
  In (note_Event note)
     [constCallEventOffer; constCallEventAnswer; constCallEventIceCandidate] ->
  handleCallEvent env msg st =
    match findOther (rangeParties env (parties cur) (world st)) (sess msg) with
    | (otherUid, Some otherEnd) =>
        Ok tt {| topic := topic st; world := world st;
                 log := log st ++
                        [EvQueueOut otherEnd
                           (InfoMessage
                              {| info_Topic := original env (topic st) otherUid;
                                 info_From := AsUser msg;
                                 info_What := "call";
                                 info_Event := note_Event note;
                                 info_SeqId := seq cur;
                                 info_Payload := note_Payload note |})] |}
    | (_, None) => Ok tt st
    end.
Proof.
  intros Hcur Hact Hnote Hseq Huser Hev. unfold handleCallEvent.
  unfold mbind, M_bind, bind at 1. cbn [getTopic].
  rewrite Hcur, Hact, Hnote, Hseq, Z.eqb_refl. cbn [negb].
  rewrite bool_decide_eq_true_2 by assumption. cbn [negb].
  assert (Hes : String.eqb (note_Event note) constCallEventRinging
                || String.eqb (note_Event note) constCallEventAccept = false).
  { destruct Hev as [<- | [<- | [<- | []]]]; reflexivity. }
  assert (Hmeta : String.eqb (note_Event note) constCallEventOffer
                  || String.eqb (note_Event note) constCallEventAnswer
                  || String.eqb (note_Event note) constCallEventIceCandidate = true).
  { destruct Hev as [<- | [<- | [<- | []]]]; reflexivity. }
  rewrite Hes, Hmeta.
  unfold mbind, M_bind, bind at 1. cbn [ranged].
  destruct (findOther (rangeParties env (parties cur) (world st)) (sess msg))
    as [otherUid [otherEnd |]];
    reflexivity.
Qed.

(** What the search for the other end finds, whatever the order of the
    entries: a party on another session than the sender's, or nobody when
    every party is on the sender's session. *)
Lemma findOther_found (ps : list (Session * callPartyData)) (me : Session)
      (u : Uid.t) (s : Session) :
  findOther ps me = (u, Some s) ->
  exists p : callPartyData, In (s, p) ps /\ uid p = u /\ sameSession s me = false.
Proof.
  induction ps as [| [s0 p0] ps IH]; [discriminate |].
  cbn [findOther]. destruct (sameSession s0 me) eqn:Hs0; cbn [negb].
  - intros H. destruct (IH H) as (p & Hin & Hu & Hs). exists p. auto using in_cons.
  - intros H. inversion H; subst. exists p0. auto using in_eq.
Qed.

Lemma findOther_nobody (ps : list (Session * callPartyData)) (me : Session)
      (u : Uid.t) :
  findOther ps me = (u, None) ->
  u = Uid.ZeroUid /\
  forall (s : Session) (p : callPartyData), In (s, p) ps -> sameSession s me = true.
Proof.
  induction ps as [| [s0 p0] ps IH].
  - intros H. inversion H. split; [reflexivity | intros s p []].
  - cbn [findOther]. destruct (sameSession s0 me) eqn:Hs0; cbn [negb]; [| discriminate].
    intros H. destruct (IH H) as [Hu Hall]. split; [exact Hu |].
    intros s p [Heq | Hin]; [inversion Heq; subst; exact Hs0 | eauto].
Qed.

(** In a call of two parties on different sessions the other end of a
    party is the other party, in whichever order the map is read. *)
Lemma findOther_of_two (ps : list (Session * callPartyData)) (s1 s2 me : Session)
      (p1 p2 : callPartyData) :
  Permutation ps [(s1, p1); (s2, p2)] ->
  sameSession s1 s2 = false ->
  (sameSession s1 me = true -> findOther ps me = (uid p2, Some s2)) /\
  (sameSession s2 me = true -> findOther ps me = (uid p1, Some s1)).
Proof.
  intros Hperm Hne. apply Permutation_sym, Permutation_length_2_inv in Hperm.
  unfold sameSession in *. apply Z.eqb_neq in Hne.
  destruct Hperm as [-> | ->]; cbn [findOther]; unfold sameSession;
    split; intros Hme; apply Z.eqb_eq in Hme;
    destruct (Z.eqb_spec (s_ptr s1) (s_ptr me)), (Z.eqb_spec (s_ptr s2) (s_ptr me));
    cbn [negb]; try reflexivity; congruence.
Qed.

(** X18.  The events of the metadata exchange, [offer], [answer] and
    [ice-candidate], are forwarded with their payload to a party of the
    call on another session than the sender's, and change nothing in the
    topic; they are dropped when every party is on the sender's session.
    The party is the first such one that the range over the map of
    parties yields.  In a call of two parties an event of one party
    reaches the other one in whichever order the map is read; while the
    call is being established an event of the originator is dropped. *)
Theorem X18_metadata_reaches_the_other_party :
  (forall (msg : ClientComMessage) (note : MsgClientNote) (st : state W)
          (cur : videoCall),
      currentCall (topic st) = Some cur ->
      isInactive env (topic st) = false ->
      Note msg = Some note ->
      note_SeqId note = seq cur ->
      Types.ParseUserId (AsUser msg) ∈ perUser (topic st) ->
      In (note_Event note)
         [constCallEventOffer; constCallEventAnswer; constCallEventIceCandidate] ->
      (exists (otherEnd : Session) (p : callPartyData),
          In (otherEnd, p) (parties cur) /\
          sameSession otherEnd (sess msg) = false /\
          handleCallEvent env msg st =
            Ok tt {| topic := topic st; world := world st;
                     log := log st ++
                            [EvQueueOut otherEnd
                               (InfoMessage
                                  {| info_Topic := original env (topic st) (uid p);
                                     info_From := AsUser msg;
                                     info_What := "call";
                                     info_Event := note_Event note;
                                     info_SeqId := seq cur;
                                     info_Payload := note_Payload note |})] |})
      \/ ((forall (s : Session) (p : callPartyData),
              In (s, p) (parties cur) -> sameSession s (sess msg) = true) /\
          handleCallEvent env msg st = Ok tt st))
  /\ (forall (msg : ClientComMessage) (note : MsgClientNote) (st : state W)
             (cur : videoCall),
         currentCall (topic st) = Some cur ->
         isInactive env (topic st) = false ->
         Note msg = Some note ->
         note_SeqId note = seq cur ->
         Types.ParseUserId (AsUser msg) ∈ perUser (topic st) ->
         In (note_Event note)
            [constCallEventOffer; constCallEventAnswer; constCallEventIceCandidate] ->
         handleCallEvent env msg st =
           match findOther (rangeParties env (parties cur) (world st)) (sess msg) with
           | (otherUid, Some otherEnd) =>
               Ok tt {| topic := topic st; world := world st;
                        log := log st ++
                               [EvQueueOut otherEnd
                                  (InfoMessage
                                     {| info_Topic := original env (topic st) otherUid;
                                        info_From := AsUser msg;
                                        info_What := "call";
                                        info_Event := note_Event note;
                                        info_SeqId := seq cur;
                                        info_Payload := note_Payload note |})] |}
           | (_, None) => Ok tt st
           end)
  /\ (forall (msg : ClientComMessage) (note : MsgClientNote) (st : state W)
             (cur : videoCall) (s1 s2 : Session) (p1 p2 : callPartyData),
         currentCall (topic st) = Some cur ->
         isInactive env (topic st) = false ->
         Note msg = Some note ->
         note_SeqId note = seq cur ->
         Types.ParseUserId (AsUser msg) ∈ perUser (topic st) ->
         In (note_Event note)
            [constCallEventOffer; constCallEventAnswer; constCallEventIceCandidate] ->
         parties cur = [(s1, p1); (s2, p2)] ->
         sameSession s1 s2 = false ->
         forall (other : Session) (q : callPartyData),
           (sameSession s1 (sess msg) = true /\ other = s2 /\ q = p2) \/
           (sameSession s2 (sess msg) = true /\ other = s1 /\ q = p1) ->
           handleCallEvent env msg st =
             Ok tt {| topic := topic st; world := world st;
                      log := log st ++
                             [EvQueueOut other
                                (InfoMessage
                                   {| info_Topic := original env (topic st) (uid q);
                                      info_From := AsUser msg;
                                      info_What := "call";
                                      info_Event := note_Event note;
                                      info_SeqId := seq cur;
                                      info_Payload := note_Payload note |})] |})
  /\ (forall (msg : ClientComMessage) (note : MsgClientNote) (st : state W)
             (cur : videoCall) (s1 : Session) (p1 : callPartyData),
         currentCall (topic st) = Some cur ->
         isInactive env (topic st) = false ->
         Note msg = Some note ->
         note_SeqId note = seq cur ->
         Types.ParseUserId (AsUser msg) ∈ perUser (topic st) ->
         In (note_Event note)
            [constCallEventOffer; constCallEventAnswer; constCallEventIceCandidate] ->
         parties cur = [(s1, p1)] ->
         sameSession s1 (sess msg) = true ->
         handleCallEvent env msg st = Ok tt st).
Proof.
  split; [| split; [exact handleCallEvent_metadata | split]].
  - intros msg note st cur Hcur Hact Hnote Hseq Huser Hev.
    rewrite (handleCallEvent_metadata msg note st cur Hcur Hact Hnote Hseq Huser Hev).
    pose proof (rangeParties_all env (parties cur) (world st)) as Hperm.
    destruct (findOther (rangeParties env (parties cur) (world st)) (sess msg))
      as [otherUid [otherEnd |]] eqn:Hfind.
    + left. apply findOther_found in Hfind as (p & Hin & <- & Hs).
      exists otherEnd, p. split; [| split; [exact Hs | reflexivity]].
      now apply (Permutation_in _ Hperm).
    + right. apply findOther_nobody in Hfind as [_ Hall]. split; [| reflexivity].
      intros s p Hin. apply (Hall s p).
      now apply (Permutation_in _ (Permutation_sym Hperm)).
  - intros msg note st cur s1 s2 p1 p2 Hcur Hact Hnote Hseq Huser Hev Hp Hne other q Hside.
    rewrite (handleCallEvent_metadata msg note st cur Hcur Hact Hnote Hseq Huser Hev).
    pose proof (rangeParties_all env (parties cur) (world st)) as Hperm.
    rewrite Hp in Hperm |- *.
    destruct (findOther_of_two _ s1 s2 (sess msg) p1 p2 Hperm Hne) as [H1 H2].
    destruct Hside as [(Hme & -> & ->) | (Hme & -> & ->)].
    + now rewrite (H1 Hme).
    + now rewrite (H2 Hme).
  - intros msg note st cur s1 p1 Hcur Hact Hnote Hseq Huser Hev Hp Hme.
    rewrite (handleCallEvent_metadata msg note st cur Hcur Hact Hnote Hseq Huser Hev).
    pose proof (rangeParties_all env (parties cur) (world st)) as Hperm.
    rewrite Hp in Hperm |- *. apply Permutation_sym, Permutation_length_1_inv in Hperm.
    rewrite Hperm. cbn [findOther]. now rewrite Hme.
Qed.

Lemma maybeEndCallInProgress_run (from : string) (msg : ClientComMessage)
      (st : state W) (cur : videoCall) (err : option error) (n : Z) (w : W) :
  currentCall (topic st) = Some cur ->
  saveAndBroadcastMessage env (setTimer (topic st) TimerStopped)
    (withAsUser msg (Uid.UserId (fst (findOriginator (parties cur)))))
    (fst (findOriginator (parties cur))) (messageHead cur)
    (CallShape.endContent from cur) (world st) = ((err, n), w) ->
  maybeEndCallInProgress env from msg st =
    Ok tt {| topic := setCurrentCall (setLastID (setTimer (topic st) TimerStopped) n) None;
             world := w;
             log := log st ++
                    [EvSaveAndBroadcast
                       (withAsUser msg (Uid.UserId (fst (findOriginator (parties cur)))))
                       (fst (findOriginator (parties cur))) (messageHead cur)
                       (CallShape.endContent from cur) err;
                     EvBroadcastToSessions
                       (InfoMessage (infoMessage cur constCallEventHangUp))] ++
                    map (fun tgt => EvInfoCallSubsOffline from tgt constCallEventHangUp
                                      (seq cur) None "" true)
                        (rangePerUser env (perUser (topic st)) w) |}.
Proof.
  intros Hcur Hsave. unfold maybeEndCallInProgress.
  unfold mbind, M_bind, bind at 1. cbn [getTopic]. rewrite Hcur.
  unfold mbind, M_bind, bind at 1. cbn [updTopic].
  rewrite (getCallOriginator_live _ _ Hcur).
  fold (CallShape.endContent from cur).
  set (st1 := {| topic := setTimer (topic st) TimerStopped; world := world st;
                 log := log st |}).
  assert (Hs : save env (withAsUser msg (Uid.UserId (fst (findOriginator (parties cur)))))
                 (fst (findOriginator (parties cur))) (messageHead cur)
                 (CallShape.endContent from cur) st1 =
               Ok err {| topic := setLastID (topic st1) n; world := w;
                         log := log st1 ++
                                [EvSaveAndBroadcast
                                   (withAsUser msg
                                      (Uid.UserId (fst (findOriginator (parties cur)))))
                                   (fst (findOriginator (parties cur))) (messageHead cur)
                                   (CallShape.endContent from cur) err] |}).
  { unfold save, getTopic, call, emit, updTopic, mbind, M_bind, bind, mret, M_ret, ret.
    cbn [topic world log st1]. rewrite Hsave. reflexivity. }
  unfold mbind, M_bind, bind at 1. rewrite Hs.
  unfold mbind, M_bind, bind at 1. cbn [emit topic world log].
  unfold mbind, M_bind, bind at 1. cbn [ranged topic world log].
  unfold bind.
  rewrite (forEach_emit
             (fun tgt => EvInfoCallSubsOffline from tgt constCallEventHangUp
                                               (seq cur) None "" true)).
  cbn [topic world log updTopic st1]. rewrite <- !app_assoc. reflexivity.
Qed.

Lemma terminateCallInProgress_run (st : state W) (cur : videoCall)
      (uid : Uid.t) (sess : Session) :
  currentCall (topic st) = Some cur ->
  findOriginator (parties cur) = (uid, Some sess) ->
  uid <> Uid.ZeroUid ->
  terminateCallInProgress env st =
    maybeEndCallInProgress env ""
      {| Original := original env (topic st) uid;
         RcptTo := Uid.UserId uid;
         AsUser := Uid.UserId uid;
         Timestamp := fst (TimeNow env (world st));
         Note := None;
         sess := sess |}
      {| topic := topic st; world := snd (TimeNow env (world st)); log := log st |}.
Proof.
  intros Hcur Horig Hnz. unfold terminateCallInProgress.
  unfold mbind, M_bind, bind at 1. cbn [getTopic]. rewrite Hcur.
  rewrite (getCallOriginator_live _ _ Hcur), Horig.
  unfold Uid.IsZero. destruct (Z.eqb_spec uid 0) as [-> | _]; [contradiction |].
  unfold mbind, M_bind, bind at 1. unfold call.
  now destruct (TimeNow env (world st)).
Qed.

Lemma endContent_cases (from : string) (c : videoCall) :
  (from <> ""%string /\ length (parties c) = 2%nat ->
   CallShape.endContent from c = "finished"%string)
  /\ (from = ""%string \/ length (parties c) <> 2%nat ->
      CallShape.endContent from c = "disconnected"%string).
Proof.
  unfold CallShape.endContent.
  destruct (String.eqb_spec from ""), (Nat.eqb_spec (length (parties c)) 2);
    cbn [negb andb]; split; intros H; try reflexivity; tauto.
Qed.

(** X19.  How a call ends.  [maybeEndCallInProgress] stops the timer,
    saves for the originator the message that replaces the invite, tells
    the sessions of the topic and then every user of the topic, each
    once and in the order the range over the map of users yields them,
    that the call is over, and clears the call, also when saving fails.
    The message says [finished] when a user hangs up a call of two
    parties and [disconnected] otherwise; a call the server terminates is
    ended in the name of nobody, so even an established call is recorded
    as [disconnected].  The head of the message names the message it
    replaces by the id of the call. *)
Theorem X19_call_ends_finished_or_disconnected :
  (forall (from : string) (msg : ClientComMessage) (st : state W) (cur : videoCall)
          (err : option error) (n : Z) (w : W),
      currentCall (topic st) = Some cur ->
      saveAndBroadcastMessage env (setTimer (topic st) TimerStopped)
        (withAsUser msg (Uid.UserId (fst (findOriginator (parties cur)))))
        (fst (findOriginator (parties cur))) (messageHead cur)
        (CallShape.endContent from cur) (world st) = ((err, n), w) ->
      exists order : list Uid.t,
        Permutation order (elements (perUser (topic st))) /\
        List.NoDup order /\
        (forall u : Uid.t, In u order <-> u ∈ perUser (topic st)) /\
        maybeEndCallInProgress env from msg st =
          Ok tt {| topic := setCurrentCall (setLastID (setTimer (topic st) TimerStopped) n)
                              None;
                   world := w;
                   log := log st ++
                          [EvSaveAndBroadcast
                             (withAsUser msg
                                (Uid.UserId (fst (findOriginator (parties cur)))))
                             (fst (findOriginator (parties cur))) (messageHead cur)
                             (CallShape.endContent from cur) err;
                           EvBroadcastToSessions
                             (InfoMessage (infoMessage cur constCallEventHangUp))] ++
                          map (fun tgt => EvInfoCallSubsOffline from tgt
                                             constCallEventHangUp (seq cur) None "" true)
                              order |})
  /\ (forall (from : string) (c : videoCall),
         (from <> ""%string /\ length (parties c) = 2%nat ->
          CallShape.endContent from c = "finished"%string) /\
         (from = ""%string \/ length (parties c) <> 2%nat ->
          CallShape.endContent from c = "disconnected"%string))
  /\ (forall (st : state W) (cur : videoCall) (uid : Uid.t) (sess : Session),
         currentCall (topic st) = Some cur ->
         findOriginator (parties cur) = (uid, Some sess) ->
         uid <> Uid.ZeroUid ->
         terminateCallInProgress env st =
           maybeEndCallInProgress env ""
             {| Original := original env (topic st) uid;
                RcptTo := Uid.UserId uid;
                AsUser := Uid.UserId uid;
                Timestamp := fst (TimeNow env (world st));
                Note := None;
                sess := sess |}
             {| topic := topic st; world := snd (TimeNow env (world st));
                log := log st |})
  /\ (forall c : videoCall,
         messageHead c !! "replace"%string = Some (":" ++ Itoa (seq c))%string /\
         messageHead c !! "mime"%string = Some "application/x-tinode-webrtc"%string).
Proof.
  split; [| split; [exact endContent_cases | split; [exact terminateCallInProgress_run |]]].
  - intros from msg st cur err n w Hcur Hsave.
    pose proof (rangePerUser_all env (perUser (topic st)) w) as Hperm.
    exists (rangePerUser env (perUser (topic st)) w).
    split; [exact Hperm |]. split; [| split].
    + apply (Permutation_NoDup (Permutation_sym Hperm)).
      apply NoDup_ListNoDup. apply NoDup_elements.
    + intros u. rewrite <- elem_of_elements, <- list_elem_of_In.
      split; intros Hin; [now rewrite <- Hperm | now rewrite Hperm].
    + now apply maybeEndCallInProgress_run.
  - intros c. unfold messageHead. split.
    + now rewrite lookup_insert_eq.
    + rewrite lookup_insert_ne by discriminate. now rewrite lookup_insert_eq.
Qed.

(** X20.  The handlers of calls keep the call of a topic well formed:
    one party, the originator, while the call is being established, and
    two parties on different sessions, the originator and the one who
    accepted, once it is, with the timer of call establishment stopped.
    So a call the handlers made has an originator on one of its
    sessions. *)
Theorem X20_handlers_keep_the_call_well_formed :
  (forall (msg : ClientComMessage) (asUid : Uid.t) (st st' : state W),
      CallShape.callInv (topic st) ->
      handleCallInvite env msg asUid st = Ok tt st' ->
      CallShape.callInv (topic st'))
  /\ (forall (msg : ClientComMessage) (st st' : state W),
         CallShape.callInv (topic st) ->
         handleCallEvent env msg st = Ok tt st' ->
         CallShape.callInv (topic st'))
  /\ (forall (st st' : state W),
         terminateCallInProgress env st = Ok tt st' ->
         CallShape.callInv (topic st'))
  /\ (forall (t : Topic) (cur : videoCall),
         CallShape.callInv t -> currentCall t = Some cur ->
         exists (uid : Uid.t) (sess : Session),
           getCallOriginator t = (uid, Some sess) /\
           In (sess, {| uid := uid; isOriginator := true |}) (parties cur)).
Proof.
  split; [| split; [| split]].
  - intros msg asUid st st' Hinv Hrun.
    destruct (currentCall (topic st)) as [cur |] eqn:Hcur.
    + rewrite (handleCallInvite_busy env msg asUid st cur Hcur) in Hrun.
      inversion Hrun; subst. exact Hinv.
    + unfold handleCallInvite, mbind, M_bind, bind in Hrun. cbn [getTopic] in Hrun.
      rewrite Hcur in Hrun.
      destruct (negb (bool_decide (cat (topic st) = TopicCatP2P))).
      * unfold call, queueOut, emit in Hrun.
        destruct (TimeNow env (world st)). inversion Hrun; subst. exact Hinv.
      * inversion Hrun; subst. unfold CallShape.callInv, CallShape.wellFormed. cbn.
        split; [reflexivity | discriminate].
  - intros msg st st' Hinv Hrun.
    destruct (handleCallEvent_topic env msg st st' Hrun)
      as [Hnone | [[Hsame Htimer] | (cur & orig & p & asUid & Hcur & Hp & Hop & Hsess
                                      & Hcur' & Htimer')]].
    + now apply callInv_cleared.
    + now apply (callInv_same_call (topic st)).
    + unfold CallShape.callInv, CallShape.wellFormed. rewrite Hcur'. cbn. auto.
  - intros st st' Hrun. apply callInv_cleared.
    now apply (terminateCallInProgress_clears env st).
  - intros t cur Hinv Hcur. unfold CallShape.callInv, CallShape.wellFormed in Hinv.
    rewrite Hcur in Hinv. rewrite (getCallOriginator_live _ _ Hcur).
    destruct (parties cur) as [| [s1 [u1 o1]] [| [s2 [u2 o2]] [| q rest]]];
      destruct Hinv as [Hwf _]; try contradiction; cbn in Hwf.
    + subst o1. exists u1, s1. cbn. auto.
    + destruct Hwf as (-> & _). exists u1, s1. cbn. auto.
Qed.
End CallEventFacts.

Section CallEventRuns.
Local Open Scope Z_scope.
Import Effect Store Calls Examples Samples.

Lemma X14_invite_is_refused_or_announced_witness :
  handleCallInvite callEnv (callMsg 1 sessA "invite") 1 grpStart =
    Ok tt {| topic := topic grpStart; world := emptyWorld;
             log := [EvQueueOut sessA
                       (ErrPermissionDeniedReply (callMsg 1 sessA "invite") 0)] |}
  /\ handleCallInvite callEnv (callMsg 1 sessA "invite") 1 callStart =
       Ok tt {| topic := topic callRinging; world := emptyWorld;
                log := [EvInfoCallSubsOffline (Uid.UserId 1) 2 "invite" 7 None
                          "sidA" false] |}.
Proof.
  destruct (X14_invite_is_refused_or_announced callEnv) as [H1 H2].
  split.
  - apply (H1 (callMsg 1 sessA "invite") 1 grpStart); [reflexivity | discriminate].
  - apply (H2 (callMsg 1 sessA "invite") 1 callStart); reflexivity.
Defined.

Lemma X15_call_event_is_dropped_witness :
  handleCallEvent callEnv (callMsg 2 sessB "ringing") callStart = Ok tt callStart
  /\ handleCallEvent callEnv (callMsg 2 sessB "hold") callRinging = Ok tt callRinging.
Proof.
  destruct (X15_call_event_is_dropped callEnv) as (H1 & _ & _ & _ & H5).
  split.
  - apply (H1 (callMsg 2 sessB "ringing") callStart). reflexivity.
  - apply (H5 (callMsg 2 sessB "hold") (noteOf "hold") callRinging ringingCall);
      [reflexivity | reflexivity |].
    cbn. intros [H | [H | [H | [H | [H | [H | []]]]]]]; discriminate.
Defined.

Lemma X16_ringing_comes_from_the_callee_witness :
  handleCallEvent callEnv (callMsg 1 sessA "ringing") callRinging = Ok tt callRinging
  /\ handleCallEvent callEnv (callMsg 2 sessB "ringing") callRinging =
       Ok tt {| topic := topic callRinging; world := emptyWorld;
                log := [EvQueueOut sessA
                          (InfoMessage
                             {| info_Topic := Uid.P2PName 1 2;
                                info_From := Uid.UserId 2;
                                info_What := "call";
                                info_Event := "ringing";
                                info_SeqId := 7;
                                info_Payload := None |})] |}.
Proof.
  destruct (X16_ringing_comes_from_the_callee callEnv) as (_ & H2 & H3).
  split.
  - apply (H2 (callMsg 1 sessA "ringing") (noteOf "ringing") callRinging ringingCall
              sessA 1);
      [reflexivity | reflexivity | reflexivity | reflexivity | exact user1_of_topic
      | left; reflexivity | reflexivity | left; reflexivity].
  - apply (H3 (callMsg 2 sessB "ringing") (noteOf "ringing") callRinging ringingCall
              sessA 1);
      [reflexivity | reflexivity | reflexivity | reflexivity | exact user2_of_topic
      | reflexivity | reflexivity | reflexivity | exact user2_is_not_user1].
Defined.

Lemma X17_accept_establishes_the_call_witness :
  exists st' : state MemWorld,
    handleCallEvent callEnv (callMsg 2 sessB "accept") callRinging = Ok tt st' /\
    currentCall (topic st') =
      Some {| parties := [(sessA, {| uid := 1; isOriginator := true |});
                          (sessB, {| uid := Types.ParseUserId (Uid.UserId 2);
                                     isOriginator := false |})];
              seq := 7 |} /\
    callEstablishmentTimer (topic st') = TimerStopped.
Proof.
  eexists. split.
  - apply (X17_accept_establishes_the_call callEnv
             (callMsg 2 sessB "accept") (noteOf "accept") callRinging ringingCall
             sessA 1 None 8 emptyWorld);
      [reflexivity | reflexivity | reflexivity | reflexivity | exact user2_of_topic
      | reflexivity | reflexivity | reflexivity | exact user2_is_not_user1
      | reflexivity].
  - split; reflexivity.
Defined.

Lemma X18_metadata_reaches_the_other_party_witness :
  handleCallEvent callEnvRev (callMsg 1 sessA "offer") callEstablished =
    Ok tt {| topic := topic callEstablished; world := emptyWorld;
             log := [EvQueueOut sessB
                       (InfoMessage
                          {| info_Topic := Uid.P2PName 1 2;
                             info_From := Uid.UserId 1;
                             info_What := "call";
                             info_Event := "offer";
                             info_SeqId := 7;
                             info_Payload := None |})] |}
  /\ handleCallEvent callEnv (callMsg 2 sessB "answer") callEstablished =
       Ok tt {| topic := topic callEstablished; world := emptyWorld;
                log := [EvQueueOut sessA
                          (InfoMessage
                             {| info_Topic := Uid.P2PName 1 2;
                                info_From := Uid.UserId 2;
                                info_What := "call";
                                info_Event := "answer";
                                info_SeqId := 7;
                                info_Payload := None |})] |}.
Proof.
  split.
  - destruct (X18_metadata_reaches_the_other_party callEnvRev) as (_ & _ & Htwo & _).
    refine (Htwo (callMsg 1 sessA "offer") (noteOf "offer") callEstablished establishedCall
              sessA sessB {| uid := 1; isOriginator := true |}
              {| uid := 2; isOriginator := false |}
              eq_refl eq_refl eq_refl eq_refl user1_of_topic _ eq_refl eq_refl
              sessB {| uid := 2; isOriginator := false |} _).
    + left. reflexivity.
    + left. repeat split.
  - destruct (X18_metadata_reaches_the_other_party callEnv) as (_ & _ & Htwo & _).
    refine (Htwo (callMsg 2 sessB "answer") (noteOf "answer") callEstablished establishedCall
              sessA sessB {| uid := 1; isOriginator := true |}
              {| uid := 2; isOriginator := false |}
              eq_refl eq_refl eq_refl eq_refl user2_of_topic _ eq_refl eq_refl
              sessA {| uid := 1; isOriginator := true |} _).
    + right. left. reflexivity.
    + right. repeat split.
Defined.

Lemma X19_call_ends_finished_or_disconnected_witness :
  (exists order : list Uid.t,
      Permutation order (elements (perUser (topic callEstablished))) /\
      List.NoDup order /\
      (forall u : Uid.t, In u order <-> u ∈ perUser (topic callEstablished)) /\
      maybeEndCallInProgress callEnvRev (Uid.UserId 2) (callMsg 2 sessB "hang-up")
        callEstablished =
        Ok tt {| topic := setCurrentCall
                            (setLastID (setTimer (topic callEstablished) TimerStopped) 9)
                            None;
                 world := emptyWorld;
                 log := [EvSaveAndBroadcast
                           (withAsUser (callMsg 2 sessB "hang-up") (Uid.UserId 1)) 1
                           (messageHead establishedCall) "finished" None;
                         EvBroadcastToSessions
                           (InfoMessage (infoMessage establishedCall constCallEventHangUp))]
                        ++ map (fun tgt => EvInfoCallSubsOffline (Uid.UserId 2) tgt
                                             constCallEventHangUp 7 None "" true)
                               order |})
  /\ CallShape.endContent "" establishedCall = "disconnected"%string.
Proof.
  destruct (X19_call_ends_finished_or_disconnected callEnvRev) as (H1 & H2 & _).
  split.
  - apply (H1 (Uid.UserId 2) (callMsg 2 sessB "hang-up") callEstablished
              establishedCall None 9 emptyWorld); reflexivity.
  - apply (proj2 (H2 ""%string establishedCall)). left. reflexivity.
Defined.

Lemma X20_handlers_keep_the_call_well_formed_witness :
  CallShape.callInv
    (topic (stateOf (handleCallEvent callEnv (callMsg 2 sessB "accept") callRinging)
                    callRinging)).
Proof.
  destruct (X20_handlers_keep_the_call_well_formed callEnv) as (_ & H2 & _).
  apply (H2 (callMsg 2 sessB "accept") callRinging).
  - unfold CallShape.callInv, CallShape.wellFormed. cbn.
    split; [reflexivity | discriminate].
  - vm_compute. reflexivity.
Defined.
End CallEventRuns.


(** ** The validator [tel]: refusals and the debug response *)

Section TelMoreFacts.
Local Open Scope Z_scope.
Import Store Tel.
Context {W : Type}.
Variable Users : UsersMapper W.

Lemma Check_store_error (v : validator) (user : Uid.t) (resp : string) (w w1 : W)
      (cred : option Credential) (e : error) :
  GetActiveCred Users user validatorName w = ((cred, Some e), w1) ->
  Check Users v user resp w = ((""%string, Some e), w1).
Proof. intros Hget. unfold Check. now rewrite Hget. Qed.

Lemma Check_too_many_retries (v : validator) (user : Uid.t) (resp : string) (w w1 : W)
      (cred : Credential) :
  GetActiveCred Users user validatorName w = ((Some cred, None), w1) ->
  MaxRetries v < Retries cred ->
  Check Users v user resp w = ((""%string, Some (StoreErr ErrPolicy)), w1).
Proof.
  intros Hget Hr. unfold Check. rewrite Hget, Z.gtb_ltb.
  destruct (Z.ltb_spec (MaxRetries v) (Retries cred)); [reflexivity | lia].
Qed.

Lemma Check_empty_response (v : validator) (user : Uid.t) (w w1 : W)
      (cred : Credential) :
  GetActiveCred Users user validatorName w = ((Some cred, None), w1) ->
  Retries cred <= MaxRetries v ->
  Check Users v user "" w = ((""%string, Some (StoreErr ErrCredentials)), w1).
Proof.
  intros Hget Hr. unfold Check. rewrite Hget, Z.gtb_ltb.
  destruct (Z.ltb_spec (MaxRetries v) (Retries cred)); [lia | reflexivity].
Qed.

Lemma Check_wrong_response (v : validator) (user : Uid.t) (resp : string) (w w1 : W)
      (cred : Credential) :
  GetActiveCred Users user validatorName w = ((Some cred, None), w1) ->
  Retries cred <= MaxRetries v ->
  resp <> ""%string -> Resp cred <> resp -> DebugResponse v <> resp ->
  Check Users v user resp w =
    ((""%string, Some (StoreErr ErrCredentials)),
     snd (FailCred Users user validatorName w1)).
Proof.
  intros Hget Hr Hne Hresp Hdebug. unfold Check. rewrite Hget, Z.gtb_ltb.
  destruct (Z.ltb_spec (MaxRetries v) (Retries cred)); [lia |].
  destruct (String.eqb_spec resp ""); [contradiction |].
  destruct (String.eqb_spec (Resp cred) resp); [contradiction |].
  destruct (String.eqb_spec (DebugResponse v) resp); [contradiction |].
  cbn [orb]. now destruct (FailCred Users user validatorName w1).
Qed.

(** X21.  How [Check] of the validator [tel] refuses a response.  An
    error of the store is passed on.  A credential tried more often than
    [MaxRetries] is refused with [ErrPolicy] and an empty response with
    [ErrCredentials], the store not written in either case; a wrong
    response is counted with [FailCred] and refused with
    [ErrCredentials].  No refusal returns a value.  [Init] ignores its
    configuration: it allows a thousand retries and sets the debug
    response [123456], which from then on confirms any active credential,
    whatever response was stored for it. *)
Theorem X21_tel_Check_refusals :
  (forall (v : validator) (user : Uid.t) (resp : string) (w w1 : W)
          (cred : option Credential) (e : error),
      GetActiveCred Users user validatorName w = ((cred, Some e), w1) ->
      Check Users v user resp w = ((""%string, Some e), w1))
  /\ (forall (v : validator) (user : Uid.t) (resp : string) (w w1 : W)
             (cred : Credential),
         GetActiveCred Users user validatorName w = ((Some cred, None), w1) ->
         MaxRetries v < Retries cred ->
         Check Users v user resp w = ((""%string, Some (StoreErr ErrPolicy)), w1))
  /\ (forall (v : validator) (user : Uid.t) (w w1 : W) (cred : Credential),
         GetActiveCred Users user validatorName w = ((Some cred, None), w1) ->
         Retries cred <= MaxRetries v ->
         Check Users v user "" w = ((""%string, Some (StoreErr ErrCredentials)), w1))
  /\ (forall (v : validator) (user : Uid.t) (resp : string) (w w1 : W)
             (cred : Credential),
         GetActiveCred Users user validatorName w = ((Some cred, None), w1) ->
         Retries cred <= MaxRetries v ->
         resp <> ""%string -> Resp cred <> resp -> DebugResponse v <> resp ->
         Check Users v user resp w =
           ((""%string, Some (StoreErr ErrCredentials)),
            snd (FailCred Users user validatorName w1)))
  /\ (forall (v : validator) (conf : string),
         Init v conf = ({| DebugResponse := "123456"; MaxRetries := 1000 |}, None))
  /\ (forall (v : validator) (conf : string) (user : Uid.t) (w w1 : W)
             (cred : Credential),
         GetActiveCred Users user validatorName w = ((Some cred, None), w1) ->
         Retries cred <= 1000 ->
         Check Users (fst (Init v conf)) user "123456" w =
           ((Value cred, fst (ConfirmCred Users user validatorName w1)),
            snd (ConfirmCred Users user validatorName w1))).
Proof.
  split; [exact Check_store_error |].
  split; [exact Check_too_many_retries |].
  split; [exact Check_empty_response |].
  split; [exact Check_wrong_response |].
  split; [reflexivity |].
  intros v conf user w w1 cred Hget Hr.
  apply (Check_confirms Users _ user "123456" w w1 cred Hget);
    [exact Hr | discriminate | right; reflexivity].
Qed.
End TelMoreFacts.

Section TelRuns.
Local Open Scope Z_scope.
Import Store Tel Examples.

Lemma X21_tel_Check_refusals_witness :
  (let w := withCreds emptyWorld (Some telCred) [] in
   Check memUsers telConf 1 "000000" w =
     ((""%string, Some (StoreErr ErrCredentials)),
      withCreds emptyWorld
        (Some {| Method := "tel"; Value := "+15550100"; Resp := "424242";
                 Retries := 1; Done := false |}) []))
  /\ (let w := withCreds emptyWorld (Some telCred) [] in
      Check memUsers (fst (Init telConf "{}")) 1 "123456" w =
        (("+15550100"%string, None), withCreds emptyWorld None [telCred])).
Proof.
  destruct (X21_tel_Check_refusals memUsers) as (_ & _ & _ & H4 & _ & H6).
  split.
  - cbv zeta.
    apply (H4 telConf 1 "000000"%string
              (withCreds emptyWorld (Some telCred) [])
              (withCreds emptyWorld (Some telCred) []) telCred);
      [reflexivity | cbn; lia | discriminate | discriminate | discriminate].
  - cbv zeta.
    apply (H6 telConf "{}"%string 1
              (withCreds emptyWorld (Some telCred) [])
              (withCreds emptyWorld (Some telCred) []) telCred);
      [reflexivity | cbn; lia].
Defined.
End TelRuns.


(** ** The users cache: registrations and pushes *)

Section CacheOpsFacts.
Local Open Scope Z_scope.
Import Effect Store UserCache CacheOps.
Context {W : Type}.
Variable Users : UsersMapper W.

Lemma listed_nonneg (l : list Uid.t) (uid : Uid.t) : 0 <= listed l uid.
Proof. unfold listed. lia. Qed.

Lemma listed_cons_eq (l : list Uid.t) (uid : Uid.t) :
  listed (uid :: l) uid = 1 + listed l uid.
Proof.
  unfold listed, Uid.t in *. rewrite count_occ_cons_eq by reflexivity. lia.
Qed.

Lemma listed_cons_ne (l : list Uid.t) (a uid : Uid.t) :
  a <> uid -> listed (a :: l) uid = listed l uid.
Proof.
  intros H. unfold listed, Uid.t in *. now rewrite count_occ_cons_neq.
Qed.

Lemma listed_le_length (l : list Uid.t) (uid : Uid.t) :
  listed l uid <= Z.of_nat (length l).
Proof.
  unfold listed, Uid.t in *. pose proof (count_occ_bound Z.eq_dec uid l). lia.
Qed.

Lemma registered_step (k : Z) (e : option UserCacheEntry) :
  0 <= k -> registered k (registered 1 e) = registered (1 + k) e.
Proof.
  intros Hk. unfold registered.
  destruct (Z.eqb_spec k 0) as [-> | Hk0]; cbn [Z.eqb].
  - destruct e; reflexivity.
  - destruct (Z.eqb_spec (1 + k) 0); [lia |].
    destruct e as [uce |]; cbn; f_equal; f_equal; lia.
Qed.

Lemma unregistered_step_many (k : Z) (uce : UserCacheEntry) :
  0 <= k -> 1 < topics uce ->
  unregistered k (Some (setTopics uce (topics uce - 1))) =
    unregistered (1 + k) (Some uce).
Proof.
  intros Hk Ht. unfold unregistered.
  destruct (Z.eqb_spec (1 + k) 0); [lia |].
  destruct (Z.eqb_spec k 0) as [-> | Hk0].
  - rewrite Z.gtb_ltb. destruct (Z.ltb_spec (1 + 0) (topics uce)); [| lia].
    cbn; f_equal; f_equal; lia.
  - cbn [topics setTopics]. rewrite !Z.gtb_ltb.
    destruct (Z.ltb_spec k (topics uce - 1)), (Z.ltb_spec (1 + k) (topics uce));
      try lia; [| reflexivity].
    cbn; f_equal; f_equal; lia.
Qed.

Lemma unregistered_step_last (uce : UserCacheEntry) :
  topics uce <= 1 -> unregistered 1 (Some uce) = None.
Proof.
  intros Ht. unfold unregistered. cbn [Z.eqb]. rewrite Z.gtb_ltb.
  destruct (Z.ltb_spec 1 (topics uce)); [lia | reflexivity].
Qed.

(** Registering the users of a list adds, for every user, as many
    topics as the list names it. *)
Lemma registerLoop_add (l : list Uid.t) :
  forall st : state W,
    cacheInv (usersCache st) ->
    topicsBelow (usersCache st) (Z.of_nat (length l)) ->
    exists st' : state W,
      registerLoop true l st = Ok tt st' /\
      world st' = world st /\ pushed st' = pushed st /\
      forall uid : Uid.t,
        usersCache st' !! uid = registered (listed l uid) (usersCache st !! uid).
Proof.
  induction l as [| a l IH]; intros st Hinv Hb.
  - exists st. repeat split; reflexivity.
  - cbn [registerLoop]. unfold mbind, M_bind, bind.
    cbn [length] in Hb. rewrite Nat2Z.inj_succ in Hb.
    replace (Z.succ (Z.of_nat (length l))) with (Z.of_nat (length l) + 1) in Hb by lia.
    assert (Hone : exists st1 : state W,
               registerUser true a st = Ok tt st1 /\
               world st1 = world st /\ pushed st1 = pushed st /\
               usersCache st1 = <[a := match registered 1 (usersCache st !! a) with
                                       | Some uce => uce
                                       | None => {| unread := 0; topics := 0 |}
                                       end]> (usersCache st) /\
               is_Some (registered 1 (usersCache st !! a))).
    { destruct (usersCache st !! a) as [uce |] eqn:Ha.
      - rewrite (registerUser_add_known st a uce Ha).
        pose proof (topicsBelow_entry _ _ _ _ Hb Ha) as Hle.
        assert (Hpos : 0 < topics uce) by (rewrite cacheInv_entries in Hinv; eauto).
        rewrite add_no_overflow
          by (unfold GoInt.int_range, GoInt.min_int, GoInt.max_int in *; lia).
        eexists. repeat split; cbn; eauto.
      - rewrite (registerUser_add_new st a Ha).
        eexists. repeat split; cbn; eauto. }
    destruct Hone as (st1 & Hrun1 & Hw1 & Hp1 & Hc1 & [uce1 Hreg1]).
    rewrite Hrun1.
    destruct (registerUser_keeps st st1 true a (Z.of_nat (length l)) Hrun1
                ltac:(lia) Hinv Hb) as (Hinv1 & Hb1 & _).
    destruct (IH st1 Hinv1 Hb1) as (st' & Hrun & Hw & Hp & Hc).
    exists st'. split; [exact Hrun |].
    split; [congruence |]. split; [congruence |].
    intros uid. rewrite Hc, Hc1, Hreg1.
    destruct (decide (a = uid)) as [-> | Hne].
    + rewrite lookup_insert_eq, <- Hreg1, listed_cons_eq.
      apply registered_step, listed_nonneg.
    + now rewrite lookup_insert_ne, listed_cons_ne by assumption.
Qed.

(** Removing the users of a list takes, from every user, as many topics
    as the list names it, and the entry with the last one. *)
Lemma registerLoop_remove (l : list Uid.t) :
  forall st : state W,
    topicsBelow (usersCache st) 0 ->
    (forall uid : Uid.t,
        0 < listed l uid ->
        exists uce : UserCacheEntry,
          usersCache st !! uid = Some uce /\ listed l uid <= topics uce) ->
    exists st' : state W,
      registerLoop false l st = Ok tt st' /\
      world st' = world st /\ pushed st' = pushed st /\
      forall uid : Uid.t,
        usersCache st' !! uid = unregistered (listed l uid) (usersCache st !! uid).
Proof.
  induction l as [| a l IH]; intros st Hb Hall.
  - exists st. repeat split; reflexivity.
  - cbn [registerLoop]. unfold mbind, M_bind, bind.
    destruct (Hall a) as (uce & Ha & Hcount).
    { rewrite listed_cons_eq. pose proof (listed_nonneg l a). lia. }
    rewrite listed_cons_eq in Hcount. pose proof (listed_nonneg l a) as Hnn.
    pose proof (topicsBelow_entry _ _ _ _ Hb Ha) as Hle.
    destruct (Z.lt_ge_cases 1 (topics uce)) as [Hmany | Hlast].
    + rewrite (registerUser_remove_many st a uce Ha Hmany).
      rewrite sub_no_overflow
        by (unfold GoInt.int_range, GoInt.min_int, GoInt.max_int in *; lia).
      set (st1 := setCache (<[a := setTopics uce (topics uce - 1)]> (usersCache st)) st).
      destruct (IH st1) as (st' & Hrun & Hw & Hp & Hc).
      * apply topicsBelow_insert; [exact Hb | cbn; lia].
      * intros uid Hpos. cbn [st1 usersCache setCache].
        destruct (decide (a = uid)) as [<- | Hne].
        -- rewrite lookup_insert_eq. eexists. split; [reflexivity |]. cbn. lia.
        -- rewrite lookup_insert_ne by assumption.
           specialize (Hall uid). rewrite listed_cons_ne in Hall by assumption.
           now apply Hall.
      * exists st'. split; [exact Hrun |]. split; [exact Hw |]. split; [exact Hp |].
        intros uid. rewrite Hc. cbn [st1 usersCache setCache].
        destruct (decide (a = uid)) as [<- | Hne].
        -- rewrite lookup_insert_eq, Ha, listed_cons_eq.
           now apply unregistered_step_many.
        -- now rewrite lookup_insert_ne, listed_cons_ne by assumption.
    + rewrite (registerUser_remove_last st a uce Ha) by lia.
      set (st1 := setCache (delete a (usersCache st)) st).
      assert (Hzero : listed l a = 0) by lia.
      destruct (IH st1) as (st' & Hrun & Hw & Hp & Hc).
      * now apply topicsBelow_delete.
      * intros uid Hpos. cbn [st1 usersCache setCache].
        destruct (decide (a = uid)) as [<- | Hne]; [lia |].
        rewrite lookup_delete_ne by assumption.
        specialize (Hall uid). rewrite listed_cons_ne in Hall by assumption.
        now apply Hall.
      * exists st'. split; [exact Hrun |]. split; [exact Hw |]. split; [exact Hp |].
        intros uid. rewrite Hc. cbn [st1 usersCache setCache].
        destruct (decide (a = uid)) as [<- | Hne].
        -- rewrite lookup_delete_eq, Ha, listed_cons_eq, Hzero.
           cbn [unregistered Z.eqb Z.add]. symmetry.
           now apply unregistered_step_last.
        -- now rewrite lookup_delete_ne, listed_cons_ne by assumption.
Qed.

Lemma unregistered_registered (k : Z) (e : option UserCacheEntry) :
  0 <= k ->
  (forall uce : UserCacheEntry, e = Some uce -> 0 < topics uce) ->
  unregistered k (registered k e) = e.
Proof.
  intros Hk Hpos. unfold unregistered, registered.
  destruct (Z.eqb_spec k 0); [reflexivity |].
  destruct e as [uce |]; cbn [topics setTopics]; rewrite Z.gtb_ltb.
  - specialize (Hpos uce eq_refl).
    destruct (Z.ltb_spec k (topics uce + k)); [| lia].
    destruct uce as [u t]. cbn; f_equal; f_equal; lia.
  - destruct (Z.ltb_spec k k); [lia | reflexivity].
Qed.

Lemma listed_Permutation (l1 l2 : list Uid.t) (uid : Uid.t) :
  Permutation l1 l2 -> listed l1 uid = listed l2 uid.
Proof.
  intros Hp. unfold listed, Uid.t in *. f_equal.
  induction Hp as [| x l l' _ IH | x y l | l l' l'' _ IH1 _ IH2].
  - reflexivity.
  - destruct (Z.eq_dec x uid) as [-> | Hne].
    + now rewrite !count_occ_cons_eq, IH.
    + now rewrite !count_occ_cons_neq.
  - destruct (Z.eq_dec x uid) as [Hx | Hx], (Z.eq_dec y uid) as [Hy | Hy];
      rewrite ?(count_occ_cons_eq _ _ Hx), ?(count_occ_cons_neq _ _ Hx),
        ?(count_occ_cons_eq _ _ Hy), ?(count_occ_cons_neq _ _ Hy),
        ?(count_occ_cons_eq _ _ Hx), ?(count_occ_cons_neq _ _ Hx); reflexivity.
  - congruence.
Qed.

Lemma state_eq (st st' : state W) :
  usersCache st' = usersCache st -> world st' = world st -> pushed st' = pushed st ->
  st' = st.
Proof. destruct st, st'. cbn. now intros -> -> ->. Qed.

(** Registering the users of a topic and removing them again, in
    whatever order the two updates list them, restores the cache. *)
Lemma register_then_remove (l1 l2 : list Uid.t) (st : state W) :
  cacheInv (usersCache st) ->
  topicsBelow (usersCache st) (Z.of_nat (length l1)) ->
  Permutation l1 l2 ->
  exists st1 : state W,
    registerLoop true l1 st = Ok tt st1 /\
    (forall uid : Uid.t, In uid l1 -> is_Some (usersCache st1 !! uid)) /\
    registerLoop false l2 st1 = Ok tt st.
Proof.
  intros Hinv Hb Hperm.
  destruct (registerLoop_add l1 st Hinv Hb) as (st1 & Hrun1 & Hw1 & Hp1 & Hc1).
  destruct (registerLoop_keeps true l1 0 ltac:(lia) st st1 Hrun1 Hinv)
    as (Hinv1 & Hb1 & _).
  { now rewrite Z.add_0_r. }
  assert (Hin : forall uid : Uid.t,
             0 < listed l1 uid ->
             exists uce : UserCacheEntry,
               usersCache st1 !! uid = Some uce /\ listed l1 uid <= topics uce).
  { intros uid Hpos. rewrite Hc1. unfold registered.
    destruct (Z.eqb_spec (listed l1 uid) 0); [lia |].
    destruct (usersCache st !! uid) as [uce |] eqn:Hu.
    - assert (0 < topics uce) by (rewrite cacheInv_entries in Hinv; eauto).
      eexists. split; [reflexivity |]. cbn. lia.
    - eexists. split; [reflexivity |]. cbn. lia. }
  destruct (registerLoop_remove l2 st1 Hb1) as (st2 & Hrun2 & Hw2 & Hp2 & Hc2).
  { intros uid Hpos. rewrite <- (listed_Permutation l1 l2 uid Hperm) in *.
    now apply Hin. }
  exists st1. split; [exact Hrun1 |]. split.
  - intros uid Hl. destruct (Hin uid) as (uce & Hu & _); [| eauto].
    unfold listed, Uid.t in *. apply (count_occ_In Z.eq_dec) in Hl. lia.
  - rewrite Hrun2. f_equal. apply state_eq; [| congruence | congruence].
    apply map_eq. intros uid.
    rewrite Hc2, Hc1, <- (listed_Permutation l1 l2 uid Hperm).
    apply unregistered_registered; [apply listed_nonneg |].
    intros uce Hu. rewrite cacheInv_entries in Hinv. eauto.
Qed.

(** X22.  A topic that comes and goes leaves the cache as it was.  When
    the updater has processed the update that registers the users of a
    topic, every one of them has an entry; when it has also processed the
    update that takes them off, the two updates listing the users in any
    order, the cache is what it was before, the entries made for the topic
    gone and the counts of the others back (as long as no count of topics
    is about to pass the largest [int]). *)
Theorem X22_register_then_unregister_restores_cache :
  forall (l1 l2 : list Uid.t) (st : state W),
    cacheInv (usersCache st) ->
    topicsBelow (usersCache st) (Z.of_nat (length l1)) ->
    l1 <> [] -> Permutation l1 l2 ->
    (exists st1 : state W,
        userUpdater Users [Some (membership l1 true)] st = Ok tt st1 /\
        forall uid : Uid.t, In uid l1 -> is_Some (usersCache st1 !! uid))
    /\ userUpdater Users [Some (membership l1 true); Some (membership l2 false)] st
       = Ok tt st.
Proof.
  intros l1 l2 st Hinv Hb Hne Hperm.
  destruct (register_then_remove l1 l2 st Hinv Hb Hperm) as (st1 & Hrun1 & Hin & Hrun2).
  assert (Hl1 : (0 <? length l1)%nat = true).
  { destruct l1; [contradiction | reflexivity]. }
  assert (Hl2 : (0 <? length l2)%nat = true).
  { destruct l2; [| reflexivity].
    apply Permutation_sym, Permutation_nil in Hperm. contradiction. }
  split.
  - exists st1. split; [| exact Hin].
    cbn [userUpdater handleUpdate membership upd_pushRcpt upd_uidList upd_inc].
    rewrite Hl1. unfold mbind, M_bind, bind. now rewrite Hrun1.
  - cbn [userUpdater handleUpdate membership upd_pushRcpt upd_uidList upd_inc].
    rewrite Hl1, Hl2. unfold mbind, M_bind, bind. rewrite Hrun1.
    unfold mret, M_ret, ret. cbv beta iota. now rewrite Hrun2.
Qed.

Lemma unreadOf_Some (c : gmap Z UserCacheEntry) (uid : Uid.t) (uce : UserCacheEntry) :
  c !! uid = Some uce -> unreadOf c uid = unread uce.
Proof. intros H. unfold unreadOf. now rewrite (lookupEntry_Some _ _ _ H). Qed.

(** A push to users whose counts are loaded: each of them is told its
    count with the new message, and the cache counts it. *)
Lemma pushLoop_loaded (to : list (Uid.t * Recipient)) :
  forall st : state W,
    List.NoDup (map fst to) ->
    (forall x : Uid.t * Recipient, In x to -> loaded (usersCache st) (fst x)) ->
    exists st' : state W,
      pushLoop Users to st = Ok (map (told (usersCache st)) to) st' /\
      world st' = world st /\ pushed st' = pushed st /\
      (forall x : Uid.t * Recipient,
          In x to ->
          unreadOf (usersCache st') (fst x) = unreadOf (usersCache st) (fst x) + 1) /\
      (forall uid : Uid.t,
          ~ In uid (map fst to) -> usersCache st' !! uid = usersCache st !! uid).
Proof.
  induction to as [| [a r] to IH]; intros st Hnd Hall.
  - exists st. repeat split; try reflexivity. intros x [].
  - cbn [map fst] in Hnd. inversion Hnd as [| ? ? Hnotin Hnd']; subst.
    destruct (Hall (a, r) (in_eq _ _)) as (uce & Ha & Hlo & Hhi). cbn [fst] in Ha.
    cbn [pushLoop]. unfold mbind, M_bind, bind at 1.
    rewrite (unreadUpdater_loaded Users st a 1 true uce Ha Hlo). cbv zeta.
    rewrite add_no_overflow
      by (unfold GoInt.int_range, GoInt.min_int, GoInt.max_int in *; lia).
    set (st1 := setCache (<[a := setUnread uce (unread uce + 1)]> (usersCache st)) st).
    assert (Hother : forall uid : Uid.t,
               uid <> a -> usersCache st1 !! uid = usersCache st !! uid).
    { intros uid Hne. cbn [st1 usersCache setCache].
      now rewrite lookup_insert_ne by congruence. }
    assert (Hrest : forall x : Uid.t * Recipient, In x to -> fst x <> a).
    { intros x Hx Heq. apply Hnotin. rewrite <- Heq. now apply in_map. }
    destruct (IH st1 Hnd') as (st' & Hrun & Hw & Hp & Hin & Hout).
    { intros x Hx. destruct (Hall x (in_cons _ _ _ Hx)) as (ux & Hux & Hbx).
      exists ux. split; [| exact Hbx]. rewrite Hother by auto. exact Hux. }
    unfold mbind, M_bind, bind. rewrite Hrun.
    destruct (Z.geb_spec (unread uce + 1) 0) as [_ | Hneg]; [| lia].
    exists st'. split; [| split; [exact Hw | split; [exact Hp | split]]].
    + unfold mret, M_ret, ret. f_equal. cbn [map]. f_equal.
      * unfold told. cbn [fst snd]. now rewrite (unreadOf_Some _ _ _ Ha).
      * apply map_ext_in. intros x Hx. unfold told, unreadOf.
        unfold lookupEntry. now rewrite Hother by auto.
    + intros x [<- | Hx].
      * cbn [fst]. rewrite (unreadOf_Some _ _ _ Ha).
        unfold unreadOf, lookupEntry. rewrite (Hout a Hnotin).
        cbn [st1 usersCache setCache]. now rewrite lookup_insert_eq.
      * rewrite (Hin x Hx). unfold unreadOf, lookupEntry.
        now rewrite Hother by auto.
    + intros uid Hnot. cbn [map fst In] in Hnot.
      rewrite Hout by tauto. apply Hother. intros ->. tauto.
Qed.

Lemma unreadUpdater_cached (st : state W) (uid : Uid.t) (val : Z) (inc : bool)
      (uce : UserCacheEntry) :
  usersCache st !! uid = Some uce ->
  exists (r : Z) (st' : state W),
    unreadUpdater Users uid val inc st = Ok r st' /\
    forall other : Uid.t,
      usersCache st !! other = None -> usersCache st' !! other = None.
Proof.
  intros Hu. destruct (Z.lt_ge_cases (unread uce) 0) as [Hneg | Hge].
  - rewrite (unreadUpdater_not_loaded Users st uid val inc uce Hu Hneg).
    destruct (GetUnreadCount Users uid (world st)) as [[count err] w].
    destruct err; eexists _, _; (split; [reflexivity |]); intros other Ho; cbn;
      [exact Ho |].
    rewrite lookup_insert_ne; [exact Ho | congruence].
  - rewrite (unreadUpdater_loaded Users st uid val inc uce Hu Hge). cbv zeta.
    eexists _, _. split; [reflexivity |]. intros other Ho. cbn.
    rewrite lookup_insert_ne; [exact Ho | congruence].
Qed.

(** A push that names a user without an entry panics. *)
Lemma pushLoop_uncached (to : list (Uid.t * Recipient)) :
  forall st : state W,
    (exists x : Uid.t * Recipient, In x to /\ usersCache st !! fst x = None) ->
    pushLoop Users to st =
      Panic "attempt to update unread count for user who has not been loaded".
Proof.
  induction to as [| [a r] to IH]; intros st (x & Hx & Hnone); [destruct Hx |].
  cbn [pushLoop]. unfold mbind, M_bind, bind at 1.
  destruct (usersCache st !! a) as [uce |] eqn:Ha.
  - destruct (unreadUpdater_cached st a 1 true uce Ha) as (v & st1 & -> & Hkeep).
    destruct Hx as [<- | Hx]; [cbn [fst] in Hnone; congruence |].
    unfold mbind, M_bind, bind. rewrite IH; [reflexivity |].
    exists x. split; [exact Hx | now apply Hkeep].
  - now rewrite (unreadUpdater_uncached Users st a 1 true Ha).
Qed.

(** X23.  A push notification counts one more unread message.  For a
    receipt whose recipients have their counts loaded, the updater adds
    one to the count of every recipient, writes the new count into the
    receipt and hands the receipt to [push.Push], once; the store is not
    asked and no other entry of the cache changes.  A receipt that names a
    user without an entry in the cache makes the updater panic. *)
Theorem X23_push_counts_one_more_unread :
  (forall (rcpt : Receipt) (st : state W),
      List.NoDup (map fst (To rcpt)) ->
      (forall x : Uid.t * Recipient,
          In x (To rcpt) -> loaded (usersCache st) (fst x)) ->
      exists st' : state W,
        handleUpdate Users (Some (pushOf rcpt)) st = Ok true st' /\
        world st' = world st /\
        pushed st' = pushed st ++ [{| To := map (told (usersCache st)) (To rcpt);
                                      Payload := Payload rcpt |}] /\
        (forall x : Uid.t * Recipient,
            In x (To rcpt) ->
            unreadOf (usersCache st') (fst x) = unreadOf (usersCache st) (fst x) + 1) /\
        (forall uid : Uid.t,
            ~ In uid (map fst (To rcpt)) ->
            usersCache st' !! uid = usersCache st !! uid))
  /\ (forall (rcpt : Receipt) (st : state W),
         (exists x : Uid.t * Recipient,
             In x (To rcpt) /\ usersCache st !! fst x = None) ->
         handleUpdate Users (Some (pushOf rcpt)) st =
           Panic "attempt to update unread count for user who has not been loaded").
Proof.
  split.
  - intros rcpt st Hnd Hall.
    destruct (pushLoop_loaded (To rcpt) st Hnd Hall) as (st' & Hrun & Hw & Hp & Hin & Hout).
    exists (addPushed {| To := map (told (usersCache st)) (To rcpt);
                         Payload := Payload rcpt |} st').
    cbn [handleUpdate pushOf upd_pushRcpt]. unfold mbind, M_bind, bind. rewrite Hrun.
    split; [reflexivity |]. cbn. rewrite Hp. auto.
  - intros rcpt st Hex.
    cbn [handleUpdate pushOf upd_pushRcpt]. unfold mbind, M_bind, bind.
    now rewrite (pushLoop_uncached (To rcpt) st Hex).
Qed.
End CacheOpsFacts.

Section CacheOpsRuns.
Local Open Scope Z_scope.
Import Effect Store UserCache CacheOps Examples.

Lemma X22_register_then_unregister_restores_cache_witness :
  userUpdater memUsers [Some (membership [1; 2] true); Some (membership [2; 1] false)]
    cacheStart = Ok tt cacheStart.
Proof.
  apply (X22_register_then_unregister_restores_cache memUsers [1; 2] [2; 1] cacheStart).
  - exact cacheStart_inv.
  - apply cacheStart_below. simpl. unfold GoInt.max_int. lia.
  - discriminate.
  - apply perm_swap.
Defined.

Lemma X23_push_counts_one_more_unread_witness :
  exists st' : state MemWorld,
    handleUpdate memUsers (Some (pushOf Samples.receipt12)) Samples.cacheLoaded
      = Ok true st' /\
    world st' = world Samples.cacheLoaded /\
    pushed st' =
      [{| To := [(1, {| Delivered := 0; Devices := []; Unread := 4 |});
                 (2, {| Delivered := 0; Devices := []; Unread := 1 |})];
          Payload := "hello" |}].
Proof.
  destruct (proj1 (X23_push_counts_one_more_unread memUsers)
              Samples.receipt12 Samples.cacheLoaded)
    as (st' & Hrun & Hw & Hp & _).
  - repeat constructor; cbn; intuition discriminate.
  - intros x [<- | [<- | []]]; eexists; (split; [reflexivity |]);
      cbn; unfold GoInt.max_int; lia.
  - exists st'. split; [exact Hrun |]. split; [exact Hw |]. exact Hp.
Defined.
End CacheOpsRuns.


(** ** Account creation: the reply, the first write, the access and the
       credentials *)

Section AccountLogFacts.
Local Open Scope Z_scope.
Import Effect Store Server AccountLog.
Context {W : Type}.
Variable env : Env W.

Lemma replies_app (l1 l2 : list Event) : replies (l1 ++ l2) = replies l1 ++ replies l2.
Proof. unfold replies. apply flat_map_app. Qed.

Lemma replies_credEvents (evs : list Event) :
  forallb credEvent evs = true -> replies evs = [].
Proof.
  induction evs as [| e evs IH]; [reflexivity |].
  cbn [forallb]. intros [He Hevs]%andb_prop.
  cbn [replies flat_map]. fold (replies evs). rewrite (IH Hevs).
  now destruct e.
Qed.

Lemma created_app (l1 l2 : list Event) : created (l1 ++ l2) = created l1 ++ created l2.
Proof. unfold created. apply flat_map_app. Qed.

Lemma created_credEvents (evs : list Event) :
  forallb credEvent evs = true -> created evs = [].
Proof.
  induction evs as [| e evs IH]; [reflexivity |].
  cbn [forallb]. intros [He Hevs]%andb_prop.
  cbn [created flat_map]. fold (created evs). rewrite (IH Hevs).
  now destruct e.
Qed.

(** Once the user is persisted, [replyCreateUser] sends one reply and
    creates no other user. *)
Lemma createUserPersisted_one_reply (s : Session) (msg : ClientComMessage)
      (authhdl : auth.AuthHandler W) (user : User) (private : option Blob)
      (creds : list MsgCredClient) (st st' : state W) :
  createUserPersisted env s msg authhdl user private creds st = Ok tt st' ->
  exists (evs : list Event) (m : ServerComMessage),
    log st' = log st ++ evs /\ replies evs = [(s_sid s, m)] /\ created evs = [].
Proof.
  intros H. unfold createUserPersisted in H.
  apply bind_Ok in H as (r & st1 & Hadd & H).
  apply bind_Ok in H as (u & st2 & Hev & H).
  apply call_Ok in Hadd as [_ Hl1]. apply emit_Ok in Hev as [_ Hl2].
  rewrite Hl1 in Hl2. clear Hl1 st1 u.
  destruct r as [rec aerr]. cbn [fst snd] in *.
  destruct aerr as [aerr |].
  { apply bind_Ok in H as (derr & st3 & Hdel & H).
    apply UsersDelete_Ok in Hdel as [_ Hl3].
    unfold queueOut in H. apply emit_Ok in H as [_ Hl4].
    eexists _, _. split; [| split].
    - rewrite Hl4, Hl3, Hl2, <- !app_assoc. reflexivity.
    - reflexivity.
    - reflexivity. }
  destruct rec as [rec |]; [| discriminate].
  destruct (length creds <? length (authValidators env (auth.AuthLevel rec)))%nat.
  { apply bind_Ok in H as (derr & st3 & Hdel & H).
    apply UsersDelete_Ok in Hdel as [_ Hl3].
    destruct (stringSliceDelta env _ _) as [extra missing].
    unfold queueOut in H. apply emit_Ok in H as [_ Hl4].
    eexists _, _. split; [| split].
    - rewrite Hl4, Hl3, Hl2, <- !app_assoc. reflexivity.
    - reflexivity.
    - reflexivity. }
  destruct (GetLogicalAuthHandler env "token") as [tokenhdl |]; [| discriminate].
  apply bind_Ok in H as (tok & st3 & Htok & H).
  apply call_Ok in Htok as [_ Hl3].
  apply bind_Ok in H as (v & st4 & Hcreds & H).
  destruct (addCreds_log env _ _ _ _ _ _ _ _ Hcreds) as (cevs & Hl4 & Hce & _).
  pose proof (replies_credEvents cevs Hce) as Hnone.
  pose proof (created_credEvents cevs Hce) as Hnew.
  destruct v as [validated cerr]. cbn [fst snd] in *.
  destruct cerr as [cerr |].
  { apply bind_Ok in H as (derr & st5 & Hdel & H).
    apply UsersDelete_Ok in Hdel as [_ Hl5].
    unfold queueOut in H. apply emit_Ok in H as [_ Hl6].
    exists ([EvAddRecord {| auth.Uid := User_Uid user; auth.AuthLevel := auth.LevelNone;
                            auth.Lifetime := 0; auth.Features := 0;
                            auth.Tags := Tags user |}
                         (acc_Secret (msg_Acc msg)) None] ++ cevs
            ++ [EvUsersDelete (User_Uid user) false derr;
                EvQueueOut (s_sid s)
                  (decodeStoreError env (Some cerr) (msg_id msg) "" (msg_timestamp msg)
                                    None)]),
           (decodeStoreError env (Some cerr) (msg_id msg) "" (msg_timestamp msg) None).
    split; [| split].
    - rewrite Hl6, Hl5, Hl4, Hl3, Hl2, <- !app_assoc. reflexivity.
    - rewrite !replies_app, Hnone. reflexivity.
    - rewrite !created_app, Hnew. reflexivity. }
  apply bind_Ok in H as (reply & st5 & Hreply & H).
  apply bind_Ok in H as (reply' & st6 & Hdesc & H).
  apply addParam_Ok in Hdesc as ->.
  apply bind_Ok in H as (u & st7 & Hq & H).
  unfold queueOut in Hq. apply emit_Ok in Hq as [_ Hl7].
  apply emit_Ok in H as [_ Hl8].
  assert (Hl5 : exists levs, log st5 = log st4 ++ levs /\ replies levs = []
                             /\ created levs = []).
  { destruct (acc_Login (msg_Acc msg)).
    - destruct (stringSliceDelta env _ _) as [extra missing].
      apply bind_Ok in Hreply as (u' & stl & Hev & Hlogin).
      apply emit_Ok in Hev as [_ Hle]. apply call_Ok in Hlogin as [_ Hll].
      eexists. rewrite Hll, Hle. repeat split; reflexivity.
    - apply setParams_Ok in Hreply as ->. exists []. now rewrite app_nil_r. }
  destruct Hl5 as (levs & Hl5 & Hlnone & Hlnew).
  exists ([EvAddRecord {| auth.Uid := User_Uid user; auth.AuthLevel := auth.LevelNone;
                          auth.Lifetime := 0; auth.Features := 0;
                          auth.Tags := Tags user |}
                       (acc_Secret (msg_Acc msg)) None] ++ cevs ++ levs
          ++ [EvQueueOut (s_sid s) reply'; EvPluginAccount user plgActCreate]), reply'.
  split; [| split].
  - rewrite Hl8, Hl7, Hl5, Hl4, Hl3, Hl2, <- !app_assoc. reflexivity.
  - rewrite !replies_app, Hnone, Hlnone. reflexivity.
  - rewrite !created_app, Hnew, Hlnew. reflexivity.
Qed.

(** X24.  Every request for a new account is answered once, and no
    request creates more than one user.  A run of [replyCreateUser] that
    returns has queued one message, to the session of the request.  A
    request that is refused before anything is written, for a login while
    authenticated, an unknown scheme, a secret in use, restricted tags or
    a credential that fails its pre-check, leaves that reply and nothing
    else, so [Users.Create] has not been called; in every other run
    [Users.Create] has been called once, and the reply comes after it. *)
Theorem X24_create_user_replies_once :
  forall (s : Session) (msg : ClientComMessage) (rec : option auth.Rec)
         (st st' : state W),
    replyCreateUser env s msg rec st = Ok tt st' ->
    exists (evs : list Event) (m : ServerComMessage),
      log st' = log st ++ evs /\
      replies evs = [(s_sid s, m)] /\
      ((evs = [EvQueueOut (s_sid s) m] /\ created evs = []) \/
       (exists (user : User) (private : option Blob) (err : option error)
               (rest : list Event),
           evs = EvUsersCreate user private err :: rest /\
           created evs = [user] /\
           replies rest = [(s_sid s, m)])).
Proof.
  intros s msg rec st st' H. unfold replyCreateUser in H.
  assert (Hearly : forall (m : ServerComMessage) (st0 : state W),
             queueOut s m st0 = Ok tt st' -> log st0 = log st ->
             exists (evs : list Event) (m : ServerComMessage),
               log st' = log st ++ evs /\
               replies evs = [(s_sid s, m)] /\
               ((evs = [EvQueueOut (s_sid s) m] /\ created evs = []) \/
                (exists (user : User) (private : option Blob) (err : option error)
                        (rest : list Event),
                    evs = EvUsersCreate user private err :: rest /\
                    created evs = [user] /\
                    replies rest = [(s_sid s, m)]))).
  { intros m st0 Hq Hl0. unfold queueOut in Hq. apply emit_Ok in Hq as [_ Hq].
    rewrite Hl0 in Hq. exists [EvQueueOut (s_sid s) m], m. auto. }
  destruct (acc_Login (msg_Acc msg) && _); [now apply (Hearly _ _ H) |].
  destruct (GetLogicalAuthHandler env (acc_Scheme (msg_Acc msg))) as [authhdl |];
    [| now apply (Hearly _ _ H)].
  apply bind_Ok in H as (u & st1 & Huniq & H).
  apply call_Ok in Huniq as [_ Hl1].
  destruct (negb (fst u)); [now apply (Hearly _ _ H) |].
  destruct (match normalizeTags env (acc_Tags (msg_Acc msg)) with
            | Some tags => negb (restrictedTagsEqual env tags [] (immutableTagNS env))
            | None => false
            end).
  { apply bind_Ok in H as (m & st2 & Hset & H).
    apply setParams_Ok in Hset as ->. now apply (Hearly _ _ H). }
  apply bind_Ok in H as (bad & st2 & Hpre & H).
  apply preCheckLoop_log in Hpre. rewrite Hl1 in Hpre.
  destruct bad as [[cr perr] |]; [now apply (Hearly _ _ H) |].
  apply bind_Ok in H as (c & st3 & Hcreate & H).
  unfold UsersCreate in Hcreate.
  apply bind_Ok in Hcreate as (c' & st3a & Hc & Hcreate).
  apply bind_Ok in Hcreate as (u' & st3b & He & Hcreate).
  apply mret_Ok in Hcreate as [-> ->].
  apply call_Ok in Hc as [_ Hl3a]. apply emit_Ok in He as [_ Hl3].
  rewrite Hl3a, Hpre in Hl3. clear Hl3a st3a u'.
  destruct c' as [newUser cerr]. cbn [fst snd] in *.
  destruct cerr as [cerr |].
  { unfold queueOut in H. apply emit_Ok in H as [_ Hq].
    rewrite Hl3, <- app_assoc in Hq.
    eexists _, _. split; [exact Hq |]. split; [reflexivity |]. right.
    eexists _, _, _, _. split; [reflexivity |]. split; reflexivity. }
  destruct (createUserPersisted_one_reply _ _ _ _ _ _ _ _ H)
    as (evs1 & m & Hl4 & Hr & Hn).
  rewrite Hl3, <- app_assoc in Hl4.
  eexists _, m. split; [exact Hl4 |]. split.
  - cbn [app replies flat_map]. exact Hr.
  - right. eexists _, _, _, evs1. split; [reflexivity |]. split; [| exact Hr].
    change (newUser :: created evs1 = [newUser]). rewrite Hn. reflexivity.
Qed.

(** X25.  The default access a new account asks for is cut down to the
    permissions of a P2P topic.  Whatever the text of the request and
    whatever the mode held before, the mode assigned has none but the
    permissions J, R, W, P and A, so it is never an owner's, a sharer's by
    S or a deleter's, and the bit of [ModeUnset] that [UnmarshalText]
    leaves behind is gone; unless it is [ModeNone], it includes A. *)
Theorem X25_default_access_is_cut_to_p2p :
  forall (m : AccessMode.t) (text : string),
    let r := assignAccess m text in
    0 <= r < 32
    /\ AccessMode.BetterEqual AccessMode.ModeCP2P r = true
    /\ (r <> AccessMode.ModeNone -> AccessFlags.IsApprover r = true)
    /\ AccessFlags.IsOwner r = false
    /\ AccessFlags.IsDeleter r = false
    /\ Z.land r AccessMode.ModeShare = 0
    /\ Z.land r AccessMode.ModeUnset = 0.
Proof.
  intros m text r. subst r. unfold assignAccess.
  set (m1 := fst (AccessMode.UnmarshalText m (list_ascii_of_string text))).
  assert (Hx : 0 <= Z.land m1 AccessMode.ModeCP2P < 32).
  { change AccessMode.ModeCP2P with (Z.ones 5). rewrite Z.land_ones by lia.
    apply Z.mod_pos_bound. lia. }
  set (x := Z.land m1 AccessMode.ModeCP2P) in *. clearbody x. clear m1.
  assert (Hall : forallb
            (fun x =>
               let r := if negb (x =? AccessMode.ModeNone)
                        then Z.lor x AccessMode.ModeApprove else x in
               negb (x <? 32) ||
               ((0 <=? r) && (r <? 32) && AccessMode.BetterEqual AccessMode.ModeCP2P r
                && ((r =? AccessMode.ModeNone) || AccessFlags.IsApprover r)
                && negb (AccessFlags.IsOwner r) && negb (AccessFlags.IsDeleter r)
                && (Z.land r AccessMode.ModeShare =? 0)
                && (Z.land r AccessMode.ModeUnset =? 0)))
            (map Z.of_nat (seq 0 256)) = true) by (vm_compute; reflexivity).
  rewrite forallb_forall in Hall.
  specialize (Hall x (In_below_256 x ltac:(lia))). cbv zeta beta in Hall.
  destruct (Z.ltb_spec x 32); [| lia]. cbn [negb orb] in Hall.
  set (r := if negb (x =? AccessMode.ModeNone)
            then Z.lor x AccessMode.ModeApprove else x) in *.
  repeat (apply andb_prop in Hall as [Hall ?]).
  repeat match goal with
         | H : (_ <=? _) = true |- _ => apply Z.leb_le in H
         | H : (_ <? _) = true |- _ => apply Z.ltb_lt in H
         | H : (_ =? _) = true |- _ => apply Z.eqb_eq in H
         | H : negb _ = true |- _ => apply negb_true_iff in H
         end.
  repeat split; try assumption; try lia.
  intros Hne. destruct (Z.eqb_spec r AccessMode.ModeNone); [contradiction |].
  assumption.
Qed.

Lemma requestsOf_app (uid : Uid.t) (l1 l2 : list MsgCredClient) (lang : string)
      (tmpToken : list ascii) :
  requestsOf env uid (l1 ++ l2) lang tmpToken
  = requestsOf env uid l1 lang tmpToken ++ requestsOf env uid l2 lang tmpToken.
Proof. unfold requestsOf. apply flat_map_app. Qed.

(** A loop of [addCreds] that ends without an error has made the
    requests of all the credentials, and those only. *)
Lemma addCredsLoop_result (uid : Uid.t) (creds : list MsgCredClient) (lang : string)
      (tmpToken : list ascii) :
  forall (validated tags : list string) (st st' : state W) (v t : list string),
    addCredsLoop env uid creds lang tmpToken validated tags st = Ok (inr (v, t)) st' ->
    v = validated ++ validatedBy env creds /\
    t = tags ++ tagsBy env creds /\
    log st' = log st ++ requestsOf env uid creds lang tmpToken.
Proof.
  induction creds as [| cr creds IH]; intros validated tags st st' v t H.
  - apply mret_Ok in H as [H ->]. inversion H; subst.
    unfold validatedBy, tagsBy, requestsOf. cbn. now rewrite !app_nil_r.
  - cbn [addCredsLoop] in H. unfold validatedBy, tagsBy, answered, requestsOf in *.
    cbn [List.filter flat_map].
    destruct (GetValidator env (cr_Method cr)) as [vld |].
    2: { cbn [andb app]. now apply IH. }
    apply bind_Ok in H as (err & st1 & Hc & H).
    apply bind_Ok in H as (u & st2 & He & H).
    apply call_Ok in Hc as [_ Hl1]. apply emit_Ok in He as [_ Hl2].
    rewrite Hl1 in Hl2.
    destruct err as [err |]; [apply mret_Ok in H as [H _]; discriminate |].
    destruct (negb (String.eqb (cr_Response cr) "")).
    + apply IH in H as (-> & -> & Hl).
      destruct (addToTags env (cr_Method cr)); cbn [andb map];
        rewrite <- !app_assoc; (split; [reflexivity |]); (split; [reflexivity |]);
        rewrite Hl, Hl2, <- app_assoc; reflexivity.
    + cbn [andb]. apply IH in H as (-> & -> & Hl).
      split; [reflexivity |]. split; [reflexivity |].
      rewrite Hl, Hl2, <- app_assoc. reflexivity.
Qed.

(** A loop of [addCreds] that ends with an error stopped at the
    credential whose request failed: the credentials before it have been
    requested, those after it have not. *)
Lemma addCredsLoop_failure (uid : Uid.t) (creds : list MsgCredClient) (lang : string)
      (tmpToken : list ascii) :
  forall (validated tags : list string) (st st' : state W) (e : error),
    addCredsLoop env uid creds lang tmpToken validated tags st = Ok (inl e) st' ->
    exists (done : list MsgCredClient) (cr : MsgCredClient) (rest : list MsgCredClient),
      creds = done ++ cr :: rest /\
      GetValidator env (cr_Method cr) <> None /\
      log st' = log st ++ requestsOf env uid done lang tmpToken
                ++ [EvRequest (cr_Method cr) uid (cr_Value cr) lang (cr_Response cr)
                              tmpToken (Some e)].
Proof.
  induction creds as [| cr creds IH]; intros validated tags st st' e H.
  - apply mret_Ok in H as [H _]. discriminate.
  - cbn [addCredsLoop] in H.
    destruct (GetValidator env (cr_Method cr)) as [vld |] eqn:Hvld.
    2: { apply IH in H as (done & cr' & rest & -> & Hk & Hl).
         exists (cr :: done), cr', rest. split; [reflexivity |]. split; [exact Hk |].
         unfold requestsOf in *. cbn [flat_map]. rewrite Hvld. exact Hl. }
    apply bind_Ok in H as (err & st1 & Hc & H).
    apply bind_Ok in H as (u & st2 & He & H).
    apply call_Ok in Hc as [_ Hl1]. apply emit_Ok in He as [_ Hl2].
    rewrite Hl1 in Hl2.
    destruct err as [err |].
    { apply mret_Ok in H as [H ->]. inversion H; subst.
      exists [], cr, creds. split; [reflexivity |]. split; [congruence |].
      exact Hl2. }
    assert (Hrest : exists validated' tags',
               addCredsLoop env uid creds lang tmpToken validated' tags' st2
               = Ok (inl e) st').
    { destruct (negb (String.eqb (cr_Response cr) "")); eauto. }
    destruct Hrest as (validated' & tags' & Hrest).
    apply IH in Hrest as (done & cr' & rest & -> & Hk & Hl).
    exists (cr :: done), cr', rest. split; [reflexivity |]. split; [exact Hk |].
    unfold requestsOf in *. cbn [flat_map]. rewrite Hvld.
    rewrite Hl, Hl2, <- !app_assoc. reflexivity.
Qed.

(** The loop of [addCreds] always ends. *)
Lemma addCredsLoop_returns (uid : Uid.t) (creds : list MsgCredClient) (lang : string)
      (tmpToken : list ascii) :
  forall (validated tags : list string) (st : state W),
    exists r st', addCredsLoop env uid creds lang tmpToken validated tags st = Ok r st'.
Proof.
  induction creds as [| cr creds IH]; intros validated tags st.
  - eexists _, _. reflexivity.
  - cbn [addCredsLoop].
    destruct (GetValidator env (cr_Method cr)) as [vld |]; [| apply IH].
    unfold mbind, M_bind, bind, call, emit.
    destruct (Request vld uid (cr_Value cr) lang (cr_Response cr) tmpToken (world st))
      as [err w1].
    destruct err as [err |]; [eexists _, _; reflexivity |].
    destruct (negb (String.eqb (cr_Response cr) "")); apply IH.
Qed.

(** X26.  What [addCreds] does and reports.  It always returns.  When it
    returns without an error, it has called [Request] once for every
    credential with a known validator, with the value and the response of
    that credential, in the order of the credentials, and for no other;
    none of the requests failed; the methods it returns are those of the
    credentials that came with a response, in the order given; and the
    tags, with one more for each of those methods that is added to tags,
    have been saved with one [UpdateTags] after the requests, unless
    there is none to save.  When it returns an error it returns no
    method, and the error is that of the request at which it stopped, the
    credentials before it requested and those after it not, or that of
    [UpdateTags] after all the requests. *)
Theorem X26_addCreds_reports_answered_methods :
  (forall (uid : Uid.t) (creds : list MsgCredClient) (tags : list string)
          (lang : string) (tmpToken : list ascii) (st : state W),
      exists (v : list string * option error) (st' : state W),
        addCreds env uid creds tags lang tmpToken st = Ok v st')
  /\ (forall (uid : Uid.t) (creds : list MsgCredClient) (tags : list string)
             (lang : string) (tmpToken : list ascii) (st st' : state W)
             (validated : list string),
         addCreds env uid creds tags lang tmpToken st = Ok (validated, None) st' ->
         validated = validatedBy env creds /\
         log st' = log st ++ requestsOf env uid creds lang tmpToken ++
                   (if (0 <? length (tags ++ tagsBy env creds))%nat
                    then [EvUsersUpdateTags uid [] [] (tags ++ tagsBy env creds) None]
                    else []))
  /\ (forall (uid : Uid.t) (creds : list MsgCredClient) (tags : list string)
             (lang : string) (tmpToken : list ascii) (st st' : state W)
             (validated : list string) (err : error),
         addCreds env uid creds tags lang tmpToken st = Ok (validated, Some err) st' ->
         validated = [] /\
         ((exists (done : list MsgCredClient) (cr : MsgCredClient)
                  (rest : list MsgCredClient),
              creds = done ++ cr :: rest /\
              GetValidator env (cr_Method cr) <> None /\
              log st' = log st ++ requestsOf env uid done lang tmpToken
                        ++ [EvRequest (cr_Method cr) uid (cr_Value cr) lang
                                      (cr_Response cr) tmpToken (Some err)])
          \/ log st' = log st ++ requestsOf env uid creds lang tmpToken
                       ++ [EvUsersUpdateTags uid [] [] (tags ++ tagsBy env creds)
                                             (Some err)])).
Proof.
  split; [| split].
  - intros uid creds tags lang tmpToken st. unfold addCreds.
    destruct (addCredsLoop_returns uid creds lang tmpToken [] tags st)
      as (r & st1 & Hloop).
    unfold mbind, M_bind, bind at 1. rewrite Hloop.
    destruct r as [e | [v t]]; [eexists _, _; reflexivity |].
    destruct (0 <? length t)%nat; [| eexists _, _; reflexivity].
    unfold UsersUpdateTags, mbind, M_bind, bind, call, emit.
    destruct (UpdateTags (Users env) uid [] [] t (world st1)) as [uerr w2].
    destruct uerr; eexists _, _; reflexivity.
  - intros uid creds tags lang tmpToken st st' validated H. unfold addCreds in H.
    apply bind_Ok in H as (r & st1 & Hloop & H).
    destruct r as [err | [v t]]; [apply mret_Ok in H as [H _]; discriminate |].
    apply addCredsLoop_result in Hloop as (-> & -> & Hl).
    destruct (0 <? length (tags ++ tagsBy env creds))%nat.
    + apply bind_Ok in H as (uerr & st2 & Hu & H).
      apply UsersUpdateTags_Ok in Hu.
      destruct uerr; apply mret_Ok in H as [H ->]; [discriminate |].
      inversion H; subst. split; [reflexivity |].
      now rewrite Hu, Hl, <- app_assoc.
    + apply mret_Ok in H as [H ->]. inversion H; subst. split; [reflexivity |].
      now rewrite app_nil_r.
  - intros uid creds tags lang tmpToken st st' validated err H. unfold addCreds in H.
    apply bind_Ok in H as (r & st1 & Hloop & H).
    destruct r as [e | [v t]].
    + apply mret_Ok in H as [H ->]. inversion H; subst. split; [reflexivity |].
      left. exact (addCredsLoop_failure _ _ _ _ _ _ _ _ _ Hloop).
    + apply addCredsLoop_result in Hloop as (-> & -> & Hl).
      destruct (0 <? length (tags ++ tagsBy env creds))%nat.
      * apply bind_Ok in H as (uerr & st2 & Hu & H).
        apply UsersUpdateTags_Ok in Hu.
        destruct uerr; apply mret_Ok in H as [H ->]; [| discriminate].
        inversion H; subst. split; [reflexivity |]. right.
        now rewrite Hu, Hl, <- app_assoc.
      * apply mret_Ok in H as [H _]. discriminate.
Qed.
End AccountLogFacts.


(** ** The senders of cache updates *)

Section UsersQueueFacts.
Local Open Scope Z_scope.
Import Effect Store UserCache CacheOps UsersQueue.

Lemma trySend_bounded (upd : userUpdate) (q : list (option userUpdate)) :
  Z.of_nat (length q) <= capacity -> Z.of_nat (length (trySend upd q)) <= capacity.
Proof.
  intros Hq. unfold trySend.
  destruct (Z.ltb_spec (Z.of_nat (length q)) capacity); [| exact Hq].
  rewrite length_app. cbn [length]. lia.
Qed.

Lemma trySend_full (upd : userUpdate) (q : list (option userUpdate)) :
  Z.of_nat (length q) = capacity -> trySend upd q = q.
Proof.
  intros Hq. unfold trySend.
  destruct (Z.ltb_spec (Z.of_nat (length q)) capacity); [lia | reflexivity].
Qed.

Lemma trySend_room (upd : userUpdate) (q : list (option userUpdate)) :
  Z.of_nat (length q) < capacity -> trySend upd q = q ++ [Some upd].
Proof.
  intros Hq. unfold trySend.
  destruct (Z.ltb_spec (Z.of_nat (length q)) capacity); [reflexivity | lia].
Qed.

Lemma globals_eq (g : globals) (q : list (option userUpdate)) :
  usersUpdate g = Some q -> {| usersUpdate := Some q |} = g.
Proof. destruct g. cbn. now intros ->. Qed.

Lemma rangeOrder_nonempty (keys : list Uid.t) (t : Calls.Topic) :
  rangeOrder keys t -> Calls.perUser t <> ∅ -> keys <> [].
Proof.
  intros Hk Hne ->. apply Permutation_nil in Hk.
  apply elements_empty_inv in Hk. apply leibniz_equiv in Hk. contradiction.
Qed.

Lemma size_nonempty (t : Calls.Topic) :
  Calls.perUser t <> ∅ -> (size (Calls.perUser t) =? 0)%nat = false.
Proof.
  intros Hne. apply Nat.eqb_neq. intros H0. apply Hne.
  apply leibniz_equiv. now apply size_empty_inv.
Qed.

(** X27.  The senders of cache updates never wait and never fill the
    channel beyond its buffer of 1024 updates: with a full buffer, and
    with the channel not made yet, each of [usersUpdateUnread],
    [usersPush] and [usersRegisterTopic] returns having sent nothing.  An
    increment of the unread count by zero is not sent, nor is the
    registration of a topic without users.  With room in the buffer the
    registration of a topic is one update that lists every user of the
    topic once, in the order the map was read; so when the updater has
    processed the registration of a topic and its removal, sent one after
    the other and each with its own order of the users, the cache is what
    it was before. *)
Theorem X27_cache_updates_are_sent_without_waiting :
  (forall (g : globals) (keys : list Uid.t) (uid : Uid.t) (val : Z) (inc add : bool)
          (rcpt : option Receipt) (t : option Calls.Topic),
      bounded g ->
      bounded (usersUpdateUnread uid val inc g) /\
      bounded (usersPush rcpt g) /\
      bounded (usersRegisterTopic keys t uid add g))
  /\ (forall (g : globals) (keys : list Uid.t) (uid : Uid.t) (val : Z) (inc add : bool)
             (rcpt : option Receipt) (t : option Calls.Topic),
         full g \/ usersUpdate g = None ->
         usersUpdateUnread uid val inc g = g /\
         usersPush rcpt g = g /\
         usersRegisterTopic keys t uid add g = g)
  /\ (forall (g : globals) (uid : Uid.t), usersUpdateUnread uid 0 true g = g)
  /\ (forall (g : globals) (keys : list Uid.t) (t : Calls.Topic) (uid : Uid.t)
             (add : bool),
         Calls.perUser t = ∅ -> usersRegisterTopic keys (Some t) uid add g = g)
  /\ (forall (q : list (option userUpdate)) (keys : list Uid.t) (t : Calls.Topic)
             (uid : Uid.t) (add : bool),
         Z.of_nat (length q) < capacity -> Calls.perUser t <> ∅ ->
         rangeOrder keys t ->
         usersRegisterTopic keys (Some t) uid add {| usersUpdate := Some q |} =
           {| usersUpdate := Some (q ++ [Some (membership keys add)]) |} /\
         List.NoDup keys /\
         forall u : Uid.t, In u keys <-> u ∈ Calls.perUser t)
  /\ (forall (W : Type) (Users : UsersMapper W) (keys1 keys2 : list Uid.t)
             (t : Calls.Topic) (uid : Uid.t) (st : state W),
         Calls.perUser t <> ∅ ->
         rangeOrder keys1 t -> rangeOrder keys2 t ->
         cacheInv (usersCache st) ->
         topicsBelow (usersCache st) (Z.of_nat (size (Calls.perUser t))) ->
         userUpdater Users
           (waiting (usersRegisterTopic keys2 (Some t) uid false
                       (usersRegisterTopic keys1 (Some t) uid true (snd usersInit)))) st
         = Ok tt st).
Proof.
  split; [| split; [| split; [| split; [| split]]]].
  - intros g keys uid val inc add rcpt t Hb.
    unfold bounded, usersUpdateUnread, usersPush, usersRegisterTopic in *.
    destruct (usersUpdate g) as [q |] eqn:Hq; [| rewrite Hq; auto].
    split; [| split].
    + destruct (negb inc || negb (val =? 0)); [| now rewrite Hq].
      cbn. now apply trySend_bounded.
    + cbn. now apply trySend_bounded.
    + destruct t as [t |].
      * destruct (size (Calls.perUser t) =? 0)%nat; [now rewrite Hq |].
        cbn. now apply trySend_bounded.
      * cbn. now apply trySend_bounded.
  - intros g keys uid val inc add rcpt t Hfull.
    unfold usersUpdateUnread, usersPush, usersRegisterTopic.
    destruct Hfull as [(q & Hq & Hlen) | Hnil].
    + rewrite Hq.
      destruct t as [t |]; rewrite !trySend_full by assumption;
        rewrite (globals_eq g q Hq);
        (split; [now destruct (negb inc || negb (val =? 0)) |]);
        (split; [reflexivity |]); [| reflexivity].
      now destruct (size (Calls.perUser t) =? 0)%nat.
    + now rewrite Hnil.
  - intros g uid. unfold usersUpdateUnread. now destruct (usersUpdate g).
  - intros g keys t uid add Hempty. unfold usersRegisterTopic. rewrite Hempty.
    rewrite size_empty. now destruct (usersUpdate g).
  - intros q keys t uid add Hroom Hne Hk. split; [| split].
    + unfold usersRegisterTopic. cbn [usersUpdate].
      rewrite (size_nonempty t Hne). now rewrite trySend_room.
    + apply (Permutation_NoDup (Permutation_sym Hk)).
      apply NoDup_ListNoDup. apply NoDup_elements.
    + intros u. rewrite <- elem_of_elements, <- list_elem_of_In.
      split; intros Hin.
      * now rewrite <- Hk.
      * now rewrite Hk.
  - intros W Users keys1 keys2 t uid st Hne Hk1 Hk2 Hinv Hb.
    pose proof (rangeOrder_nonempty keys1 t Hk1 Hne) as Hn1.
    pose proof (rangeOrder_nonempty keys2 t Hk2 Hne) as Hn2.
    unfold usersRegisterTopic, usersInit, waiting. cbn [snd usersUpdate].
    rewrite (size_nonempty t Hne).
    rewrite trySend_room by (cbn; unfold capacity; lia).
    cbn [app usersUpdate].
    rewrite trySend_room by (cbn; unfold capacity; lia).
    cbn [app].
    assert (Hlen : length keys1 = size (Calls.perUser t)).
    { unfold rangeOrder in Hk1. now rewrite Hk1. }
    rewrite <- Hlen in Hb.
    destruct (register_then_remove keys1 keys2 st Hinv Hb) as (st1 & Hrun1 & _ & Hrun2).
    { unfold rangeOrder in *. now rewrite Hk1, Hk2. }
    assert (Hl1 : (0 <? length keys1)%nat = true) by (destruct keys1; [contradiction | reflexivity]).
    assert (Hl2 : (0 <? length keys2)%nat = true) by (destruct keys2; [contradiction | reflexivity]).
    cbn [userUpdater handleUpdate upd_pushRcpt upd_uidList upd_inc].
    rewrite Hl1, Hl2.
    unfold mbind, M_bind, bind. rewrite Hrun1.
    unfold mret, M_ret, ret. cbv beta iota. now rewrite Hrun2.
Qed.
End UsersQueueFacts.

(** ** The update of an account *)

Section AccountUpdateFacts.
Local Open Scope Z_scope.
Import Effect Store Server AccountLog AccountUpdate.
Context {W : Type}.
Variable env : AccountUpdate.Env W.

Lemma silent_refl (st : state W) : silent st st.
Proof. exists []. now rewrite app_nil_r. Qed.

Lemma silent_trans (st1 st2 st3 : state W) :
  silent st1 st2 -> silent st2 st3 -> silent st1 st3.
Proof.
  intros (e1 & H1 & R1) (e2 & H2 & R2). exists (e1 ++ e2). split.
  - now rewrite H2, H1, app_assoc.
  - now rewrite flat_map_app, R1, R2.
Qed.

Lemma silent_log (st st' : state W) : log st' = log st -> silent st st'.
Proof. intros H. exists []. now rewrite app_nil_r. Qed.

Lemma silent_event (st st' : state W) (e : Event) :
  log st' = log st ++ [e] ->
  (forall sid m, e <> EvQueueOut sid m) -> silent st st'.
Proof.
  intros H He. exists [e]. split; [exact H |].
  cbn. destruct e; try reflexivity. exfalso. eapply He. reflexivity.
Qed.

Lemma mapWrite_state (m m' : option (gmap string Z)) (key : string) (v : Z)
      (st st' : state W) :
  mapWrite m key v st = Ok m' st' -> st' = st.
Proof. unfold mapWrite. destruct m; [| discriminate]. intros H. now inversion H. Qed.

Lemma indexMethods_state (stored : list Credential) :
  forall (m m' : option (gmap string Z)) (st st' : state W),
    indexMethods stored m st = Ok m' st' -> st' = st.
Proof.
  induction stored as [| c stored IH]; intros m m' st st' H.
  - now inversion H.
  - cbn [indexMethods] in H. apply bind_Ok in H as (m1 & st1 & Hw & H).
    apply mapWrite_state in Hw as ->. eauto.
Qed.

Lemma checkLoop_silent (uid : Uid.t) (creds : list MsgCredClient) :
  forall (m : option (gmap string Z)) (a r : list string) (st st' : state W)
         (res : error + option (gmap string Z) * list string * list string),
    checkLoop (server env) uid creds m a r st = Ok res st' -> silent st st'.
Proof.
  induction creds as [| cr creds IH]; intros m a r st st' res H.
  - inversion H; subst. apply silent_refl.
  - cbn [checkLoop] in H.
    destruct (String.eqb (cr_Response cr) ""); [eauto |].
    destruct (GetValidator (server env) (cr_Method cr)) as [vld |]; [| discriminate].
    apply bind_Ok in H as (c & st1 & Hc & H).
    apply bind_Ok in H as (u & st2 & He & H).
    apply call_Ok in Hc as [_ Hl1]. apply emit_Ok in He as [_ Hl2].
    rewrite Hl1 in Hl2.
    assert (Hs : silent st st2) by (eapply silent_event; [exact Hl2 | discriminate]).
    destruct (snd c) as [err |].
    + destruct (isErrCredentials err).
      * eapply silent_trans; [exact Hs | eauto].
      * inversion H; subst. exact Hs.
    + destruct (negb (String.eqb (fst c) ""));
        apply bind_Ok in H as (m1 & st3 & Hw & H);
        apply mapWrite_state in Hw as ->;
        (eapply silent_trans; [exact Hs | eauto]).
Qed.

Lemma updateCreds_silent (uid : Uid.t) (lvl : auth.Level) (creds : list MsgCredClient)
      (st st' : state W) (res : list string * option error) :
  updateCreds (server env) uid lvl creds st = Ok res st' -> silent st st'.
Proof.
  unfold updateCreds. intros H.
  destruct (length (authValidators (server env) lvl) =? 0)%nat;
    [inversion H; subst; apply silent_refl |].
  destruct (length creds =? 0)%nat; [inversion H; subst; apply silent_refl |].
  apply bind_Ok in H as (g & st1 & Hg & H). apply call_Ok in Hg as [_ Hl1].
  apply silent_log in Hl1.
  destruct (snd g); [inversion H; subst; exact Hl1 |].
  apply bind_Ok in H as (m & st2 & Hi & H). apply indexMethods_state in Hi as ->.
  apply bind_Ok in H as (l & st3 & Hc & H). apply checkLoop_silent in Hc.
  pose proof (silent_trans _ _ _ Hl1 Hc) as Hs.
  destruct l as [err | [[m' a] r]]; [inversion H; subst; exact Hs |].
  apply bind_Ok in H as (e & st4 & Hu & H).
  assert (Hs4 : silent st st4).
  { destruct ((0 <? length a)%nat || (0 <? length r)%nat).
    - apply UsersUpdateTags_Ok in Hu.
      eapply silent_trans; [exact Hs |]. eapply silent_event; [exact Hu | discriminate].
    - inversion Hu; subst. exact Hs. }
  destruct e; inversion H; subst; exact Hs4.
Qed.

Lemma updateUserAuth_silent (r : Request) (user : User) (rec : option auth.Rec)
      (st st' : state W) (err : option error) :
  updateUserAuth env r user rec st = Ok err st' -> silent st st'.
Proof.
  unfold updateUserAuth. intros H.
  destruct (GetLogicalAuthHandler (server env) _);
    [| inversion H; subst; apply silent_refl].
  apply bind_Ok in H as (res & st1 & Hc & H). apply call_Ok in Hc as [_ Hl1].
  apply silent_log in Hl1.
  destruct (snd res); [inversion H; subst; exact Hl1 |].
  destruct (fst res) as [rec' |]; [| discriminate].
  apply bind_Ok in H as (e & st2 & Hu & H). apply UsersUpdateTags_Ok in Hu.
  inversion H; subst.
  eapply silent_trans; [exact Hl1 |]. eapply silent_event; [exact Hu | discriminate].
Qed.

(** What [finish] adds to the log. *)
Lemma finish_Ok (s : Session) (r : Request) (user : User) (err : option error)
      (params : option (gmap string Any)) (st st' : state W) :
  finish env s r user err params st = Ok tt st' ->
  world st' = world st /\
  log st' = log st ++
    match err with
    | Some e => [EvQueueOut (s_sid s)
                   (decodeStoreError (server env) (Some e) (msg_id (msg r)) ""
                      (msg_timestamp (msg r)) None)]
    | None => [EvQueueOut (s_sid s)
                 (NoErrParams env (msg_id (msg r)) "" (msg_timestamp (msg r)) params);
               EvPluginAccount user plgActUpd]
    end.
Proof.
  unfold finish, queueOut. destruct err as [e |]; intros H.
  - now apply emit_Ok in H.
  - apply bind_Ok in H as (u & st1 & H1 & H2).
    apply emit_Ok in H1 as [Hw1 Hl1]. apply emit_Ok in H2 as [Hw2 Hl2].
    split; [congruence |]. now rewrite Hl2, Hl1, <- app_assoc.
Qed.

Lemma one_reply_after (st st1 st' : state W) (sid : string) (m : ServerComMessage)
      (tail : list Event) :
  silent st st1 ->
  log st' = log st1 ++ EvQueueOut sid m :: tail -> replies tail = [] ->
  exists (evs : list Event) (m' : ServerComMessage),
    log st' = log st ++ evs /\ replies evs = [(sid, m')].
Proof.
  intros (e1 & H1 & R1) H2 Rt. exists (e1 ++ EvQueueOut sid m :: tail), m. split.
  - now rewrite H2, H1, <- app_assoc.
  - rewrite replies_app. unfold replies at 1. rewrite R1.
    cbn [app replies flat_map]. fold (replies tail). now rewrite Rt.
Qed.

Lemma ParseUserId_UserId (u : Uid.t) :
  Uid.uid_range u -> Types.ParseUserId (Uid.UserId u) = u.
Proof.
  intros Hu. unfold Uid.UserId, Uid.PrefixId, Uid.IsZero.
  destruct (Z.eqb_spec u 0) as [-> | Hnz]; [reflexivity |].
  unfold Types.ParseUserId.
  rewrite prefix_append, list_ascii_append.
  change (skipn 3 (list_ascii_of_string "usr" ++ ?l)) with l.
  unfold Uid.String. rewrite list_ascii_of_string_of_list_ascii.
  now rewrite UnmarshalText_MarshalText.
Qed.

(** X28.  Who may update an account.  A session that is not root and
    names another account than its own is refused: the run returns with
    the world as it was and one message queued, [ErrPermissionDenied] or
    [ErrMalformed].  So is every request that [subject] refuses.  When
    the request is let through, the account is not the zero Uid and the
    level is not [LevelNone]; the session is authenticated or came with a
    token, not with both a sender and a token; unless the session is
    root, the account and the level are the requester's own, those of the
    token when there is one. *)
Theorem X28_update_user_is_for_the_requester_or_root :
  (forall (s : Session) (r : Request) (rec : option auth.Rec) (st : state W),
      s_authLvl s <> auth.LevelRoot -> namesAnother r rec = true ->
      exists m : ServerComMessage,
        replyUpdateUser env s r rec st =
          Ok tt {| world := world st; log := log st ++ [EvQueueOut (s_sid s) m] |} /\
        (m = ErrPermissionDenied (server env) (msg_id (msg r)) "" (msg_timestamp (msg r))
         \/ m = ErrMalformed (server env) (msg_id (msg r)) "" (msg_timestamp (msg r))))
  /\ (forall (s : Session) (r : Request) (rec : option auth.Rec) (m : ServerComMessage)
             (st : state W),
         subject env s r rec = inl m ->
         replyUpdateUser env s r rec st =
           Ok tt {| world := world st; log := log st ++ [EvQueueOut (s_sid s) m] |})
  /\ (forall (s : Session) (r : Request) (rec : option auth.Rec) (uid : Uid.t)
             (lvl : auth.Level),
         subject env s r rec = inr (uid, lvl) ->
         uid <> Uid.ZeroUid /\ lvl <> auth.LevelNone
         /\ (s_uid s <> Uid.ZeroUid \/ rec <> None)
         /\ (from r = ""%string \/ rec = None)
         /\ (s_authLvl s <> auth.LevelRoot ->
             uid = Types.ParseUserId (fst (requester r rec)) /\
             lvl = snd (requester r rec))
         /\ (forall rc : auth.Rec,
                rec = Some rc -> Uid.uid_range (auth.Uid rc) ->
                s_authLvl s <> auth.LevelRoot ->
                uid = auth.Uid rc /\ lvl = auth.AuthLevel rc)).
Proof.
  assert (Hsub : forall (s : Session) (r : Request) (rec : option auth.Rec)
                        (uid : Uid.t) (lvl : auth.Level),
             subject env s r rec = inr (uid, lvl) ->
             uid <> Uid.ZeroUid /\ lvl <> auth.LevelNone
             /\ (s_uid s <> Uid.ZeroUid \/ rec <> None)
             /\ (from r = ""%string \/ rec = None)
             /\ (s_authLvl s <> auth.LevelRoot ->
                 uid = Types.ParseUserId (fst (requester r rec)) /\
                 lvl = snd (requester r rec))).
  { intros s r rec uid lvl H. unfold subject in H.
    destruct (Uid.IsZero (s_uid s) && isNil rec) eqn:H1; [discriminate |].
    destruct (negb (String.eqb (from r) "") && negb (isNil rec)) eqn:H2; [discriminate |].
    destruct (requester r rec) as [userId authLvl0] eqn:Hreq.
    destruct (namesAnother r rec && negb (bool_decide (s_authLvl s = auth.LevelRoot)))
      eqn:H3; [discriminate |].
    destruct (namesAnother r rec) eqn:Hother.
    - cbn [andb] in H3. apply negb_false_iff, bool_decide_eq_true in H3.
      destruct (Uid.IsZero (Types.ParseUserId (acc_User (msg_Acc (msg r)))) ||
                bool_decide (ParseAuthLevel env (acc_AuthLevel r) = auth.LevelNone))
        eqn:H4; [discriminate |].
      inversion H; subst. apply orb_false_elim in H4 as [Hz Hl].
      apply Z.eqb_neq in Hz. apply bool_decide_eq_false in Hl.
      split; [exact Hz |]. split; [exact Hl |].
      split; [| split; [| intros Hroot; contradiction]].
      + apply andb_false_iff in H1 as [Hu | Hn].
        * left. now apply Z.eqb_neq in Hu.
        * right. now destruct rec.
      + apply andb_false_iff in H2 as [Hf | Hn].
        * left. apply negb_false_iff in Hf. now apply String.eqb_eq in Hf.
        * right. now destruct rec.
    - destruct (Uid.IsZero (Types.ParseUserId userId) ||
                bool_decide (authLvl0 = auth.LevelNone)) eqn:H4; [discriminate |].
      inversion H; subst. apply orb_false_elim in H4 as [Hz Hl].
      apply Z.eqb_neq in Hz. apply bool_decide_eq_false in Hl.
      split; [exact Hz |]. split; [exact Hl |].
      split; [| split; [| intros _; split; reflexivity]].
      + apply andb_false_iff in H1 as [Hu | Hn].
        * left. now apply Z.eqb_neq in Hu.
        * right. now destruct rec.
      + apply andb_false_iff in H2 as [Hf | Hn].
        * left. apply negb_false_iff in Hf. now apply String.eqb_eq in Hf.
        * right. now destruct rec. }
  split; [| split].
  - intros s r rec st Hroot Hother. unfold replyUpdateUser, subject.
    destruct (Uid.IsZero (s_uid s) && isNil rec); [eexists; split; [reflexivity | auto] |].
    destruct (negb (String.eqb (from r) "") && negb (isNil rec));
      [eexists; split; [reflexivity | auto] |].
    destruct (requester r rec) as [userId authLvl0]. rewrite Hother.
    destruct (bool_decide_reflect (s_authLvl s = auth.LevelRoot)) as [Hr | _];
      [contradiction |].
    cbn [andb negb]. eexists; split; [reflexivity | auto].
  - intros s r rec m st H. unfold replyUpdateUser. now rewrite H.
  - intros s r rec uid lvl H.
    destruct (Hsub s r rec uid lvl H) as (Hz & Hl & Hauth & Hone & Hown).
    repeat (split; [assumption |]).
    intros rc -> Hrange Hroot. destruct (Hown Hroot) as [-> ->].
    cbn [requester fst snd]. split; [| reflexivity].
    now apply ParseUserId_UserId.
Qed.

(** X29.  What an update of an account ends with.  A run of
    [replyUpdateUser] that returns has queued one message, to the session
    of the request.  A user the store does not have is answered with the
    error of the store, [ErrNotFound] when it gave none.  A request with
    credentials and no scheme is answered with [NoErrParams] and reported
    to the plugins whatever [updateCreds] returned: its error is not the
    one the function tests, and with an error the parameters are [nil].
    A request with neither is malformed, and so is one with a scheme no
    handler is registered for.  When the handler has updated its record
    the tags of the user are reset to those of the record, and the
    request is answered with [NoErrParams] whether or not the tags were
    saved. *)
Theorem X29_update_user_replies_once :
  (forall (s : Session) (r : Request) (rec : option auth.Rec) (st st' : state W),
      replyUpdateUser env s r rec st = Ok tt st' ->
      exists (evs : list Event) (m : ServerComMessage),
        log st' = log st ++ evs /\ replies evs = [(s_sid s, m)])
  /\ (forall (s : Session) (r : Request) (rec : option auth.Rec) (st : state W)
             (uid : Uid.t) (lvl : auth.Level) (gerr : option error) (w1 : W),
         subject env s r rec = inr (uid, lvl) ->
         UsersGet env uid (world st) = ((None, gerr), w1) ->
         replyUpdateUser env s r rec st =
           Ok tt {| world := w1;
                    log := log st ++
                      [EvQueueOut (s_sid s)
                         (decodeStoreError (server env)
                            (Some (default (StoreErr ErrNotFound) gerr))
                            (msg_id (msg r)) "" (msg_timestamp (msg r)) None)] |})
  /\ (forall (s : Session) (r : Request) (rec : option auth.Rec) (st st' : state W)
             (uid : Uid.t) (lvl : auth.Level) (user : User) (w1 : W),
         subject env s r rec = inr (uid, lvl) ->
         UsersGet env uid (world st) = ((Some user, None), w1) ->
         acc_Scheme (msg_Acc (msg r)) = ""%string ->
         acc_Cred (msg_Acc (msg r)) <> [] ->
         replyUpdateUser env s r rec st = Ok tt st' ->
         exists (res : list string * option error) (st1 : state W),
           updateCreds (server env) uid lvl (acc_Cred (msg_Acc (msg r)))
             {| world := w1; log := log st |} = Ok res st1 /\
           world st' = world st1 /\
           log st' = log st1 ++
             [EvQueueOut (s_sid s)
                (NoErrParams env (msg_id (msg r)) "" (msg_timestamp (msg r))
                   (credParams env lvl res));
              EvPluginAccount user plgActUpd] /\
           (snd res <> None -> credParams env lvl res = None))
  /\ (forall (s : Session) (r : Request) (rec : option auth.Rec) (st : state W)
             (uid : Uid.t) (lvl : auth.Level) (user : User) (w1 : W),
         subject env s r rec = inr (uid, lvl) ->
         UsersGet env uid (world st) = ((Some user, None), w1) ->
         (acc_Scheme (msg_Acc (msg r)) = ""%string /\ acc_Cred (msg_Acc (msg r)) = []
          \/ acc_Scheme (msg_Acc (msg r)) <> ""%string /\
             GetLogicalAuthHandler (server env) (acc_Scheme (msg_Acc (msg r))) = None) ->
         replyUpdateUser env s r rec st =
           Ok tt {| world := w1;
                    log := log st ++
                      [EvQueueOut (s_sid s)
                         (decodeStoreError (server env) (Some (StoreErr Store.ErrMalformed))
                            (msg_id (msg r)) "" (msg_timestamp (msg r)) None)] |})
  /\ (forall (s : Session) (r : Request) (rec : option auth.Rec) (st : state W)
             (uid : Uid.t) (lvl : auth.Level) (user : User) (w1 w2 w3 : W)
             (authhdl : auth.AuthHandler W) (rec' : auth.Rec) (terr : option error),
         subject env s r rec = inr (uid, lvl) ->
         UsersGet env uid (world st) = ((Some user, None), w1) ->
         acc_Scheme (msg_Acc (msg r)) <> ""%string ->
         GetLogicalAuthHandler (server env) (acc_Scheme (msg_Acc (msg r))) = Some authhdl ->
         UpdateRecord env (acc_Scheme (msg_Acc (msg r)))
           {| auth.Uid := User_Uid user; auth.AuthLevel := auth.LevelNone;
              auth.Lifetime := 0; auth.Features := 0; auth.Tags := Tags user |}
           (acc_Secret (msg_Acc (msg r))) w1 = ((Some rec', None), w2) ->
         UpdateTags (Users (server env)) (User_Uid user) [] [] (auth.Tags rec') w2
           = (terr, w3) ->
         replyUpdateUser env s r rec st =
           Ok tt {| world := w3;
                    log := log st ++
                      [EvUsersUpdateTags (User_Uid user) [] [] (auth.Tags rec') terr;
                       EvQueueOut (s_sid s)
                         (NoErrParams env (msg_id (msg r)) "" (msg_timestamp (msg r)) None);
                       EvPluginAccount user plgActUpd] |}).
Proof.
  split; [| split; [| split; [| split]]].
  - intros s r rec st st' H. unfold replyUpdateUser in H.
    destruct (subject env s r rec) as [m | [uid lvl]].
    { apply emit_Ok in H as [_ Hl]. exists [EvQueueOut (s_sid s) m], m. auto. }
    apply bind_Ok in H as (got & st1 & Hg & H). apply call_Ok in Hg as [_ Hl1].
    apply silent_log in Hl1.
    destruct got as [[user |] [gerr |]];
      try (apply emit_Ok in H as [_ Hl];
           eapply one_reply_after; [exact Hl1 | exact Hl | reflexivity]).
    destruct (negb (String.eqb (acc_Scheme (msg_Acc (msg r))) "")).
    + apply bind_Ok in H as (err & st2 & Hu & H).
      apply updateUserAuth_silent in Hu. apply finish_Ok in H as [_ Hl].
      pose proof (silent_trans _ _ _ Hl1 Hu) as Hs.
      destruct err; eapply one_reply_after; try exact Hs; try exact Hl; reflexivity.
    + destruct (0 <? length (acc_Cred (msg_Acc (msg r))))%nat.
      * apply bind_Ok in H as (res & st2 & Hu & H).
        apply updateCreds_silent in Hu. apply finish_Ok in H as [_ Hl].
        pose proof (silent_trans _ _ _ Hl1 Hu) as Hs.
        eapply one_reply_after; [exact Hs | exact Hl | reflexivity].
      * apply finish_Ok in H as [_ Hl].
        eapply one_reply_after; [exact Hl1 | exact Hl | reflexivity].
  - intros s r rec st uid lvl gerr w1 Hsub Hget. unfold replyUpdateUser.
    rewrite Hsub. unfold mbind, M_bind, bind, call. rewrite Hget.
    now destruct gerr.
  - intros s r rec st st' uid lvl user w1 Hsub Hget Hscheme Hcred H.
    unfold replyUpdateUser in H. rewrite Hsub in H.
    unfold mbind, M_bind, bind, call in H. rewrite Hget in H.
    rewrite Hscheme in H. cbn [String.eqb negb] in H.
    destruct (acc_Cred (msg_Acc (msg r))) as [| cr creds] eqn:Hc; [contradiction |].
    cbn [length Nat.ltb Nat.leb] in H.
    destruct (updateCreds (server env) uid lvl (cr :: creds) _) as [res st1 | msg0] eqn:Hu;
      [| discriminate].
    exists res, st1. split; [reflexivity |].
    apply finish_Ok in H as [Hw Hl]. split; [exact Hw |]. split; [exact Hl |].
    unfold credParams. now destruct (snd res).
  - intros s r rec st uid lvl user w1 Hsub Hget Hcase. unfold replyUpdateUser.
    rewrite Hsub. unfold mbind, M_bind, bind, call. rewrite Hget.
    destruct Hcase as [[Hscheme Hcred] | [Hscheme Hnone]].
    + rewrite Hscheme, Hcred. reflexivity.
    + destruct (String.eqb_spec (acc_Scheme (msg_Acc (msg r))) ""); [contradiction |].
      cbn [negb]. unfold updateUserAuth. rewrite Hnone. reflexivity.
  - intros s r rec st uid lvl user w1 w2 w3 authhdl rec' terr Hsub Hget Hscheme Hh Hupd Htags.
    unfold replyUpdateUser. rewrite Hsub.
    unfold mbind, M_bind, bind, call. rewrite Hget.
    destruct (String.eqb_spec (acc_Scheme (msg_Acc (msg r))) ""); [contradiction |].
    cbn [negb]. unfold updateUserAuth. rewrite Hh.
    unfold mbind, M_bind, bind, call. cbn [world log]. rewrite Hupd. cbn [fst snd].
    unfold UsersUpdateTags, mbind, M_bind, bind, call. cbn [world log].
    rewrite Htags. cbn.
    unfold queueOut, emit, mbind, M_bind, bind. cbn [world log].
    now rewrite <- !app_assoc.
Qed.
End AccountUpdateFacts.

(** ** The deletion of an account *)

Section AccountDeleteFacts.
Local Open Scope Z_scope.
Import Effect Store AccountDelete.
Context {W S : Type}.
Variable env : AccountDelete.Env W S.

Lemma run_bind {St A B : Type} (m : M St A) (k : A -> M St B) (st st' : St) (b : B) :
  (m ≫= k) st = Ok b st' ->
  exists (a : A) (st1 : St), m st = Ok a st1 /\ k a st1 = Ok b st'.
Proof.
  unfold mbind, M_bind, bind. destruct (m st) as [a st1 | msg]; [eauto | discriminate].
Qed.

Lemma quiet_nil : quiet (S := S) [].
Proof. repeat split. Qed.

Lemma quiet_app (e1 e2 : list (Event S)) : quiet e1 -> quiet e2 -> quiet (e1 ++ e2).
Proof.
  intros (R1 & S1 & D1) (R2 & S2 & D2). unfold quiet, replies, stops, deleted in *.
  rewrite !flat_map_app, R1, R2, S1, S2, D1, D2. auto.
Qed.

(** A run from [st] to [st'] that made the calls [evs], all quiet. *)
Lemma quietly_trans (st1 st2 st3 : state W S) (e1 e2 : list (Event S)) :
  log st2 = log st1 ++ e1 -> quiet e1 ->
  log st3 = log st2 ++ e2 -> quiet e2 ->
  log st3 = log st1 ++ (e1 ++ e2) /\ quiet (e1 ++ e2).
Proof.
  intros H1 Q1 H2 Q2. split; [now rewrite H2, H1, app_assoc | now apply quiet_app].
Qed.

Lemma call_run {A : Type} (f : W -> A * W) (st st' : state W S) (a : A) :
  call f st = Ok a st' -> f (world st) = (a, world st') /\ log st' = log st.
Proof.
  unfold call. destruct (f (world st)) as [a' w]. intros H. inversion H; subst. auto.
Qed.

Lemma act_run (f : W -> W) (st st' : state W S) (u : unit) :
  act f st = Ok u st' -> world st' = f (world st) /\ log st' = log st.
Proof. unfold act. intros H. inversion H; subst. auto. Qed.

Lemma emit_run (e : Event S) (st st' : state W S) (u : unit) :
  emit e st = Ok u st' -> world st' = world st /\ log st' = log st ++ [e].
Proof. unfold emit. intros H. inversion H; subst. auto. Qed.

Lemma delRecordsLoop_run (uid : Uid.t) (names : list string) :
  forall st st' : state W S,
    delRecordsLoop env names uid st = Ok tt st' ->
    exists evs : list (Event S), log st' = log st ++ evs /\ quiet evs.
Proof.
  induction names as [| name names IH]; intros st st' H.
  - inversion H; subst. exists []. split; [now rewrite app_nil_r | apply quiet_nil].
  - cbn [delRecordsLoop] in H.
    destruct (GetAuthHandler env name) as [del |]; [| discriminate].
    apply run_bind in H as (err & st1 & Hc & H).
    apply run_bind in H as (u & st2 & He & H).
    apply call_run in Hc as [_ Hl1]. apply emit_run in He as [_ Hl2].
    rewrite Hl1 in Hl2. destruct (IH _ _ H) as (evs & Hl & Hq).
    exists ([EvDelRecords name uid err] ++ evs).
    apply (quietly_trans st st2 st'); auto. repeat split.
Qed.

Lemma delRecordsLoop_returns (uid : Uid.t) (names : list string) :
  (forall name : string, In name names -> GetAuthHandler env name <> None) ->
  forall st : state W S, exists st' : state W S,
    delRecordsLoop env names uid st = Ok tt st'.
Proof.
  induction names as [| name names IH]; intros Hreg st.
  - now exists st.
  - cbn [delRecordsLoop].
    destruct (GetAuthHandler env name) as [del |] eqn:Hh.
    2: { exfalso. apply (Hreg name); [now left | exact Hh]. }
    unfold mbind, M_bind, bind, call, emit.
    destruct (del uid (world st)) as [err w].
    apply IH. intros n Hn. apply Hreg. now right.
Qed.

Lemma ownTopicsLoop_run (sid : string) (topics : list string) :
  forall st st' : state W S,
    ownTopicsLoop env topics sid st = Ok tt st' ->
    exists evs : list (Event S), log st' = log st ++ evs /\ quiet evs.
Proof.
  induction topics as [| t topics IH]; intros st st' H.
  - inversion H; subst. exists []. split; [now rewrite app_nil_r | apply quiet_nil].
  - cbn [ownTopicsLoop] in H.
    apply run_bind in H as (r & st1 & Hc & H).
    apply run_bind in H as (u & st2 & He & H).
    apply call_run in Hc as [_ Hl1]. destruct (IH _ _ H) as (evs & Hl & Hq).
    destruct (snd r).
    + inversion He; subst. exists evs. split; [now rewrite Hl, Hl1 | exact Hq].
    + apply emit_run in He as [_ Hl2]. rewrite Hl1 in Hl2.
      exists ([EvSubsOffline t (fst r) "gone" sid] ++ evs).
      apply (quietly_trans st st2 st'); auto. repeat split.
Qed.

Lemma ownTopicsLoop_returns (sid : string) (topics : list string) :
  forall st : state W S, exists st' : state W S,
    ownTopicsLoop env topics sid st = Ok tt st'.
Proof.
  induction topics as [| t topics IH]; intros st.
  - now exists st.
  - cbn [ownTopicsLoop]. unfold mbind, M_bind, bind, call.
    destruct (TopicsGetSubs env t (world st)) as [[subs err] w]. cbn [snd fst].
    destruct err; cbn; apply IH.
Qed.

(** The deletion ends with the one call of [Users.Delete], and its reply
    tells how that went. *)
Lemma deleteUser_run (s : Server.Session) (msg : ClientComMessage) (uid : Uid.t)
      (st st' : state W S) (m : Server.ServerComMessage) :
  deleteUser env s msg uid st = Ok m st' ->
  exists (pre : list (Event S)) (err : option error),
    log st' = log st ++ pre ++ [EvUsersDelete uid (del_Hard (msg_Del msg)) err] /\
    quiet pre /\
    m = match err with
        | Some e => decodeStoreError env (Some e) (msg_id msg) "" (msg_timestamp msg) None
        | None => NoErr env (msg_id msg) "" (msg_timestamp msg)
        end.
Proof.
  unfold deleteUser. intros H.
  apply run_bind in H as (u1 & st1 & H1 & H). destruct u1.
  apply delRecordsLoop_run in H1 as (e1 & Hl1 & Hq1).
  apply run_bind in H as (u2 & st2 & H2 & H). apply act_run in H2 as [_ Hl2].
  apply run_bind in H as (u3 & st3 & H3 & H). apply emit_run in H3 as [_ Hl3].
  apply run_bind in H as (u4 & st4 & H4 & H). apply act_run in H4 as [_ Hl4].
  apply run_bind in H as (u5 & st5 & H5 & H). apply emit_run in H5 as [_ Hl5].
  apply run_bind in H as (r & st6 & H6 & H). apply call_run in H6 as [_ Hl6].
  apply run_bind in H as (u7 & st7 & H7 & H).
  apply run_bind in H as (o & st8 & H8 & H). apply call_run in H8 as [_ Hl8].
  apply run_bind in H as (u9 & st9 & H9 & H). destruct u9.
  apply run_bind in H as (err & st10 & H10 & H). apply call_run in H10 as [_ Hl10].
  apply run_bind in H as (u11 & st11 & H11 & H). apply emit_run in H11 as [_ Hl11].
  assert (Hs7 : exists e7, log st7 = log st6 ++ e7 /\ quiet e7).
  { destruct (snd r).
    - inversion H7; subst. exists []. split; [now rewrite app_nil_r | apply quiet_nil].
    - apply emit_run in H7 as [_ Hl7]. eexists. split; [exact Hl7 | repeat split]. }
  destruct Hs7 as (e7 & Hl7 & Hq7).
  assert (Hs9 : exists e9, log st9 = log st8 ++ e9 /\ quiet e9).
  { destruct (snd o).
    - inversion H9; subst. exists []. split; [now rewrite app_nil_r | apply quiet_nil].
    - now apply ownTopicsLoop_run in H9. }
  destruct Hs9 as (e9 & Hl9 & Hq9).
  exists (e1 ++ [EvEvictUser uid (Server.s_sid s)]
             ++ [EvUnreg uid (del_Hard (msg_Del msg))] ++ e7 ++ e9), err.
  split; [| split].
  - assert (Hst : st' = st11) by (destruct err; inversion H; reflexivity).
    rewrite Hst, Hl11, Hl10, Hl9, Hl8, Hl7, Hl6, Hl5, Hl4, Hl3, Hl2, Hl1.
    now rewrite <- !app_assoc.
  - repeat apply quiet_app; try assumption; repeat split.
  - destruct err; inversion H; reflexivity.
Qed.

Lemma bind_returns {St A B : Type} (m : M St A) (k : A -> M St B) :
  (forall st : St, exists (a : A) (st' : St), m st = Ok a st') ->
  (forall (a : A) (st : St), exists (b : B) (st' : St), k a st = Ok b st') ->
  forall st : St, exists (b : B) (st' : St), (m ≫= k) st = Ok b st'.
Proof.
  intros Hm Hk st. destruct (Hm st) as (a & st1 & H1).
  unfold mbind, M_bind, bind. rewrite H1. apply Hk.
Qed.

Lemma deleteUser_returns (s : Server.Session) (msg : ClientComMessage) (uid : Uid.t) :
  handlersRegistered env ->
  forall st : state W S,
  exists (m : Server.ServerComMessage) (st' : state W S),
    deleteUser env s msg uid st = Ok m st'.
Proof.
  intros Hreg. unfold deleteUser.
  apply bind_returns.
  { intros st. destruct (delRecordsLoop_returns uid (GetAuthNames env) Hreg st) as (st1 & H1).
    eauto. }
  intros _. do 4 (apply bind_returns; [intros st; eexists _, _; reflexivity | intros _]).
  apply bind_returns.
  { intros st. unfold call. destruct (UsersGetSubs env uid (world st)) as [r w]. eauto. }
  intros r. apply bind_returns.
  { intros st. destruct (snd r); eexists _, _; reflexivity. }
  intros _. apply bind_returns.
  { intros st. unfold call. destruct (UsersGetOwnTopics env uid (world st)) as [o w]. eauto. }
  intros o. apply bind_returns.
  { intros st. destruct (snd o); [eexists _, _; reflexivity |].
    destruct (ownTopicsLoop_returns (Server.s_sid s) (fst o) st) as (st' & H'). eauto. }
  intros _. apply bind_returns.
  { intros st. unfold call.
    destruct (UsersDelete env uid (del_Hard (msg_Del msg)) (world st)) as [e w]. eauto. }
  intros err. apply bind_returns; [intros st; eexists _, _; reflexivity |].
  intros _ st. destruct err; eexists _, _; reflexivity.
Qed.

Lemma quiet_replies (evs : list (Event S)) : quiet evs -> replies evs = [].
Proof. now intros (H & _). Qed.

Lemma quiet_stops (evs : list (Event S)) : quiet evs -> stops evs = [].
Proof. now intros (_ & H & _). Qed.

(** X30.  The deletion of an account.  The user deleted is the one of
    the session, or, for a root session only, another one named by a
    valid user id.  A session that is not root and names another user is
    answered with [ErrPermissionDenied] and nothing is done; a session
    without a user is stopped after that answer, the zero Uid being the
    user it is compared with.  A run that returns has queued one message,
    to the session of the request, after everything else; the session is
    stopped after it when its user is the one deleted, whether or not the
    deletion went through.  A refusal leaves the world as it was.
    Otherwise [Users.Delete] is called once, as the last call before the
    reply, and the reply is [NoErr] when it returned no error and its
    error otherwise.  With a handler registered for every authenticator
    named, every run returns. *)
Theorem X30_delete_user_is_answered_once :
  (forall (s : Server.Session) (msg : ClientComMessage) (uid : Uid.t),
      target env s msg = (None, uid) ->
      uid = Server.s_uid s
      \/ (Server.s_authLvl s = auth.LevelRoot /\ uid <> Uid.ZeroUid /\
          uid = Types.ParseUserId (del_User (msg_Del msg))))
  /\ (forall (s : Server.Session) (msg : ClientComMessage) (st : state W S),
         Server.s_authLvl s <> auth.LevelRoot ->
         del_User (msg_Del msg) <> ""%string ->
         del_User (msg_Del msg) <> Uid.UserId (Server.s_uid s) ->
         replyDelUser env s msg st =
           Ok tt {| world := world st;
                    log := log st ++
                      EvQueueOut (Server.s_sid s)
                        (ErrPermissionDenied env (msg_id msg) "" (msg_timestamp msg))
                      :: (if Uid.IsZero (Server.s_uid s)
                          then [EvStop (Server.s_sid s)
                                  (NoErrEvicted env "" "" (msg_timestamp msg))]
                          else []) |})
  /\ (forall (s : Server.Session) (msg : ClientComMessage) (st st' : state W S),
         replyDelUser env s msg st = Ok tt st' ->
         exists (pre : list (Event S)) (m : Server.ServerComMessage),
           log st' = log st ++ pre ++
             EvQueueOut (Server.s_sid s) m
             :: (if Server.s_uid s =? snd (target env s msg)
                 then [EvStop (Server.s_sid s)
                         (NoErrEvicted env "" "" (msg_timestamp msg))]
                 else []) /\
           replies pre = [] /\ stops pre = [] /\
           match fst (target env s msg) with
           | Some refusal => pre = [] /\ m = refusal /\ world st' = world st
           | None =>
               exists (pre' : list (Event S)) (err : option error),
                 pre = pre' ++ [EvUsersDelete (snd (target env s msg))
                                  (del_Hard (msg_Del msg)) err] /\
                 quiet pre' /\
                 m = match err with
                     | Some e => decodeStoreError env (Some e) (msg_id msg) ""
                                   (msg_timestamp msg) None
                     | None => NoErr env (msg_id msg) "" (msg_timestamp msg)
                     end
           end)
  /\ (handlersRegistered env ->
      forall (s : Server.Session) (msg : ClientComMessage) (st : state W S),
      exists st' : state W S, replyDelUser env s msg st = Ok tt st').
Proof.
  split; [| split; [| split]].
  - intros s msg uid H. unfold target in H.
    destruct (String.eqb (del_User (msg_Del msg)) "" ||
              String.eqb (del_User (msg_Del msg)) (Uid.UserId (Server.s_uid s))).
    { inversion H. now left. }
    destruct (bool_decide_reflect (Server.s_authLvl s = auth.LevelRoot)) as [Hr | Hr];
      [| discriminate].
    destruct (Uid.IsZero (Types.ParseUserId (del_User (msg_Del msg)))) eqn:Hz;
      [discriminate |].
    inversion H; subst. right. split; [exact Hr |]. split; [| reflexivity].
    now apply Z.eqb_neq in Hz.
  - intros s msg st Hroot Hne Hother. unfold replyDelUser, target.
    destruct (String.eqb_spec (del_User (msg_Del msg)) ""); [contradiction |].
    destruct (String.eqb_spec (del_User (msg_Del msg)) (Uid.UserId (Server.s_uid s)));
      [contradiction |].
    destruct (bool_decide_reflect (Server.s_authLvl s = auth.LevelRoot)); [contradiction |].
    cbn [orb]. unfold mbind, M_bind, bind, emit, mret, M_ret, ret. cbn [world log].
    unfold Uid.IsZero, Uid.ZeroUid.
    destruct (Server.s_uid s =? 0); cbn [world log];
      [now rewrite <- app_assoc | reflexivity].
  - intros s msg st st' H. unfold replyDelUser in H.
    destruct (target env s msg) as [refusal uid]. cbn [fst snd].
    apply run_bind in H as (reply & st1 & Hr & H).
    apply run_bind in H as (u & st2 & He & H).
    apply emit_run in He as [Hw2 Hl2].
    assert (Hend : world st' = world st2 /\
                   log st' = log st2 ++
                     (if Server.s_uid s =? uid
                      then [EvStop (Server.s_sid s)
                              (NoErrEvicted env "" "" (msg_timestamp msg))]
                      else [])).
    { destruct (Server.s_uid s =? uid).
      - now apply emit_run in H.
      - inversion H; subst. now rewrite app_nil_r. }
    destruct Hend as [Hw Hl].
    destruct refusal as [refusal |].
    + inversion Hr; subst. exists [], reply. cbn [app].
      split; [now rewrite Hl, Hl2, <- app_assoc |].
      repeat split. congruence.
    + apply deleteUser_run in Hr as (pre & err & Hl1 & Hq & Hm).
      exists (pre ++ [EvUsersDelete uid (del_Hard (msg_Del msg)) err]), reply.
      split; [now rewrite Hl, Hl2, Hl1, <- !app_assoc |].
      split.
      { unfold replies. rewrite flat_map_app. fold (replies pre).
        now rewrite (quiet_replies pre Hq). }
      split.
      { unfold stops. rewrite flat_map_app. fold (stops pre).
        now rewrite (quiet_stops pre Hq). }
      exists pre, err. auto.
  - intros Hreg s msg st.
    enough (Hrun : exists (u : unit) (st' : state W S),
               replyDelUser env s msg st = Ok u st').
    { destruct Hrun as ([] & st' & Hrun). eauto. }
    revert st. unfold replyDelUser.
    destruct (target env s msg) as [refusal uid].
    apply bind_returns.
    + destruct refusal as [reply |]; [intros st; eexists _, _; reflexivity |].
      now apply deleteUser_returns.
    + intros reply. apply bind_returns; [intros st; eexists _, _; reflexivity |].
      intros _ st. destruct (Server.s_uid s =? uid); eexists _, _; reflexivity.
Qed.
End AccountDeleteFacts.

(** ** The facts above at concrete requests *)

Section MoreRuns.
Local Open Scope Z_scope.
Import Effect Store.

(** Either order of the two users of the P2P topic is one in which its
    map may be read. *)
Lemma p2pTopic_order (a b : Uid.t) :
  a <> b -> (forall u : Uid.t, u = a \/ u = b <-> u = 1 \/ u = 2) ->
  UsersQueue.rangeOrder [a; b] Examples.p2pTopic.
Proof.
  intros Hab Hu. unfold UsersQueue.rangeOrder. apply NoDup_Permutation.
  - apply NoDup_cons_2.
    + intros Hin. apply list_elem_of_singleton in Hin. contradiction.
    + apply NoDup_cons_2; [apply not_elem_of_nil | apply NoDup_nil_2].
  - apply NoDup_elements.
  - intros u. rewrite elem_of_elements.
    cbn [Examples.p2pTopic Calls.perUser].
    rewrite elem_of_union, !elem_of_singleton, elem_of_cons, list_elem_of_singleton.
    apply Hu.
Qed.

Lemma X24_create_user_replies_once_witness :
  exists (evs : list Server.Event) (m : Server.ServerComMessage),
    Server.log (Examples.stateOf Examples.createWithoutCredential Examples.serverStart)
      = Server.log Examples.serverStart ++ evs /\
    AccountLog.replies evs = [("sid1"%string, m)] /\
    ((evs = [Server.EvQueueOut "sid1" m] /\ AccountLog.created evs = []) \/
     (exists (user : User) (private : option Blob)
             (err : option error) (rest : list Server.Event),
         evs = Server.EvUsersCreate user private err :: rest /\
         AccountLog.created evs = [user] /\
         AccountLog.replies rest = [("sid1"%string, m)])).
Proof.
  apply (X24_create_user_replies_once (Examples.memEnv None None ["tel"%string])
           Examples.aliceSession (Examples.accMsg []) None Examples.serverStart).
  vm_compute. reflexivity.
Defined.

Lemma X25_default_access_is_cut_to_p2p_witness :
  AccessFlags.IsApprover (Server.assignAccess AccessMode.ModeNone "JRWPSDO") = true.
Proof.
  destruct (X25_default_access_is_cut_to_p2p AccessMode.ModeNone "JRWPSDO")
    as (_ & _ & Happ & _).
  apply Happ. vm_compute. discriminate.
Defined.

Lemma X26_addCreds_reports_answered_methods_witness :
  exists st' : Server.state Examples.MemWorld,
    Server.addCreds (Examples.memEnv None None ["tel"%string]) 1
      [Examples.telClientCred "123456"; Examples.telClientCred ""] ["alice"%string]
      "en" [] Examples.serverStart
      = Ok (["tel"%string], None) st' /\
    Server.log st'
    = [Server.EvRequest "tel" 1 "+15550100" "en" "123456" [] None;
       Server.EvRequest "tel" 1 "+15550100" "en" "" [] None;
       Server.EvUsersUpdateTags 1 [] [] ["alice"; "tel:+15550100"]%string None].
Proof.
  eexists. split; [vm_compute; reflexivity |].
  match goal with
  | |- Server.log ?s = _ =>
      destruct (proj1 (proj2 (X26_addCreds_reports_answered_methods
                                (Examples.memEnv None None ["tel"%string])))
                  1 [Examples.telClientCred "123456"; Examples.telClientCred ""]
                  ["alice"%string] "en"%string []
                  Examples.serverStart s ["tel"%string])
        as (_ & Hlog)
  end.
  - vm_compute. reflexivity.
  - rewrite Hlog. vm_compute. reflexivity.
Defined.

Lemma X27_cache_updates_are_sent_without_waiting_witness :
  UserCache.userUpdater Examples.memUsers
    (UsersQueue.waiting
       (UsersQueue.usersRegisterTopic [2; 1] (Some Examples.p2pTopic) 1 false
          (UsersQueue.usersRegisterTopic [1; 2] (Some Examples.p2pTopic) 1 true
             (snd UsersQueue.usersInit))))
    Examples.cacheStart
  = Ok tt Examples.cacheStart.
Proof.
  destruct X27_cache_updates_are_sent_without_waiting as (_ & _ & _ & _ & _ & Hrun).
  apply (Hrun Examples.MemWorld Examples.memUsers [1; 2] [2; 1] Examples.p2pTopic 1
           Examples.cacheStart).
  - intros Hempty. apply (f_equal size) in Hempty. vm_compute in Hempty. discriminate.
  - apply p2pTopic_order; [discriminate | intros u; tauto].
  - apply p2pTopic_order; [discriminate | intros u; tauto].
  - exact cacheStart_inv.
  - apply cacheStart_below. vm_compute. split; discriminate.
Defined.
End MoreRuns.

(** ** Updates and deletions on the in-memory store *)

Section AccountRuns.
Local Open Scope Z_scope.
Import Effect Store Examples AccountSamples.

(** User 1 asks to change the secret of user 2 and is refused; with its
    token, an unauthenticated session updates the account of user 1. *)
Lemma X28_update_user_is_for_the_requester_or_root_witness :
  (exists m : Server.ServerComMessage,
      AccountUpdate.replyUpdateUser (updEnv ["tel"%string]) ownSession
        (updMsg (Uid.UserId 2) "basic" []) None homeStart =
        Ok tt {| Server.world := homeWorld;
                 Server.log := [Server.EvQueueOut "sid1" m] |} /\
      (m = reply 403 "permission denied" "2" "" 0 None \/
       m = reply 400 "malformed" "2" "" 0 None))
  /\ (1 = auth.Uid tokenRec /\ auth.LevelAuth = auth.AuthLevel tokenRec).
Proof.
  destruct (X28_update_user_is_for_the_requester_or_root (updEnv ["tel"%string]))
    as (Hrefuse & _ & Hsubject).
  split.
  - apply (Hrefuse ownSession (updMsg (Uid.UserId 2) "basic" []) None homeStart).
    + discriminate.
    + vm_compute. reflexivity.
  - destruct (Hsubject aliceSession (tokenMsg "basic") (Some tokenRec) 1 auth.LevelAuth)
      as (_ & _ & _ & _ & _ & Htoken).
    + vm_compute. reflexivity.
    + apply (Htoken tokenRec); [reflexivity | | discriminate].
      unfold Uid.uid_range. cbn. lia.
Defined.

(** Where no credential is required [updateCreds] returns
    [ErrUnsupported], and the update is answered with a success. *)
Lemma X29_update_user_replies_once_witness :
  let r := updMsg "" "" [telClientCred "123456"] in
  let st' := stateOf (AccountUpdate.replyUpdateUser (updEnv []) ownSession r None homeStart)
               homeStart in
  Server.updateCreds (memEnv None None []) 1 auth.LevelAuth [telClientCred "123456"]
    homeStart = Ok ([], Some (StoreErr ErrUnsupported)) homeStart
  /\ Server.log st' = [Server.EvQueueOut "sid1" (reply 200 "ok" "2" "" 0 None);
                       Server.EvPluginAccount aliceUser Server.plgActUpd]
  /\ (exists (evs : list Server.Event) (m : Server.ServerComMessage),
         Server.log st' = Server.log homeStart ++ evs /\
         AccountLog.replies evs = [("sid1"%string, m)])
  /\ (exists (res : list string * option error) (st1 : Server.state MemWorld),
         Server.updateCreds (memEnv None None []) 1 auth.LevelAuth
           [telClientCred "123456"] homeStart = Ok res st1 /\
         Server.world st' = Server.world st1 /\
         Server.log st' = Server.log st1 ++
           [Server.EvQueueOut "sid1"
              (reply 200 "ok" "2" "" 0 (AccountUpdate.credParams (updEnv []) auth.LevelAuth res));
            Server.EvPluginAccount aliceUser Server.plgActUpd] /\
         (snd res <> None ->
          AccountUpdate.credParams (updEnv []) auth.LevelAuth res = None)).
Proof.
  intros r st'.
  destruct (X29_update_user_replies_once (updEnv [])) as (Hone & _ & Hcred & _).
  split; [vm_compute; reflexivity |].
  split; [vm_compute; reflexivity |].
  split.
  - apply (Hone ownSession r None homeStart st'). vm_compute. reflexivity.
  - apply (Hcred ownSession r None homeStart st' 1 auth.LevelAuth aliceUser homeWorld).
    + vm_compute. reflexivity.
    + vm_compute. reflexivity.
    + reflexivity.
    + discriminate.
    + vm_compute. reflexivity.
Defined.

(** User 1 asks to delete the account of user 2 and is refused; it
    deletes its own, the store fails, and the session is stopped all the
    same. *)
Lemma X30_delete_user_is_answered_once_witness :
  AccountDelete.replyDelUser (delEnv None) ownSession (delMsg (Uid.UserId 2)) delStart =
    Ok tt {| AccountDelete.world := homeWorld;
             AccountDelete.log :=
               [AccountDelete.EvQueueOut "sid1"
                  (reply 403 "permission denied" "3" "" 0 None)] |}
  /\ (let st' := stateOf (AccountDelete.replyDelUser (delEnv (Some (StoreErr ErrInternal)))
                            ownSession (delMsg "") delStart) delStart in
      exists (pre : list (AccountDelete.Event Uid.t)) (m : Server.ServerComMessage),
        AccountDelete.log st' =
          pre ++ [AccountDelete.EvQueueOut "sid1" m;
                  AccountDelete.EvStop "sid1" (reply 205 "evicted" "" "" 0 None)] /\
        AccountDelete.replies pre = [] /\ AccountDelete.stops pre = [] /\
        exists (pre' : list (AccountDelete.Event Uid.t)) (err : option error),
          pre = pre' ++ [AccountDelete.EvUsersDelete 1 true err] /\
          AccountDelete.quiet pre' /\
          m = match err with
              | Some e => reply 500 (errText (Some e)) "3" "" 0 None
              | None => reply 200 "ok" "3" "" 0 None
              end)
  /\ (exists st' : AccountDelete.state MemWorld Uid.t,
         AccountDelete.replyDelUser (delEnv None) ownSession (delMsg "") delStart
           = Ok tt st').
Proof.
  destruct (X30_delete_user_is_answered_once (delEnv (Some (StoreErr ErrInternal))))
    as (_ & _ & Hrun & _).
  destruct (X30_delete_user_is_answered_once (delEnv None)) as (_ & Hrefuse & _ & Hret).
  split; [| split].
  - apply (Hrefuse ownSession (delMsg (Uid.UserId 2)) delStart).
    + discriminate.
    + vm_compute. discriminate.
    + vm_compute. discriminate.
  - intros st'.
    apply (Hrun ownSession (delMsg "") delStart st'). vm_compute. reflexivity.
  - apply Hret. intros name [<- | []]. vm_compute. discriminate.
Defined.
End AccountRuns.
